(* ===== verification/_CoqProject ===== *)
-Q . S2P
Prelude.v
Common.v
Avl.v
AvlDestroy.v
RangeLock.v
RangeLockInv.v
RangeLockOps.v
RangeLockSafe.v
RangeMutex.v
Errors.v
Wire.v
Api.v
Listener.v
Client.v
ThreadPool.v
Mdds.v
FuseBuf.v
Segment.v
PosixFile.v
Dram.v
NvmlFile.v
NvmlSpec.v
NvmlStore.v
NvmlDestroy.v
FileConc.v
Parsers.v
Options.v
Settings.v
Namespace.v
NamespaceSpec.v
NamespaceLoad.v
NamespaceLocks.v
DevdaxPool.v
Fuse.v
FuseSpec.v
NvmlFuse.v
NvmlUnload.v
Lifecycle.v
DevdaxFile.v
MountHelper.v
Startup.v
Daemon.v
