(* ===== verification/Prelude.v ===== *)
(** * EchoFS NG: a verification development

    EchoFS is a file system in user space that keeps its files in DRAM or in persistent memory.
    A daemon mounts it with FUSE; users ask the daemon through a client library and a UNIX
    socket to load files into a backend or to report on such a task.

    ** The program and its parts

    The daemon reads its settings from the command line and a configuration file
    (src/settings), makes the backends and loads the resources they name (src/context.cpp,
    src/backends/backend-base.cpp), starts the listener for API requests (src/api) and a thread
    pool for the loads (src/thread-pool.h), and serves the requests of the kernel
    (src/efs-ng.cpp). A handler looks a path up in the name space of the first backend
    (src/backends/nvram-nvml/nvram-nvml.cpp, dir.cpp) or calls the file behind an open handle
    (file.cpp). A file is a tree of segments (segment.cpp) in a flat segment tree (src/mdds); an
    operation locks its byte range (src/range_lock.cpp), whose manager keeps the ranges in an
    AVL tree (src/avl.hpp), and copies between segments and the buffers of FUSE
    (fuse_buf_copy_pmem.cpp). The device DAX backend has the same name space and files, and an
    allocator of its own (src/backends/nvram-devdax/segment.cpp). At the end of the daemon the
    persistent files are copied to the results directory.

    ** The files of the development

    Each file has a module of its name. Definitions carry the names of the code.

    - [Prelude]: integers of 32 and 64 bits, the tactics and hints, the lemmas shared by all.
    - [Common]: src/efs-common.h, alignment and logarithms.
    - [Avl]: src/avl.hpp. A tree with the addresses of its nodes; parent pointers are a zipper.
      [AvlDestroy]: its destructor.
    - [RangeLock]: src/range_lock.{h,cpp}, a state and error monad over the allocated ranges,
      against an interface (a class) of an ordered tree, which [Avl] implements.
      [RangeLockInv], [RangeLockOps]: what the routines do. [RangeLockSafe]: threads as a step
      relation over critical sections. [RangeMutex]: the class through which files use it.
    - [Errors], [Wire], [Api], [Client]: src/errors.cpp, lib/errors.c, lib/communication.c,
      src/api, src/context.cpp (api_handler), lib/efs-api.c and lib/requests.c. A connection is
      a script of the transfers that read and write will make; protobuf is a class.
      [Listener]: the thread that accepts connections and serves their sessions, interleaved
      with the clients and the workers, as a step relation.
    - [ThreadPool]: src/thread-pool.h and its queue, a step relation.
    - [Mdds]: src/mdds, the chain of leaves and the search tree over it.
    - [FuseBuf]: fuse_buf_copy_pmem.cpp over a memory and a class of system calls.
    - [Segment], [NvmlFile], [NvmlSpec]: segment.cpp and file.cpp of nvram-nvml; libpmem is a
      class. [NvmlFile] uses pools through the class [Segment.Storage] and its laws.
      [NvmlSpec] relates a file to its contents, [NvmlStore] the files of one memory to theirs.
      [NvmlDestroy]: the destructors of a file, its segments and its pools.
      [FileConc]: calls on one file that run concurrently, as a step relation over the mutexes
      and single bytes.
    - [PosixFile]: src/backends/posix-file.cpp, the owner of a file descriptor. [Dram]:
      src/backends/dram, mappings as resources, and the stubs of the backend.
    - [Parsers], [Options], [Settings]: src/settings; the YAML library is a class.
    - [Namespace]: nvram-nvml.cpp and dir.cpp. [NamespaceSpec]: the tree it stands for.
      [NamespaceLoad]: loading. [NamespaceLocks]: the order of the two mutexes.
    - [DevdaxPool]: the allocator of nvram-devdax/segment.cpp.
    - [Fuse]: every handler of src/efs-ng.cpp, src/metadata/files.cpp and
      src/usr-credentials.h. [FuseSpec]: the abstract file system. [NvmlFuse]: the handlers, the
      name space and the files together.
    - [NvmlUnload]: unload of the backend and of a file, mkdir_p; the host is a class.
      [Lifecycle]: load with the contents of the files, and the steps of the daemon together.
    - [DevdaxFile]: the files and the name space of nvram-devdax, the code of [NvmlFile] over
      the storage of [DevdaxPool].
    - [Startup]: backend-base.cpp, the backends and the imports of context::initialize.
      [Daemon]: main, efsng_init and context::initialize as a whole, and efsng_destroy with
      context::teardown as steps among those of the listener's thread and the workers.
    - [MountHelper]: src/fuse-mount-helper.cpp, the mounter that main does not use any more.

    ** What the theorems show

    - Locks: two overlapping locks are never held unless both are for reading; a lock is granted
      or waits for a lock that conflicts, and only a reader that was woken can find the tree
      empty and crash ([lock_range_exact]); unlocking passes every assertion; no wake-up is lost.
      However it was made, the tree of ranges is ordered, balanced and of logarithmic height; its
      destructor deletes every node once.
    - The whole: for the requests of [NvmlFuse.pkernel] the running daemon is a POSIX file system
      on a tree of files with their bytes, also while files are imported and change their type
      ([daemon_posix]), over NVML pools and, without extensions of files by zeros, over a device
      until its allocator starts over ([devdax_fuse_posix]); its states stay well formed, also
      when files are destroyed ([daemon_well_formed], [destructor_reclaims]); what was written is
      read ([write_then_read]); an open file outlives its name ([open_file_survives]).
      [pkernel] leaves out what the code does otherwise: symbolic links, the renaming of
      directories and of a file to itself, truncation by path or to a smaller size, the times of
      directories, and data that starts behind the end of file.
    - The end: the teardown, as steps among those of the other threads, is never blocked for good
      and leaves neither the listener's thread nor a worker nor the socket ([daemon_stops]); and
      on a host that is in order, with a results directory whose name ends with a slash, the
      persistent files are on the host ([daemon_saves], [unload_complete]), with the bytes of
      their sources if nobody wrote to them ([import_unload_roundtrip]).
    - Files: calls on one file that run concurrently are linearizable, up to the crash of a woken
      reader ([file_linearizable]); reading and writing are POSIX pread and pwrite on the
      contents, within and right behind the allocated part; a loaded file has the bytes of its
      source; copying between vectors of buffers moves exactly the bytes it should, for every
      kernel.
    - The name space is a tree: every operation that [NamespaceSpec.allowed] admits keeps the
      invariant of the two tables and changes the tree as specified, with the code's return
      values; loading adds a file and the missing directories. Operations that take the files'
      mutex first never block each other.
    - The file system: for the requests of [FuseSpec.kernel], with any offsets and buffers, the
      handlers implement an abstract file system with a tree, objects and open handles, or crash
      exactly when the operation of the file that they call does not return ([fuse_refines]).
      The proofs use the name space through its refinement and the data of files through the
      class [FileData].
    - The allocator: the whole device segments of blocks never overlap, blocks lie in the mapping
      and are not lost, and are found when there is room for one segment more in front of the
      last one.
    - API: frames survive any splitting of the transfers; a request of the client library ends
      as the task it describes in the daemon, unless an allocator without spare bytes makes the
      copy of a string overflow, and a status request as the status of the task;
      tasks go through their states once; the pool runs tasks in order and stops. Sessions that
      interleave answer as sessions that run one at a time ([listener_serializes]), and a request
      of less than 2 GiB that has arrived is answered whatever the others wait for
      ([listener_answers]).
    - Resources: a source file closes its descriptor and no other; mappings of memory that are
      moved, and not copied, are released exactly once ([posix_file_raii], [mappings_released]).
    - Settings and start: what a configuration file makes of every member of the settings, the
      backends and resources among them ([load_settings]), what an erroneous one leaves, which
      backends and loads the start makes of them.
    - Where the code departs from what it promises, a theorem shows an input: among others
      writes behind holes ([nvml_sparse_write_loses_data]), renaming of directories
      ([rename_directory_breaks_tree]), two orders of locking ([chmod_create_deadlock]), blocks
      smaller than a segment ([small_blocks_are_shared], [devdax_starts_over]), a results directory
      without a slash ([unload_beside]), symbolic links
      ([symlink_hides_target]), credentials ([credentials_not_restored]).

    ** Conventions, bounds and fuel

    Integers are [Z]; [u32], [u64], [s32] and [s64] are the conversions of the language, written
    where a value can leave its type. Maps and sets are stdpp's [gmap] and [gset]; objects that
    are shared are keys of a heap. Results distinguish values, exceptions and faults (a failed
    assertion, an invalid pointer, undefined behaviour); the theorems about a component say which
    inputs reach which.
    Recursion on fuel follows loops of the code. The loops over a tree of ranges get its size, the
    copy loops the number of bytes or of buffers, the lookup of a file three times its number of
    leaves, the construction of the search tree the number of leaves, the search of the allocator
    the number of segments; the theorems show that a result is reached within it. The loops over
    a socket or a source file run as long as the other side lets them: their fuel is a parameter,
    and the theorems state how much is enough.

    ** Not modelled

    The vendored spdlog and the logger around it, the usage text, the debug printers: they
    neither keep nor change state of the file system. Directory records (src/metadata/dirs.cpp),
    which no part of the program uses any more. libfuse, protobuf, the
    YAML parser, libpmem and the system calls are classes or parameters with their documented
    behaviour. In the sequential model of files the shared mutexes are left out; [FileConc] has
    them. The imports of the start run one after the other or as the parameter of [Daemon] says,
    not interleaved within a file. The unloading at the end is one step of the teardown. The
    destructor of a lock's handle is not part of the concurrent runs of [FileConc]. Of the flat
    segment tree, shifting and copying are not used by the program. *)
From Stdlib Require Import ZArith Lia.
From stdpp Require Import base list numbers option.

Declare Scope efs_scope.
Delimit Scope efs_scope with efs.
#[global] Open Scope Z_scope.
(** [set_solver] and [naive_solver] clear hypotheses twice. *)
#[export] Set Warnings "-clear-no-such-hyp".

(** ** Machine integers

    [size_t], [uint64_t] and [uintptr_t] are 64-bit unsigned, [off_t] and
    [ssize_t] are 64-bit two's complement, [uint32_t] and [int] have 32 bits.
    A value of such a type is a [Z] and every conversion or arithmetic
    operation that can leave the range is followed by the wrap of its type. *)
Definition u64 (z : Z) : Z := z mod 2 ^ 64.
Definition s64 (z : Z) : Z := (z + 2 ^ 63) mod 2 ^ 64 - 2 ^ 63.
Definition u32 (z : Z) : Z := z mod 2 ^ 32.
Definition s32 (z : Z) : Z := (z + 2 ^ 31) mod 2 ^ 32 - 2 ^ 31.

Definition is_u64 (z : Z) : Prop := 0 <= z < 2 ^ 64.
Definition is_off (z : Z) : Prop := 0 <= z < 2 ^ 63.

(** A decidable statement about concrete data, by evaluating it. *)
Ltac by_evaluation := refine (bool_decide_unpack _ _); vm_compute; exact I.

Create HintDb efs.
Create Rewrite HintDb efs.

Lemma u64_range z : 0 <= u64 z < 2 ^ 64.
Proof. apply Z.mod_pos_bound. lia. Qed.
Lemma u32_range z : 0 <= u32 z < 2 ^ 32.
Proof. apply Z.mod_pos_bound. lia. Qed.
Lemma u64_small z : 0 <= z < 2 ^ 64 -> u64 z = z.
Proof. apply Z.mod_small. Qed.
Lemma u32_small z : 0 <= z < 2 ^ 32 -> u32 z = z.
Proof. apply Z.mod_small. Qed.
Lemma s64_small z : - 2 ^ 63 <= z < 2 ^ 63 -> s64 z = z.
Proof. intros. unfold s64. rewrite Z.mod_small; lia. Qed.
Lemma s32_small z : - 2 ^ 31 <= z < 2 ^ 31 -> s32 z = z.
Proof. intros. unfold s32. rewrite Z.mod_small; lia. Qed.
Lemma s64_range z : - 2 ^ 63 <= s64 z < 2 ^ 63.
Proof. unfold s64. pose proof (Z.mod_pos_bound (z + 2 ^ 63) (2 ^ 64)). lia. Qed.

#[export] Hint Resolve u64_range u32_range s64_range : efs.
#[export] Hint Rewrite u64_small s64_small u32_small s32_small using lia : efs.

(** An unsigned value reinterpreted as signed and back is unchanged. *)
Lemma u32_s32 z : u32 (s32 z) = u32 z.
Proof.
  unfold u32, s32.
  rewrite Zminus_mod_idemp_l. f_equal. lia.
Qed.

Lemma s32_u32 z : s32 (u32 z) = s32 z.
Proof.
  unfold u32, s32. rewrite Zplus_mod_idemp_l. reflexivity.
Qed.

(** [(x > y) - (x < y)], the usual three-way comparison of C++ code. *)
Definition int_compare (x y : Z) : Z := Z.b2z (x >? y) - Z.b2z (x <? y).

Lemma int_compare_sgn x y : int_compare x y = Z.sgn (x - y).
Proof.
  unfold int_compare. rewrite Z.gtb_ltb.
  destruct (Z.ltb_spec y x), (Z.ltb_spec x y); simpl; lia.
Qed.
#[global] Arguments int_compare : simpl never.

(** The list around a position. *)
Lemma drop_split {X} i (l : list X) x l2 : drop i l = x :: l2 -> l = take i l ++ x :: l2.
Proof. intros E. by rewrite <- E, take_drop. Qed.
