(* ===== verification/Common.v ===== *)
(** * Block arithmetic of src/efs-common.h

    [log2], [align], [xalign] and [block_count], on 64-bit words. *)
From S2P Require Import Prelude.
From Stdlib Require Import ZArith Lia List.
Import ListNotations.
Local Open Scope Z_scope.

Module Common.

(** The De Bruijn table of [log2] (efs-common.h). *)
Definition log2_table : list Z :=
  [ 0; 58; 1; 59; 47; 53; 2; 60; 39; 48; 27; 54; 33; 42; 3; 61;
    51; 37; 40; 49; 18; 28; 20; 55; 30; 34; 11; 43; 14; 22; 4; 62;
    57; 46; 52; 38; 26; 32; 41; 50; 36; 17; 19; 29; 10; 13; 21; 56;
    45; 25; 31; 35; 16; 9; 12; 44; 24; 15; 8; 23; 7; 6; 5; 63 ].

(** [n |= n >> s] on a 64-bit word. *)
Definition smear (s n : Z) : Z := Z.lor n (Z.shiftr n s).

(** [int log2(uint64_t n)]: [None] is the failed [assert(n > 0)]; the multiplication
    wraps at 64 bits and the table is indexed by its six top bits. *)
Definition log2 (n : Z) : option Z :=
  if n <=? 0 then None
  else
    let n := smear 1 n in
    let n := smear 2 n in
    let n := smear 4 n in
    let n := smear 8 n in
    let n := smear 16 n in
    let n := smear 32 n in
    nth_error log2_table (Z.to_nat (Z.shiftr (u64 (n * 0x03f6eaf2cd271461)) 58)).

(** [off_t align(off_t n, size_t block_size)]: [n & ~(block_size - 1)], computed in
    [size_t] and converted back to [off_t]. *)
Definition align (n block_size : Z) : Z :=
  s64 (Z.land (u64 n) (u64 (Z.lnot (u64 (block_size - 1))))).

(** [off_t xalign(off_t n, size_t block_size)]: the sum is computed in [size_t] and
    converted to the [off_t] parameter of [align]. *)
Definition xalign (n block_size : Z) : Z :=
  align (s64 (u64 (n + block_size))) block_size.

(** [int block_count(off_t n, size_t sz, size_t block_size)] *)
Definition block_count (n sz block_size : Z) : option Z :=
  let block_start := align n block_size in
  let block_end := align (s64 (u64 (n + sz - 1))) block_size in
  match log2 block_size with
  | Some k => Some (s32 (Z.shiftr block_end k - Z.shiftr block_start k + 1))
  | None => None
  end.

(** ** [log2] is the integer logarithm *)

(** The [w] topmost bits of [n], below and including bit [k], are set. *)
Definition smeared (k w n : Z) : Prop :=
  0 <= n < 2 ^ (k + 1) /\
  forall i, 0 <= i -> k - w < i <= k -> Z.testbit n i = true.

Lemma testbit_high n m i : 0 <= n < 2 ^ m -> 0 <= m <= i -> Z.testbit n i = false.
Proof.
  intros Hn Hm. destruct (Z.eq_dec n 0) as [-> | Hz]; [apply Z.bits_0 |].
  apply Z.bits_above_log2; [lia |].
  apply Z.log2_lt_pow2; [lia |].
  apply Z.lt_le_trans with (2 ^ m); [lia | apply Z.pow_le_mono_r; lia].
Qed.

Lemma lor_bound a b m : 0 <= m -> 0 <= a < 2 ^ m -> 0 <= b < 2 ^ m -> 0 <= Z.lor a b < 2 ^ m.
Proof.
  intros Hm Ha Hb.
  assert (0 <= Z.lor a b) by (apply Z.lor_nonneg; lia). split; [assumption |].
  destruct (Z.eq_dec (Z.lor a b) 0); [lia |].
  apply Z.log2_lt_pow2; [lia |].
  rewrite Z.log2_lor by lia.
  assert (Hlog : forall x, 0 <= x < 2 ^ m -> Z.log2 x < m \/ x = 0).
  { intros x Hx. destruct (Z.eq_dec x 0); [right; assumption |].
    left. apply Z.log2_lt_pow2; lia. }
  pose proof (Z.log2_nonneg a). pose proof (Z.log2_nonneg b).
  destruct (Hlog a Ha) as [Ha' | Ha'], (Hlog b Hb) as [Hb' | Hb'];
    rewrite ?Ha', ?Hb' in *; rewrite ?Z.lor_0_r in *;
    change (Z.log2 0) with 0 in *; lia.
Qed.

Lemma smear_step k w n : 0 <= k -> 0 < w -> smeared k w n -> smeared k (2 * w) (smear w n).
Proof.
  intros Hk Hw [Hn Hb]. unfold smear. split.
  - apply lor_bound; [lia | lia |].
    rewrite Z.shiftr_div_pow2 by lia. split.
    + apply Z.div_pos; [lia | apply Z.pow_pos_nonneg; lia].
    + apply Z.le_lt_trans with n; [| lia].
      apply Z.div_le_upper_bound; [apply Z.pow_pos_nonneg; lia |].
      pose proof (Z.pow_pos_nonneg 2 w). nia.
  - intros i Hi Hr. rewrite Z.lor_spec, Z.shiftr_spec by lia.
    destruct (Z_lt_dec (k - w) i) as [H | H].
    + rewrite Hb by lia. reflexivity.
    + rewrite (Hb (i + w)) by lia. apply Bool.orb_true_r.
Qed.

Lemma smeared_init n : 0 < n -> smeared (Z.log2 n) 1 n.
Proof.
  intros Hn. pose proof (Z.log2_spec n Hn) as [_ Hu]. split; [lia |].
  intros i Hi Hr. replace i with (Z.log2 n) by lia. apply Z.bit_log2. lia.
Qed.

Lemma smeared_full k w n : 0 <= k < w -> smeared k w n -> n = Z.ones (k + 1).
Proof.
  intros Hk [Hn Hb]. apply Z.bits_inj'. intros i Hi.
  destruct (Z_le_dec i k) as [H | H].
  - rewrite Hb, Z.ones_spec_low by lia. reflexivity.
  - rewrite Z.ones_spec_high by lia. apply (testbit_high n (k + 1)); lia.
Qed.

Definition log2_table_entry (k : Z) : bool :=
  match nth_error log2_table
    (Z.to_nat (Z.shiftr (u64 (Z.ones (k + 1) * 0x03f6eaf2cd271461)) 58)) with
  | Some v => v =? k
  | None => false
  end.

Lemma log2_table_ok k : 0 <= k < 64 ->
  nth_error log2_table
    (Z.to_nat (Z.shiftr (u64 (Z.ones (k + 1) * 0x03f6eaf2cd271461)) 58)) = Some k.
Proof.
  intros Hk.
  assert (Hall : forallb log2_table_entry (map Z.of_nat (seq 0 64)) = true)
    by (vm_compute; reflexivity).
  rewrite forallb_forall in Hall.
  assert (Hin : In k (map Z.of_nat (seq 0 64))).
  { apply in_map_iff. exists (Z.to_nat k). rewrite in_seq. lia. }
  specialize (Hall k Hin). unfold log2_table_entry in Hall.
  destruct (nth_error _ _) as [v |]; [| discriminate].
  apply Z.eqb_eq in Hall. subst. reflexivity.
Qed.

Lemma log2_is_log2 n : 0 < n < 2 ^ 64 -> log2 n = Some (Z.log2 n).
Proof.
  intros Hn. unfold log2. destruct (Z.leb_spec n 0); [lia |].
  assert (Hk : 0 <= Z.log2 n < 64).
  { split; [apply Z.log2_nonneg | apply Z.log2_lt_pow2; lia]. }
  pose proof (smeared_init n ltac:(lia)) as H1.
  apply smear_step in H1; [| lia | lia].
  apply (smear_step _ 2) in H1; [| lia | lia].
  apply (smear_step _ 4) in H1; [| lia | lia].
  apply (smear_step _ 8) in H1; [| lia | lia].
  apply (smear_step _ 16) in H1; [| lia | lia].
  apply (smear_step _ 32) in H1; [| lia | lia].
  apply smeared_full in H1; [| lia].
  change (2 * 1) with 2 in H1. cbv zeta. rewrite H1.
  apply log2_table_ok. exact Hk.
Qed.

(** For every non-zero 64-bit word the bit-smearing and De Bruijn table lookup of
    [log2] compute the integer base-2 logarithm. *)
Theorem log2_correct n : 0 < n < 2 ^ 64 -> log2 n = Some (Z.log2 n).
Proof. apply log2_is_log2. Qed.

Lemma log2_correct_witness : log2 4194304 = Some (Z.log2 4194304).
Proof. apply (log2_correct 4194304). lia. Defined.

(** ** Alignment *)

Lemma land_lnot_mask n k : 0 <= n < 2 ^ 64 -> 0 <= k < 64 ->
  Z.land n (u64 (Z.lnot (u64 (2 ^ k - 1)))) = n - n mod 2 ^ k.
Proof.
  intros Hn Hk.
  assert (Hp : 0 < 2 ^ k) by (apply Z.pow_pos_nonneg; lia).
  assert (Hlt : 2 ^ k < 2 ^ 64) by (apply Z.pow_lt_mono_r; lia).
  rewrite (u64_small (2 ^ k - 1)) by lia.
  replace (2 ^ k - 1) with (Z.ones k) by (rewrite Z.ones_equiv; lia).
  replace (n - n mod 2 ^ k) with (Z.ldiff n (Z.ones k)).
  2: { rewrite Z.ldiff_ones_r, Z.shiftr_div_pow2, Z.shiftl_mul_pow2 by lia.
       pose proof (Z.div_mod n (2 ^ k)). lia. }
  unfold u64. apply Z.bits_inj'. intros i Hi.
  rewrite Z.land_spec, Z.ldiff_spec.
  destruct (Z_lt_dec i 64).
  - rewrite Z.mod_pow2_bits_low, Z.lnot_spec by lia. reflexivity.
  - rewrite (testbit_high n 64) by lia. reflexivity.
Qed.

Lemma align_pow2 n k : is_off n -> 0 <= k < 64 -> align n (2 ^ k) = 2 ^ k * (n / 2 ^ k).
Proof.
  intros Hn Hk. unfold is_off in Hn. unfold align.
  assert (Hp : 0 < 2 ^ k) by (apply Z.pow_pos_nonneg; lia).
  pose proof (Z.mod_pos_bound n _ Hp). pose proof (Z.mod_le n _ (proj1 Hn) Hp).
  rewrite (u64_small n), land_lnot_mask by lia. rewrite s64_small by lia.
  pose proof (Z.div_mod n (2 ^ k)). lia.
Qed.

Lemma xalign_pow2 n k : 0 <= k < 63 -> 0 <= n -> n + 2 ^ k < 2 ^ 63 ->
  xalign n (2 ^ k) = 2 ^ k * (n / 2 ^ k + 1).
Proof.
  intros Hk Hn Hs. unfold xalign.
  assert (Hp : 0 < 2 ^ k) by (apply Z.pow_pos_nonneg; lia).
  rewrite u64_small, s64_small by lia.
  rewrite align_pow2 by (unfold is_off; lia).
  f_equal. replace (n + 2 ^ k) with (n + 1 * 2 ^ k) by lia.
  rewrite Z.div_add; lia.
Qed.

(** On a power-of-two block that does not overflow [off_t], [align] and [xalign]
    bracket an offset by the start of its own block and the start of the next one:
    both are multiples of the block, one block apart, and [xalign] is strictly above
    the offset even when the offset is aligned. *)
Theorem align_xalign_bracket n k : 0 <= k < 63 -> 0 <= n -> n + 2 ^ k < 2 ^ 63 ->
  (2 ^ k | align n (2 ^ k)) /\ align n (2 ^ k) <= n < xalign n (2 ^ k) /\
  xalign n (2 ^ k) = align n (2 ^ k) + 2 ^ k.
Proof.
  intros Hk Hn Hs.
  assert (Hp : 0 < 2 ^ k) by (apply Z.pow_pos_nonneg; lia).
  rewrite xalign_pow2, align_pow2 by (unfold is_off; lia).
  pose proof (Z.div_mod n (2 ^ k)). pose proof (Z.mod_pos_bound n _ Hp).
  split; [apply Z.divide_factor_l | lia].
Qed.

Lemma align_xalign_bracket_witness :
  (2 ^ 12 | align 8192 (2 ^ 12)) /\ align 8192 (2 ^ 12) <= 8192 < xalign 8192 (2 ^ 12) /\
  xalign 8192 (2 ^ 12) = align 8192 (2 ^ 12) + 2 ^ 12.
Proof. apply (align_xalign_bracket 8192 12); lia. Defined.

(** [block_count] counts the blocks a non-empty access touches: the index of the
    block of its last byte minus the index of the block of its first byte, plus one. *)
Theorem block_count_spec n sz k :
  0 <= k < 64 -> is_off n -> 0 < sz -> n + sz <= 2 ^ 63 ->
  (n + sz - 1) / 2 ^ k - n / 2 ^ k + 1 < 2 ^ 31 ->
  block_count n sz (2 ^ k) = Some ((n + sz - 1) / 2 ^ k - n / 2 ^ k + 1).
Proof.
  intros Hk Hn Hsz Hs Hr. unfold is_off in Hn. unfold block_count.
  assert (Hp : 0 < 2 ^ k) by (apply Z.pow_pos_nonneg; lia).
  assert (2 ^ k < 2 ^ 64) by (apply Z.pow_lt_mono_r; lia).
  rewrite (log2_is_log2 (2 ^ k)), Z.log2_pow2 by lia.
  rewrite u64_small, s64_small by lia.
  rewrite !align_pow2 by (unfold is_off; lia).
  rewrite !Z.shiftr_div_pow2 by lia.
  rewrite !(Z.mul_comm (2 ^ k)), !Z.div_mul by lia.
  assert (n / 2 ^ k <= (n + sz - 1) / 2 ^ k) by (apply Z.div_le_mono; lia).
  rewrite s32_small by lia. reflexivity.
Qed.

Lemma block_count_spec_witness :
  block_count 4095 2 (2 ^ 12) = Some ((4095 + 2 - 1) / 2 ^ 12 - 4095 / 2 ^ 12 + 1).
Proof.
  apply (block_count_spec 4095 2 12); unfold is_off; try lia. vm_compute. reflexivity.
Defined.

End Common.
