(* ===== verification/Avl.v ===== *)
(** * The AVL tree of src/avl.hpp

    [avl::avltree<Tp>] links heap-allocated nodes by child and parent pointers.
    A node is named by its address; the tree reachable from [m_root] is an
    inductive [tree] whose nodes carry that address, and the parent pointers
    together with the [m_which_child] marks of the nodes on the way to the root
    are a list of [frame]s, innermost first, so that "go to the parent" is "take
    the next frame". Operations that receive a node pointer first find the node
    with that address ([locate]); a pointer that names no node of the tree makes
    them fail, which is the undefined behaviour of the C++ code. *)
From S2P Require Import Prelude.
From stdpp Require Import base list numbers option sorting sets.
Local Open Scope Z_scope.

(** The element type offers [int Tp::compare(const Tp&) const], with results -1, 0, 1. *)
Class Comparable (A : Type) := {
  compare : A -> A -> Z;
  compare_range x y : -1 <= compare x y <= 1;
  compare_sym x y : compare x y = - compare y x;
  compare_trans x y z : compare x y = -1 -> compare y z = -1 -> compare x z = -1;
  compare_eq x y z : compare x y = 0 -> compare x z = compare y z
}.

Module Avl.

Abbreviation addr := positive (only parsing).

(** [detail::child], without [NONE]: an optional child is an [option child]. *)
Inductive child := LEFT | RIGHT.
(** [avl::direction] *)
Inductive direction := BEFORE | AFTER.

#[export] Instance child_eq_dec : EqDecision child.
Proof. solve_decision. Defined.

(** [1 - c] on the two child indices. *)
Definition flip (c : child) : child := match c with LEFT => RIGHT | RIGHT => LEFT end.
(** [static_cast<int>(dir)] as a child index. *)
Definition dir_child (d : direction) : child :=
  match d with BEFORE => LEFT | AFTER => RIGHT end.

(** [child2balance] and [balance2child] of namespace [detail]. *)
Definition child2balance (c : child) : Z := match c with LEFT => -1 | RIGHT => 1 end.
Definition balance2child (i : Z) : child := if i =? 2 then RIGHT else LEFT.

(** A pointer returned by the tree: null, a node's data, or an address that is
    not the data of any node. *)
Inductive ptr := Null | Wild | Ptr (a : addr).

(** [avltree::insertion_point]: [None] for [m_child] is [child::NONE]. *)
Record insertion_point := IP { m_parent : option addr; m_child : option child }.
Definition index_null : insertion_point := IP None None.

#[export] Instance ip_eq_dec : EqDecision insertion_point.
Proof. solve_decision. Defined.

Section Tree.
Context {A : Type} {CA : Comparable A}.

(** [detail::node]: address, [m_balance], [m_data], [m_children]. *)
Inductive tree :=
| Leaf
| Node (a : addr) (b : Z) (d : A) (l r : tree).

Record frame := Frame {
  f_which : child; f_addr : addr; f_bal : Z; f_data : A; f_sib : tree }.

Record avltree := Tree { m_root : tree; m_num_nodes : Z }.

(** The default constructor of [avltree]. *)
Definition empty : avltree := Tree Leaf 0.

(** Reading and writing the fields of a node. *)
Definition get (n : tree) (c : child) : tree :=
  match n, c with
  | Node _ _ _ l _, LEFT => l
  | Node _ _ _ _ r, RIGHT => r
  | Leaf, _ => Leaf
  end.
Definition set (n : tree) (c : child) (s : tree) : tree :=
  match n, c with
  | Node a b d _ r, LEFT => Node a b d s r
  | Node a b d l _, RIGHT => Node a b d l s
  | Leaf, _ => Leaf
  end.
Definition bal (n : tree) : Z := match n with Node _ b _ _ _ => b | Leaf => 0 end.
Definition set_bal (n : tree) (b : Z) : tree :=
  match n with Node a _ d l r => Node a b d l r | Leaf => Leaf end.

(** The parent of a subtree hanging at frame [f], and the whole tree around it. *)
Definition mk (f : frame) (t : tree) : tree :=
  match f_which f with
  | LEFT => Node (f_addr f) (f_bal f) (f_data f) t (f_sib f)
  | RIGHT => Node (f_addr f) (f_bal f) (f_data f) (f_sib f) t
  end.
Fixpoint plug (t : tree) (c : list frame) : tree :=
  match c with [] => t | f :: c' => plug (mk f t) c' end.

(** The node with address [p] and the frames above it. *)
Fixpoint locate (p : addr) (t : tree) (c : list frame) : option (list frame * tree) :=
  match t with
  | Leaf => None
  | Node a b d l r =>
      if decide (a = p) then Some (c, t)
      else match locate p l (Frame LEFT a b d r :: c) with
           | Some x => Some x
           | None => locate p r (Frame RIGHT a b d l :: c)
           end
  end.

(** [size()] *)
Definition size (t : avltree) : Z := m_num_nodes t.

(** [find_node]: the search loop, with the loop variables [prev] and [child]. *)
Fixpoint find_loop (v : A) (node : tree) (prev : option addr) (ch : child)
  : option addr * insertion_point :=
  match node with
  | Leaf => (None, IP prev (Some ch))
  | Node a _ d l r =>
      let diff := compare v d in
      if diff =? 0 then (Some a, IP (Some a) None)
      else match balance2child (1 + diff) with
           | LEFT => find_loop v l (Some a) LEFT
           | RIGHT => find_loop v r (Some a) RIGHT
           end
  end.
Definition find_node (t : avltree) (v : A) : option addr * insertion_point :=
  find_loop v (m_root t) None LEFT.

(** [find]: as [find_node], but a hit invalidates the insertion point. *)
Definition find (t : avltree) (v : A) : option addr * insertion_point :=
  match find_node t v with
  | (Some a, _) => (Some a, index_null)
  | (None, w) => (None, w)
  end.

(** The two inner loops of [walk]: down to the far end, and up to the first parent
    reached from its [right] child. *)
Fixpoint far (right : child) (t : tree) : option addr :=
  match t with
  | Leaf => None
  | Node a _ _ l r =>
      match right with
      | LEFT => match l with Leaf => Some a | _ => far right l end
      | RIGHT => match r with Leaf => Some a | _ => far right r end
      end
  end.
Fixpoint climb (right : child) (c : list frame) : option addr :=
  match c with
  | [] => None
  | f :: c' => if decide (f_which f = right) then Some (f_addr f) else climb right c'
  end.

Definition to_ptr (o : option addr) : ptr :=
  match o with Some a => Ptr a | None => Null end.

(** [walk(node, left)] *)
Definition walk (t : avltree) (node : option addr) (left : child) : ptr :=
  let right := flip left in
  match node with
  | None => Null
  | Some p =>
      match locate p (m_root t) [] with
      | None => Wild
      | Some (c, n) =>
          match get n left with
          | Leaf => to_ptr (climb right c)
          | s => to_ptr (far right s)
          end
      end
  end.
Definition next (t : avltree) (e : addr) : ptr := walk t (Some e) RIGHT.
Definition prev (t : avltree) (e : addr) : ptr := walk t (Some e) LEFT.

(** [first_node] and [last_node]. *)
Definition first_node (t : avltree) : option addr := far LEFT (m_root t).
Definition last_node (t : avltree) : option addr := far RIGHT (m_root t).

(** [nearest(where, dir)]. A non-null insertion point with a null parent (the one
    [find] yields on an empty tree) makes the code return the address of a field of
    a null node. *)
Definition nearest (t : avltree) (w : insertion_point) (dir : direction) : ptr :=
  if decide (w = index_null) then Null
  else if decide (m_child w = Some (dir_child dir)) then walk t (m_parent w) (dir_child dir)
  else match m_parent w with Some a => Ptr a | None => Wild end.

(** [rotation(node, balance)]: the rotated subtree and whether it became shorter;
    [None] is a null dereference. *)
Definition rotation (node : tree) (balance : Z) : option (tree * bool) :=
  let left := if balance <? 0 then LEFT else RIGHT in
  let right := flip left in
  let left_heavy := Z.shiftr balance 1 in
  let right_heavy := - left_heavy in
  match get node left with
  | Leaf => None
  | child =>
      let child_balance := bal child in
      if negb (child_balance =? right_heavy) then
        let child_balance := child_balance + right_heavy in
        let cright := get child right in
        let node := set_bal (set node left cright) (- child_balance) in
        let child := set_bal (set child right node) child_balance in
        Some (child, child_balance =? 0)
      else
        match get child right with
        | Leaf => None
        | gchild =>
            let gleft := get gchild left in
            let gright := get gchild right in
            let node := set node left gright in
            let child := set child right gleft in
            let balance := bal gchild in
            let child := set_bal child (if balance =? right_heavy then left_heavy else 0) in
            let gchild := set gchild left child in
            let node := set_bal node (if balance =? left_heavy then right_heavy else 0) in
            let gchild := set_bal (set gchild right node) 0 in
            Some (gchild, true)
        end
  end.

(** The loop of [insert_at] that goes back up from the new node. *)
Fixpoint insert_fix (n : tree) (c : list frame) : option tree :=
  match c with
  | [] => Some n
  | f :: c' =>
      let old_balance := f_bal f in
      let new_balance := old_balance + child2balance (f_which f) in
      if new_balance =? 0 then Some (plug (set_bal (mk f n) 0) c')
      else if old_balance =? 0 then insert_fix (set_bal (mk f n) new_balance) c'
      else match rotation (mk f n) new_balance with
           | Some (t, _) => Some (plug t c')
           | None => None
           end
  end.

Definition frame_of (n : tree) (ch : child) : option frame :=
  match n with
  | Leaf => None
  | Node a b d l r =>
      Some (Frame ch a b d (match ch with LEFT => r | RIGHT => l end))
  end.

(** [insert_at(new_data, where)]; [new] is the address [operator new] returned.
    [None] is a failed assertion or a null or dangling dereference. *)
Definition insert_at (t : avltree) (new : addr) (d : A) (w : insertion_point)
  : option avltree :=
  let num := u32 (m_num_nodes t + 1) in
  let n := Node new 0 d Leaf Leaf in
  match m_parent w with
  | Some p =>
      match locate p (m_root t) [], m_child w with
      | Some (c, parent), Some ch =>
          match get parent ch, frame_of parent ch with
          | Leaf, Some f =>
              root ← insert_fix n (f :: c);
              Some (Tree root num)
          | _, _ => None
          end
      | _, _ => None
      end
  | None => match m_root t with Leaf => Some (Tree n num) | _ => None end
  end.

(** [add(new_data)]: the element must not be present. *)
Definition add (t : avltree) (new : addr) (d : A) : option avltree :=
  match find t d with
  | (None, w) => insert_at t new d w
  | (Some _, _) => None
  end.

(** [insert_here(new_data, here, dir)] *)
Definition insert_here (t : avltree) (new : addr) (d : A) (here : addr) (dir : direction)
  : option avltree :=
  match locate here (m_root t) [] with
  | None => None
  | Some (_, n) =>
      let ch := dir_child dir in
      match get n ch with
      | Leaf => insert_at t new d (IP (Some here) (Some ch))
      | s =>
          match far (flip ch) s with
          | Some p => insert_at t new d (IP (Some p) (Some (flip ch)))
          | None => None
          end
      end
  end.

(** The rebalancing loop of [remove_node]: [t] has just become shorter. *)
Fixpoint remove_fix (t : tree) (c : list frame) : option tree :=
  match c with
  | [] => Some t
  | f :: c' =>
      let node := mk f t in
      let old_balance := f_bal f in
      let new_balance := old_balance - child2balance (f_which f) in
      if old_balance =? 0 then Some (plug (set_bal node new_balance) c')
      else if new_balance =? 0 then remove_fix (set_bal node new_balance) c'
      else match rotation node new_balance with
           | Some (t', true) => remove_fix t' c'
           | Some (t', false) => Some (plug t' c')
           | None => None
           end
  end.

(** Down [right] children as far as possible, collecting the frames. *)
Fixpoint descend (right : child) (t : tree) (c : list frame) : list frame * tree :=
  match t with
  | Leaf => (c, t)
  | Node a b d l r =>
      match right with
      | LEFT => match l with Leaf => (c, t) | _ => descend right l (Frame LEFT a b d r :: c) end
      | RIGHT => match r with Leaf => (c, t) | _ => descend right r (Frame RIGHT a b d l :: c) end
      end
  end.

(** The only child of a node that has at most one. *)
Definition only_child (n : tree) : tree :=
  match get n LEFT with Leaf => get n RIGHT | s => s end.

(** The first half of [remove_node]: with two children, the sequentially neighbouring
    [node] on the taller side is moved to [to_rm]'s place (its links and balance, not
    its data) and the place [node] came from is the one to remove. *)
Definition removal_target (n : tree) (c : list frame) : list frame * tree :=
  match get n LEFT, get n RIGHT with
  | Node _ _ _ _ _, Node _ _ _ _ _ =>
      let left := balance2child (bal n + 1) in
      let right := flip left in
      match descend right (get n left) [] with
      | (c1, Node a1 b1 d1 l1 r1) =>
          (c1 ++ Frame left a1 (bal n) d1 (get n right) :: c, Node a1 b1 d1 l1 r1)
      | (_, Leaf) => (c, n)
      end
  | _, _ => (c, n)
  end.

(** [remove_node(to_rm)]: [None] is a dangling pointer or the failed
    [assert(m_num_nodes > 0)]. *)
Definition remove_node (t : avltree) (to_rm : addr) : option avltree :=
  match locate to_rm (m_root t) [] with
  | None => None
  | Some (c, n) =>
      let '(c, n) := removal_target n c in
      if m_num_nodes t <=? 0 then None
      else
        root ← remove_fix (only_child n) c;
        Some (Tree root (m_num_nodes t - 1))
  end.

(** [remove(data)]: [find_node], then [remove_at] the insertion point it set. *)
Definition remove (t : avltree) (d : A) : option avltree :=
  match find_node t d with
  | (None, _) => Some t
  | (Some _, w) => match m_parent w with Some p => remove_node t p | None => Some t end
  end.

(** Dereferencing an element pointer, and writing through it. *)
Definition deref (t : avltree) (p : addr) : option A :=
  match locate p (m_root t) [] with
  | Some (_, Node _ _ d _ _) => Some d
  | _ => None
  end.
Fixpoint store_tree (p : addr) (f : A -> A) (t : tree) : tree :=
  match t with
  | Leaf => Leaf
  | Node a b d l r =>
      Node a b (if decide (a = p) then f d else d) (store_tree p f l) (store_tree p f r)
  end.
Definition store (t : avltree) (p : addr) (f : A -> A) : avltree :=
  Tree (store_tree p f (m_root t)) (m_num_nodes t).

(** ** What a tree holds and when it is well formed *)

(** The elements in order, each with the address of its node. *)
Fixpoint elems (t : tree) : list (addr * A) :=
  match t with
  | Leaf => []
  | Node a _ d l r => elems l ++ (a, d) :: elems r
  end.

Definition lt_elem (x y : addr * A) : Prop := compare x.2 y.2 = -1.

Fixpoint height (t : tree) : Z :=
  match t with Leaf => 0 | Node _ _ _ l r => 1 + Z.max (height l) (height r) end.

(** Every stored balance is the height difference of the children and is -1, 0 or 1. *)
Fixpoint balanced (t : tree) : Prop :=
  match t with
  | Leaf => True
  | Node _ b _ l r =>
      -1 <= b <= 1 /\ b = height r - height l /\ balanced l /\ balanced r
  end.

Record wf (t : avltree) : Prop := {
  wf_balanced : balanced (m_root t);
  wf_sorted : StronglySorted lt_elem (elems (m_root t));
  wf_nodup : NoDup (elems (m_root t)).*1;
  wf_size : m_num_nodes t = u32 (Z.of_nat (length (elems (m_root t))))
}.

End Tree.
Arguments tree : clear implicits.
Arguments frame : clear implicits.
Arguments avltree : clear implicits.

Section Proofs.
Context {A : Type} {CA : Comparable A}.
Implicit Types (t n : tree A) (c : list (frame A)) (T : avltree A).

(** Elements left and right of the hole of a context. *)
Fixpoint before c : list (addr * A) :=
  match c with
  | [] => []
  | f :: c' => before c' ++
      match f_which f with LEFT => [] | RIGHT => elems (f_sib f) ++ [(f_addr f, f_data f)] end
  end.
Fixpoint after c : list (addr * A) :=
  match c with
  | [] => []
  | f :: c' =>
      match f_which f with LEFT => (f_addr f, f_data f) :: elems (f_sib f) | RIGHT => [] end
      ++ after c'
  end.

Lemma elems_mk f t : elems (mk f t) =
  match f_which f with LEFT => [] | RIGHT => elems (f_sib f) ++ [(f_addr f, f_data f)] end
  ++ elems t ++
  match f_which f with LEFT => (f_addr f, f_data f) :: elems (f_sib f) | RIGHT => [] end.
Proof. unfold mk. destruct (f_which f); simpl; by rewrite ?app_nil_r, <- ?app_assoc. Qed.

Lemma elems_plug c : forall t, elems (plug t c) = before c ++ elems t ++ after c.
Proof.
  induction c as [| f c IH]; intros t; simpl; [by rewrite app_nil_r |].
  rewrite IH, elems_mk, <- !app_assoc. done.
Qed.

Lemma plug_app t c1 c2 : plug t (c1 ++ c2) = plug (plug t c1) c2.
Proof. revert t. induction c1; intros; simpl; auto. Qed.

Lemma elems_set_bal t b : elems (set_bal t b) = elems t.
Proof. by destruct t. Qed.

(** Rewriting with lists of elements up to associativity. *)
Local Ltac list_simpl := simpl; repeat (rewrite <- app_assoc; simpl); rewrite ?app_nil_r; try done.

Lemma rotation_elems n b t s : rotation n b = Some (t, s) -> elems t = elems n.
Proof.
  unfold rotation. destruct n as [| a nb d l r]; [by destruct (b <? 0) |].
  destruct (b <? 0); simpl.
  - destruct l as [| la lb ld ll lr]; simpl; [done |].
    destruct (negb _); [by intros [= <- <-]; list_simpl |].
    destruct lr as [| ga gb gd gl gr]; simpl; [done |].
    intros [= <- <-]. by list_simpl.
  - destruct r as [| ra rb rd rl rr]; simpl; [done |].
    destruct (negb _); [by intros [= <- <-]; list_simpl |].
    destruct rl as [| ga gb gd gl gr]; simpl; [done |].
    intros [= <- <-]. by list_simpl.
Qed.

Lemma insert_fix_elems c : forall n t,
  insert_fix n c = Some t -> elems t = before c ++ elems n ++ after c.
Proof.
  induction c as [| f c IH]; intros n t; simpl; [intros [= ->]; by rewrite app_nil_r |].
  destruct (_ =? 0).
  { intros [= <-]. rewrite elems_plug, elems_set_bal, elems_mk. by list_simpl. }
  destruct (_ =? 0).
  { intros H%IH. rewrite H, elems_set_bal, elems_mk. by list_simpl. }
  destruct (rotation _ _) as [[t' s] |] eqn:E; [| done].
  intros [= <-]. rewrite elems_plug, (rotation_elems _ _ _ _ E), elems_mk. by list_simpl.
Qed.

Lemma remove_fix_elems c : forall n t,
  remove_fix n c = Some t -> elems t = before c ++ elems n ++ after c.
Proof.
  induction c as [| f c IH]; intros n t; simpl; [intros [= ->]; by rewrite app_nil_r |].
  destruct (_ =? 0).
  { intros [= <-]. rewrite elems_plug, elems_set_bal, elems_mk. by list_simpl. }
  destruct (_ =? 0).
  { intros H%IH. rewrite H, elems_set_bal, elems_mk. by list_simpl. }
  destruct (rotation _ _) as [[t' s] |] eqn:E; [| done].
  destruct s.
  - intros H%IH. rewrite H, (rotation_elems _ _ _ _ E), elems_mk. by list_simpl.
  - intros [= <-]. rewrite elems_plug, (rotation_elems _ _ _ _ E), elems_mk. by list_simpl.
Qed.

(** ** Balance *)

Lemma height_nonneg t : 0 <= height t.
Proof. induction t; simpl; lia. Qed.

Lemma height_set_bal t b : height (set_bal t b) = height t.
Proof. by destruct t. Qed.

(** [ctx_balanced c h]: the frames [c] are balanced around a hole of height [h]. *)
Fixpoint ctx_balanced c (h : Z) : Prop :=
  match c with
  | [] => True
  | f :: c' =>
      let hs := height (f_sib f) in
      balanced (f_sib f) /\ -1 <= f_bal f <= 1 /\
      f_bal f = match f_which f with LEFT => hs - h | RIGHT => h - hs end /\
      ctx_balanced c' (1 + Z.max h hs)
  end.

Lemma balanced_plug c : forall t,
  balanced t -> ctx_balanced c (height t) -> balanced (plug t c).
Proof.
  induction c as [| f c IH]; intros t Ht; simpl; [done |].
  intros (Hs & Hb & Hd & Hc). apply IH.
  - unfold mk. destruct (f_which f); simpl; repeat split; auto; lia.
  - unfold mk. destruct (f_which f); simpl; [done |]. by rewrite Z.max_comm.
Qed.

Lemma plug_balanced c : forall t,
  balanced (plug t c) -> balanced t /\ ctx_balanced c (height t).
Proof.
  induction c as [| f c IH]; intros t; simpl; [done |].
  intros [H1 H2]%IH. unfold mk in *. destruct (f_which f); simpl in *;
    destruct H1 as (? & ? & ? & ?); repeat split; auto; try lia.
  by rewrite Z.max_comm.
Qed.

(** Rotating a node whose child on the heavy side is two levels higher restores the
    balance. The result is one level shorter than before exactly when [rotation] says so. *)
Lemma rotation_balanced a b d l r (hl hr : Z) balance :
  hl = height l -> hr = height r -> balanced l -> balanced r ->
  balance = hr - hl -> (balance = -2 \/ balance = 2) ->
  exists t s, rotation (Node a b d l r) balance = Some (t, s) /\ balanced t /\
    height t = Z.max hl hr + (if s then 0 else 1) /\
    (s = false <-> bal (if balance <? 0 then l else r) = 0).
Proof.
  intros -> -> Hl Hr Hb [H2 | H2]; unfold rotation; rewrite H2.
  - change (Z.shiftr (-2) 1) with (-1). change (- -1) with 1. change (-2 <? 0) with true. simpl.
    destruct l as [| la lb ld ll lr]; simpl in *.
    { pose proof (height_nonneg r). lia. }
    destruct Hl as (? & Hlb & ? & Hlr).
    destruct (Z.eqb_spec lb 1) as [Hlb1 | Hlb1]; simpl.
    + destruct lr as [| ga gb gd gl gr]; simpl in *.
      { pose proof (height_nonneg ll). lia. }
      destruct Hlr as (? & ? & ? & ?).
      do 2 eexists. split; [reflexivity |]. simpl. rewrite H2 in Hb.
      destruct (Z.eqb_spec gb 1), (Z.eqb_spec gb (-1)); repeat split; auto; try lia.
    + do 2 eexists. split; [reflexivity |]. simpl.
      destruct (Z.eqb_spec (lb + 1) 0); repeat split; auto; lia.
  - change (Z.shiftr 2 1) with 1. change (- (1)) with (-1). change (2 <? 0) with false. simpl.
    destruct r as [| ra rb rd rl rr]; simpl in *.
    { pose proof (height_nonneg l). lia. }
    destruct Hr as (? & Hrb & Hrl & ?).
    destruct (Z.eqb_spec rb (-1)) as [Hrb1 | Hrb1]; simpl.
    + destruct rl as [| ga gb gd gl gr]; simpl in *.
      { pose proof (height_nonneg rr). lia. }
      destruct Hrl as (? & ? & ? & ?).
      do 2 eexists. split; [reflexivity |]. simpl.
      destruct (Z.eqb_spec gb 1), (Z.eqb_spec gb (-1)); repeat split; auto; try lia.
    + do 2 eexists. split; [reflexivity |]. simpl.
      destruct (Z.eqb_spec (rb + -1) 0); repeat split; auto; lia.
Qed.

(** The subtree that has just grown is a fresh leaf node, or leans to one side. *)
Definition grown n : Prop := bal n <> 0 \/ height n = 1.

Lemma insert_fix_balanced c : forall n h,
  balanced n -> height n = h + 1 -> grown n -> 0 <= h -> ctx_balanced c h ->
  exists t, insert_fix n c = Some t /\ balanced t.
Proof.
  induction c as [| f c IH]; intros n h Hn Hh Hg Hh0; simpl; [eauto |].
  intros (Hs & Hb & Hd & Hc).
  destruct (Z.eqb_spec (f_bal f + child2balance (f_which f)) 0) as [E0 | E0].
  { eexists. split; [done |]. apply balanced_plug.
    - unfold mk. destruct (f_which f); simpl in *; repeat split; auto; lia.
    - replace (height _) with (1 + Z.max h (height (f_sib f))); [done |].
      unfold mk. destruct (f_which f); simpl in *; lia. }
  destruct (Z.eqb_spec (f_bal f) 0) as [E1 | E1].
  { apply (IH _ (1 + Z.max h (height (f_sib f)))); [| | | lia | done];
      unfold mk, grown; destruct (f_which f); simpl in *; repeat split; auto; lia. }
  assert (Hnb : bal n <> 0).
  { pose proof (height_nonneg (f_sib f)). destruct Hg as [? | Hg]; [done |].
    destruct (f_which f); simpl in *; lia. }
  unfold mk. destruct (f_which f) eqn:Ew; simpl in *.
  - destruct (rotation_balanced (f_addr f) (f_bal f) (f_data f) n (f_sib f)
      (height n) (height (f_sib f)) (f_bal f + -1))
      as (t & s & -> & Ht & Hht & Hs'); auto; try lia.
    eexists. split; [done |]. apply balanced_plug; [done |].
    rewrite (proj2 (Z.ltb_lt _ _)) in Hs' by lia.
    destruct s; [| tauto]. rewrite Hht.
    replace (Z.max (height n) (height (f_sib f)) + 0) with (1 + Z.max h (height (f_sib f))) by lia.
    done.
  - destruct (rotation_balanced (f_addr f) (f_bal f) (f_data f) (f_sib f) n
      (height (f_sib f)) (height n) (f_bal f + 1))
      as (t & s & -> & Ht & Hht & Hs'); auto; try lia.
    eexists. split; [done |]. apply balanced_plug; [done |].
    rewrite (proj2 (Z.ltb_ge _ _)) in Hs' by lia.
    destruct s; [| tauto]. rewrite Hht.
    replace (Z.max (height (f_sib f)) (height n) + 0) with (1 + Z.max h (height (f_sib f))) by lia.
    done.
Qed.

Lemma remove_fix_balanced c : forall n h,
  balanced n -> height n = h - 1 -> ctx_balanced c h ->
  exists t, remove_fix n c = Some t /\ balanced t.
Proof.
  induction c as [| f c IH]; intros n h Hn Hh; simpl; [eauto |].
  intros (Hs & Hb & Hd & Hc). pose proof (height_nonneg (f_sib f)).
  pose proof (height_nonneg n).
  destruct (Z.eqb_spec (f_bal f) 0) as [E0 | E0].
  { eexists. split; [done |]. apply balanced_plug.
    - unfold mk. destruct (f_which f); simpl in *; repeat split; auto; lia.
    - replace (height _) with (1 + Z.max h (height (f_sib f))); [done |].
      unfold mk. destruct (f_which f); simpl in *; lia. }
  destruct (Z.eqb_spec (f_bal f - child2balance (f_which f)) 0) as [E1 | E1].
  { apply (IH _ (1 + Z.max h (height (f_sib f)))); [| | done];
      unfold mk; destruct (f_which f); simpl in *; repeat split; auto; lia. }
  assert (Hrot : exists t s, rotation (mk f n) (f_bal f - child2balance (f_which f)) = Some (t, s)
    /\ balanced t /\ height t = 1 + Z.max h (height (f_sib f)) - (if s then 1 else 0)).
  { unfold mk. destruct (f_which f) eqn:Ew; simpl in *.
    - destruct (rotation_balanced (f_addr f) (f_bal f) (f_data f) n (f_sib f)
        (height n) (height (f_sib f)) (f_bal f - -1))
        as (t & s & -> & Ht & Hht & _); auto; try lia.
      exists t, s. repeat split; auto. destruct s; lia.
    - destruct (rotation_balanced (f_addr f) (f_bal f) (f_data f) (f_sib f) n
        (height (f_sib f)) (height n) (f_bal f - 1))
        as (t & s & -> & Ht & Hht & _); auto; try lia.
      exists t, s. repeat split; auto. destruct s; lia. }
  destruct Hrot as (t & s & -> & Ht & Hht). destruct s.
  - apply (IH t (1 + Z.max h (height (f_sib f)))); [done | lia | done].
  - eexists. split; [done |]. apply balanced_plug; [done |].
    replace (height t) with (1 + Z.max h (height (f_sib f))) by lia. done.
Qed.

(** ** Pointers into the tree *)

Lemma locate_not_in p t c0 : p ∉ (elems t).*1 -> locate p t c0 = None.
Proof.
  revert c0. induction t as [| a b d l IHl r IHr]; intros c0 Hp; simpl; [done |].
  simpl in Hp. rewrite fmap_app, fmap_cons in Hp. simpl in Hp.
  rewrite decide_False by set_solver. rewrite IHl by set_solver. apply IHr. set_solver.
Qed.

(** A pointer to a node below a context finds that node, with that context above it. *)
Lemma locate_plug p c : forall s c0,
  p ∉ (before c).*1 -> p ∉ (after c).*1 -> locate p (plug s c) c0 = locate p s (c ++ c0).
Proof.
  induction c as [| f c IH]; intros s c0 Hb Ha; simpl; [done |].
  simpl in Hb, Ha. rewrite fmap_app in Hb, Ha.
  rewrite IH by set_solver.
  destruct f as [w a b d sib]. unfold mk. destruct w; simpl in *.
  - rewrite decide_False by set_solver. destruct (locate p s _) as [[? ?] |]; [done |].
    apply locate_not_in. set_solver.
  - rewrite fmap_app in Hb. simpl in Hb.
    rewrite decide_False by set_solver. rewrite locate_not_in by set_solver. done.
Qed.

Lemma nodup_fst_middle (l1 l2 : list (addr * A)) p d :
  NoDup (l1 ++ (p, d) :: l2).*1 -> p ∉ l1.*1 /\ p ∉ l2.*1.
Proof.
  rewrite fmap_app, fmap_cons. simpl. intros H%NoDup_app. destruct H as (_ & H1 & H2).
  apply NoDup_cons in H2 as [H2 _]. split; [| done].
  intros Hin. apply (H1 _ Hin). left.
Qed.

Lemma locate_exists p d t : forall l1 l2,
  NoDup (elems t).*1 -> elems t = l1 ++ (p, d) :: l2 ->
  exists c b l r, t = plug (Node p b d l r) c /\ before c ++ elems l = l1 /\
    elems r ++ after c = l2.
Proof.
  induction t as [| a b d' l IHl r IHr]; intros l1 l2 Hnd He; simpl in He.
  { by destruct l1. }
  pose proof Hnd as Hnd'. simpl in Hnd'. apply nodup_fst_middle in Hnd' as [Hal Har].
  simpl in Hnd. rewrite fmap_app, fmap_cons in Hnd. apply NoDup_app in Hnd as (Hl & Hd & Hr).
  apply NoDup_cons in Hr as [_ Hr].
  apply app_eq_inv in He as [(k & E1 & E2) | (k & E1 & E2)].
  - destruct k as [| [q e] k].
    + rewrite app_nil_r in E1. injection E2 as -> -> ->. subst l1.
      exists [], b, l, r. simpl. by rewrite app_nil_r.
    + injection E2 as -> -> ->.
      destruct (IHl l1 k Hl E1) as (c & b' & l' & r' & -> & E3 & E4).
      exists (c ++ [Frame LEFT a b d' r]), b', l', r'. rewrite plug_app. simpl.
      split; [done |].
      assert (before (c ++ [Frame LEFT a b d' r]) = before c) as ->.
      { clear. induction c; simpl; [done | by rewrite IHc]. }
      assert (after (c ++ [Frame LEFT a b d' r]) = after c ++ (a, d') :: elems r) as ->.
      { clear. induction c; simpl; [by rewrite app_nil_r | by rewrite IHc, app_assoc]. }
      split; [done |]. by rewrite app_assoc, E4.
  - destruct k as [| [q e] k].
    + injection E2 as -> -> <-. rewrite app_nil_r in E1. subst l1.
      exists [], b, l, r. simpl. by rewrite app_nil_r.
    + injection E2 as -> -> E2.
      destruct (IHr k l2 Hr E2) as (c & b' & l' & r' & -> & E3 & E4).
      exists (c ++ [Frame RIGHT q b e l]), b', l', r'. rewrite plug_app. simpl.
      split; [done |].
      assert (before (c ++ [Frame RIGHT q b e l]) = elems l ++ (q, e) :: before c) as ->.
      { clear. induction c as [| g c IH]; simpl; [done |].
        rewrite IH. by list_simpl. }
      assert (after (c ++ [Frame RIGHT q b e l]) = after c) as ->.
      { clear. induction c; simpl; [done | by rewrite IHc]. }
      split; [| done]. subst l1. rewrite <- E3. by list_simpl.
Qed.

(** Everything a pointer [p] into a tree without aliased nodes gives access to. *)
Lemma locate_elems T p d l1 l2 :
  NoDup (elems (m_root T)).*1 -> elems (m_root T) = l1 ++ (p, d) :: l2 ->
  exists c b l r, locate p (m_root T) [] = Some (c, Node p b d l r) /\
    m_root T = plug (Node p b d l r) c /\ before c ++ elems l = l1 /\ elems r ++ after c = l2.
Proof.
  intros Hnd He. destruct (locate_exists p d _ l1 l2 Hnd He) as (c & b & l & r & Ht & E1 & E2).
  exists c, b, l, r. split; [| done].
  rewrite He in Hnd. apply nodup_fst_middle in Hnd as [H1 H2].
  rewrite Ht, locate_plug; [simpl; by rewrite decide_True, app_nil_r | |];
    subst; rewrite fmap_app in *; set_solver.
Qed.

Lemma head_app_ne {B} (l k : list B) : l <> [] -> head (l ++ k) = head l.
Proof. by destruct l. Qed.
Lemma last_app_ne {B} (l k : list B) : k <> [] -> last (l ++ k) = last k.
Proof.
  intros Hk. destruct k as [| x k] using rev_ind; [done |].
  by rewrite app_assoc, !last_snoc.
Qed.
Lemma elems_node_ne a b d (l r : tree A) : elems (Node a b d l r) <> [].
Proof. simpl. by destruct (elems l). Qed.

Lemma far_last t : far RIGHT t = fst <$> last (elems t).
Proof.
  induction t as [| a b d l IHl r IHr]; simpl; [done |].
  destruct r as [| ra rb rd rl rr]; [simpl; by rewrite last_snoc |].
  rewrite IHr. rewrite (cons_middle (a, d)), (app_assoc (elems l) [(a, d)]).
  rewrite (last_app_ne (_ ++ [_])) by apply elems_node_ne. done.
Qed.

Lemma far_head t : far LEFT t = fst <$> head (elems t).
Proof.
  induction t as [| a b d l IHl r IHr]; simpl; [done |].
  destruct l as [| la lb ld ll lr]; [done |].
  rewrite IHl. simpl. by destruct (elems ll).
Qed.

Lemma climb_before c : climb RIGHT c = fst <$> last (before c).
Proof.
  induction c as [| [w a b d sib] c IH]; simpl; [done |].
  destruct w; simpl.
  - by rewrite app_nil_r.
  - by rewrite app_assoc, last_snoc.
Qed.

Lemma climb_after c : climb LEFT c = fst <$> head (after c).
Proof. by induction c as [| [[] a b d sib] c IH]; simpl. Qed.

(** [next] and [prev] are the neighbours in the ordered sequence of elements. *)
Lemma next_elems T p d l1 l2 :
  NoDup (elems (m_root T)).*1 -> elems (m_root T) = l1 ++ (p, d) :: l2 ->
  next T p = to_ptr (fst <$> head l2).
Proof.
  intros Hnd He. destruct (locate_elems T p d l1 l2 Hnd He) as (c & b & l & r & H & _ & _ & <-).
  unfold next, walk. rewrite H. cbn [get flip]. destruct r as [| ra rb rd rl rr].
  - by rewrite climb_after.
  - rewrite far_head. rewrite head_app_ne by apply elems_node_ne. done.
Qed.

Lemma prev_elems T p d l1 l2 :
  NoDup (elems (m_root T)).*1 -> elems (m_root T) = l1 ++ (p, d) :: l2 ->
  prev T p = to_ptr (fst <$> last l1).
Proof.
  intros Hnd He. destruct (locate_elems T p d l1 l2 Hnd He) as (c & b & l & r & H & _ & <- & _).
  unfold prev, walk. rewrite H. cbn [get flip]. destruct l as [| la lb ld ll lr].
  - cbn [elems]. by rewrite climb_before, app_nil_r.
  - rewrite far_last. rewrite last_app_ne by apply elems_node_ne. done.
Qed.

(** ** Insertion points *)

(** The insertion point of an empty child position. *)
Definition ip_of c : insertion_point :=
  match c with
  | [] => IP None (Some LEFT)
  | f :: _ => IP (Some (f_addr f)) (Some (f_which f))
  end.

(** [hole T w l1 l2]: [w] is the empty position between the elements [l1] and [l2]. *)
Definition hole T (w : insertion_point) (l1 l2 : list (addr * A)) : Prop :=
  exists c, m_root T = plug Leaf c /\ w = ip_of c /\ before c = l1 /\ after c = l2.

Lemma hole_elems T w l1 l2 : hole T w l1 l2 -> elems (m_root T) = l1 ++ l2.
Proof. intros (c & -> & _ & <- & <-). by rewrite elems_plug. Qed.

(** [l1 | v | l2]: where [v] belongs in a sorted sequence. *)
Definition straddles (v : A) (l1 l2 : list (addr * A)) : Prop :=
  Forall (fun x => compare x.2 v = -1) l1 /\ Forall (fun x => compare v x.2 = -1) l2.

Lemma compare_lt_sym x y : compare x y = 1 <-> compare y x = -1.
Proof. rewrite (compare_sym x y). lia. Qed.

Lemma sorted_app_inv (l1 l2 : list (addr * A)) x :
  StronglySorted lt_elem (l1 ++ x :: l2) ->
  StronglySorted lt_elem l1 /\ StronglySorted lt_elem l2 /\
  Forall (fun y => lt_elem y x) l1 /\ Forall (lt_elem x) l2.
Proof.
  induction l1 as [| y l1 IH]; simpl; intros H.
  - apply StronglySorted_inv in H as [? ?]. repeat split; auto. constructor.
  - apply StronglySorted_inv in H as [H1 H2]. apply IH in H1 as (? & ? & ? & ?).
    apply Forall_app in H2 as [? H2]. apply Forall_cons in H2 as [? ?].
    repeat split; auto; by constructor.
Qed.

Lemma straddles_left v l1 l2 a d r :
  compare v d = -1 -> Forall (fun x => compare d x.2 = -1) r -> straddles v l1 l2 ->
  straddles v l1 (l2 ++ (a, d) :: r).
Proof.
  intros Hv Hr [H1 H2]. split; [done |]. apply Forall_app. split; [done |].
  constructor; [done |]. eapply Forall_impl; [exact Hr |]. intros x Hx. simpl in Hx.
  by apply (compare_trans v d).
Qed.

Lemma straddles_right v l1 l2 a d l :
  compare d v = -1 -> Forall (fun x => compare x.2 d = -1) l -> straddles v l1 l2 ->
  straddles v (l ++ (a, d) :: l1) l2.
Proof.
  intros Hv Hl [H1 H2]. split; [| done]. apply Forall_app. split.
  - eapply Forall_impl; [exact Hl |]. intros x Hx. simpl in Hx.
    by apply (compare_trans _ d).
  - constructor; done.
Qed.

Lemma find_loop_spec v n : forall c res w,
  StronglySorted lt_elem (elems n) ->
  find_loop v n (m_parent (ip_of c)) (default LEFT (m_child (ip_of c))) = (res, w) ->
  match res with
  | Some a => exists l1 d l2, elems n = l1 ++ (a, d) :: l2 /\ compare v d = 0 /\
      w = IP (Some a) None
  | None => exists c' l1 l2, plug Leaf c' = plug n c /\ w = ip_of c' /\ straddles v l1 l2 /\
      elems n = l1 ++ l2 /\ before c' = before c ++ l1 /\ after c' = l2 ++ after c
  end.
Proof.
  induction n as [| a b d l IHl r IHr]; intros c res w Hs; cbn [find_loop].
  { intros [= <- <-]. exists c, [], []. rewrite !app_nil_r. split; [done |].
    split; [by destruct c as [| [[] ? ? ? ?] ?] |]. split; [by split | done]. }
  cbn [elems] in Hs |- *. apply sorted_app_inv in Hs as (Hsl & Hsr & Hl & Hr).
  pose proof (compare_range v d) as Hrange.
  destruct (Z.eqb_spec (compare v d) 0) as [E | E].
  { intros [= <- <-]. by exists (elems l), d, (elems r). }
  unfold balance2child. destruct (Z.eqb_spec (1 + compare v d) 2) as [E2 | E2]; intros H.
  - apply (IHr (Frame RIGHT a b d l :: c)) in H; [| done]. destruct res as [q |].
    + destruct H as (l1 & d' & l2 & -> & ? & ?).
      exists (elems l ++ (a, d) :: l1), d', l2. by rewrite <- app_assoc.
    + destruct H as (c' & l1 & l2 & Hp & -> & Hst & -> & Hb & Ha).
      exists c', (elems l ++ (a, d) :: l1), l2. split; [done |]. split; [done |].
      split; [apply straddles_right; auto; apply compare_lt_sym; lia |].
      rewrite Hb, Ha. by list_simpl.
  - apply (IHl (Frame LEFT a b d r :: c)) in H; [| done]. destruct res as [q |].
    + destruct H as (l1 & d' & l2 & -> & ? & ?).
      exists l1, d', (l2 ++ (a, d) :: elems r). by rewrite <- app_assoc.
    + destruct H as (c' & l1 & l2 & Hp & -> & Hst & -> & Hb & Ha).
      exists c', l1, (l2 ++ (a, d) :: elems r). split; [done |]. split; [done |].
      split; [apply straddles_left; auto; lia |].
      rewrite Hb, Ha. by list_simpl.
Qed.

Lemma find_spec T v : StronglySorted lt_elem (elems (m_root T)) ->
  match find T v with
  | (Some a, w) => w = index_null /\
      exists l1 d l2, elems (m_root T) = l1 ++ (a, d) :: l2 /\ compare v d = 0
  | (None, w) => exists l1 l2, hole T w l1 l2 /\ straddles v l1 l2
  end.
Proof.
  intros Hs. unfold find, find_node.
  destruct (find_loop v (m_root T) None LEFT) as [res w] eqn:E.
  apply (find_loop_spec v _ []) in E; [| done]. destruct res as [a |].
  - destruct E as (l1 & d & l2 & ? & ? & _). eauto 10.
  - destruct E as (c & l1 & l2 & Hp & -> & Hst & He & Hb & Ha).
    exists l1, l2. split; [| done]. exists c. simpl in *.
    rewrite Ha, app_nil_r. auto.
Qed.

(** The context of a hole, seen from the parent node the insertion point names. *)
Lemma hole_parent T f c :
  NoDup (elems (m_root T)).*1 -> m_root T = plug Leaf (f :: c) ->
  locate (f_addr f) (m_root T) [] = Some (c, mk f Leaf).
Proof.
  intros Hnd Hr. rewrite Hr in *. simpl in *. rewrite elems_plug, elems_mk in Hnd.
  assert (Hn : f_addr f ∉ (before c).*1 /\ f_addr f ∉ (after c).*1).
  { destruct (f_which f); simpl in Hnd; rewrite ?app_nil_r in Hnd.
    - apply nodup_fst_middle in Hnd. rewrite fmap_app in Hnd. set_solver.
    - rewrite <- !app_assoc, app_assoc in Hnd. simpl in Hnd.
      apply nodup_fst_middle in Hnd. rewrite fmap_app in Hnd. set_solver. }
  rewrite locate_plug by tauto. unfold mk. rewrite app_nil_r.
  destruct (f_which f); simpl; by rewrite decide_True.
Qed.

Lemma nearest_hole T w l1 l2 dir :
  NoDup (elems (m_root T)).*1 -> elems (m_root T) <> [] -> hole T w l1 l2 ->
  nearest T w dir = to_ptr (fst <$> match dir with BEFORE => last l1 | AFTER => head l2 end).
Proof.
  intros Hnd Hne (c & Hr & -> & <- & <-).
  destruct c as [| f c]; [rewrite Hr in Hne; done |].
  pose proof (hole_parent T f c Hnd Hr) as Hloc.
  unfold nearest. rewrite decide_False by (intros [=]). cbn [ip_of m_child m_parent].
  destruct dir; simpl; case_decide as Hw.
  - injection Hw as Hw. rewrite Hloc. unfold mk. rewrite Hw. simpl.
    by rewrite climb_before, app_nil_r.
  - assert (f_which f = RIGHT) as -> by (by destruct (f_which f)).
    by rewrite app_assoc, last_snoc.
  - injection Hw as Hw. rewrite Hloc. unfold mk. rewrite Hw. simpl.
    by rewrite climb_after.
  - assert (f_which f = LEFT) as -> by (by destruct (f_which f)). done.
Qed.

(** Inserting at a hole: the new node appears between its neighbours, nothing else
    moves, and the tree is balanced again. *)
Lemma insert_at_hole T w l1 l2 new d :
  balanced (m_root T) -> NoDup (elems (m_root T)).*1 -> hole T w l1 l2 ->
  exists T', insert_at T new d w = Some T' /\ balanced (m_root T') /\
    elems (m_root T') = l1 ++ (new, d) :: l2 /\ m_num_nodes T' = u32 (m_num_nodes T + 1).
Proof.
  intros Hbal Hnd (c & Hr & -> & <- & <-). unfold insert_at. destruct c as [| f c]; simpl.
  { rewrite Hr. eexists. split; [done |]. simpl. repeat split; lia. }
  rewrite (hole_parent T f c Hnd Hr). simpl.
  assert (get (mk f Leaf) (f_which f) = Leaf) as ->.
  { unfold mk. destruct (f_which f) eqn:E; simpl; done. }
  assert (frame_of (mk f Leaf) (f_which f) = Some f) as ->.
  { unfold mk. destruct f as [[] ? ? ? ?]; done. }
  rewrite Hr in Hbal. apply plug_balanced in Hbal as [_ Hc].
  destruct (insert_fix_balanced (f :: c) (Node new 0 d Leaf Leaf) 0) as (t & Ht & Hb).
  { simpl. repeat split; lia. } { done. } { by right. } { lia. } { done. }
  pose proof (insert_fix_elems _ _ _ Ht) as He.
  cbn [insert_fix] in Ht. cbn [insert_fix]. rewrite Ht. simpl.
  eexists. split; [done |]. simpl. split; [done |]. split; [| done]. by rewrite He.
Qed.

(** ** [insert_here] and [remove_node] *)

Lemma leaf_dec n : {n = Leaf} + {n <> Leaf}.
Proof. destruct n; [by left | by right]. Qed.

Lemma before_app c1 c2 : before (c1 ++ c2) = before c2 ++ before c1.
Proof. induction c1; simpl; [by rewrite app_nil_r | by rewrite IHc1, app_assoc]. Qed.
Lemma after_app c1 c2 : after (c1 ++ c2) = after c1 ++ after c2.
Proof. induction c1; simpl; [done | by rewrite IHc1, app_assoc]. Qed.

(** [descend] reaches the far node of a subtree: the elements around it, and the node
    itself, make up the subtree, and it has no child on that side. *)
Lemma descend_spec right n : forall c, n <> Leaf ->
  exists c1 a b d l r, descend right n c = (c1 ++ c, Node a b d l r) /\
    plug (Node a b d l r) c1 = n /\ far right n = Some a /\
    match right with
    | LEFT => l = Leaf /\ before c1 = []
    | RIGHT => r = Leaf /\ after c1 = []
    end.
Proof.
  induction n as [| a b d l IHl r IHr]; intros c Hn; [done |].
  destruct right; simpl.
  - destruct l as [| la lb ld ll lr] eqn:El.
    + exists [], a, b, d, Leaf, r. done.
    + destruct (IHl (Frame LEFT a b d r :: c)) as (c1 & a' & b' & d' & l' & r' & H & H2 & H3 & H4 & H5);
        [done |].
      exists (c1 ++ [Frame LEFT a b d r]), a', b', d', l', r'.
      rewrite H, <- app_assoc, plug_app, H2, before_app, H5. done.
  - destruct r as [| ra rb rd rl rr] eqn:Er.
    + exists [], a, b, d, l, Leaf. done.
    + destruct (IHr (Frame RIGHT a b d l :: c)) as (c1 & a' & b' & d' & l' & r' & H & H2 & H3 & H4 & H5);
        [done |].
      exists (c1 ++ [Frame RIGHT a b d l]), a', b', d', l', r'.
      rewrite H, <- app_assoc, plug_app, H2, after_app, H5. done.
Qed.

(** Inserting right after an element. *)
Lemma insert_here_after T p e l1 l2 new d :
  balanced (m_root T) -> NoDup (elems (m_root T)).*1 ->
  elems (m_root T) = l1 ++ (p, e) :: l2 ->
  exists T', insert_here T new d p AFTER = Some T' /\ balanced (m_root T') /\
    elems (m_root T') = l1 ++ (p, e) :: (new, d) :: l2 /\
    m_num_nodes T' = u32 (m_num_nodes T + 1).
Proof.
  intros Hbal Hnd He.
  destruct (locate_elems T p e l1 l2 Hnd He) as (c & b & l & r & Hloc & Hr & <- & <-).
  unfold insert_here. rewrite Hloc. cbn [get dir_child flip].
  destruct (leaf_dec r) as [-> | Hne].
  - destruct (insert_at_hole T (IP (Some p) (Some RIGHT))
      (before c ++ elems l ++ [(p, e)]) (after c) new d) as (T' & -> & ? & He' & ?); auto.
    { by exists (Frame RIGHT p b e l :: c). }
    exists T'. repeat split; auto. rewrite He'. by list_simpl.
  - destruct (descend_spec LEFT r [] Hne)
      as (c1 & a' & b' & d' & l' & r' & _ & Hp & Hfar & -> & Hb).
    destruct (insert_at_hole T (IP (Some a') (Some LEFT))
      (before c ++ elems l ++ [(p, e)]) (elems r ++ after c) new d) as (T' & HT & ? & He' & ?); auto.
    { exists (Frame LEFT a' b' d' r' :: c1 ++ Frame RIGHT p b e l :: c). simpl.
      rewrite plug_app, before_app, after_app, app_nil_r, Hb. unfold mk at 1. simpl.
      rewrite Hp, Hr, <- Hp, elems_plug, Hb. repeat split; auto; by list_simpl. }
    exists T'. split.
    { destruct r; [done |]. by rewrite Hfar. }
    repeat split; auto. rewrite He'. by list_simpl.
Qed.

Lemma ctx_balanced_sub c1 : forall n c2, balanced (plug n (c1 ++ c2)) ->
  ctx_balanced c1 (height n) /\ ctx_balanced c2 (height (plug n c1)).
Proof.
  intros n c2. rewrite plug_app. intros [H1 H2]%plug_balanced.
  by apply plug_balanced in H1 as [? ?].
Qed.

Lemma ctx_balanced_app c1 c2 : forall n,
  ctx_balanced c1 (height n) -> ctx_balanced c2 (height (plug n c1)) ->
  ctx_balanced (c1 ++ c2) (height n).
Proof.
  induction c1 as [| f c1 IH]; intros n H1 H2; simpl in *; [done |].
  destruct H1 as (? & ? & ? & H1). repeat split; auto; try lia.
  replace (1 + Z.max (height n) (height (f_sib f))) with (height (mk f n)) in *.
  - by apply IH.
  - unfold mk. destruct (f_which f); simpl; lia.
Qed.

Lemma only_child_spec a b d (l r : tree A) : balanced (Node a b d l r) -> l = Leaf \/ r = Leaf ->
  balanced (only_child (Node a b d l r)) /\
  height (only_child (Node a b d l r)) = height (Node a b d l r) - 1 /\
  elems (only_child (Node a b d l r)) = elems l ++ elems r.
Proof.
  intros (_ & _ & Hl & Hr) [-> | ->]; unfold only_child; simpl.
  - pose proof (height_nonneg r). repeat split; auto; lia.
  - rewrite app_nil_r. destruct l as [| la lb ld ll lr]; [simpl; repeat split; auto; lia |].
    pose proof (height_nonneg (Node la lb ld ll lr)).
    cbn [height] in *. repeat split; auto; try lia; apply Hl.
Qed.

(** The node that is unlinked in place of [n]: it has at most one child, and removing it
    from its context removes exactly the element of [n]. *)
Lemma removal_target_spec p b e l r c :
  balanced (Node p b e l r) -> ctx_balanced c (height (Node p b e l r)) ->
  exists c' a' b' d' l' r', removal_target (Node p b e l r) c = (c', Node a' b' d' l' r') /\
    (l' = Leaf \/ r' = Leaf) /\ balanced (Node a' b' d' l' r') /\
    ctx_balanced c' (height (Node a' b' d' l' r')) /\
    before c' ++ (elems l' ++ elems r') ++ after c' = (before c ++ elems l) ++ elems r ++ after c.
Proof.
  intros Hn Hc. destruct (leaf_dec l) as [-> | Hl].
  { exists c, p, b, e, Leaf, r. simpl. rewrite app_nil_r. repeat split; auto; apply Hn. }
  destruct (leaf_dec r) as [-> | Hr].
  { exists c, p, b, e, l, Leaf. unfold removal_target. destruct l; [done |].
    simpl. rewrite !app_nil_r, app_assoc. repeat split; auto; apply Hn. }
  destruct Hn as (Hb1 & Hb2 & Hbl & Hbr).
  destruct (balance2child (b + 1)) eqn:Eb.
  - destruct (descend_spec RIGHT l [] Hl) as (c1 & a' & b' & d' & l' & r' & Hd & Hp & _ & -> & Ha).
    rewrite app_nil_r in Hd. pose proof Hbl as Hbl'. rewrite <- Hp in Hbl'.
    apply plug_balanced in Hbl' as [Hn1 Hc1].
    exists (c1 ++ Frame LEFT a' b d' r :: c), a', b', d', l', Leaf. split.
    { unfold removal_target. destruct l, r; try done. cbn [get bal]. rewrite Eb.
      cbn [flip get]. by rewrite Hd. }
    split; [by right |]. split; [done |]. split.
    + apply ctx_balanced_app; [done |]. rewrite Hp. simpl. repeat split; auto; lia.
    + rewrite before_app, after_app, Ha. simpl. rewrite <- Hp, elems_plug, Ha. by list_simpl.
  - destruct (descend_spec LEFT r [] Hr) as (c1 & a' & b' & d' & l' & r' & Hd & Hp & _ & -> & Ha).
    rewrite app_nil_r in Hd. pose proof Hbr as Hbr'. rewrite <- Hp in Hbr'.
    apply plug_balanced in Hbr' as [Hn1 Hc1].
    exists (c1 ++ Frame RIGHT a' b d' l :: c), a', b', d', Leaf, r'. split.
    { unfold removal_target. destruct l, r; try done. cbn [get bal]. rewrite Eb.
      cbn [flip get]. by rewrite Hd. }
    split; [by left |]. split; [done |]. split.
    + apply ctx_balanced_app; [done |]. rewrite Hp. simpl. repeat split; auto; try lia.
      by rewrite Z.max_comm.
    + rewrite before_app, after_app, Ha. simpl. rewrite <- Hp, elems_plug, Ha. by list_simpl.
Qed.

(** Removing a node: the elements left and right of it close up and keep their nodes,
    and the tree is balanced again. *)
Lemma remove_node_spec T p e l1 l2 :
  balanced (m_root T) -> NoDup (elems (m_root T)).*1 -> 0 < m_num_nodes T ->
  elems (m_root T) = l1 ++ (p, e) :: l2 ->
  exists T', remove_node T p = Some T' /\ balanced (m_root T') /\
    elems (m_root T') = l1 ++ l2 /\ m_num_nodes T' = m_num_nodes T - 1.
Proof.
  intros Hbal Hnd Hnum He.
  destruct (locate_elems T p e l1 l2 Hnd He) as (c & b & l & r & Hloc & Hr & <- & <-).
  unfold remove_node. rewrite Hloc.
  rewrite Hr in Hbal. apply plug_balanced in Hbal as [Hn Hc].
  destruct (removal_target_spec _ _ _ _ _ _ Hn Hc)
    as (c' & a' & b' & d' & l' & r' & -> & Hone & Hn' & Hc' & Hels).
  destruct (only_child_spec _ _ _ _ _ Hn' Hone) as (Ho1 & Ho2 & Ho3).
  rewrite (proj2 (Z.leb_gt _ _)) by lia.
  destruct (remove_fix_balanced c' _ _ Ho1 Ho2 Hc') as (t & Ht & Hbt).
  rewrite Ht. simpl. eexists. split; [done |]. simpl. split; [done |]. split; [| done].
  rewrite (remove_fix_elems _ _ _ Ht), Ho3. done.
Qed.

(** ** Element pointers *)

Lemma deref_elems T p d l1 l2 :
  NoDup (elems (m_root T)).*1 -> elems (m_root T) = l1 ++ (p, d) :: l2 -> deref T p = Some d.
Proof.
  intros Hnd He. destruct (locate_elems T p d l1 l2 Hnd He) as (c & b & l & r & H & _).
  unfold deref. by rewrite H.
Qed.

Lemma store_tree_elems p f t :
  elems (store_tree p f t) =
  (fun x => (x.1, if decide (x.1 = p) then f x.2 else x.2)) <$> elems t.
Proof. induction t as [| a b d l IHl r IHr]; simpl; [done |]. by rewrite IHl, IHr, fmap_app. Qed.

Lemma store_tree_balanced p f t :
  balanced t -> balanced (store_tree p f t) /\ height (store_tree p f t) = height t.
Proof.
  induction t as [| a b d l IHl r IHr]; simpl; [done |].
  intros (? & ? & [? ->]%IHl & [? ->]%IHr). repeat split; auto; lia.
Qed.

Lemma store_elems T p f d l1 l2 :
  NoDup (elems (m_root T)).*1 -> elems (m_root T) = l1 ++ (p, d) :: l2 ->
  elems (m_root (store T p f)) = l1 ++ (p, f d) :: l2.
Proof.
  intros Hnd He. simpl. rewrite store_tree_elems, He.
  rewrite He in Hnd. apply nodup_fst_middle in Hnd as [H1 H2].
  rewrite fmap_app, fmap_cons. simpl. rewrite decide_True by done.
  assert (Hid : forall k : list (addr * A), p ∉ k.*1 ->
    (fun x => (x.1, if decide (x.1 = p) then f x.2 else x.2)) <$> k = k).
  { clear. induction k as [| [q e] k IH]; csimpl; intros Hp; [done |].
    rewrite decide_False, IH by set_solver. done. }
  by rewrite !Hid.
Qed.

(** ** The well-formedness invariant is preserved *)

Lemma sorted_insert (l1 l2 : list (addr * A)) q v :
  StronglySorted lt_elem (l1 ++ l2) -> straddles v l1 l2 ->
  StronglySorted lt_elem (l1 ++ (q, v) :: l2).
Proof.
  intros Hs [H1 H2]. induction l1 as [| x l1 IH]; simpl in *.
  - constructor; [done |]. exact H2.
  - apply StronglySorted_inv in Hs as [Hs Hx]. apply Forall_cons in H1 as [Hxv H1].
    constructor; [auto |]. apply Forall_app in Hx as [? ?].
    apply Forall_app. split; [done |]. by constructor.
Qed.

Lemma sorted_delete (l1 l2 : list (addr * A)) x :
  StronglySorted lt_elem (l1 ++ x :: l2) -> StronglySorted lt_elem (l1 ++ l2).
Proof.
  induction l1 as [| y l1 IH]; simpl; intros H; apply StronglySorted_inv in H as [H Hy]; [done |].
  constructor; [auto |]. apply Forall_app in Hy as [? Hy].
  apply Forall_cons in Hy as [_ ?]. by apply Forall_app.
Qed.

Lemma nodup_insert (l1 l2 : list (addr * A)) q v :
  NoDup (l1 ++ l2).*1 -> q ∉ (l1 ++ l2).*1 -> NoDup (l1 ++ (q, v) :: l2).*1.
Proof.
  intros Hnd Hq. rewrite fmap_app, fmap_cons in *. simpl.
  rewrite <- Permutation_middle. by constructor.
Qed.

Lemma nodup_delete (l1 l2 : list (addr * A)) x :
  NoDup (l1 ++ x :: l2).*1 -> NoDup (l1 ++ l2).*1.
Proof.
  rewrite !fmap_app, fmap_cons, <- Permutation_middle. by intros [_ ?]%NoDup_cons.
Qed.

Lemma u32_succ z : u32 (u32 z + 1) = u32 (z + 1).
Proof. unfold u32. by rewrite Zplus_mod_idemp_l. Qed.

Lemma wf_insert T T' l1 l2 q v :
  wf T -> elems (m_root T) = l1 ++ l2 -> straddles v l1 l2 -> q ∉ (elems (m_root T)).*1 ->
  balanced (m_root T') -> elems (m_root T') = l1 ++ (q, v) :: l2 ->
  m_num_nodes T' = u32 (m_num_nodes T + 1) -> wf T'.
Proof.
  intros [Hb Hs Hnd Hn] He Hst Hq Hb' He' Hn'. rewrite He in *. constructor; rewrite ?He'; auto.
  - by apply sorted_insert.
  - by apply nodup_insert.
  - rewrite Hn', Hn, u32_succ. f_equal. rewrite !length_app. simpl. lia.
Qed.

Lemma wf_delete T T' l1 l2 p e :
  wf T -> elems (m_root T) = l1 ++ (p, e) :: l2 ->
  Z.of_nat (length (elems (m_root T))) < 2 ^ 32 ->
  balanced (m_root T') -> elems (m_root T') = l1 ++ l2 ->
  m_num_nodes T' = m_num_nodes T - 1 -> wf T'.
Proof.
  intros [Hb Hs Hnd Hn] He Hlen Hb' He' Hn'. rewrite He in *.
  constructor; rewrite ?He'; auto.
  - by eapply sorted_delete.
  - by eapply nodup_delete.
  - rewrite length_app in *. simpl in *. rewrite Hn', Hn, !u32_small; lia.
Qed.

Lemma wf_size_pos T : wf T -> Z.of_nat (length (elems (m_root T))) < 2 ^ 32 ->
  elems (m_root T) <> [] -> 0 < m_num_nodes T.
Proof.
  intros [_ _ _ ->] Hlen Hne. rewrite u32_small by lia. destruct (elems _); [done |]. simpl. lia.
Qed.

Lemma sorted_replace (l1 l2 : list (addr * A)) p d d' :
  (forall x, compare d' x = compare d x) ->
  StronglySorted lt_elem (l1 ++ (p, d) :: l2) -> StronglySorted lt_elem (l1 ++ (p, d') :: l2).
Proof.
  intros Hd H. pose proof H as (_ & _ & H1 & H2)%sorted_app_inv.
  apply sorted_insert; [by eapply sorted_delete |]. split.
  - eapply Forall_impl; [exact H1 |]. unfold lt_elem. simpl. intros x Hx.
    apply compare_lt_sym. rewrite Hd. by apply compare_lt_sym.
  - eapply Forall_impl; [exact H2 |]. unfold lt_elem. simpl. intros x Hx. by rewrite Hd.
Qed.

Lemma wf_store T p f d l1 l2 :
  wf T -> elems (m_root T) = l1 ++ (p, d) :: l2 ->
  (forall x, compare (f d) x = compare d x) -> wf (store T p f).
Proof.
  intros [Hb Hs Hnd Hn] He Hf. pose proof (store_elems T p f d l1 l2 Hnd He) as He'.
  constructor; rewrite ?He'.
  - by apply store_tree_balanced.
  - rewrite He in Hs. by eapply sorted_replace.
  - rewrite He in Hnd. rewrite fmap_app in *. done.
  - simpl. rewrite Hn, He. by rewrite !length_app.
Qed.

(** ** Height *)

Lemma size_elems a b d (l r : tree A) :
  Z.of_nat (length (elems (Node a b d l r))) + 1 =
  (Z.of_nat (length (elems l)) + 1) + (Z.of_nat (length (elems r)) + 1).
Proof. simpl. rewrite length_app. simpl. lia. Qed.

Lemma height_size t : balanced t -> 2 ^ height t <= (Z.of_nat (length (elems t)) + 1) ^ 2.
Proof.
  induction t as [| a b d l IHl r IHr]; [simpl; lia |].
  intros (Hb & Hd & Hl & Hr). rewrite size_elems.
  specialize (IHl Hl). specialize (IHr Hr). cbn [height].
  set (sl := Z.of_nat (length (elems l)) + 1) in *.
  set (sr := Z.of_nat (length (elems r)) + 1) in *.
  assert (0 < sl /\ 0 < sr) as [? ?] by lia.
  pose proof (height_nonneg l). pose proof (height_nonneg r).
  set (m := Z.min (height l) (height r)).
  assert (Hm : 2 ^ (1 + Z.max (height l) (height r)) <= 4 * 2 ^ m).
  { replace 4 with (2 ^ 2) by done. rewrite <- Z.pow_add_r by lia.
    apply Z.pow_le_mono_r; lia. }
  assert (2 ^ m <= 2 ^ height l) by (apply Z.pow_le_mono_r; lia).
  assert (2 ^ m <= 2 ^ height r) by (apply Z.pow_le_mono_r; lia).
  nia.
Qed.

(** Following [next] from an element, at most [fuel] times. *)
Fixpoint iterate (T : avltree A) (fuel : nat) (p : ptr) : list addr :=
  match fuel, p with
  | S fuel, Ptr a => a :: iterate T fuel (next T a)
  | _, _ => []
  end.

Lemma iterate_suffix T l2 : forall l1 fuel,
  NoDup (elems (m_root T)).*1 -> elems (m_root T) = l1 ++ l2 -> (length l2 < fuel)%nat ->
  iterate T fuel (to_ptr (fst <$> head l2)) = l2.*1.
Proof.
  induction l2 as [| [p d] l2 IH]; intros l1 fuel Hnd He Hf; destruct fuel; simpl in *; try lia; [done |].
  rewrite (next_elems T p d l1 l2) by done.
  rewrite (IH (l1 ++ [(p, d)]) fuel); [done | done | by rewrite <- app_assoc | lia].
Qed.

(** *** The operations that change the tree keep it well formed *)

Lemma wf_add T v new :
  wf T -> fst (find T v) = None -> new ∉ (elems (m_root T)).*1 ->
  exists T' l1 l2, add T new v = Some T' /\ wf T' /\
    elems (m_root T) = l1 ++ l2 /\ elems (m_root T') = l1 ++ (new, v) :: l2 /\
    straddles v l1 l2.
Proof.
  intros Hwf Hfind Hnew. pose proof (find_spec T v (wf_sorted T Hwf)) as Hf.
  unfold add. destruct (find T v) as [[a |] w]; [done |].
  destruct Hf as (l1 & l2 & Hh & Hst). pose proof (hole_elems _ _ _ _ Hh) as He.
  destruct (insert_at_hole T w l1 l2 new v) as (T' & -> & Hb & He' & Hn);
    [apply Hwf | apply Hwf | done |].
  exists T', l1, l2. split; [done |]. split; [by eapply wf_insert | done].
Qed.

Lemma wf_remove_node T p e l1 l2 :
  wf T -> Z.of_nat (length (elems (m_root T))) < 2 ^ 32 ->
  elems (m_root T) = l1 ++ (p, e) :: l2 ->
  exists T', remove_node T p = Some T' /\ wf T' /\ elems (m_root T') = l1 ++ l2.
Proof.
  intros Hwf Hlen He.
  destruct (remove_node_spec T p e l1 l2) as (T' & H & Hb & He' & Hn);
    [apply Hwf | apply Hwf | apply wf_size_pos; auto; rewrite He; by destruct l1 | done |].
  exists T'. split; [done |]. split; [by eapply wf_delete | done].
Qed.

(** no element of a list that straddles [v] compares equal to it *)
Lemma straddles_absent v l1 l2 : straddles v l1 l2 ->
  Forall (fun x => compare v x.2 <> 0) (l1 ++ l2).
Proof.
  intros [H1 H2]. apply Forall_app. split.
  - eapply Forall_impl; [exact H1 |]. intros x Hx. simpl in Hx. apply compare_lt_sym in Hx. lia.
  - eapply Forall_impl; [exact H2 |]. intros x Hx. simpl in Hx. lia.
Qed.

Lemma wf_remove T v :
  wf T -> Z.of_nat (length (elems (m_root T))) < 2 ^ 32 ->
  exists T', remove T v = Some T' /\ wf T' /\
    ((exists l1 p d l2, elems (m_root T) = l1 ++ (p, d) :: l2 /\ compare v d = 0 /\
        elems (m_root T') = l1 ++ l2) \/
     (Forall (fun x => compare v x.2 <> 0) (elems (m_root T)) /\ T' = T)).
Proof.
  intros Hwf Hlen. unfold remove, find_node.
  destruct (find_loop v (m_root T) None LEFT) as [res w] eqn:Hf.
  apply (find_loop_spec v (m_root T) []) in Hf; [| apply Hwf]. destruct res as [a |].
  - destruct Hf as (l1 & d & l2 & He & Hd & ->).
    destruct (wf_remove_node T a d l1 l2) as (T' & HT & Hw & He'); [done .. |].
    exists T'. split; [exact HT |]. split; [done |]. left. by exists l1, a, d, l2.
  - destruct Hf as (c' & l1 & l2 & _ & _ & Hst & He & _).
    exists T. split; [done |]. split; [done |]. right. split; [| done].
    rewrite He. by apply straddles_absent.
Qed.

(** The trees that a client of avl.hpp can have: what [add], [remove] and
    [remove_node] make of the empty tree. A node that is added is not a node of the
    tree, and a node that is removed is one; a tree has fewer than 2^32 nodes. *)
Inductive built : avltree A -> Prop :=
| built_empty : built empty
| built_add T new v T' : built T -> new ∉ (elems (m_root T)).*1 ->
    add T new v = Some T' -> built T'
| built_remove T v T' : built T -> Z.of_nat (length (elems (m_root T))) < 2 ^ 32 ->
    remove T v = Some T' -> built T'
| built_remove_node T p T' : built T -> Z.of_nat (length (elems (m_root T))) < 2 ^ 32 ->
    p ∈ (elems (m_root T)).*1 -> remove_node T p = Some T' -> built T'.

Lemma built_wf T : built T -> wf T.
Proof.
  induction 1 as [| T new v T' _ IH Hnew Hadd | T v T' _ IH Hlen Hrem | T p T' _ IH Hlen Hp Hrem].
  - constructor; [done | constructor | constructor | done].
  - assert (Hf : fst (find T v) = None).
    { unfold add in Hadd. by destruct (find T v) as [[a |] w]. }
    destruct (wf_add T v new IH Hf Hnew) as (T2 & ? & ? & E & Hw & _). congruence.
  - destruct (wf_remove T v IH Hlen) as (T2 & E & Hw & _). congruence.
  - apply list_elem_of_fmap in Hp as ([q e] & -> & Hin). apply list_elem_of_split in Hin as (l1 & l2 & He).
    destruct (wf_remove_node T q e l1 l2 IH Hlen He) as (T2 & E & Hw & _).
    simpl in Hrem. congruence.
Qed.

(** ** Properties of the tree *)

(** C20: adding an element that is not in a well-formed tree succeeds (no assertion
    fails and no null child is dereferenced by a rotation), puts a new node at its
    sorted place between the smaller and the larger elements without moving any
    other node, and keeps the tree balanced, sorted and correctly counted. *)
Theorem avl_add_correct (T : avltree A) (v : A) (new : addr) :
  wf T -> fst (find T v) = None -> new ∉ (elems (m_root T)).*1 ->
  exists T' l1 l2, add T new v = Some T' /\ wf T' /\
    elems (m_root T) = l1 ++ l2 /\ elems (m_root T') = l1 ++ (new, v) :: l2 /\
    straddles v l1 l2.
Proof. apply wf_add. Qed.

(** C21: on a well-formed tree of fewer than 2^32 nodes, [remove(data)] succeeds: when
    an element compares equal to [data] it removes that element and leaves every other
    one in its own node, and when none does it changes nothing; removing a node of the
    tree ([remove_node]) removes exactly that node. Both keep the tree balanced, sorted
    and correctly counted. *)
Theorem avl_remove_correct (T : avltree A) (v : A) :
  wf T -> Z.of_nat (length (elems (m_root T))) < 2 ^ 32 ->
  (exists T', remove T v = Some T' /\ wf T' /\
    ((exists l1 p d l2, elems (m_root T) = l1 ++ (p, d) :: l2 /\ compare v d = 0 /\
        elems (m_root T') = l1 ++ l2) \/
     (Forall (fun x => compare v x.2 <> 0) (elems (m_root T)) /\ T' = T))) /\
  (forall l1 p e l2, elems (m_root T) = l1 ++ (p, e) :: l2 ->
    exists T', remove_node T p = Some T' /\ wf T' /\ elems (m_root T') = l1 ++ l2).
Proof.
  intros Hwf Hlen. split; [by apply wf_remove |]. intros l1 p e l2. by apply wf_remove_node.
Qed.

(** C22: a search in a well-formed tree that is not empty either returns a node whose
    element compares equal, or an insertion point whose [nearest] neighbours are the
    greatest smaller and the least greater element. *)
Theorem avl_search_correct (T : avltree A) (v : A) :
  wf T -> elems (m_root T) <> [] ->
  match find T v with
  | (Some a, _) => exists d, (a, d) ∈ elems (m_root T) /\ compare v d = 0
  | (None, w) => exists l1 l2, elems (m_root T) = l1 ++ l2 /\ straddles v l1 l2 /\
      nearest T w BEFORE = to_ptr (fst <$> last l1) /\
      nearest T w AFTER = to_ptr (fst <$> head l2)
  end.
Proof.
  intros Hwf Hne. pose proof (find_spec T v (wf_sorted T Hwf)) as Hf.
  destruct (find T v) as [[a |] w].
  - destruct Hf as (_ & l1 & d & l2 & He & Hd). exists d. rewrite He. split; [set_solver | done].
  - destruct Hf as (l1 & l2 & Hh & Hst). exists l1, l2.
    split; [by eapply hole_elems |]. split; [done |].
    split; [apply (nearest_hole T w l1 l2 BEFORE) | apply (nearest_hole T w l1 l2 AFTER)];
      auto; apply Hwf.
Qed.

(** following [next] from [first_node] visits every node of a well-formed tree once,
    in increasing order, and then reaches null. *)
Theorem avl_iteration_complete (T : avltree A) :
  wf T ->
  iterate T (S (length (elems (m_root T)))) (to_ptr (first_node T)) = (elems (m_root T)).*1.
Proof.
  intros Hwf. unfold first_node. rewrite far_head.
  apply (iterate_suffix T _ []); [apply Hwf | done | lia].
Qed.

(** C37: however a tree was made from the empty one by [add], [remove] and
    [remove_node] (never more than 2^32 - 1 nodes when one is removed), its height is at
    most twice the logarithm of its number of nodes, [2^height <= (n + 1)^2], and its
    counter is that number modulo 2^32. *)
Theorem avl_height_bound (T : avltree A) :
  built T ->
  2 ^ height (m_root T) <= (Z.of_nat (length (elems (m_root T))) + 1) ^ 2 /\
  m_num_nodes T = u32 (Z.of_nat (length (elems (m_root T)))).
Proof. intros Hwf%built_wf. split; [apply height_size, Hwf | apply Hwf]. Qed.

(** On an empty tree the insertion point of a failed search has no [AFTER]
    neighbour that may be dereferenced: [nearest] returns the address of a field of a
    null node instead of a null pointer. *)
Theorem avl_nearest_empty_wild (v : A) :
  let w := snd (find (@empty A) v) in
  fst (find (@empty A) v) = None /\ nearest (@empty A) w BEFORE = Null /\
  nearest (@empty A) w AFTER = Wild.
Proof. done. Qed.

End Proofs.

(** ** Witnesses, on integer elements *)

#[export] Program Instance Z_comparable : Comparable Z := {
  compare x y := int_compare x y }.
Solve All Obligations with intros; rewrite ?int_compare_sgn in *; lia.

Definition build (l : list (addr * Z)) : avltree Z :=
  foldl (fun T x => default T (add T x.1 x.2)) empty l.

Definition sample : avltree Z :=
  build [(1%positive, 10); (2%positive, 20); (3%positive, 30); (4%positive, 40);
         (5%positive, 50); (6%positive, 25)].

Lemma sample_wf : wf sample.
Proof.
  constructor; [vm_compute; intuition discriminate | repeat constructor | | reflexivity].
  apply (bool_decide_unpack _). vm_compute. exact I.
Qed.

Lemma avl_add_correct_witness :
  exists T' l1 l2, add sample 7 35 = Some T' /\ wf T' /\
    elems (m_root sample) = l1 ++ l2 /\ elems (m_root T') = l1 ++ (7%positive, 35) :: l2 /\
    straddles 35 l1 l2.
Proof.
  apply (avl_add_correct sample 35 7); [apply sample_wf | reflexivity |].
  apply (bool_decide_unpack _). vm_compute. exact I.
Defined.

Lemma avl_remove_correct_witness :
  (exists T', remove sample 20 = Some T' /\ wf T' /\
    ((exists l1 p d l2, elems (m_root sample) = l1 ++ (p, d) :: l2 /\ compare 20 d = 0 /\
        elems (m_root T') = l1 ++ l2) \/
     (Forall (fun x => compare 20 x.2 <> 0) (elems (m_root sample)) /\ T' = sample))) /\
  (exists T', remove_node sample 2 = Some T' /\ wf T' /\
    elems (m_root T') = [(1%positive, 10)] ++
      [(6%positive, 25); (3%positive, 30); (4%positive, 40); (5%positive, 50)]).
Proof.
  destruct (avl_remove_correct sample 20) as [H1 H2]; [apply sample_wf | vm_compute; reflexivity |].
  split; [exact H1 |]. apply (H2 _ _ 20). reflexivity.
Defined.

Lemma avl_search_correct_witness :
  match find sample 35 with
  | (Some a, _) => exists d, (a, d) ∈ elems (m_root sample) /\ compare 35 d = 0
  | (None, w) => exists l1 l2, elems (m_root sample) = l1 ++ l2 /\ straddles 35 l1 l2 /\
      nearest sample w BEFORE = to_ptr (fst <$> last l1) /\
      nearest sample w AFTER = to_ptr (fst <$> head l2)
  end.
Proof. apply (avl_search_correct sample 35); [apply sample_wf | discriminate]. Defined.

Lemma avl_iteration_complete_witness :
  iterate sample 7 (to_ptr (first_node sample)) = [1; 2; 6; 3; 4; 5]%positive.
Proof. apply (avl_iteration_complete sample). apply sample_wf. Defined.

(** the sample, with 10 removed again *)
Definition sample_less : avltree Z := default empty (remove sample 10).

Lemma build_built l : forall T, built T -> NoDup l.*1 ->
  (forall x, x ∈ l.*1 -> x ∉ (elems (m_root T)).*1) ->
  built (foldl (fun T x => default T (add T x.1 x.2)) T l).
Proof.
  induction l as [| [new v] l IH]; intros T HT Hnd Hx; simpl; [done |].
  simpl in Hnd. apply NoDup_cons in Hnd as [Hnew Hnd].
  destruct (add T new v) as [T' |] eqn:Hadd; simpl; [| apply IH; set_solver].
  assert (Hn : new ∉ (elems (m_root T)).*1) by set_solver.
  apply IH; [by eapply built_add | done |]. intros x Hin.
  assert (Hf : fst (find T v) = None) by (unfold add in Hadd; by destruct (find T v) as [[a |] w]).
  destruct (wf_add T v new (built_wf T HT) Hf Hn) as (T2 & l1 & l2 & E & _ & He & He' & _).
  assert (T2 = T') as -> by congruence. specialize (Hx x). rewrite He, fmap_app in Hx.
  rewrite He', fmap_app, fmap_cons. simpl. set_solver.
Qed.

Lemma sample_built : built sample.
Proof.
  apply build_built; [apply built_empty | apply (bool_decide_unpack _); vm_compute; exact I |].
  intros x _. apply not_elem_of_nil.
Qed.

Lemma avl_height_bound_witness :
  2 ^ height (m_root sample_less) <= (Z.of_nat (length (elems (m_root sample_less))) + 1) ^ 2 /\
  m_num_nodes sample_less = u32 (Z.of_nat (length (elems (m_root sample_less)))).
Proof.
  apply (avl_height_bound sample_less). apply (built_remove sample 10 sample_less);
    [apply sample_built | vm_compute; reflexivity | vm_compute; reflexivity].
Defined.

End Avl.

(** * What the tree promises to its clients

    A client sees node addresses, opaque insertion points, and a sorted sequence of
    addressed elements. *)
Class OrderedTree (A T : Type) {CA : Comparable A} := {
  ot_empty : T;
  ot_size : T -> Z;
  ot_find : T -> A -> option positive * Avl.insertion_point;
  ot_nearest : T -> Avl.insertion_point -> Avl.direction -> Avl.ptr;
  ot_next : T -> positive -> Avl.ptr;
  ot_insert_at : T -> positive -> A -> Avl.insertion_point -> option T;
  ot_insert_after : T -> positive -> A -> positive -> option T;
  ot_remove_node : T -> positive -> option T;
  ot_deref : T -> positive -> option A;
  ot_store : T -> positive -> (A -> A) -> T;

  contents : T -> list (positive * A);
  tree_ok : T -> Prop;
  position : T -> Avl.insertion_point -> list (positive * A) -> list (positive * A) -> Prop;

  ot_empty_ok : tree_ok ot_empty /\ contents ot_empty = [];
  ot_sorted t : tree_ok t -> StronglySorted Avl.lt_elem (contents t);
  ot_nodup t : tree_ok t -> NoDup (contents t).*1;
  ot_size_spec t : tree_ok t -> ot_size t = u32 (Z.of_nat (length (contents t)));
  ot_position_contents t w l1 l2 : position t w l1 l2 -> contents t = l1 ++ l2;
  ot_find_spec t v : tree_ok t ->
    match ot_find t v with
    | (Some a, w) => w = Avl.index_null /\
        exists l1 d l2, contents t = l1 ++ (a, d) :: l2 /\ compare v d = 0
    | (None, w) => exists l1 l2, position t w l1 l2 /\ Avl.straddles v l1 l2
    end;
  ot_nearest_spec t w l1 l2 dir : tree_ok t -> contents t <> [] -> position t w l1 l2 ->
    ot_nearest t w dir =
      Avl.to_ptr (fst <$> match dir with Avl.BEFORE => last l1 | Avl.AFTER => head l2 end);
  ot_nearest_empty t w dir : tree_ok t -> position t w [] [] ->
    ot_nearest t w dir = match dir with Avl.BEFORE => Avl.Null | Avl.AFTER => Avl.Wild end;
  ot_next_spec t p d l1 l2 : tree_ok t -> contents t = l1 ++ (p, d) :: l2 ->
    ot_next t p = Avl.to_ptr (fst <$> head l2);
  ot_insert_at_spec t w l1 l2 new v : tree_ok t -> position t w l1 l2 ->
    Avl.straddles v l1 l2 -> new ∉ (contents t).*1 ->
    exists t', ot_insert_at t new v w = Some t' /\ tree_ok t' /\
      contents t' = l1 ++ (new, v) :: l2;
  ot_insert_after_spec t p e l1 l2 new v : tree_ok t -> contents t = l1 ++ (p, e) :: l2 ->
    Avl.straddles v (l1 ++ [(p, e)]) l2 -> new ∉ (contents t).*1 ->
    exists t', ot_insert_after t new v p = Some t' /\ tree_ok t' /\
      contents t' = l1 ++ (p, e) :: (new, v) :: l2;
  ot_remove_spec t p e l1 l2 : tree_ok t -> Z.of_nat (length (contents t)) < 2 ^ 32 ->
    contents t = l1 ++ (p, e) :: l2 ->
    exists t', ot_remove_node t p = Some t' /\ tree_ok t' /\ contents t' = l1 ++ l2;
  ot_deref_spec t p d l1 l2 : tree_ok t -> contents t = l1 ++ (p, d) :: l2 ->
    ot_deref t p = Some d;
  ot_deref_none t p : p ∉ (contents t).*1 -> ot_deref t p = None;
  ot_store_spec t p f d l1 l2 : tree_ok t -> contents t = l1 ++ (p, d) :: l2 ->
    (forall x, compare (f d) x = compare d x) ->
    tree_ok (ot_store t p f) /\ contents (ot_store t p f) = l1 ++ (p, f d) :: l2
}.

(** The AVL tree keeps these promises. *)
#[export] Program Instance avl_ordered_tree {A} {CA : Comparable A}
  : OrderedTree A (Avl.avltree A) := {|
  ot_empty := Avl.empty;
  ot_size := Avl.size;
  ot_find := Avl.find;
  ot_nearest := Avl.nearest;
  ot_next := Avl.next;
  ot_insert_at := Avl.insert_at;
  ot_insert_after t new v p := Avl.insert_here t new v p Avl.AFTER;
  ot_remove_node := Avl.remove_node;
  ot_deref := Avl.deref;
  ot_store := Avl.store;
  contents t := Avl.elems (Avl.m_root t);
  tree_ok := Avl.wf;
  position := Avl.hole
|}.
Next Obligation. intros. split; [| done]. constructor; [done | constructor | constructor | done]. Qed.
Next Obligation. intros A CA t Hwf. apply Hwf. Qed.
Next Obligation. intros A CA t Hwf. apply Hwf. Qed.
Next Obligation. intros A CA t Hwf. apply Hwf. Qed.
Next Obligation. intros A CA t w l1 l2. apply Avl.hole_elems. Qed.
Next Obligation. intros A CA t v Hwf. apply Avl.find_spec, Hwf. Qed.
Next Obligation. intros A CA t w l1 l2 dir Hwf Hne Hp. by apply Avl.nearest_hole; [apply Hwf | |]. Qed.
Next Obligation.
  intros A CA t w dir Hwf (c & Hr & -> & Hb & Ha). destruct c as [| f c]; [by destruct dir |].
  simpl in Hb, Ha. destruct (Avl.f_which f); [done |].
  by apply app_eq_nil in Hb as [_ [_ ?]%app_eq_nil].
Qed.
Next Obligation. intros A CA t p d l1 l2 Hwf He. apply (Avl.next_elems t p d l1 l2); [apply Hwf | done]. Qed.
Next Obligation.
  intros A CA t w l1 l2 new v Hwf Hh Hst Hnew. pose proof (Avl.hole_elems _ _ _ _ Hh) as He.
  destruct (Avl.insert_at_hole t w l1 l2 new v) as (T' & -> & Hb & He' & Hn);
    [apply Hwf | apply Hwf | done |].
  exists T'. split; [done |]. split; [by eapply Avl.wf_insert | done].
Qed.
Next Obligation.
  intros A CA t p e l1 l2 new v Hwf He Hst Hnew.
  destruct (Avl.insert_here_after t p e l1 l2 new v) as (T' & -> & Hb & He' & Hn);
    [apply Hwf | apply Hwf | done |].
  exists T'. split; [done |]. split; [| done].
  apply (Avl.wf_insert t T' (l1 ++ [(p, e)]) l2 new v); auto; by rewrite <- app_assoc.
Qed.
Next Obligation.
  intros A CA t p e l1 l2 Hwf Hlen He.
  destruct (Avl.remove_node_spec t p e l1 l2) as (T' & H & Hb & He' & Hn);
    [apply Hwf | apply Hwf | apply Avl.wf_size_pos; auto; rewrite He; by destruct l1 | done |].
  exists T'. split; [done |]. split; [by eapply Avl.wf_delete | done].
Qed.
Next Obligation. intros A CA t p d l1 l2 Hwf He. apply (Avl.deref_elems t p d l1 l2); [apply Hwf | done]. Qed.
Next Obligation. intros A CA t p Hp. unfold Avl.deref. by rewrite Avl.locate_not_in. Qed.
Next Obligation.
  intros A CA t p f d l1 l2 Hwf He Hf. split; [by eapply Avl.wf_store |].
  apply Avl.store_elems; [apply Hwf | done].
Qed.
