(* ===== verification/AvlDestroy.v ===== *)
(** * The destructor of the AVL tree of src/avl.hpp

    [~avltree] calls [destroy_nodes] until it returns null and deletes the node of every call.
    Between two calls the tree still points to the node that was deleted last; [current] tells
    where, and the next call clears that pointer first. A call gets the list [dead] of the
    nodes that were deleted and has no result ([None]) when it reads one of them or when an
    assertion fails. *)
From S2P Require Import Prelude Avl.
From stdpp Require Import base list numbers option sets.
Local Open Scope Z_scope.

Module AvlDestroy.
Import Avl.

Section Destroy.
Context {A : Type}.
Implicit Types (t n : tree A) (c : list (frame A)) (T : avltree A) (dead : list positive).

Definition alive dead n : bool := match n with Leaf => true | Node a _ _ _ _ => bool_decide (a ∉ dead) end.
Definition is_leaf n : bool := match n with Leaf => true | _ => false end.

(** [first_node], and the loop to the first node of a right subtree. *)
Fixpoint leftmost dead t c : option (list (frame A) * tree A) :=
  match t with
  | Leaf => None
  | Node a b d l r =>
      if alive dead t then
        match l with Leaf => Some (c, t) | _ => leftmost dead l (Frame LEFT a b d r :: c) end
      else None
  end.

(** [check_right_side]: a node that has a right child only. *)
Definition check_right_side dead (x : list (frame A) * tree A) : option (list (frame A) * tree A) :=
  match x with
  | (_, Leaf) => None
  | (c, Node a b d l r) =>
      if negb (is_leaf r) then
        if (b =? 1) && alive dead r && is_leaf (get r LEFT) && is_leaf (get r RIGHT)
        then Some (Frame RIGHT a b d l :: c, r) else None
      else if b <=? 0 then Some x else None
  end.

(** [done]: the node is returned, and [current] is its place. *)
Definition visited T (x : list (frame A) * tree A) : option (option positive * insertion_point * avltree A) :=
  match x, m_root T with
  | ([], Node a _ _ _ _), Node r _ _ _ _ =>
      if decide (a = r) then Some (Some a, IP None (Some RIGHT), T) else None
  | (f :: _, Node a _ _ _ _), _ => Some (Some a, IP (Some (f_addr f)) (Some (f_which f)), T)
  | _, _ => None
  end.

(** [destroy_nodes(current)] *)
Definition destroy_nodes dead (current : insertion_point) T : option (option positive * insertion_point * avltree A) :=
  if decide (current = index_null) then
    match m_root T with
    | Leaf => Some (None, IP None (Some RIGHT), T)
    | root => x ← leftmost dead root []; x ← check_right_side dead x; visited T x
    end
  else
    match m_parent current with
    | None =>
        match m_root T with
        | Leaf => Some (None, current, T)
        | _ => if m_num_nodes T =? 1 then Some (None, current, Tree Leaf 0) else None
        end
    | Some p =>
        match locate p (m_root T) [], m_child current with
        | Some (c, Node a b d l r as parent), Some ch =>
            if alive dead parent then
              let parent := set parent ch Leaf in
              if 1 <? m_num_nodes T then
                let T := Tree (plug parent c) (m_num_nodes T - 1) in
                if bool_decide (ch = RIGHT) || is_leaf (get parent RIGHT) then visited T (c, parent)
                else
                  x ← leftmost dead (get parent RIGHT) (Frame RIGHT a b d (get parent LEFT) :: c);
                  x ← check_right_side dead x; visited T x
              else None
            else None
        | _, _ => None
        end
    end.

(** The loop of the destructor; a node that was deleted before is not deleted again. *)
Fixpoint destroy (fuel : nat) (current : insertion_point) T dead : option (avltree A * list positive) :=
  match fuel with
  | O => None
  | S fuel =>
      '(node, current, T) ← destroy_nodes dead current T;
      match node with
      | None => Some (T, dead)
      | Some a => if decide (a ∈ dead) then None else destroy fuel current T (dead ++ [a])
      end
  end.

(** ** The order of the deletions *)

Fixpoint postorder t : list positive :=
  match t with Leaf => [] | Node a _ _ l r => postorder l ++ postorder r ++ [a] end.
(** What follows the node in the hole of a context. *)
Fixpoint remaining c : list positive :=
  match c with
  | [] => []
  | f :: c => match f_which f with LEFT => postorder (f_sib f) | RIGHT => [] end ++ f_addr f :: remaining c
  end.
(** To the left of the way nothing is left; to the right the subtrees are as they were. *)
Definition pending c : Prop :=
  Forall (fun f => match f_which f with LEFT => balanced (f_sib f) | RIGHT => f_sib f = Leaf end) c.

Lemma postorder_elems t : postorder t ≡ₚ (elems t).*1.
Proof.
  induction t as [| a b d l IHl r IHr]; simpl; [done |]. rewrite fmap_app, fmap_cons, IHl, IHr. simpl.
  rewrite <- Permutation_cons_append. done.
Qed.
Lemma remaining_elems c : pending c -> remaining c ≡ₚ (before c ++ after c).*1.
Proof.
  induction 1 as [| f c Hf _ IH]; [done |]. simpl. rewrite IH, !fmap_app. destruct (f_which f).
  - rewrite postorder_elems, fmap_cons. simpl. rewrite app_nil_r. solve_Permutation.
  - rewrite Hf. simpl. solve_Permutation.
Qed.

(** ** One call *)

(** The first node of a balanced subtree in that order. *)
Lemma first_visited t : forall c dead, balanced t -> t <> Leaf -> (forall a, a ∈ (elems t).*1 -> a ∉ dead) -> pending c ->
  exists c' a b d, (x ← leftmost dead t c; check_right_side dead x) = Some (c', Node a b d Leaf Leaf) /\
    pending c' /\ plug (Node a b d Leaf Leaf) c' = plug t c /\ a :: remaining c' = postorder t ++ remaining c.
Proof.
  induction t as [| a b d l IHl r _]; intros c dead Hb Hne Hal Hc; [done |]. cbn [leftmost].
  assert (Ha : alive dead (Node a b d l r) = true).
  { apply bool_decide_eq_true, Hal. simpl. rewrite fmap_app. set_solver. }
  rewrite Ha. destruct Hb as (Hb1 & Hb2 & Hbl & Hbr). destruct l as [| la lb ld ll lr] eqn:El.
  - cbn [mbind option_bind check_right_side is_leaf negb]. destruct r as [| ra rb rd rl rr].
    + simpl in Hb2. rewrite (proj2 (Z.leb_le b 0)) by lia. exists c, a, b, d. done.
    + pose proof (height_nonneg rl). pose proof (height_nonneg rr). simpl in Hb2, Hbr. cbn [negb is_leaf].
      assert (rl = Leaf) as -> by (destruct rl; [done |]; simpl in *; pose proof (height_nonneg rl1); lia).
      assert (rr = Leaf) as -> by (destruct rr; [done |]; simpl in *; pose proof (height_nonneg rr1); lia).
      simpl in Hb2. rewrite (proj2 (Z.eqb_eq b 1)) by lia.
      assert (Hr : alive dead (Node ra rb rd Leaf Leaf) = true) by (apply bool_decide_eq_true, Hal; simpl; set_solver).
      rewrite Hr. exists (Frame RIGHT a b d Leaf :: c), ra, rb, rd. split; [done |]. split; [by constructor |]. done.
  - rewrite <- El in *. destruct (IHl (Frame LEFT a b d r :: c) dead) as (c' & a' & b' & d' & E & Hp & Hpl & Hr).
    + done.
    + by rewrite El.
    + intros x Hx. apply Hal. simpl. rewrite fmap_app. apply elem_of_app. by left.
    + by constructor.
    + exists c', a', b', d'. rewrite El in E |- *. split; [done |]. split; [done |]. split; [by rewrite Hpl, El |].
      rewrite Hr, El. simpl. by rewrite <- !app_assoc.
Qed.

(** The tree after the node in the hole was deleted: it still hangs there. *)
Record between T c n dead : Prop := {
  bt_root : m_root T = plug n c;
  bt_node : exists a b d, n = Node a b d Leaf Leaf /\ a ∈ dead;
  bt_num : m_num_nodes T = Z.of_nat (length (remaining c)) + 1;
  bt_pending : pending c;
  bt_nodup : NoDup (dead ++ remaining c) }.
Definition place c : insertion_point :=
  match c with [] => IP None (Some RIGHT) | f :: _ => IP (Some (f_addr f)) (Some (f_which f)) end.

Lemma visited_ok T c a b d : m_root T = plug (Node a b d Leaf Leaf) c ->
  visited T (c, Node a b d Leaf Leaf) = Some (Some a, place c, T).
Proof. intros E. destruct c as [| f c]; [| done]. unfold visited. rewrite E. cbn [plug]. by rewrite decide_True by done. Qed.

(** The next call deletes the next node. *)
Lemma between_next T f c n dead : between T (f :: c) n dead -> exists T' c' a b d,
  destroy_nodes dead (place (f :: c)) T = Some (Some a, place c', T') /\ ~ (a ∈ dead) /\
  a :: remaining c' = remaining (f :: c) /\ between T' c' (Node a b d Leaf Leaf) (dead ++ [a]).
Proof.
  intros [Hroot (na & nb & nd & -> & Hin) Hnum Hp Hnd]. apply Forall_cons in Hp as [Hf Hp].
  destruct f as [w fa fb fd sib]. cbn [f_which f_sib f_addr] in *.
  assert (Hloc : locate fa (m_root T) [] = Some (c, mk (Frame w fa fb fd sib) (Node na nb nd Leaf Leaf))).
  { rewrite Hroot. cbn [plug]. assert (Hfa : fa ∉ (before c ++ after c).*1).
    { rewrite <- (remaining_elems c Hp). apply NoDup_app in Hnd as (_ & _ & Hnd). simpl in Hnd.
      apply NoDup_app in Hnd as (_ & _ & Hnd). by apply NoDup_cons in Hnd as [? _]. }
    rewrite fmap_app in Hfa. rewrite locate_plug by set_solver. rewrite app_nil_r. unfold mk. destruct w; simpl; by rewrite decide_True. }
  set (parent := mk (Frame w fa fb fd sib) Leaf).
  set (T1 := Tree (plug parent c) (m_num_nodes T - 1)).
  assert (Hdead : fa ∉ dead).
  { apply NoDup_app in Hnd as (_ & Hd & _). intros Hx. apply (Hd fa Hx). simpl. set_solver. }
  assert (Hbool : bool_decide (fa ∉ dead) = true) by by apply bool_decide_eq_true.
  assert (H1 : (1 <? m_num_nodes T) = true).
  { apply Z.ltb_lt. rewrite Hnum. simpl. rewrite length_app. simpl. lia. }
  (* what is visited, in both cases *)
  assert (Hx : exists c' a b d, a :: remaining c' = remaining (Frame w fa fb fd sib :: c) /\ pending c' /\
    plug (Node a b d Leaf Leaf) c' = plug parent c /\
    destroy_nodes dead (place (Frame w fa fb fd sib :: c)) T = visited T1 (c', Node a b d Leaf Leaf)).
  { unfold destroy_nodes. rewrite decide_False by done. cbn [place m_parent m_child f_addr f_which]. rewrite Hloc.
    assert (Hcase : w = LEFT /\ sib <> Leaf \/ sib = Leaf) by (destruct w; [destruct (leaf_dec sib); auto | auto]).
    destruct Hcase as [[-> Hs] | ->].
    - destruct (first_visited sib (Frame RIGHT fa fb fd Leaf :: c) dead Hf Hs) as (c' & a & b & d & E & Hp' & Hpl & Hr).
      + intros x Hx. apply NoDup_app in Hnd as (_ & Hd & _). intros Hxd. apply (Hd x Hxd). simpl.
        rewrite <- postorder_elems in Hx. set_solver.
      + by constructor.
      + exists c', a, b, d. split; [done |]. split; [done |]. split; [done |].
        unfold mk. cbn [f_which f_addr f_bal f_data f_sib alive]. rewrite Hbool, H1. cbn [set get].
        destruct sib as [| sa sb sd sl sr]; [done |]. cbn [is_leaf]. rewrite bool_decide_false by done. cbn [orb].
        destruct (leftmost dead _ _) as [x |]; [| done]. cbn [mbind option_bind] in E |- *. by rewrite E.
    - exists c, fa, fb, fd. split; [by destruct w |]. split; [done |]. split; [by unfold parent, mk; destruct w |].
      unfold mk. destruct w; cbn [f_which f_addr f_bal f_data f_sib alive]; rewrite Hbool, H1; done. }
  destruct Hx as (c' & a & b & d & Hr & Hp' & Hpl & E). exists T1, c', a, b, d. rewrite E, visited_ok by done.
  assert (Hnd' : NoDup ((dead ++ [a]) ++ remaining c')) by (rewrite <- app_assoc; simpl; by rewrite Hr).
  split; [done |]. split.
  { apply NoDup_app in Hnd' as (Hnd' & _). apply NoDup_app in Hnd' as (_ & Hd & _). intros Hx. apply (Hd a Hx). by left. }
  split; [done |]. constructor; [done | | | done | done].
  - exists a, b, d. split; [done |]. set_solver.
  - cbn [m_num_nodes T1]. rewrite Hnum, <- Hr. simpl. lia.
Qed.

(** The rest of the loop. *)
Lemma destroy_rest : forall k T c n dead, length (remaining c) = k -> between T c n dead ->
  destroy (S k) (place c) T dead = Some (empty, dead ++ remaining c).
Proof.
  induction k as [| k IH]; intros T c n dead Hk Hb.
  - destruct c as [| f c]; [| simpl in Hk; rewrite length_app in Hk; simpl in Hk; lia].
    destruct Hb as [Hroot (a & b & d & -> & _) Hnum _ _]. simpl in Hroot, Hnum. cbn [destroy place].
    unfold destroy_nodes. rewrite decide_False by done. cbn [m_parent]. rewrite Hroot, Hnum. simpl. by rewrite app_nil_r.
  - destruct c as [| f c]; [done |]. destruct (between_next T f c n dead Hb) as (T' & c' & a & b & d & E & Ha & Hr & Hb').
    change (destroy (S (S k)) (place (f :: c)) T dead) with
      ('(node, current, T) ← destroy_nodes dead (place (f :: c)) T;
       match node with None => Some (T, dead) | Some a => if decide (a ∈ dead) then None else destroy (S k) current T (dead ++ [a]) end).
    rewrite E. cbn [mbind option_bind]. rewrite decide_False by done. rewrite (IH T' c' (Node a b d Leaf Leaf)); [| | done].
    + rewrite <- app_assoc. by rewrite <- Hr.
    + rewrite <- Hr in Hk. simpl in Hk. lia.
Qed.

End Destroy.

(** C38: The destructor of a well-formed tree ends after one call more than there are nodes, with
    every assertion satisfied; it deletes every node exactly once, a node after its
    children, reads no node that it has deleted, and leaves the tree empty. *)
Theorem avl_destroy_complete `{Comparable A} (T : avltree A) : wf T -> Z.of_nat (length (elems (m_root T))) < 2 ^ 32 ->
  destroy (S (length (elems (m_root T)))) index_null T [] = Some (empty, postorder (m_root T)) /\
  postorder (m_root T) ≡ₚ (elems (m_root T)).*1.
Proof.
  intros Hwf Hlen. split; [| apply postorder_elems].
  assert (Hl : length (elems (m_root T)) = length (postorder (m_root T))).
  { by rewrite postorder_elems, length_fmap. }
  destruct (leaf_dec (m_root T)) as [Hr | Hne].
  - pose proof (wf_size T Hwf) as Hn. destruct T as [r num]. simpl in *. subst r. simpl in *. subst num. done.
  - destruct (first_visited (m_root T) [] [] (wf_balanced T Hwf) Hne) as (c & a & b & d & E & Hp & Hpl & Hrem);
      [set_solver | constructor |]. simpl in Hpl. rewrite app_nil_r in Hrem. rewrite Hl, <- Hrem in *. cbn [length].
    assert (Hstep : destroy_nodes [] index_null T = Some (Some a, place c, T)).
    { unfold destroy_nodes. rewrite decide_True by done. destruct (m_root T) as [| ra rb rd rl rr] eqn:Er; [done |].
      destruct (leftmost _ _ _) as [x |]; [| done]. cbn [mbind option_bind] in E |- *. rewrite E. cbn [mbind option_bind].
      apply visited_ok. by rewrite Er. }
    cbn [destroy]. rewrite Hstep. cbn [mbind option_bind]. rewrite decide_False by set_solver.
    apply (destroy_rest (length (remaining c)) T c (Node a b d Leaf Leaf) [a] eq_refl). constructor.
    + done.
    + exists a, b, d. split; [done | by left].
    + rewrite (wf_size T Hwf), Hl, u32_small; simpl; simpl in Hlen; lia.
    + done.
    + change (NoDup (a :: remaining c)). rewrite Hrem, postorder_elems. apply Hwf.
Qed.

Lemma avl_destroy_complete_witness : destroy 7 index_null sample [] = Some (empty, [1; 6; 2; 5; 4; 3]%positive).
Proof. refine (proj1 (avl_destroy_complete sample sample_wf _)). by vm_compute. Defined.

End AvlDestroy.
