(* ===== verification/RangeLock.v ===== *)
(** * The range lock manager of src/range_lock.h and src/range_lock.cpp

    [lock_manager] hands out shared (reader) and exclusive (writer) locks on byte
    ranges of a file. The ranges in use are kept in an ordered tree keyed by their
    start offset. A reader range that another reader overlaps is replaced by
    reference-counted proxies, one per piece.

    Every public operation runs under [m_mutex]; a thread that must wait releases the
    mutex in [condition_variable::wait] and later starts again at the point the code
    jumps to. One critical section is a function on the manager's state that ends with
    the lock acquired, with the thread waiting on a range's condition variable, or
    with a fault: a failed assertion, a dereference of an address that is not an
    allocated node, or a second [delete] of a node. Assertions that repeat the condition
    of the branch they are in are not written out. Offsets are [off_t] values; the
    theorems are about locks with [0 <= start < end < 2^63], for which no sum or
    difference of offsets leaves the type. *)
From S2P Require Import Prelude Avl.
From stdpp Require Import base list numbers option sorting gmap.
Local Open Scope Z_scope.

Module RangeLock.
Import Avl.

(** [lock_manager::type] *)
Inductive lock_type := reader | writer.

(** [lock_manager::range::type] *)
Inductive range_type := rt_none | rt_reader | rt_proxy_reader | rt_writer | rt_any.

#[export] Instance range_type_eq_dec : EqDecision range_type.
Proof. solve_decision. Defined.
#[export] Instance lock_type_eq_dec : EqDecision lock_type.
Proof. solve_decision. Defined.

(** [lock_manager::range]; its two condition variables are named by the node's address. The
    reference count, an [int] in the code, counts the reader locks that share the range: it is
    exact for fewer than 2^31 locks held at once. *)
Record range := Range {
  m_start : Z; m_end : Z; m_type : range_type; m_refs : Z;
  m_is_proxy : bool; m_read_wanted : bool; m_write_wanted : bool }.

(** The two constructors of [range]. *)
Definition any_range (s e : Z) : range := Range s e rt_any 1 false false false.
Definition new_range (s e : Z) (t : range_type) : range :=
  Range s e (if decide (t = rt_proxy_reader) then rt_reader else t) 1
    (bool_decide (t = rt_proxy_reader)) false false.

(** [range::compare] *)
#[export] Program Instance range_comparable : Comparable range := {
  compare x y := int_compare (m_start x) (m_start y) }.
Solve All Obligations with intros; cbv beta in *; rewrite ?int_compare_sgn in *; lia.

(** Assignments to the members of a range. *)
Definition set_end (e : Z) (r : range) : range :=
  Range (m_start r) e (m_type r) (m_refs r) (m_is_proxy r) (m_read_wanted r) (m_write_wanted r).
Definition set_refs (n : Z) (r : range) : range :=
  Range (m_start r) (m_end r) (m_type r) n (m_is_proxy r) (m_read_wanted r) (m_write_wanted r).
Definition inc_refs (r : range) : range := set_refs (m_refs r + 1) r.
Definition dec_refs (r : range) : range := set_refs (m_refs r - 1) r.
Definition want_read (r : range) : range :=
  Range (m_start r) (m_end r) (m_type r) (m_refs r) (m_is_proxy r) true (m_write_wanted r).
Definition want_write (r : range) : range :=
  Range (m_start r) (m_end r) (m_type r) (m_refs r) (m_is_proxy r) (m_read_wanted r) true.

(** [lock_manager::range_lock], the handle given to the user. *)
Record range_lock := Lock { h_start : Z; h_end : Z; h_type : lock_type; h_ptr : option addr }.

(** [notify_all] on a condition variable of a range. *)
Inductive event := NotifyReaders (p : addr) | NotifyWriters (p : addr).

(** How a critical section of [lock_range] ends. *)
Inductive outcome := Acquired (p : option addr) | Waiting (p : addr).

Section Manager.
Context {T : Type} {OT : OrderedTree range T}.

(** The manager: the tree, the nodes that are allocated but no longer in the tree,
    the next address [operator new] returns, and the notifications sent. *)
Record manager := Manager {
  m_tree : T; m_detached : gmap addr range; m_next : addr; m_events : list event }.

(** The constructor of [lock_manager]. *)
Definition lock_manager_new : manager := Manager ot_empty ∅ 1%positive [].

(** ** Statements on the manager's state; [None] is a fault *)
Definition M (X : Type) : Type := manager -> option (X * manager).
Definition ret {X} (x : X) : M X := fun m => Some (x, m).
Definition bind {X Y} (c : M X) (k : X -> M Y) : M Y :=
  fun m => match c m with Some (x, m') => k x m' | None => None end.
Definition fault {X} : M X := fun _ => None.
Notation "x <-- c ;; k" := (bind c (fun x => k)) (at level 60, c at next level, right associativity).
Notation "c ;;; k" := (bind c (fun _ => k)) (at level 60, right associativity).
Definition assert (b : bool) : M unit := if b then ret tt else fault.

Definition with_tree (m : manager) (t : T) : manager :=
  Manager t (m_detached m) (m_next m) (m_events m).

(** [*p], for a node in the tree or a detached one. *)
Definition read (p : addr) : M range := fun m =>
  match ot_deref (m_tree m) p with
  | Some r => Some (r, m)
  | None => match m_detached m !! p with Some r => Some (r, m) | None => None end
  end.
(** An assignment through [p]. *)
Definition write (p : addr) (f : range -> range) : M unit := fun m =>
  match ot_deref (m_tree m) p with
  | Some _ => Some (tt, with_tree m (ot_store (m_tree m) p f))
  | None =>
      match m_detached m !! p with
      | Some r => Some (tt, Manager (m_tree m) (<[p := f r]> (m_detached m)) (m_next m) (m_events m))
      | None => None
      end
  end.
Definition tree_size : M Z := fun m => Some (ot_size (m_tree m), m).
Definition tree_find (v : range) : M (option addr * insertion_point) :=
  fun m => Some (ot_find (m_tree m) v, m).
Definition tree_nearest (w : insertion_point) (d : direction) : M ptr :=
  fun m => Some (ot_nearest (m_tree m) w d, m).
Definition tree_next (p : addr) : M ptr := fun m => Some (ot_next (m_tree m) p, m).
Definition new_node (ins : T -> addr -> option T) : M addr := fun m =>
  match ins (m_tree m) (m_next m) with
  | Some t => Some (m_next m, Manager t (m_detached m) (Pos.succ (m_next m)) (m_events m))
  | None => None
  end.
Definition tree_insert_at (v : range) (w : insertion_point) : M addr :=
  new_node (fun t new => ot_insert_at t new v w).
Definition tree_insert_after (v : range) (p : addr) : M addr :=
  new_node (fun t new => ot_insert_after t new v p).
Definition tree_add (v : range) : M addr :=
  f <-- tree_find v ;;
  match f with
  | (None, w) => tree_insert_at v w
  | (Some _, _) => fault
  end.
(** [tree.remove_node]: the deleter does nothing, so the node stays allocated. *)
Definition tree_remove (p : addr) : M unit :=
  r <-- read p ;;
  fun m => match ot_remove_node (m_tree m) p with
    | Some t => Some (tt, Manager t (<[p := r]> (m_detached m)) (m_next m) (m_events m))
    | None => None
    end.
(** [delete range_tree_t::data_to_node(p)] *)
Definition delete_node (p : addr) : M unit := fun m =>
  match m_detached m !! p with
  | Some _ => Some (tt, Manager (m_tree m) (delete p (m_detached m)) (m_next m) (m_events m))
  | None => None
  end.
Definition notify (e : event) : M unit := fun m =>
  Some (tt, Manager (m_tree m) (m_detached m) (m_next m) (m_events m ++ [e])).
Definition when (b : bool) (c : M unit) : M unit := if b then c else ret tt.

(** ** Helper functions of range_lock.cpp *)

(** [range_new_proxy(tree, offset, len)] *)
Definition range_new_proxy (offset len : Z) : M unit :=
  assert (negb (len =? 0)) ;;;
  tree_add (new_range offset (offset + len) rt_proxy_reader) ;;; ret tt.

(** [range_proxify(tree, rl)] *)
Definition range_proxify (rl : addr) : M addr :=
  r <-- read rl ;;
  if m_is_proxy r then ret rl
  else
    assert (m_refs r =? 1) ;;;
    assert (negb (m_read_wanted r)) ;;;
    assert (negb (m_write_wanted r)) ;;;
    tree_remove rl ;;;
    write rl (set_refs 0) ;;;
    tree_add (new_range (m_start r) (m_end r) rt_proxy_reader).

(** [range_split(tree, rl, offset, front_range, rear_range)] *)
Definition range_split (rl : addr) (offset : Z) : M (addr * addr) :=
  r <-- read rl ;;
  assert (1 <? m_end r - m_start r) ;;;
  assert (m_start r <? offset) ;;;
  assert (offset <? m_end r) ;;;
  assert (negb (m_read_wanted r)) ;;;
  assert (negb (m_write_wanted r)) ;;;
  front <-- range_proxify rl ;;
  f <-- read front ;;
  write front (set_end (m_start f + offset - m_start r)) ;;;
  rear <-- tree_insert_after (new_range offset (m_end r) rt_proxy_reader) front ;;
  write rear (set_refs (m_refs r)) ;;;
  ret (front, rear).

(** The [for] loop of [add_reader] and the code after it; [prev] and [next] are its two
    loop variables. *)
Fixpoint add_reader_loop (fuel : nat) (e : Z) (prev : option addr) (next : ptr) : M unit :=
  let finish :=
    match prev with
    | Some q => r <-- read q ;; range_new_proxy (m_end r) (e - m_end r)
    | None => fault
    end in
  match fuel with
  | O => fault
  | S fuel =>
      match next with
      | Null => finish
      | Wild => fault
      | Ptr p =>
          n <-- read p ;;
          if e <=? m_start n then finish
          else
            match prev with
            | Some q =>
                r <-- read q ;;
                when (m_end r <? m_start n) (range_new_proxy (m_end r) (m_start n - m_end r))
            | None => ret tt
            end ;;;
            if e =? m_end n then
              q <-- range_proxify p ;; write q inc_refs
            else if e <? m_end n then
              fr <-- range_split p e ;; write (fst fr) inc_refs
            else
              q <-- range_proxify p ;;
              write q inc_refs ;;;
              nx <-- tree_next q ;;
              add_reader_loop fuel e (Some q) nx
      end
  end.

(** [add_reader(tree, new_range, prev_ptr, where)]: the pointer it returns. *)
Definition add_reader (r : range) (prev_ptr : option addr) (w : insertion_point)
  : M (option addr) :=
  let start := m_start r in
  let e := m_end r in
  prev <--
    match prev_ptr with
    | None => ret None
    | Some p =>
        pr <-- read p ;;
        if m_end pr <=? start then ret None
        else if negb (m_start pr =? start) then
          fr <-- range_split p start ;;
          nx <-- tree_next (fst fr) ;;
          match nx with
          | Ptr q => assert (bool_decide (q = snd fr)) ;;; ret (Some q)
          | _ => fault
          end
        else ret (Some p)
    end ;;
  next <--
    match prev with
    | Some q => n <-- read q ;; assert (m_start n =? start) ;;; ret (Ptr q)
    | None => tree_nearest w AFTER
    end ;;
  match next with
  | Null => q <-- tree_insert_at r w ;; ret (Some q)
  | Wild => fault
  | Ptr q =>
      n <-- read q ;;
      if e <=? m_start n then q <-- tree_insert_at r w ;; ret (Some q)
      else
        when (start <? m_start n) (range_new_proxy start (m_start n - start)) ;;;
        sz <-- tree_size ;;
        add_reader_loop (S (Z.to_nat sz)) e None (Ptr q) ;;;
        ret None
  end.

(** A reader may not share a range that is a writer's or that a writer waits for. *)
Definition excludes_readers (r : range) : bool :=
  bool_decide (m_type r = rt_writer) || m_write_wanted r.

(** [if(!r->m_read_wanted) r->m_read_wanted = true;] *)
Definition mark_read_wanted (p : addr) : M unit :=
  r <-- read p ;; when (negb (m_read_wanted r)) (write p want_read).

(** The loop of [lock_range_reader] over the following ranges: the range to wait for. *)
Fixpoint reader_scan (fuel : nat) (e : Z) (next : ptr) : M (option addr) :=
  match fuel with
  | O => fault
  | S fuel =>
      match next with
      | Null => ret None
      | Wild => fault
      | Ptr p =>
          n <-- read p ;;
          if e <=? m_start n then ret None
          else if excludes_readers n then mark_read_wanted p ;;; ret (Some p)
          else if e <=? m_end n then ret None
          else nx <-- tree_next p ;; reader_scan fuel e nx
      end
  end.

(** [lock_range_reader] from its label [retry] on. *)
Definition lock_range_reader_retry (start e : Z) : M outcome :=
  let r := new_range start e rt_reader in
  let got_lock prev w := p <-- add_reader r prev w ;; ret (Acquired p) in
  let scan prev w next :=
    sz <-- tree_size ;;
    b <-- reader_scan (S (Z.to_nat sz)) e next ;;
    match b with Some p => ret (Waiting p) | None => got_lock prev w end in
  f <-- tree_find r ;;
  let '(hit, w) := f in
  prev <-- match hit with Some p => ret (Ptr p) | None => tree_nearest w BEFORE end ;;
  match prev with
  | Wild => fault
  | Null => nx <-- tree_nearest w AFTER ;; scan None w nx
  | Ptr p =>
      pr <-- read p ;;
      if (start <? m_end pr) && excludes_readers pr then
        mark_read_wanted p ;;; ret (Waiting p)
      else if (start <? m_end pr) && (e <? m_end pr) then got_lock (Some p) w
      else nx <-- tree_next p ;; scan (Some p) w nx
  end.

(** [lock_range_reader] up to its first wait. *)
Definition lock_range_reader (start e : Z) : M outcome :=
  sz <-- tree_size ;;
  if sz =? 0 then p <-- tree_add (new_range start e rt_reader) ;; ret (Acquired (Some p))
  else lock_range_reader_retry start e.

(** One iteration of the loop of [lock_range_writer]. *)
Definition lock_range_writer (start e : Z) : M outcome :=
  let r := new_range start e rt_writer in
  let wait p :=
    n <-- read p ;; when (negb (m_write_wanted n)) (write p want_write) ;;; ret (Waiting p) in
  let insert w := p <-- tree_insert_at r w ;; ret (Acquired (Some p)) in
  let check_prev w :=
    b <-- tree_nearest w BEFORE ;;
    match b with
    | Wild => fault
    | Null => insert w
    | Ptr p => n <-- read p ;; if start <? m_end n then wait p else insert w
    end in
  sz <-- tree_size ;;
  if sz =? 0 then p <-- tree_add r ;; ret (Acquired (Some p))
  else
    f <-- tree_find r ;;
    let '(hit, w) := f in
    match hit with
    | Some p => wait p
    | None =>
        a <-- tree_nearest w AFTER ;;
        match a with
        | Wild => fault
        | Null => check_prev w
        | Ptr p => n <-- read p ;; if m_start n <? e then wait p else check_prev w
        end
    end.

(** The notifications and the release of a node that leaves the tree. *)
Definition retire (p : addr) : M unit :=
  tree_remove p ;;;
  r <-- read p ;;
  when (m_write_wanted r) (notify (NotifyWriters p)) ;;;
  when (m_read_wanted r) (notify (NotifyReaders p)) ;;;
  delete_node p.

(** The [while] loop of [unlock_range_reader] over the proxies of a range; the result
    tells whether [rl.m_ptr] was reset. *)
Fixpoint release_proxies (fuel : nat) (len : Z) (pr : ptr) (reset : bool) : M bool :=
  if len =? 0 then ret reset
  else
    match fuel with
    | O => fault
    | S fuel =>
        match pr with
        | Ptr p =>
            r <-- read p ;;
            let len := u64 (len - u64 (m_start r - m_end r)) in
            next <--
              (if negb (len =? 0) then
                 nx <-- tree_next p ;;
                 match nx with
                 | Ptr q =>
                     n <-- read q ;;
                     assert (m_end r =? m_start n) ;;;
                     assert (negb (m_refs n =? 0)) ;;;
                     assert (bool_decide (m_type n = rt_reader)) ;;;
                     ret nx
                 | _ => fault
                 end
               else ret Null) ;;
            write p dec_refs ;;;
            if m_refs r - 1 =? 0 then retire p ;;; release_proxies fuel len next true
            else release_proxies fuel len next reset
        | _ => fault
        end
    end.

(** [unlock_range_reader(tree, rl)]: the handle afterwards. *)
Definition unlock_range_reader (rl : range_lock) : M range_lock :=
  let cleared := Lock (h_start rl) (h_end rl) (h_type rl) None in
  in_tree <-- match h_ptr rl with
              | Some p => r <-- read p ;; ret (negb (m_refs r =? 0))
              | None => ret false
              end ;;
  match h_ptr rl, in_tree with
  | Some p, true => retire p ;;; ret cleared
  | r, _ =>
      f <-- tree_find (any_range (h_start rl) (h_end rl)) ;;
      match fst f with
      | None => fault
      | Some p =>
          pr <-- read p ;;
          assert (negb (m_refs pr =? 0)) ;;;
          assert (bool_decide (m_type pr = rt_reader)) ;;;
          assert (m_is_proxy pr) ;;;
          sz <-- tree_size ;;
          reset <-- release_proxies (Z.to_nat sz) (u64 (h_start rl - h_end rl)) (Ptr p) false ;;
          match r with Some q => delete_node q | None => ret tt end ;;;
          ret (if reset then cleared else rl)
      end
  end.

(** [unlock_range_writer(tree, rl)] *)
Definition unlock_range_writer (rl : range_lock) : M range_lock :=
  match h_ptr rl with
  | None => fault
  | Some p =>
      r <-- read p ;;
      assert (negb (m_refs r =? 0)) ;;;
      retire p ;;;
      ret (Lock (h_start rl) (h_end rl) (h_type rl) None)
  end.

(** ** Public interface *)

(** [lock_manager::lock_range] as its critical sections, between which [m_mutex] is released
    by the [wait] on a range: the first one, up to the first wait or the return, and each
    later one, from a wake-up to the next wait or the return ([goto retry] for a reader, the
    next iteration of the loop for a writer). *)
Definition lock_range (start e : Z) (t : lock_type) : M outcome :=
  match t with
  | reader => lock_range_reader start e
  | writer => lock_range_writer start e
  end.
Definition lock_range_wake (start e : Z) (t : lock_type) : M outcome :=
  match t with
  | reader => lock_range_reader_retry start e
  | writer => lock_range_writer start e
  end.

(** [lock_manager::unlock_range] *)
Definition unlock_range (rl : range_lock) : M range_lock :=
  match h_type rl with
  | writer => unlock_range_writer rl
  | reader => unlock_range_reader rl
  end.

(** [~range_lock]: deletes a node that was removed from the tree. *)
Definition range_lock_destroy (rl : range_lock) : M unit :=
  match h_ptr rl with
  | None => ret tt
  | Some p => r <-- read p ;; when (m_refs r =? 0) (delete_node p)
  end.

End Manager.
Arguments manager : clear implicits.
End RangeLock.
