(* ===== verification/RangeLockInv.v ===== *)
(** * Invariants of the range lock manager

    The specification of the statements of RangeLock.v against the interface of the
    ordered tree, and of the routines that split ranges into proxies: referencing an
    interval once more, without touching the rest. *)
From S2P Require Import Prelude Avl RangeLock.
From stdpp Require Import base list numbers option sorting gmap.
Local Open Scope Z_scope.

Module RangeLockInv.
Import Avl RangeLock.

Abbreviation ranges := (list (positive * range)) (only parsing).

(** ** Sequences of ranges *)

(** [chain lo rs]: non-empty ranges from offset [lo] on, in order and disjoint. *)
Fixpoint chain (lo : Z) (rs : list (positive * range)) : Prop :=
  match rs with
  | [] => True
  | x :: rs' => lo <= m_start x.2 /\ m_start x.2 < m_end x.2 /\ chain (m_end x.2) rs'
  end.

(** Where a chain ends. *)
Fixpoint chain_end (lo : Z) (rs : list (positive * range)) : Z :=
  match rs with [] => lo | x :: rs' => chain_end (m_end x.2) rs' end.

Lemma chain_app lo l1 l2 : chain lo (l1 ++ l2) <-> chain lo l1 /\ chain (chain_end lo l1) l2.
Proof. revert lo. induction l1 as [| x l1 IH]; intros lo; simpl; [tauto |]. rewrite IH. tauto. Qed.

Lemma chain_end_app lo l1 l2 : chain_end lo (l1 ++ l2) = chain_end (chain_end lo l1) l2.
Proof. revert lo. induction l1 as [| x l1 IH]; intros lo; simpl; [done |]. apply IH. Qed.

Lemma chain_end_ge lo rs : chain lo rs -> lo <= chain_end lo rs.
Proof.
  revert lo. induction rs as [| x rs IH]; simpl; intros lo; [lia |].
  intros (? & ? & ?%IH). lia.
Qed.

Lemma chain_weaken lo lo' rs : lo' <= lo -> chain lo rs -> chain lo' rs.
Proof. destruct rs; simpl; [done |]. intuition lia. Qed.

Lemma chain_bounds lo rs x : chain lo rs -> x ∈ rs ->
  lo <= m_start x.2 < m_end x.2 /\ m_end x.2 <= chain_end lo rs.
Proof.
  revert lo. induction rs as [| y rs IH]; intros lo Hc Hx; [by apply elem_of_nil in Hx |].
  simpl in *. destruct Hc as (? & ? & Hc). pose proof (chain_end_ge _ _ Hc).
  apply elem_of_cons in Hx as [-> | Hx]; [lia |].
  specialize (IH _ Hc Hx). lia.
Qed.

(** The number of references a sequence of ranges gives to offset [x], by readers and
    by writers. *)
Definition covers (x : Z) (r : range) : bool := (m_start r <=? x) && (x <? m_end r).

Lemma covers_spec x r : covers x r = true <-> m_start r <= x < m_end r.
Proof. unfold covers. rewrite andb_true_iff, Z.leb_le, Z.ltb_lt. done. Qed.

(** An offset lies in one range of a chain at most. *)
Lemma chain_unique lo rs x y z :
  chain lo rs -> x ∈ rs -> y ∈ rs -> covers z x.2 = true -> covers z y.2 = true -> x = y.
Proof.
  rewrite !covers_spec. revert lo. induction rs as [| a rs IH]; intros lo Hc Hx Hy Zx Zy;
    [by apply elem_of_nil in Hx |].
  destruct Hc as (_ & _ & Hc).
  apply elem_of_cons in Hx as [-> | Hx]; apply elem_of_cons in Hy as [-> | Hy]; auto.
  - pose proof (chain_bounds _ _ _ Hc Hy). lia.
  - pose proof (chain_bounds _ _ _ Hc Hx). lia.
  - by eapply IH.
Qed.

Definition rw (x : Z) (r : range) : Z :=
  if bool_decide (m_type r = rt_writer) then 0 else if covers x r then m_refs r else 0.
Definition ww (x : Z) (r : range) : Z :=
  if bool_decide (m_type r = rt_writer) && covers x r then 1 else 0.
Definition weight (f : range -> Z) (rs : list (positive * range)) : Z :=
  foldr (fun x acc => f x.2 + acc) 0 rs.

#[global] Arguments rw : simpl never.
#[global] Arguments ww : simpl never.

Lemma weight_app f l1 l2 : weight f (l1 ++ l2) = weight f l1 + weight f l2.
Proof. induction l1; simpl; [done |]. rewrite IHl1. lia. Qed.
Lemma weight_cons f x l : weight f (x :: l) = f x.2 + weight f l.
Proof. done. Qed.

(** The indicator function of an interval. *)
Definition ind (s e x : Z) : Z := if (s <=? x) && (x <? e) then 1 else 0.

(** A range the manager keeps in the tree. *)
Record range_ok (r : range) : Prop := {
  ok_type : m_type r = rt_reader \/ m_type r = rt_writer;
  ok_refs : 1 <= m_refs r;
  ok_single : m_is_proxy r = false -> m_refs r = 1;
  ok_writer : m_type r = rt_writer -> m_is_proxy r = false;
  ok_wanted : m_type r = rt_reader -> m_read_wanted r = true -> m_write_wanted r = true
}.

(** A reader range that further readers may share. *)
Definition shareable (r : range) : Prop :=
  m_type r = rt_reader /\ m_read_wanted r = false /\ m_write_wanted r = false.

Lemma excludes_readers_shareable r :
  range_ok r -> excludes_readers r = false -> shareable r.
Proof.
  intros [Ht _ _ _ Hw]. unfold excludes_readers, shareable.
  intros [H1 H2]%orb_false_iff. apply bool_decide_eq_false in H1.
  destruct Ht as [Ht | Ht]; [| done]. repeat split; auto.
  destruct (m_read_wanted r); [| done]. rewrite Hw in H2; done.
Qed.

Section Inv.
Context {T : Type} {OT : OrderedTree range T}.
Implicit Types (m : manager T) (rs l k : list (positive * range)).

(** [good m rs]: the tree of [m] holds the ranges [rs], and addresses are allocated
    once. *)
Record good m rs : Prop := {
  g_tree : tree_ok (m_tree m);
  g_contents : contents (m_tree m) = rs;
  g_fresh p : p ∈ rs.*1 \/ is_Some (m_detached m !! p) -> (p < m_next m)%positive;
  g_disj p : p ∈ rs.*1 -> m_detached m !! p = None
}.

Lemma good_nodup m rs : good m rs -> NoDup rs.*1.
Proof. intros [Ht <- _ _]. by apply ot_nodup. Qed.

Lemma elem_fst_middle l1 l2 (p : positive) (r : range) : p ∈ (l1 ++ (p, r) :: l2).*1.
Proof. rewrite fmap_app, fmap_cons. set_solver. Qed.
Hint Resolve elem_fst_middle : core.

Lemma next_fresh m rs : good m rs -> m_next m ∉ rs.*1 /\ m_detached m !! m_next m = None.
Proof.
  intros Hg. split.
  - intros H. pose proof (g_fresh _ _ Hg (m_next m) (or_introl H)). lia.
  - destruct (m_detached m !! m_next m) eqn:E; [| done].
    pose proof (g_fresh _ _ Hg (m_next m) (or_intror (mk_is_Some _ _ E))). lia.
Qed.

(** ** Statements *)

Lemma read_in m l1 l2 p r : good m (l1 ++ (p, r) :: l2) -> read p m = Some (r, m).
Proof.
  intros Hg. unfold read. erewrite ot_deref_spec; [done | apply Hg |]. apply Hg.
Qed.

Lemma read_snoc m l1 l2 p r : good m ((l1 ++ [(p, r)]) ++ l2) -> read p m = Some (r, m).
Proof. rewrite <- app_assoc. apply read_in. Qed.

Lemma read_detached m rs p r :
  good m rs -> m_detached m !! p = Some r -> read p m = Some (r, m).
Proof.
  intros Hg Hd. unfold read. rewrite ot_deref_none, Hd; [done |].
  rewrite (g_contents _ _ Hg). intros Hp. rewrite (g_disj _ _ Hg p Hp) in Hd. done.
Qed.

Lemma write_in m l1 l2 p r f :
  good m (l1 ++ (p, r) :: l2) -> m_start (f r) = m_start r ->
  exists m', write p f m = Some (tt, m') /\ good m' (l1 ++ (p, f r) :: l2) /\
    m_detached m' = m_detached m /\ m_next m' = m_next m /\ m_events m' = m_events m.
Proof.
  intros Hg Hf. unfold write. erewrite ot_deref_spec; [| apply Hg | apply Hg].
  eexists. split; [done |].
  destruct (ot_store_spec (m_tree m) p f r l1 l2) as [H1 H2]; [apply Hg | apply Hg | |].
  { intros x. unfold compare. simpl. by rewrite Hf. }
  split; [| done]. constructor; simpl; [done | done | |].
  - intros q Hq. apply (g_fresh _ _ Hg q). rewrite fmap_app in *. done.
  - intros q Hq. apply (g_disj _ _ Hg q). rewrite fmap_app in *. done.
Qed.

Lemma tree_next_in m l1 l2 p r :
  good m (l1 ++ (p, r) :: l2) -> tree_next p m = Some (to_ptr (fst <$> head l2), m).
Proof.
  intros Hg. unfold tree_next. erewrite ot_next_spec; [done | apply Hg |]. apply Hg.
Qed.

Lemma good_insert m l1 l2 (t : T) v :
  good m (l1 ++ l2) -> tree_ok t -> contents t = l1 ++ (m_next m, v) :: l2 ->
  good (Manager t (m_detached m) (Pos.succ (m_next m)) (m_events m)) (l1 ++ (m_next m, v) :: l2).
Proof.
  intros Hg Ht Hc. destruct (next_fresh _ _ Hg) as [Hf Hd]. constructor; simpl; auto.
  - intros p [Hp | Hp].
    + rewrite fmap_app, fmap_cons in Hp. simpl in Hp.
      destruct (decide (p = m_next m)) as [-> | Hne]; [lia |].
      assert (p < m_next m)%positive; [| lia].
      apply (g_fresh _ _ Hg). left. rewrite fmap_app. set_solver.
    + pose proof (g_fresh _ _ Hg p (or_intror Hp)). lia.
  - intros p Hp. rewrite fmap_app, fmap_cons in Hp. simpl in Hp.
    destruct (decide (p = m_next m)) as [-> | Hne]; [done |].
    apply (g_disj _ _ Hg). rewrite fmap_app. set_solver.
Qed.

Lemma insert_at_good m w l1 l2 v :
  good m (l1 ++ l2) -> position (m_tree m) w l1 l2 -> straddles v l1 l2 ->
  exists m', tree_insert_at v w m = Some (m_next m, m') /\
    good m' (l1 ++ (m_next m, v) :: l2) /\
    m_detached m' = m_detached m /\ m_events m' = m_events m.
Proof.
  intros Hg Hp Hs.
  destruct (ot_insert_at_spec (m_tree m) w l1 l2 (m_next m) v) as (t & Ht & Hok & Hc);
    [apply Hg | done | done | rewrite (g_contents _ _ Hg); by apply (next_fresh m (l1 ++ l2)) |].
  unfold tree_insert_at, new_node. rewrite Ht. eexists. split; [done |].
  split; [| done]. by apply good_insert.
Qed.

Lemma insert_after_good m l1 l2 p r v :
  good m (l1 ++ (p, r) :: l2) -> straddles v (l1 ++ [(p, r)]) l2 ->
  exists m', tree_insert_after v p m = Some (m_next m, m') /\
    good m' (l1 ++ (p, r) :: (m_next m, v) :: l2) /\
    m_detached m' = m_detached m /\ m_events m' = m_events m.
Proof.
  intros Hg Hs.
  destruct (ot_insert_after_spec (m_tree m) p r l1 l2 (m_next m) v) as (t & Ht & Hok & Hc);
    [apply Hg | apply Hg | done | rewrite (g_contents _ _ Hg); by eapply next_fresh |].
  unfold tree_insert_after, new_node. rewrite Ht. eexists. split; [done |].
  split; [| done].
  replace (l1 ++ (p, r) :: (m_next m, v) :: l2) with ((l1 ++ [(p, r)]) ++ (m_next m, v) :: l2)
    in * by (by rewrite <- app_assoc).
  apply good_insert; auto. by rewrite <- app_assoc.
Qed.

(** Where an offset belongs between two chained sequences. *)
Lemma chain_straddles lo l1 l2 v :
  chain lo l1 -> chain_end lo l1 <= m_start v -> chain (m_start v + 1) l2 -> straddles v l1 l2.
Proof.
  intros H1 He H2. split; apply Forall_forall; intros x Hx; unfold compare; simpl;
    rewrite int_compare_sgn.
  - apply chain_bounds with (x := x) in H1; [lia | done].
  - apply chain_bounds with (x := x) in H2; [lia | done].
Qed.

Lemma straddles_unique v l1 l2 k1 k2 :
  straddles v l1 l2 -> straddles v k1 k2 -> l1 ++ l2 = k1 ++ k2 -> l1 = k1 /\ l2 = k2.
Proof.
  intros [H1 H2] [H3 H4] He.
  apply app_eq_inv in He as [(k & -> & ->) | (k & -> & ->)].
  - apply Forall_app in H1 as [_ H1]. apply Forall_app in H4 as [H4 _].
    destruct k as [| x k]; [by rewrite app_nil_r |].
    apply Forall_cons in H1 as [H1 _]. apply Forall_cons in H4 as [H4 _].
    rewrite (compare_sym v) in H4. lia.
  - apply Forall_app in H3 as [_ H3]. apply Forall_app in H2 as [H2 _].
    destruct k as [| x k]; [by rewrite app_nil_r |].
    apply Forall_cons in H3 as [H3 _]. apply Forall_cons in H2 as [H2 _].
    rewrite (compare_sym v) in H2. lia.
Qed.

Lemma straddles_no_hit v l1 l2 a d k1 k2 :
  straddles v l1 l2 -> l1 ++ l2 = k1 ++ (a, d) :: k2 -> compare v d = 0 -> False.
Proof.
  intros [H1 H2] He Hd. assert (Hin : (a, d) ∈ l1 ++ l2) by (rewrite He; set_solver).
  apply elem_of_app in Hin as [Hin | Hin].
  - rewrite Forall_forall in H1. specialize (H1 _ Hin). cbn in H1.
    rewrite (compare_sym v) in Hd. simpl in *. lia.
  - rewrite Forall_forall in H2. specialize (H2 _ Hin). simpl in *. lia.
Qed.

Lemma tree_add_good m l1 l2 v :
  good m (l1 ++ l2) -> straddles v l1 l2 ->
  exists m', tree_add v m = Some (m_next m, m') /\
    good m' (l1 ++ (m_next m, v) :: l2) /\
    m_detached m' = m_detached m /\ m_events m' = m_events m.
Proof.
  intros Hg Hs. unfold tree_add, tree_find, bind.
  pose proof (ot_find_spec (m_tree m) v (g_tree _ _ Hg)) as Hf.
  destruct (ot_find (m_tree m) v) as [[a |] w].
  - destruct Hf as (_ & k1 & d & k2 & Hc & Hd). rewrite (g_contents _ _ Hg) in Hc.
    exfalso. by eapply straddles_no_hit.
  - destruct Hf as (k1 & k2 & Hp & Hs').
    pose proof (ot_position_contents _ _ _ _ Hp) as Hc. rewrite (g_contents _ _ Hg) in Hc.
    destruct (straddles_unique _ _ _ _ _ Hs Hs' Hc) as [-> ->].
    by apply insert_at_good.
Qed.

Lemma tree_remove_good m l1 l2 p r :
  good m (l1 ++ (p, r) :: l2) -> Z.of_nat (length (l1 ++ (p, r) :: l2)) < 2 ^ 32 ->
  exists m', tree_remove p m = Some (tt, m') /\ good m' (l1 ++ l2) /\
    m_detached m' = <[p := r]> (m_detached m) /\ m_next m' = m_next m /\
    m_events m' = m_events m.
Proof.
  intros Hg Hlen. unfold tree_remove, bind. rewrite (read_in _ _ _ _ _ Hg).
  destruct (ot_remove_spec (m_tree m) p r l1 l2) as (t & Ht & Hok & Hc);
    [apply Hg | by rewrite (g_contents _ _ Hg) | apply Hg |].
  rewrite Ht. eexists. split; [done |]. split; [| done].
  pose proof (good_nodup _ _ Hg) as Hnd. apply nodup_fst_middle in Hnd as [Hn1 Hn2].
  constructor; simpl; auto.
  - intros q [Hq | Hq].
    + apply (g_fresh _ _ Hg). left. rewrite fmap_app, fmap_cons in *. set_solver.
    + apply (g_fresh _ _ Hg). destruct (decide (q = p)) as [-> | Hne]; [by left |].
      right. by rewrite lookup_insert_ne in Hq.
  - intros q Hq. rewrite fmap_app in Hq.
    rewrite lookup_insert_ne by set_solver. apply (g_disj _ _ Hg).
    rewrite fmap_app, fmap_cons. set_solver.
Qed.

Lemma write_detached m rs p r f :
  good m rs -> m_detached m !! p = Some r ->
  exists m', write p f m = Some (tt, m') /\ good m' rs /\
    m_detached m' = <[p := f r]> (m_detached m) /\ m_next m' = m_next m /\
    m_events m' = m_events m.
Proof.
  intros Hg Hd. unfold write.
  assert (Hp : p ∉ rs.*1). { intros Hp. by rewrite (g_disj _ _ Hg p Hp) in Hd. }
  rewrite ot_deref_none by (by rewrite (g_contents _ _ Hg)). rewrite Hd.
  eexists. split; [done |]. split; [| done]. constructor; simpl; [apply Hg | apply Hg | |].
  - intros q Hq. apply (g_fresh _ _ Hg). destruct Hq as [Hq | Hq]; [by left |].
    right. destruct (decide (q = p)) as [-> | Hne]; [eauto |].
    by rewrite lookup_insert_ne in Hq.
  - intros q Hq. rewrite lookup_insert_ne by set_solver. by apply (g_disj _ _ Hg).
Qed.

(** ** Referencing an interval once more *)

Definition starts (z : Z) rs : Prop := exists x, x ∈ rs /\ m_start x.2 = z.
Definition ends (z : Z) rs : Prop := exists x, x ∈ rs /\ m_end x.2 = z.

(** [shared m rs m' rs' s e]: from the ranges [rs] to [rs'], the offsets of [[s, e)] got one
    reader more and the others kept theirs; writers are as before; every boundary is
    still a boundary; a range that is not a proxy is an old one, and an old one that is
    gone is detached, with no reference; a range that readers may not share is
    untouched. *)
Record shared m rs m' rs' (s e : Z) : Prop := {
  sh_good : good m' rs';
  sh_chain : chain 0 rs';
  sh_ok : Forall (fun x => range_ok x.2) rs';
  sh_rw x : weight (rw x) rs' = weight (rw x) rs + ind s e x;
  sh_ww x : weight (ww x) rs' = weight (ww x) rs;
  sh_starts z : starts z rs -> starts z rs';
  sh_ends z : ends z rs -> ends z rs';
  sh_keep p r : (p, r) ∈ rs -> m_is_proxy r = false ->
    (p, r) ∈ rs' \/ m_detached m' !! p = Some (set_refs 0 r);
  sh_orig p r : (p, r) ∈ rs' -> m_is_proxy r = false -> (p, r) ∈ rs;
  sh_fixed p r : (p, r) ∈ rs -> shareable r \/ (p, r) ∈ rs';
  sh_detached : m_detached m ⊆ m_detached m';
  sh_events : m_events m' = m_events m
}.

Lemma ind_empty s x : ind s s x = 0.
Proof. unfold ind. destruct (Z.leb_spec s x), (Z.ltb_spec x s); simpl; lia. Qed.

Lemma ind_split s c e x : s <= c <= e -> ind s e x = ind s c x + ind c e x.
Proof.
  intros. unfold ind.
  destruct (Z.leb_spec s x), (Z.ltb_spec x e), (Z.ltb_spec x c), (Z.leb_spec c x); simpl; lia.
Qed.

Lemma shared_refl m rs s :
  good m rs -> chain 0 rs -> Forall (fun x => range_ok x.2) rs -> shared m rs m rs s s.
Proof. intros Hg Hc Hok. constructor; intros; rewrite ?ind_empty; auto; lia. Qed.

Lemma shared_trans m rs m1 rs1 m2 rs2 s c e :
  shared m rs m1 rs1 s c -> shared m1 rs1 m2 rs2 c e -> s <= c <= e ->
  shared m rs m2 rs2 s e.
Proof.
  intros H1 H2 Hs. constructor; intros.
  - apply H2.
  - apply H2.
  - apply H2.
  - rewrite (sh_rw _ _ _ _ _ _ H2), (sh_rw _ _ _ _ _ _ H1), (ind_split s c e) by lia. lia.
  - by rewrite (sh_ww _ _ _ _ _ _ H2), (sh_ww _ _ _ _ _ _ H1).
  - by apply (sh_starts _ _ _ _ _ _ H2), (sh_starts _ _ _ _ _ _ H1).
  - by apply (sh_ends _ _ _ _ _ _ H2), (sh_ends _ _ _ _ _ _ H1).
  - destruct (sh_keep _ _ _ _ _ _ H1 p r) as [H3 | H3]; auto.
    + by apply (sh_keep _ _ _ _ _ _ H2).
    + right. eapply lookup_weaken; [exact H3 |]. apply H2.
  - apply (sh_orig _ _ _ _ _ _ H1); [| done]. by apply (sh_orig _ _ _ _ _ _ H2).
  - destruct (sh_fixed _ _ _ _ _ _ H1 p r) as [? | H3]; auto.
    by apply (sh_fixed _ _ _ _ _ _ H2).
  - etrans; [apply H1 | apply H2].
  - by rewrite (sh_events _ _ _ _ _ _ H2), (sh_events _ _ _ _ _ _ H1).
Qed.

(** Replacing a piece [a] of the sequence by [b]. *)
Lemma shared_local m m' l1 a b l2 s e :
  good m' (l1 ++ b ++ l2) -> chain 0 (l1 ++ b ++ l2) ->
  Forall (fun x => range_ok x.2) (l1 ++ a ++ l2) -> Forall (fun x => range_ok x.2) b ->
  (forall x, weight (rw x) b = weight (rw x) a + ind s e x) ->
  (forall x, weight (ww x) b = weight (ww x) a) ->
  (forall z, starts z a -> starts z b) -> (forall z, ends z a -> ends z b) ->
  (forall p r, (p, r) ∈ a -> m_is_proxy r = false ->
    (p, r) ∈ b \/ m_detached m' !! p = Some (set_refs 0 r)) ->
  (forall p r, (p, r) ∈ b -> m_is_proxy r = false -> (p, r) ∈ a) ->
  Forall (fun x => shareable x.2) a ->
  m_detached m ⊆ m_detached m' -> m_events m' = m_events m ->
  shared m (l1 ++ a ++ l2) m' (l1 ++ b ++ l2) s e.
Proof.
  intros Hg Hc Hok Hokb Hrw Hww Hst Hen Hk Ho Hsh Hd He.
  assert (Hmono : forall (P : positive * range -> Prop),
    ((exists x, x ∈ a /\ P x) -> exists x, x ∈ b /\ P x) ->
    (exists x, x ∈ l1 ++ a ++ l2 /\ P x) -> exists x, x ∈ l1 ++ b ++ l2 /\ P x).
  { intros P HP (x & Hx & HPx). rewrite !elem_of_app in Hx.
    destruct Hx as [Hx | [Hx | Hx]]; [exists x | | exists x]; [set_solver | | set_solver].
    destruct HP as (y & Hy & HPy); [by exists x |]. exists y. set_solver. }
  constructor; auto.
  - rewrite !Forall_app in *. tauto.
  - intros x. rewrite !weight_app, Hrw. lia.
  - intros x. rewrite !weight_app, Hww. lia.
  - intros z. apply (Hmono (fun x => m_start x.2 = z)), Hst.
  - intros z. apply (Hmono (fun x => m_end x.2 = z)), Hen.
  - intros p r Hin Hp. rewrite !elem_of_app in *.
    destruct Hin as [? | [Hin | ?]]; [tauto | | tauto].
    destruct (Hk p r Hin Hp); tauto.
  - intros p r Hin Hp. rewrite !elem_of_app in *.
    destruct Hin as [? | [Hin | ?]]; [tauto | | tauto]. right. left. auto.
  - intros p r Hin. rewrite Forall_forall in Hsh. rewrite !elem_of_app in *.
    destruct Hin as [? | [Hin | ?]]; [tauto | | tauto]. left. by apply (Hsh (p, r)).
Qed.

(** A range and its proxy. *)
Definition proxy_of (r : range) : range :=
  if m_is_proxy r then r else new_range (m_start r) (m_end r) rt_proxy_reader.

Lemma proxy_of_fields r : range_ok r -> shareable r ->
  m_start (proxy_of r) = m_start r /\ m_end (proxy_of r) = m_end r /\
  m_refs (proxy_of r) = m_refs r /\ m_is_proxy (proxy_of r) = true /\ shareable (proxy_of r).
Proof.
  intros Hok Hsh. unfold proxy_of. destruct (m_is_proxy r) eqn:E; [done |].
  rewrite (ok_single _ Hok E). done.
Qed.

Lemma rw_ext x r r' : m_type r' = m_type r -> m_start r' = m_start r -> m_end r' = m_end r ->
  m_refs r' = m_refs r -> rw x r' = rw x r.
Proof. intros H1 H2 H3 H4. unfold rw, covers. by rewrite H1, H2, H3, H4. Qed.
Lemma ww_reader x r : m_type r = rt_reader -> ww x r = 0.
Proof. intros H. unfold ww. by rewrite H. Qed.
Lemma rw_reader x r : m_type r = rt_reader -> rw x r = if covers x r then m_refs r else 0.
Proof. intros H. unfold rw. by rewrite H. Qed.

Lemma range_ok_proxy r : shareable r -> m_is_proxy r = true -> 1 <= m_refs r -> range_ok r.
Proof.
  intros (Ht & Hr & Hw) Hp Hn. constructor; [by left | done | congruence | congruence |].
  congruence.
Qed.

(** Replacing one range by one with the same bounds keeps the chain. *)
Lemma chain_replace lo l1 l2 p q r r' :
  chain lo (l1 ++ (p, r) :: l2) -> m_start r' = m_start r -> m_end r' = m_end r ->
  chain lo (l1 ++ (q, r') :: l2).
Proof. rewrite !chain_app. simpl. intros Hc -> ->. done. Qed.

Lemma proxify_spec m l1 l2 p r :
  good m (l1 ++ (p, r) :: l2) -> chain 0 (l1 ++ (p, r) :: l2) ->
  Forall (fun x => range_ok x.2) (l1 ++ (p, r) :: l2) -> shareable r ->
  Z.of_nat (length (l1 ++ (p, r) :: l2)) < 2 ^ 32 ->
  exists q m', range_proxify p m = Some (q, m') /\
    shared m (l1 ++ (p, r) :: l2) m' (l1 ++ (q, proxy_of r) :: l2) 0 0.
Proof.
  intros Hg Hc Hok Hsh Hlen.
  assert (Hokr : range_ok r).
  { rewrite Forall_forall in Hok. apply (Hok (p, r)). set_solver. }
  destruct (proxy_of_fields r Hokr Hsh) as (Hs & He & Hr & Hp & Hsh').
  unfold range_proxify, bind. rewrite (read_in _ _ _ _ _ Hg).
  destruct (m_is_proxy r) eqn:Ep.
  { exists p, m. split; [done |]. unfold proxy_of. rewrite Ep. by apply shared_refl. }
  destruct Hsh as (Ht & Hrw & Hww). rewrite (ok_single _ Hokr Ep), Hrw, Hww. simpl.
  destruct (tree_remove_good _ _ _ _ _ Hg Hlen) as (m1 & -> & Hg1 & Hd1 & Hn1 & He1).
  destruct (write_detached m1 _ p r (set_refs 0) Hg1) as (m2 & -> & Hg2 & Hd2 & Hn2 & He2).
  { rewrite Hd1. apply lookup_insert_eq. }
  set (v := new_range (m_start r) (m_end r) rt_proxy_reader).
  destruct (tree_add_good m2 l1 l2 v Hg2) as (m3 & -> & Hg3 & Hd3 & He3).
  { apply chain_app in Hc as [Hc1 (Hc2 & Hc3 & Hc4)].
    eapply chain_straddles; [exact Hc1 | done |].
    eapply chain_weaken; [| exact Hc4]. simpl in *. lia. }
  exists (m_next m2), m3. split; [done |].
  unfold proxy_of in *. rewrite Ep in *. fold v in Hs, He, Hr, Hp, Hsh' |- *.
  apply (shared_local m m3 l1 [(p, r)] [(m_next m2, v)] l2); auto.
  - by eapply chain_replace.
  - apply Forall_singleton. apply range_ok_proxy; auto. simpl. lia.
  - intros x. rewrite ind_empty. simpl. rewrite (rw_ext x r v); [lia | by rewrite Ht | done | done | done].
  - intros x. simpl. rewrite !ww_reader; auto.
  - intros z (y & Hy & <-). apply list_elem_of_singleton in Hy as ->.
    exists (m_next m2, v). split; [set_solver | done].
  - intros z (y & Hy & <-). apply list_elem_of_singleton in Hy as ->.
    exists (m_next m2, v). split; [set_solver | done].
  - intros p' r' Hin _. apply list_elem_of_singleton in Hin. injection Hin as -> ->.
    right. rewrite Hd3, Hd2. apply lookup_insert_eq.
  - intros p' r' Hin Hpr. apply list_elem_of_singleton in Hin. injection Hin as -> ->. done.
  - by apply Forall_singleton.
  - rewrite Hd3, Hd2, Hd1, insert_insert_eq. apply insert_subseteq.
    apply (g_disj _ _ Hg). auto.
  - congruence.
Qed.

Lemma ok_middle l1 l2 (p : positive) (r : range) :
  Forall (fun x => range_ok x.2) (l1 ++ (p, r) :: l2) -> range_ok r.
Proof. rewrite Forall_forall. intros H. apply (H (p, r)). set_solver. Qed.

(** Membership in short explicit sequences of ranges. *)
Local Ltac elems_simpl :=
  repeat match goal with
  | H : _ ∈ [_] |- _ => apply list_elem_of_singleton in H; try injection H as -> ->
  | H : _ ∈ _ :: _ |- _ => apply elem_of_cons in H as [H | H]; [try injection H as -> -> |]
  | H : _ ∈ [] |- _ => by apply elem_of_nil in H
  end.

Lemma inc_spec m l1 l2 q r :
  good m (l1 ++ (q, r) :: l2) -> chain 0 (l1 ++ (q, r) :: l2) ->
  Forall (fun x => range_ok x.2) (l1 ++ (q, r) :: l2) -> shareable r -> m_is_proxy r = true ->
  exists m', write q inc_refs m = Some (tt, m') /\
    shared m (l1 ++ (q, r) :: l2) m' (l1 ++ (q, inc_refs r) :: l2) (m_start r) (m_end r).
Proof.
  intros Hg Hc Hok Hsh Hp. pose proof (ok_middle _ _ _ _ Hok) as Hokr.
  destruct (write_in m l1 l2 q r inc_refs Hg) as (m' & -> & Hg' & Hd & _ & He); [done |].
  exists m'. split; [done |].
  apply (shared_local m m' l1 [(q, r)] [(q, inc_refs r)] l2); auto.
  - by eapply chain_replace.
  - apply Forall_singleton. apply range_ok_proxy; auto. simpl. pose proof (ok_refs _ Hokr). lia.
  - intros x. simpl. rewrite !rw_reader by apply Hsh. unfold covers, ind. simpl.
    destruct (_ && _); lia.
  - intros z (y & Hy & <-). elems_simpl. subst y. exists (q, inc_refs r). split; [set_solver | done].
  - intros z (y & Hy & <-). elems_simpl. subst y. exists (q, inc_refs r). split; [set_solver | done].
  - intros p' r' Hin Hpr. elems_simpl. congruence.
  - intros p' r' Hin Hpr. elems_simpl. simpl in Hpr. congruence.
  - by rewrite Hd.
Qed.

Lemma new_proxy_spec m l1 l2 s e :
  good m (l1 ++ l2) -> Forall (fun x => range_ok x.2) (l1 ++ l2) ->
  chain 0 l1 -> chain_end 0 l1 <= s -> s < e -> chain e l2 ->
  exists q m', range_new_proxy s (e - s) m = Some (tt, m') /\
    shared m (l1 ++ l2) m' (l1 ++ (q, new_range s e rt_proxy_reader) :: l2) s e.
Proof.
  intros Hg Hok Hc1 Hs He Hc2. unfold range_new_proxy, bind.
  rewrite (proj2 (Z.eqb_neq _ _)) by lia. cbn [negb assert ret].
  replace (s + (e - s)) with e by lia.
  set (v := new_range s e rt_proxy_reader).
  destruct (tree_add_good m l1 l2 v Hg) as (m' & -> & Hg' & Hd & Hev).
  { eapply chain_straddles; [exact Hc1 | done |]. eapply chain_weaken; [| exact Hc2].
    simpl. lia. }
  exists (m_next m), m'. split; [done |].
  apply (shared_local m m' l1 [] [(m_next m, v)] l2); auto.
  - apply chain_app. simpl. split; [done |]. split; [done |]. split; [done |]. done.
  - apply Forall_singleton. apply range_ok_proxy; done.
  - intros x. unfold ind. simpl. rewrite rw_reader by done. unfold covers. simpl.
    destruct (_ && _); lia.
  - intros z (y & Hy & <-). elems_simpl.
  - intros z (y & Hy & <-). elems_simpl.
  - intros p' r' Hin Hpr. elems_simpl.
  - intros p' r' Hin Hpr. elems_simpl. done.
  - by rewrite Hd.
Qed.

(** The rear part that [range_split] creates. *)
Definition rear_of (r : range) (o : Z) : range :=
  set_refs (m_refs r) (new_range o (m_end r) rt_proxy_reader).

Lemma cut_shared m m' l1 l2 f b r o :
  range_ok r -> shareable r -> m_is_proxy r = true -> m_start r < o < m_end r ->
  good m' (l1 ++ (f, set_end o r) :: (b, rear_of r o) :: l2) ->
  chain 0 (l1 ++ (f, r) :: l2) -> Forall (fun x => range_ok x.2) (l1 ++ (f, r) :: l2) ->
  m_detached m' = m_detached m -> m_events m' = m_events m ->
  shared m (l1 ++ (f, r) :: l2) m' (l1 ++ (f, set_end o r) :: (b, rear_of r o) :: l2) 0 0.
Proof.
  intros Hokr Hsh Hp Ho Hg Hc Hok Hd He.
  apply (shared_local m m' l1 [(f, r)] [(f, set_end o r); (b, rear_of r o)] l2); auto.
  - rewrite chain_app in *. simpl in *. intuition lia.
  - pose proof (ok_refs _ Hokr).
    constructor; [| apply Forall_singleton]; apply range_ok_proxy; auto; split; auto; apply Hsh.
  - intros x. rewrite ind_empty. simpl.
    rewrite (rw_reader _ r), (rw_reader _ (set_end o r)), (rw_reader _ (rear_of r o))
      by (try done; apply Hsh).
    unfold covers, rear_of. simpl.
    destruct (Z.leb_spec (m_start r) x), (Z.ltb_spec x o), (Z.ltb_spec x (m_end r)),
      (Z.leb_spec o x); simpl; lia.
  - intros x. simpl. rewrite !ww_reader; auto; apply Hsh.
  - intros z (y & Hy & <-). elems_simpl. subst y. exists (f, set_end o r). split; [set_solver | done].
  - intros z (y & Hy & <-). elems_simpl. subst y. exists (b, rear_of r o). split; [set_solver | done].
  - intros p' r' Hin Hpr. elems_simpl. congruence.
  - intros p' r' Hin Hpr. elems_simpl; simpl in Hpr; [congruence | done].
  - by rewrite Hd.
Qed.

Lemma split_spec m l1 l2 p r o :
  good m (l1 ++ (p, r) :: l2) -> chain 0 (l1 ++ (p, r) :: l2) ->
  Forall (fun x => range_ok x.2) (l1 ++ (p, r) :: l2) -> shareable r ->
  Z.of_nat (length (l1 ++ (p, r) :: l2)) < 2 ^ 32 -> m_start r < o < m_end r ->
  exists f b m', range_split p o m = Some ((f, b), m') /\
    shared m (l1 ++ (p, r) :: l2) m'
      (l1 ++ (f, set_end o (proxy_of r)) :: (b, rear_of (proxy_of r) o) :: l2) 0 0.
Proof.
  intros Hg Hc Hok Hsh Hlen Ho. pose proof (ok_middle _ _ _ _ Hok) as Hokr.
  destruct (proxy_of_fields r Hokr Hsh) as (Hs & He & Hr & Hp & Hsh').
  destruct (proxify_spec _ _ _ _ _ Hg Hc Hok Hsh Hlen) as (f & m1 & Hpx & H1).
  pose proof (sh_good _ _ _ _ _ _ H1) as Hg1. pose proof (sh_ok _ _ _ _ _ _ H1) as Hok1.
  pose proof (sh_chain _ _ _ _ _ _ H1) as Hc1.
  unfold range_split, bind at 1. rewrite (read_in _ _ _ _ _ Hg).
  pose proof Hsh as (_ & Hw1 & Hw2). rewrite Hw1, Hw2.
  rewrite !(proj2 (Z.ltb_lt _ _)) by lia. cbn [negb assert ret bind].
  unfold bind at 1. rewrite Hpx. unfold bind at 1. rewrite (read_in _ _ _ _ _ Hg1).
  rewrite Hs. replace (m_start r + o - m_start r) with o by lia.
  destruct (write_in m1 l1 l2 f (proxy_of r) (set_end o) Hg1) as (m2 & Hw & Hg2 & Hd2 & Hn2 & Hev2);
    [done |].
  unfold bind at 1. rewrite Hw.
  destruct (insert_after_good m2 l1 l2 f (set_end o (proxy_of r))
    (new_range o (m_end r) rt_proxy_reader) Hg2) as (m3 & Hi & Hg3 & Hd3 & Hev3).
  { apply chain_app in Hc1 as [Hc1 (Hc2 & Hc3 & Hc4)]. simpl in *.
    eapply (chain_straddles 0).
    - rewrite chain_app. simpl. intuition lia.
    - rewrite chain_end_app. simpl. lia.
    - eapply chain_weaken; [| exact Hc4]. simpl. lia. }
  unfold bind at 1. rewrite Hi.
  rewrite cons_middle, app_assoc in Hg3.
  destruct (write_in m3 _ l2 (m_next m2) _ (set_refs (m_refs r)) Hg3)
    as (m4 & Hw4 & Hg4 & Hd4 & _ & Hev4); [done |].
  unfold bind at 1. rewrite Hw4. exists f, (m_next m2), m4. split; [done |].
  eapply shared_trans; [exact H1 | | lia].
  apply cut_shared; auto; [by eapply ok_middle | lia | | congruence | congruence].
  rewrite <- app_assoc in Hg4. simpl in Hg4. unfold rear_of. by rewrite Hr, He.
Qed.

(** ** [add_reader] *)

Lemma shared_empty m rs m' rs' s t : shared m rs m' rs' s s -> shared m rs m' rs' t t.
Proof.
  intros H. constructor; try apply H. intros x.
  rewrite (sh_rw _ _ _ _ _ _ H), !ind_empty. done.
Qed.

(** The part of the loop body that fills a gap before the next range. *)
Definition fill_gap (prev : option positive) (n : range) : M (T := T) unit :=
  match prev with
  | Some q =>
      bind (read q) (fun r =>
        when (m_end r <? m_start n) (range_new_proxy (m_end r) (m_start n - m_end r)))
  | None => ret tt
  end.

(** The previous range of the loop ends at [cur]; without one, the next starts there. *)
Definition loop_at (prev : option positive) (cur : Z) (pre rest : list (positive * range)) : Prop :=
  match prev with
  | Some q => exists pre' rq, pre = pre' ++ [(q, rq)] /\ m_end rq = cur
  | None => exists p r rest', rest = (p, r) :: rest' /\ m_start r = cur
  end.

Lemma fill_gap_spec m pre p r rest prev cur :
  good m (pre ++ (p, r) :: rest) -> chain 0 (pre ++ (p, r) :: rest) ->
  Forall (fun x => range_ok x.2) (pre ++ (p, r) :: rest) ->
  chain_end 0 pre <= cur -> loop_at prev cur pre ((p, r) :: rest) ->
  exists m1 pre1, fill_gap prev r m = Some (tt, m1) /\ cur <= m_start r /\
    shared m (pre ++ (p, r) :: rest) m1 (pre1 ++ (p, r) :: rest) cur (m_start r) /\
    (length pre1 <= S (length pre))%nat.
Proof.
  intros Hg Hc Hok Hcur Hat. pose proof Hc as [Hc1 (Hc2 & Hc3 & Hc4)]%chain_app. simpl in *.
  destruct prev as [q |]; simpl in Hat |- *.
  - destruct Hat as (pre' & rq & -> & <-). rewrite chain_end_app in *. simpl in *.
    unfold bind. rewrite (read_snoc _ _ _ _ _ Hg).
    destruct (Z.ltb_spec (m_end rq) (m_start r)) as [Hlt | Hge]; simpl.
    + destruct (new_proxy_spec m (pre' ++ [(q, rq)]) ((p, r) :: rest) (m_end rq) (m_start r))
        as (g & m1 & -> & H1); auto; [rewrite chain_end_app; simpl; lia | simpl; intuition lia |].
      exists m1, ((pre' ++ [(q, rq)]) ++ [(g, new_range (m_end rq) (m_start r) rt_proxy_reader)]).
      split; [done |]. split; [lia |]. rewrite <- (app_assoc (pre' ++ _)). split; [exact H1 |].
      rewrite !length_app. simpl. lia.
    + exists m, (pre' ++ [(q, rq)]). replace (m_start r) with (m_end rq) by lia.
      split; [done |]. split; [lia |]. split; [by apply shared_refl | lia].
  - destruct Hat as (p' & r' & rest' & [= <- <- <-] & <-).
    exists m, pre. split; [done |]. split; [lia |]. split; [by apply shared_refl | lia].
Qed.

(** A shareable range becomes a proxy with one reference more. *)
Lemma proxify_inc_spec m l1 l2 p r :
  good m (l1 ++ (p, r) :: l2) -> chain 0 (l1 ++ (p, r) :: l2) ->
  Forall (fun x => range_ok x.2) (l1 ++ (p, r) :: l2) -> shareable r ->
  Z.of_nat (length (l1 ++ (p, r) :: l2)) < 2 ^ 32 ->
  exists q m1 m', range_proxify p m = Some (q, m1) /\ write q inc_refs m1 = Some (tt, m') /\
    shared m (l1 ++ (p, r) :: l2) m' (l1 ++ (q, inc_refs (proxy_of r)) :: l2)
      (m_start r) (m_end r) /\ m_end (proxy_of r) = m_end r.
Proof.
  intros Hg Hc Hok Hsh Hlen. pose proof (ok_middle _ _ _ _ Hok) as Hokr.
  destruct (proxy_of_fields r Hokr Hsh) as (Hs & He & Hr & Hp & Hsh').
  destruct (proxify_spec _ _ _ _ _ Hg Hc Hok Hsh Hlen) as (q & m1 & Hpx & H1).
  destruct (inc_spec m1 l1 l2 q (proxy_of r)) as (m2 & Hw & H2); auto; try apply H1.
  exists q, m1, m2. split; [done |]. split; [done |]. split; [| done]. rewrite <- Hs, <- He at 1.
  eapply shared_trans; [eapply shared_empty; exact H1 | exact H2 |].
  rewrite Hs, He. apply chain_app in Hc as [_ (_ & ? & _)]. simpl in *. lia.
Qed.

Lemma split_inc_spec m l1 l2 p r o :
  good m (l1 ++ (p, r) :: l2) -> chain 0 (l1 ++ (p, r) :: l2) ->
  Forall (fun x => range_ok x.2) (l1 ++ (p, r) :: l2) -> shareable r ->
  Z.of_nat (length (l1 ++ (p, r) :: l2)) < 2 ^ 32 -> m_start r < o < m_end r ->
  exists f b m1 m' rs', range_split p o m = Some ((f, b), m1) /\
    write f inc_refs m1 = Some (tt, m') /\
    shared m (l1 ++ (p, r) :: l2) m' rs' (m_start r) o /\ ends o rs'.
Proof.
  intros Hg Hc Hok Hsh Hlen Ho. pose proof (ok_middle _ _ _ _ Hok) as Hokr.
  destruct (proxy_of_fields r Hokr Hsh) as (Hs & He & Hr & Hp & Hsh').
  destruct (split_spec _ _ _ _ _ _ Hg Hc Hok Hsh Hlen Ho) as (f & b & m1 & Hsp & H1).
  destruct (inc_spec m1 l1 ((b, rear_of (proxy_of r) o) :: l2) f (set_end o (proxy_of r)))
    as (m2 & Hw & H2); auto; try apply H1.
  do 5 eexists. split; [exact Hsp |]. split; [exact Hw |]. split.
  - eapply shared_trans; [eapply shared_empty; exact H1 | | ].
    + simpl in H2. rewrite Hs in H2. exact H2.
    + lia.
  - exists (f, inc_refs (set_end o (proxy_of r))). split; [set_solver | done].
Qed.

Lemma add_reader_loop_spec rest : forall fuel m pre prev cur e,
  good m (pre ++ rest) -> chain 0 (pre ++ rest) ->
  Forall (fun x => range_ok x.2) (pre ++ rest) ->
  (forall x, x ∈ rest -> m_start x.2 < e -> shareable x.2) ->
  chain_end 0 pre <= cur -> cur < e -> loop_at prev cur pre rest ->
  (length rest < fuel)%nat ->
  Z.of_nat (length (pre ++ rest) + length rest) < 2 ^ 32 ->
  exists m' rs', add_reader_loop fuel e prev (to_ptr (fst <$> head rest)) m = Some (tt, m') /\
    shared m (pre ++ rest) m' rs' cur e /\ ends e rs'.
Proof.
  induction rest as [| [p r] rest IH];
    intros fuel m pre prev cur e Hg Hc Hok Hsh Hcur Hlt Hat Hfuel Hlen;
    destruct fuel as [| fuel]; simpl in Hfuel; try lia; cbn [add_reader_loop head fmap option_fmap option_map to_ptr fst].
  - (* past the last range: cover the remaining end *)
    destruct prev as [q |]; simpl in Hat; [| by destruct Hat as (? & ? & ? & ? & ?)].
    destruct Hat as (pre' & rq & -> & <-).
    unfold bind. rewrite (read_snoc _ _ _ _ _ Hg).
    apply chain_app in Hc as [Hc _].
    destruct (new_proxy_spec m (pre' ++ [(q, rq)]) [] (m_end rq) e) as (g & m1 & -> & H1); auto; [done |].
    do 2 eexists. split; [done |]. split; [exact H1 |].
    eexists. split; [apply elem_of_app; right; apply elem_of_cons; left; reflexivity |]. done.
  - unfold bind at 1. rewrite (read_in _ _ _ _ _ Hg).
    destruct (Z.leb_spec e (m_start r)) as [Hbrk | Hnb].
    { destruct prev as [q |]; simpl in Hat;
        [| destruct Hat as (? & ? & ? & [= <- <- <-] & <-); lia].
      destruct Hat as (pre' & rq & -> & <-).
      unfold bind. rewrite (read_snoc _ _ _ _ _ Hg).
      apply chain_app in Hc as [Hc (Hc2 & Hc3 & Hc4)].
      destruct (new_proxy_spec m (pre' ++ [(q, rq)]) ((p, r) :: rest) (m_end rq) e)
        as (g & m1 & -> & H1); auto; [simpl; auto |].
      do 2 eexists. split; [done |]. split; [exact H1 |].
      eexists. split; [apply elem_of_app; right; apply elem_of_cons; left; reflexivity |]. done. }
    assert (Hshr : shareable r) by (apply (Hsh (p, r)); [set_solver | done]).
    destruct (fill_gap_spec m pre p r rest prev cur) as (m1 & pre1 & Hgap & Hcs & H1 & Hl1); auto.
    unfold bind at 1. fold (fill_gap prev r). rewrite Hgap.
    pose proof (sh_good _ _ _ _ _ _ H1) as Hg1. pose proof (sh_chain _ _ _ _ _ _ H1) as Hc1.
    pose proof (sh_ok _ _ _ _ _ _ H1) as Hok1.
    assert (Hlen1 : Z.of_nat (length (pre1 ++ (p, r) :: rest)) < 2 ^ 32).
    { rewrite length_app in *. simpl in *. lia. }
    assert (Hrange : m_start r < m_end r).
    { apply chain_app in Hc as [_ (_ & ? & _)]. done. }
    destruct (Z.eqb_spec e (m_end r)) as [-> | Hne].
    { destruct (proxify_inc_spec _ _ _ _ _ Hg1 Hc1 Hok1 Hshr Hlen1)
        as (q & m2 & m3 & Hpx & Hw & H2 & He).
      unfold bind at 1. rewrite Hpx, Hw. do 2 eexists. split; [done |].
      split; [eapply shared_trans; [exact H1 | exact H2 | lia] |].
      eexists. split; [apply elem_of_app; right; apply elem_of_cons; left; reflexivity | done]. }
    destruct (Z.ltb_spec e (m_end r)) as [Hin | Hout].
    { destruct (split_inc_spec _ _ _ _ _ e Hg1 Hc1 Hok1 Hshr Hlen1 ltac:(lia))
        as (f & b & m2 & m3 & rs' & Hsp & Hw & H2 & He).
      unfold bind at 1. rewrite Hsp. cbn [fst]. rewrite Hw. do 2 eexists. split; [done |].
      split; [| exact He]. eapply shared_trans; [exact H1 | exact H2 | lia]. }
    destruct (proxify_inc_spec _ _ _ _ _ Hg1 Hc1 Hok1 Hshr Hlen1)
      as (q & m2 & m3 & Hpx & Hw & H2 & He).
    unfold bind at 1. rewrite Hpx. unfold bind at 1. rewrite Hw. unfold bind at 1.
    pose proof (sh_good _ _ _ _ _ _ H2) as Hg2. rewrite (tree_next_in _ _ _ _ _ Hg2).
    pose proof (sh_chain _ _ _ _ _ _ H2) as Hc2. pose proof (sh_ok _ _ _ _ _ _ H2) as Hok2.
    rewrite cons_middle, app_assoc in Hg2, Hc2, Hok2.
    edestruct (IH fuel m3 (pre1 ++ [(q, inc_refs (proxy_of r))]) (Some q) (m_end r) e)
      as (m4 & rs' & Hloop & H3 & Hends); auto.
    + intros x Hx Hlt'. apply Hsh; [set_solver | done].
    + rewrite chain_end_app. simpl. lia.
    + lia.
    + simpl. eauto.
    + lia.
    + rewrite !length_app in *. simpl in *. lia.
    + exists m4, rs'. split; [exact Hloop |]. split; [| done].
      eapply shared_trans; [exact H1 | | lia].
      eapply shared_trans; [exact H2 | | lia].
      rewrite <- app_assoc in H3. exact H3.
Qed.

End Inv.
#[export] Hint Resolve elem_fst_middle : core.
End RangeLockInv.
