(* ===== verification/RangeLockOps.v ===== *)
(** * Specifications of the critical sections of the range lock manager

    For each function of RangeLock.v, on a tree that holds a sequence of disjoint
    ranges: it returns, and how the sequence changes. *)
From S2P Require Import Prelude Avl RangeLock RangeLockInv.
From stdpp Require Import base list numbers option sorting gmap.
Local Open Scope Z_scope.

Module RangeLockOps.
Import Avl RangeLock RangeLockInv.

#[local] Arguments add_reader_loop : simpl never.

Section Ops.
Context {T : Type} {OT : OrderedTree range T}.
Implicit Types (m : manager T) (rs l k : list (positive * range)).

(** The manager between two critical sections. *)
Record stable m rs : Prop := {
  st_good : good m rs;
  st_chain : chain 0 rs;
  st_ok : Forall (fun x => range_ok x.2) rs
}.

Lemma bind_ret {X Y} (x : X) (k : X -> M (T := T) Y) m : bind (ret x) k m = k x m.
Proof. reflexivity. Qed.
Lemma bind_some {X Y} (c : M (T := T) X) (k : X -> M Y) m x m' :
  c m = Some (x, m') -> bind c k m = k x m'.
Proof. intros H. unfold bind. by rewrite H. Qed.

Lemma bind_assert {Y} b (k : unit -> M (T := T) Y) m :
  b = true -> bind (assert b) k m = k tt m.
Proof. by intros ->. Qed.

Lemma tree_size_good m rs : good m rs -> Z.of_nat (length rs) < 2 ^ 32 ->
  tree_size m = Some (Z.of_nat (length rs), m).
Proof.
  intros Hg Hl. unfold tree_size. rewrite ot_size_spec, (g_contents _ _ Hg) by apply Hg.
  rewrite u32_small by lia. done.
Qed.

Lemma chain_end_snoc lo l1 p r : chain_end lo (l1 ++ [(p, r)]) = m_end r.
Proof. by rewrite chain_end_app. Qed.

(** ** [add_reader] *)

(** How the search of [lock_range_reader] ended: an entry at the same offset, or the
    insertion point of the range and the entry before it. *)
Definition searched m rs (s : Z) (prev : option positive) (w : insertion_point) : Prop :=
  (exists l1 p pr l2, rs = l1 ++ (p, pr) :: l2 /\ m_start pr = s /\ prev = Some p) \/
  (exists l1 l2, rs = l1 ++ l2 /\ position (m_tree m) w l1 l2 /\
     (forall x, x ∈ l1 -> m_start x.2 < s) /\ (forall x, x ∈ l2 -> s < m_start x.2) /\
     prev = fst <$> last l1).

(** The effect of adding a reader: a new range between two others, or one reference more
    on the pieces that make up [[s, e)]. *)
Definition reader_added m rs m' (s e : Z) (o : option positive) : Prop :=
  match o with
  | Some q => exists l1 l2, rs = l1 ++ l2 /\ q = m_next m /\
      stable m' (l1 ++ (q, new_range s e rt_reader) :: l2) /\
      m_detached m' = m_detached m /\ m_events m' = m_events m
  | None => exists rs', shared m rs m' rs' s e /\ starts s rs' /\ ends e rs'
  end.

Lemma insert_reader_spec m w l1 l2 s e ty :
  stable m (l1 ++ l2) -> position (m_tree m) w l1 l2 -> 0 <= s < e ->
  (ty = rt_reader \/ ty = rt_writer) ->
  chain_end 0 l1 <= s -> chain e l2 ->
  exists m', tree_insert_at (new_range s e ty) w m = Some (m_next m, m') /\
    stable m' (l1 ++ (m_next m, new_range s e ty) :: l2) /\
    m_detached m' = m_detached m /\ m_events m' = m_events m.
Proof.
  intros [Hg Hc Hok] Hp Hs Hty He H2. apply chain_app in Hc as [Hc1 _].
  destruct (insert_at_good m w l1 l2 (new_range s e ty)) as (m' & Hi & Hg' & Hd & Hev); auto.
  { eapply chain_straddles; [exact Hc1 | done |]. eapply chain_weaken; [| exact H2]. simpl. lia. }
  exists m'. split; [done |]. split; [| done]. constructor; [done | |].
  - apply chain_app. simpl. intuition lia.
  - apply Forall_app in Hok as [? ?]. apply Forall_app. split; [done |]. constructor; [| done].
    simpl. destruct Hty as [-> | ->]; constructor; simpl; auto; done.
Qed.

Lemma last_snoc_inv (l : list (positive * range)) :
  l = [] \/ exists l' p r, l = l' ++ [(p, r)].
Proof. destruct l as [| [p r] l] using rev_ind; [by left | right; eauto]. Qed.

Lemma chain_after_gap s e q n l : chain s ((q, n) :: l) -> e <= m_start n -> chain e ((q, n) :: l).
Proof. simpl. intuition lia. Qed.

Lemma shared_stable m rs m' rs' s e : shared m rs m' rs' s e -> stable m' rs'.
Proof. intros H. constructor; apply H. Qed.

(** The second half of [add_reader], once [next] is known. *)
Definition add_reader_from (r : range) (w : insertion_point) (next : ptr)
  : M (T := T) (option positive) :=
  match next with
  | Null => bind (tree_insert_at r w) (fun q => ret (Some q))
  | Wild => fault
  | Ptr q =>
      bind (read q) (fun n =>
      if m_end r <=? m_start n then bind (tree_insert_at r w) (fun q => ret (Some q))
      else
        bind (when (m_start r <? m_start n) (range_new_proxy (m_start r) (m_start n - m_start r)))
          (fun _ =>
        bind tree_size (fun sz =>
        bind (add_reader_loop (S (Z.to_nat sz)) (m_end r) None (Ptr q)) (fun _ => ret None))))
  end.

(** Its first half: the range before, cut at the start of the new one if need be. *)
Definition add_reader_prev (start : Z) (prev_ptr : option positive) : M (T := T) (option positive) :=
  match prev_ptr with
  | None => ret None
  | Some p =>
      bind (read p) (fun pr =>
      if m_end pr <=? start then ret None
      else if negb (m_start pr =? start) then
        bind (range_split p start) (fun fr =>
        bind (tree_next (fst fr)) (fun nx =>
        match nx with
        | Ptr q => bind (assert (bool_decide (q = snd fr))) (fun _ => ret (Some q))
        | _ => fault
        end))
      else ret (Some p))
  end.

Lemma add_reader_unfold r prev w :
  add_reader r prev w =
  bind (add_reader_prev (m_start r) prev) (fun p =>
  bind match p with
    | Some q => bind (read q) (fun n => bind (assert (m_start n =? m_start r)) (fun _ => ret (Ptr q)))
    | None => tree_nearest w AFTER
    end (add_reader_from r w)).
Proof. reflexivity. Qed.

Lemma loop_from_spec m l1 q n l2 s e :
  stable m (l1 ++ (q, n) :: l2) ->
  (forall x, x ∈ (q, n) :: l2 -> m_start x.2 < e -> shareable x.2) ->
  chain_end 0 l1 <= s -> m_start n = s -> s < e ->
  Z.of_nat (length (l1 ++ (q, n) :: l2)) < 2 ^ 31 ->
  exists m' rs', bind tree_size (fun sz =>
      bind (add_reader_loop (S (Z.to_nat sz)) e None (Ptr q)) (fun _ => ret None)) m
      = Some (@None positive, m') /\ shared m (l1 ++ (q, n) :: l2) m' rs' s e /\ ends e rs'.
Proof.
  intros [Hg Hc Hok] Hsh Hce <- Hlt Hlen.
  unfold bind. rewrite (tree_size_good _ _ Hg) by lia.
  destruct (add_reader_loop_spec ((q, n) :: l2)
    (S (Z.to_nat (Z.of_nat (length (l1 ++ (q, n) :: l2))))) m l1 None (m_start n) e)
    as (m' & rs' & Hloop & H & He); auto.
  - simpl. eauto.
  - rewrite Nat2Z.id, length_app. lia.
  - rewrite length_app in *. simpl in *. lia.
  - cbn [head fmap option_fmap option_map to_ptr fst] in Hloop. rewrite Hloop. eauto.
Qed.

Lemma add_reader_from_spec m l1 l2 w s e :
  stable m (l1 ++ l2) -> position (m_tree m) w l1 l2 -> 0 <= s < e ->
  chain_end 0 l1 <= s -> (forall x, x ∈ l2 -> s < m_start x.2) ->
  (forall x, x ∈ l2 -> m_start x.2 < e -> shareable x.2) ->
  Z.of_nat (length (l1 ++ l2)) < 2 ^ 30 ->
  exists o m', add_reader_from (new_range s e rt_reader) w (to_ptr (fst <$> head l2)) m
    = Some (o, m') /\ reader_added m (l1 ++ l2) m' s e o.
Proof.
  intros Hst Hp Hs Hce Hgt Hsh Hlen. pose proof Hst as [Hg Hc Hok].
  pose proof Hc as [Hc1 Hc2]%chain_app. unfold add_reader_from.
  destruct l2 as [| [q n] l2]; simpl.
  { destruct (insert_reader_spec m w l1 [] s e rt_reader) as (m' & Hi & Hst' & Hd & Hev);
      auto.
    unfold bind. rewrite Hi. exists (Some (m_next m)), m'. split; [done |].
    exists l1, []. done. }
  assert (Hsn : s < m_start n) by (apply (Hgt (q, n)); set_solver).
  unfold bind at 1. rewrite (read_in _ _ _ _ _ Hg).
  destruct (Z.leb_spec e (m_start n)) as [Hb | Hnb].
  { destruct (insert_reader_spec m w l1 ((q, n) :: l2) s e rt_reader)
      as (m' & Hi & Hst' & Hd & Hev); auto; [by eapply chain_after_gap |].
    unfold bind. rewrite Hi. exists (Some (m_next m)), m'. split; [done |].
    exists l1, ((q, n) :: l2). done. }
  rewrite (proj2 (Z.ltb_lt _ _) Hsn). unfold bind at 1. cbn [when].
  destruct (new_proxy_spec m l1 ((q, n) :: l2) s (m_start n)) as (g & m1 & -> & H1); auto.
  { by eapply chain_after_gap. }
  destruct (loop_from_spec m1 (l1 ++ [(g, new_range s (m_start n) rt_proxy_reader)]) q n l2
    (m_start n) e) as (m2 & rs' & Hl & H2 & He); auto.
  - rewrite <- app_assoc. by eapply shared_stable.
  - rewrite chain_end_snoc. done.
  - rewrite !length_app in *. simpl in *. lia.
  - simpl m_end. rewrite Hl. exists None, m2. split; [done |]. exists rs'. rewrite <- app_assoc in H2.
    split; [eapply shared_trans; [exact H1 | exact H2 | lia] |].
    split; [| done]. eapply sh_starts; [exact H2 |].
    exists (g, new_range s (m_start n) rt_proxy_reader). split; [set_solver | done].
Qed.

(** A range that begins before [s] and ends after it is cut there. *)
Lemma split_at_spec m l1 p r l2 s e :
  stable m (l1 ++ (p, r) :: l2) -> shareable r -> m_start r < s < m_end r -> s < e ->
  (forall x, x ∈ l2 -> m_start x.2 < e -> shareable x.2) ->
  Z.of_nat (length (l1 ++ (p, r) :: l2)) < 2 ^ 30 ->
  exists f b m1, range_split p s m = Some ((f, b), m1) /\
    tree_next f m1 = Some (Ptr b, m1) /\
    exists rb, read b m1 = Some (rb, m1) /\ m_start rb = s /\
    exists m' rs', bind tree_size (fun sz =>
      bind (add_reader_loop (S (Z.to_nat sz)) e None (Ptr b)) (fun _ => ret None)) m1
      = Some (@None positive, m') /\
      shared m (l1 ++ (p, r) :: l2) m' rs' s e /\ starts s rs' /\ ends e rs'.
Proof.
  intros [Hg Hc Hok] Hsh Hs He Hsh2 Hlen. pose proof (ok_middle _ _ _ _ Hok) as Hokr.
  destruct (split_spec m l1 l2 p r s) as (f & b & m1 & Hsp & H1); auto; [lia |].
  destruct (proxy_of_fields r Hokr Hsh) as (_ & _ & _ & Hp & Hshp).
  pose proof (sh_good _ _ _ _ _ _ H1) as Hg1.
  exists f, b, m1. split; [done |]. split; [by rewrite (tree_next_in _ _ _ _ _ Hg1) |].
  rewrite cons_middle, app_assoc in Hg1.
  exists (rear_of (proxy_of r) s). split; [by rewrite (read_in _ _ _ _ _ Hg1) |]. split; [done |].
  destruct (loop_from_spec m1 (l1 ++ [(f, set_end s (proxy_of r))]) b (rear_of (proxy_of r) s)
    l2 s e) as (m2 & rs' & Hl & H2 & Hen); auto.
  - rewrite <- app_assoc. by eapply shared_stable.
  - intros x [-> | Hx]%elem_of_cons; [| by apply Hsh2]. intros _. done.
  - by rewrite chain_end_snoc.
  - rewrite !length_app in *. simpl in *. lia.
  - exists m2, rs'. split; [done |]. rewrite <- app_assoc in H2.
    split; [eapply shared_trans; [eapply shared_empty, H1 | exact H2 | lia] |].
    split; [| done]. eapply sh_starts; [exact H2 |].
    exists (b, rear_of (proxy_of r) s). split; [set_solver | done].
Qed.

(** [add_reader], when every range that overlaps [[s, e)] can be shared. *)
Lemma add_reader_spec m rs prev w s e :
  stable m rs -> rs <> [] -> searched m rs s prev w -> 0 <= s < e ->
  (forall x, x ∈ rs -> m_start x.2 < e -> s < m_end x.2 -> shareable x.2) ->
  Z.of_nat (length rs) < 2 ^ 30 ->
  exists o m', add_reader (new_range s e rt_reader) prev w m = Some (o, m') /\
    reader_added m rs m' s e o.
Proof.
  intros Hst Hne Hse Hs Hsh Hlen. pose proof Hst as [Hg Hc Hok].
  destruct Hse as [(l1 & p & pr & l2 & -> & Hps & ->) | (l1 & l2 & -> & Hpos & Hlt & Hgt & ->)].
  - (* a range starts at [s] *)
    pose proof Hc as [Hc1 (Hc2 & Hc3 & Hc4)]%chain_app. simpl in Hc2, Hc3, Hc4.
    rewrite add_reader_unfold. unfold bind at 1, add_reader_prev, bind at 1.
    rewrite (read_in _ _ _ _ _ Hg). change (m_start (new_range s e rt_reader)) with s.
    rewrite (proj2 (Z.leb_gt _ _)), (proj2 (Z.eqb_eq _ _)) by (simpl; lia).
    cbn [negb ret]. rewrite (bind_some _ _ m (Ptr p) m).
    2: { rewrite (bind_some _ _ _ _ _ (read_in _ _ _ _ _ Hg)), bind_assert; [done |].
         apply Z.eqb_eq. done. }
    unfold add_reader_from, bind at 1. rewrite (read_in _ _ _ _ _ Hg). change (m_end (new_range s e rt_reader)) with e. change (m_start (new_range s e rt_reader)) with s.
    rewrite (proj2 (Z.leb_gt _ _)), (proj2 (Z.ltb_ge _ _)) by lia. cbn [when ret].
    destruct (loop_from_spec m l1 p pr l2 s e) as (m' & rs' & Hl & H1 & He); auto; try lia.
    { intros x Hx Hxe. apply Hsh; [set_solver | done |].
      assert (s <= m_start x.2 < m_end x.2); [| lia].
      eapply (chain_bounds s ((p, pr) :: l2)); [| done]. simpl. auto with lia. }
    cbn [ret]. rewrite bind_ret. simpl m_end. rewrite Hl. exists None, m'. split; [done |].
    exists rs'. split; [done |]. split; [| done]. eapply sh_starts; [exact H1 |].
    exists (p, pr). split; [set_solver | done].
  - pose proof Hc as [Hc1 Hc2]%chain_app.
    assert (Hfrom : chain_end 0 l1 <= s -> exists o m',
      bind (tree_nearest w AFTER) (add_reader_from (new_range s e rt_reader) w) m
        = Some (o, m') /\ reader_added m (l1 ++ l2) m' s e o).
    { intros Hce. unfold bind, tree_nearest.
      rewrite (ot_nearest_spec _ w l1 l2) by (try apply Hg; try done; by rewrite (g_contents _ _ Hg)).
      apply add_reader_from_spec; auto. intros x Hx Hxe. apply Hsh; [set_solver | done |].
      pose proof (Hgt x Hx). pose proof (chain_bounds _ _ _ Hc2 Hx). lia. }
    rewrite add_reader_unfold. unfold bind at 1.
    destruct (last_snoc_inv l1) as [-> | (l' & p & pr & ->)].
    { cbn [last fmap option_fmap option_map add_reader_prev ret]. apply Hfrom. simpl. lia. }
    rewrite last_snoc. cbn [fmap option_fmap option_map fst].
    unfold add_reader_prev, bind at 1. rewrite (read_snoc _ _ _ _ _ Hg).
    change (m_start (new_range s e rt_reader)) with s.
    destruct (Z.leb_spec (m_end pr) s) as [Hle | Hgt'].
    { cbn [ret]. apply Hfrom. by rewrite chain_end_snoc. }
    assert (Hps : m_start pr < s) by (apply (Hlt (p, pr)); set_solver).
    rewrite (proj2 (Z.eqb_neq _ _)) by lia. cbn [negb].
    rewrite <- app_assoc in *. simpl app in *.
    destruct (split_at_spec m l' p pr l2 s e) as
      (f & b & m1 & Hsp & Hnx & rb & Hrb & Hsb & m' & rs' & Hl & H1 & Hst' & Hen); auto; try lia.
    { apply (Hsh (p, pr)); [set_solver | simpl; lia | done]. }
    { intros x Hx Hxe. apply Hsh; [set_solver | done |].
      pose proof (Hgt x Hx). pose proof (chain_bounds _ _ _ Hc2 Hx). lia. }
    unfold bind at 1. rewrite Hsp. unfold bind at 1. cbn [fst snd]. rewrite Hnx.
    rewrite bind_assert by (by apply bool_decide_eq_true). cbn [ret].
    rewrite (bind_some _ _ m1 (Ptr b) m1).
    2: { rewrite (bind_some _ _ _ _ _ Hrb), bind_assert; [done |]. apply Z.eqb_eq. done. }
    unfold add_reader_from, bind at 1. rewrite Hrb.
    change (m_end (new_range s e rt_reader)) with e. change (m_start (new_range s e rt_reader)) with s.
    rewrite (proj2 (Z.leb_gt _ _)), (proj2 (Z.ltb_ge _ _)) by (simpl; lia). cbn [when].
    rewrite bind_ret. simpl m_end. rewrite Hl.
    exists None, m'. split; [done |]. exists rs'. auto.
Qed.

(** ** Waiting *)

Definition overlaps (r : range) (s e : Z) : Prop := m_start r < e /\ s < m_end r.

(** [flagged m rs m' rs' p t]: only the wanted flag of type [t] of the range at [p] changed. *)
Record flagged m rs m' rs' (p : positive) (t : lock_type) : Prop := {
  fl_stable : stable m' rs';
  fl_split : exists l1 r r' l2, rs = l1 ++ (p, r) :: l2 /\ rs' = l1 ++ (p, r') :: l2 /\
    r' = match t with reader => want_read r | writer => want_write r end;
  fl_detached : m_detached m' = m_detached m;
  fl_events : m_events m' = m_events m
}.

Lemma flag_spec m l1 p r l2 t :
  stable m (l1 ++ (p, r) :: l2) -> (t = reader -> excludes_readers r = true) ->
  let f := match t with reader => want_read | writer => want_write end in
  let wanted := match t with reader => m_read_wanted r | writer => m_write_wanted r end in
  exists m', when (negb wanted) (write p f) m = Some (tt, m') /\
    flagged m (l1 ++ (p, r) :: l2) m' (l1 ++ (p, f r) :: l2) p t.
Proof.
  intros [Hg Hc Hok] Hex f wanted.
  assert (Hst : forall m', good m' (l1 ++ (p, f r) :: l2) -> stable m' (l1 ++ (p, f r) :: l2)).
  { intros m' Hg'. constructor; [done | |].
    - eapply chain_replace; [exact Hc | |]; by destruct t.
    - apply Forall_app in Hok as [H1 [H2 H3]%Forall_cons]. apply Forall_app. split; [done |].
      constructor; [| done]. destruct H2 as [O1 O2 O3 O4 O5].
      unfold excludes_readers in Hex. destruct t; constructor; simpl in *; auto.
      intros Ht _. specialize (Hex eq_refl). rewrite Ht in Hex. done. }
  destruct wanted eqn:Ew; simpl.
  - exists m. split; [done |].
    assert (Hf : f r = r) by (unfold f; destruct r, t; simpl in *; by subst wanted; rewrite Ew).
    constructor; [apply Hst; by rewrite Hf | | done | done].
    exists l1, r, (f r), l2. repeat split. by destruct t.
  - destruct (write_in m l1 l2 p r f Hg) as (m' & -> & Hg' & Hd & _ & Hev); [by destruct t |].
    exists m'. split; [done |]. constructor; [auto | | done | done].
    exists l1, r, (f r), l2. repeat split. by destruct t.
Qed.

Lemma mark_read_spec m l1 p r l2 :
  stable m (l1 ++ (p, r) :: l2) -> excludes_readers r = true ->
  exists m' rs', mark_read_wanted p m = Some (tt, m') /\
    flagged m (l1 ++ (p, r) :: l2) m' rs' p reader.
Proof.
  intros Hst Hex. unfold mark_read_wanted.
  rewrite (bind_some _ _ _ _ _ (read_in _ _ _ _ _ (st_good _ _ Hst))).
  destruct (flag_spec m l1 p r l2 reader Hst) as (m' & H1 & H2); eauto.
Qed.

(** What a critical section of a reader ends with. *)
Definition blocked m rs m' (p : positive) (s e : Z) (t : lock_type) : Prop :=
  exists r rs', (p, r) ∈ rs /\ overlaps r s e /\ (t = reader -> excludes_readers r = true) /\
    flagged m rs m' rs' p t.

Lemma reader_scan_spec rest : forall fuel m pre s e,
  stable m (pre ++ rest) -> (forall x, x ∈ rest -> s < m_end x.2) ->
  (length rest < fuel)%nat ->
  exists o m', reader_scan fuel e (to_ptr (fst <$> head rest)) m = Some (o, m') /\
    match o with
    | None => m' = m /\ forall x, x ∈ rest -> m_start x.2 < e -> excludes_readers x.2 = false
    | Some p => blocked m (pre ++ rest) m' p s e reader
    end.
Proof.
  induction rest as [| [p r] rest IH]; intros fuel m pre s e Hst Hs Hf;
    (destruct fuel as [| fuel]; [simpl in Hf; lia |]).
  - exists None, m. split; [done |]. split; [done |]. intros x Hx. by apply elem_of_nil in Hx.
  - cbn [reader_scan head fmap option_fmap option_map to_ptr fst].
    pose proof Hst as [Hg Hc Hok]. rewrite (bind_some _ _ _ _ _ (read_in _ _ _ _ _ Hg)).
    pose proof Hc as [Hc1 (Hc2 & Hc3 & Hc4)]%chain_app. simpl in Hc2, Hc3, Hc4.
    destruct (Z.leb_spec e (m_start r)) as [Hb | Hnb].
    { exists None, m. split; [done |]. split; [done |].
      intros x [-> | Hx]%elem_of_cons Hxe; simpl in *; [lia |].
      pose proof (chain_bounds _ _ _ Hc4 Hx). lia. }
    destruct (excludes_readers r) eqn:Ex.
    { destruct (mark_read_spec m pre p r rest Hst Ex) as (m' & rs' & Hm & Hfl).
      rewrite (bind_some _ _ _ _ _ Hm). exists (Some p), m'. split; [done |].
      exists r, rs'. split; [set_solver |]. split; [| done].
      split; [done |]. apply (Hs (p, r)). set_solver. }
    destruct (Z.leb_spec e (m_end r)) as [Hb | Hnb'].
    { exists None, m. split; [done |]. split; [done |].
      intros x [-> | Hx]%elem_of_cons Hxe; simpl in *; [done |].
      pose proof (chain_bounds _ _ _ Hc4 Hx). lia. }
    rewrite (bind_some _ _ _ _ _ (tree_next_in _ _ _ _ _ Hg)).
    rewrite cons_middle, app_assoc in Hst.
    destruct (IH fuel m (pre ++ [(p, r)]) s e Hst) as (o & m' & Hsc & Ho).
    { intros x Hx. apply Hs. set_solver. }
    { simpl in Hf. lia. }
    exists o, m'. split; [exact Hsc |]. rewrite <- app_assoc in Ho. destruct o; [exact Ho |].
    destruct Ho as [-> Ho]. split; [done |].
    intros x [-> | Hx]%elem_of_cons Hxe; [done | by apply Ho].
Qed.

(** ** Locking *)

(** How a critical section of [lock_range] ends, and what it did. *)
Definition lock_result m rs (s e : Z) (t : lock_type) (o : outcome) m' : Prop :=
  match o with
  | Waiting p => blocked m rs m' p s e t
  | Acquired q =>
      (forall x, x ∈ rs -> overlaps x.2 s e -> t = reader /\ excludes_readers x.2 = false) /\
      match t with
      | reader => reader_added m rs m' s e q
      | writer => exists l1 l2, rs = l1 ++ l2 /\ q = Some (m_next m) /\
          stable m' (l1 ++ (m_next m, new_range s e rt_writer) :: l2) /\
          m_detached m' = m_detached m /\ m_events m' = m_events m
      end
  end.

Lemma tree_find_spec m rs s e ty :
  stable m rs -> 0 <= s < e ->
  exists hit w, tree_find (new_range s e ty) m = Some ((hit, w), m) /\
    match hit with
    | Some p => exists l1 r l2, rs = l1 ++ (p, r) :: l2 /\ m_start r = s
    | None => exists l1 l2, rs = l1 ++ l2 /\ position (m_tree m) w l1 l2 /\
        (forall x, x ∈ l1 -> m_start x.2 < s) /\ (forall x, x ∈ l2 -> s < m_start x.2)
    end.
Proof.
  intros [Hg Hc Hok] Hs. unfold tree_find.
  pose proof (ot_find_spec (m_tree m) (new_range s e ty) (g_tree _ _ Hg)) as Hf.
  destruct (ot_find (m_tree m) (new_range s e ty)) as [[p |] w]; do 2 eexists; (split; [done |]).
  - destruct Hf as (_ & l1 & d & l2 & Hcont & Hcmp). rewrite (g_contents _ _ Hg) in Hcont.
    exists l1, d, l2. split; [done |]. unfold compare in Hcmp. simpl in Hcmp.
    rewrite int_compare_sgn in Hcmp. lia.
  - destruct Hf as (l1 & l2 & Hp & H1 & H2).
    exists l1, l2. pose proof (ot_position_contents _ _ _ _ Hp) as Hcont.
    rewrite (g_contents _ _ Hg) in Hcont. split; [done |]. split; [done |].
    rewrite Forall_forall in H1, H2.
    split; intros x Hx; [specialize (H1 x Hx) | specialize (H2 x Hx)];
      unfold compare in *; simpl in *; rewrite int_compare_sgn in *; lia.
Qed.

Lemma nearest_in m l1 l2 w dir :
  good m (l1 ++ l2) -> l1 ++ l2 <> [] -> position (m_tree m) w l1 l2 ->
  tree_nearest w dir m =
    Some (to_ptr (fst <$> match dir with BEFORE => last l1 | AFTER => head l2 end), m).
Proof.
  intros Hg Hne Hp. unfold tree_nearest.
  rewrite (ot_nearest_spec _ w l1 l2); [done | apply Hg | by rewrite (g_contents _ _ Hg) | done].
Qed.

(** [got_lock] and the scan of [lock_range_reader_retry]. *)
Definition got_lock (s e : Z) prev w : M (T := T) outcome :=
  bind (add_reader (new_range s e rt_reader) prev w) (fun p => ret (Acquired p)).
Definition scan_then_lock (s e : Z) prev w next : M (T := T) outcome :=
  bind tree_size (fun sz =>
  bind (reader_scan (S (Z.to_nat sz)) e next) (fun b =>
  match b with Some p => ret (Waiting p) | None => got_lock s e prev w end)).

Lemma got_lock_spec m rs prev w s e :
  stable m rs -> rs <> [] -> searched m rs s prev w -> 0 <= s < e ->
  (forall x, x ∈ rs -> overlaps x.2 s e -> excludes_readers x.2 = false) ->
  Z.of_nat (length rs) < 2 ^ 30 ->
  exists o m', got_lock s e prev w m = Some (o, m') /\ lock_result m rs s e reader o m'.
Proof.
  intros Hst Hne Hse Hs Hex Hlen.
  destruct (add_reader_spec m rs prev w s e) as (q & m' & Ha & Hr); auto.
  { intros x Hx H1 H2. apply excludes_readers_shareable; [| by apply Hex].
    pose proof (st_ok _ _ Hst) as Hok. rewrite Forall_forall in Hok. by apply Hok. }
  exists (Acquired q), m'. unfold got_lock. rewrite (bind_some _ _ _ _ _ Ha).
  split; [done |]. simpl. split; [| done]. intros x Hx Ho. split; [done | by apply Hex].
Qed.

Lemma scan_then_lock_spec m pre rest prev w s e :
  stable m (pre ++ rest) -> pre ++ rest <> [] -> searched m (pre ++ rest) s prev w -> 0 <= s < e ->
  (forall x, x ∈ pre -> overlaps x.2 s e -> excludes_readers x.2 = false) ->
  (forall x, x ∈ rest -> s < m_end x.2) ->
  Z.of_nat (length (pre ++ rest)) < 2 ^ 30 ->
  exists o m', scan_then_lock s e prev w (to_ptr (fst <$> head rest)) m = Some (o, m') /\
    lock_result m (pre ++ rest) s e reader o m'.
Proof.
  intros Hst Hne Hse Hs Hpre Hrest Hlen. unfold scan_then_lock.
  erewrite bind_some by (apply tree_size_good; [apply Hst | lia]).
  destruct (reader_scan_spec rest (S (Z.to_nat (Z.of_nat (length (pre ++ rest))))) m pre s e)
    as (o & m' & Hsc & Ho); auto.
  { rewrite Nat2Z.id, length_app. lia. }
  rewrite (bind_some _ _ _ _ _ Hsc). destruct o as [p |].
  - exists (Waiting p), m'. split; [done |]. exact Ho.
  - destruct Ho as [-> Ho]. apply got_lock_spec; auto.
    intros x [Hx | Hx]%elem_of_app Hov; [by apply Hpre | apply Ho; [done | apply Hov]].
Qed.

(** [lock_range_reader_retry] once the previous range is known. *)
Definition reader_from (s e : Z) (prev : ptr) w : M (T := T) outcome :=
  match prev with
  | Wild => fault
  | Null => bind (tree_nearest w AFTER) (fun nx => scan_then_lock s e None w nx)
  | Ptr p =>
      bind (read p) (fun pr =>
      if (s <? m_end pr) && excludes_readers pr then
        bind (mark_read_wanted p) (fun _ => ret (Waiting p))
      else if (s <? m_end pr) && (e <? m_end pr) then got_lock s e (Some p) w
      else bind (tree_next p) (fun nx => scan_then_lock s e (Some p) w nx))
  end.

Lemma retry_unfold s e :
  lock_range_reader_retry s e =
  bind (tree_find (new_range s e rt_reader)) (fun '(hit, w) =>
  bind match hit with Some p => ret (Ptr p) | None => tree_nearest w BEFORE end
    (fun prev => reader_from s e prev w)).
Proof. reflexivity. Qed.

Lemma reader_from_spec m l1 p r l2 w s e :
  stable m (l1 ++ (p, r) :: l2) -> searched m (l1 ++ (p, r) :: l2) s (Some p) w ->
  0 <= s < e -> m_start r <= s -> (forall x, x ∈ l2 -> s < m_end x.2) ->
  Z.of_nat (length (l1 ++ (p, r) :: l2)) < 2 ^ 30 ->
  exists o m', reader_from s e (Ptr p) w m = Some (o, m') /\
    lock_result m (l1 ++ (p, r) :: l2) s e reader o m'.
Proof.
  intros Hst Hse Hs Hle Hl2 Hlen. pose proof Hst as [Hg Hc Hok].
  pose proof Hc as [Hc1 (Hc2 & Hc3 & Hc4)]%chain_app. simpl in Hc2, Hc3, Hc4.
  assert (Hbefore : forall x, x ∈ l1 -> m_end x.2 <= s).
  { intros x Hx. pose proof (chain_bounds _ _ _ Hc1 Hx). lia. }
  assert (Hne : l1 ++ (p, r) :: l2 <> []) by (by destruct l1).
  unfold reader_from. rewrite (bind_some _ _ _ _ _ (read_in _ _ _ _ _ Hg)).
  destruct ((s <? m_end r) && excludes_readers r) eqn:Ex.
  { apply andb_true_iff in Ex as [Hlt%Z.ltb_lt Hex].
    destruct (mark_read_spec m l1 p r l2 Hst Hex) as (m' & rs' & Hm & Hfl).
    rewrite (bind_some _ _ _ _ _ Hm). exists (Waiting p), m'. split; [done |].
    exists r, rs'. split; [set_solver |]. split; [split; lia |]. done. }
  assert (Hfree : forall x, x ∈ l1 ++ [(p, r)] -> overlaps x.2 s e -> excludes_readers x.2 = false).
  { intros x [Hx | Hx]%elem_of_app [Ho1 Ho2]; [pose proof (Hbefore x Hx); lia |].
    apply list_elem_of_singleton in Hx as ->. simpl in *.
    by rewrite (proj2 (Z.ltb_lt _ _) Ho2) in Ex. }
  destruct ((s <? m_end r) && (e <? m_end r)) eqn:Ein.
  { apply andb_true_iff in Ein as [_ Hlt%Z.ltb_lt].
    apply got_lock_spec; auto. rewrite cons_middle, app_assoc.
    intros x [Hx | Hx]%elem_of_app Ho; [by apply Hfree |].
    pose proof (chain_bounds _ _ _ Hc4 Hx). destruct Ho. lia. }
  rewrite (bind_some _ _ _ _ _ (tree_next_in _ _ _ _ _ Hg)).
  rewrite cons_middle, app_assoc in Hst, Hse, Hlen, Hne |- *. by apply scan_then_lock_spec.
Qed.

(** [lock_range_reader] from [retry] on, on a tree that is not empty. *)
Lemma reader_retry_spec m rs s e :
  stable m rs -> rs <> [] -> 0 <= s < e -> Z.of_nat (length rs) < 2 ^ 30 ->
  exists o m', lock_range_reader_retry s e m = Some (o, m') /\ lock_result m rs s e reader o m'.
Proof.
  intros Hst Hne Hs Hlen. pose proof Hst as [Hg Hc Hok]. rewrite retry_unfold.
  destruct (tree_find_spec m rs s e rt_reader Hst Hs) as (hit & w & Hf & Hhit).
  rewrite (bind_some _ _ _ _ _ Hf). destruct hit as [p |].
  - destruct Hhit as (l1 & r & l2 & -> & Hr). rewrite bind_ret.
    apply reader_from_spec; auto; [left; eauto 10 | lia |].
    intros x Hx. apply chain_app in Hc as [_ (_ & Hc3 & Hc4)]. simpl in *.
    pose proof (chain_bounds _ _ _ Hc4 Hx). lia.
  - destruct Hhit as (l1 & l2 & -> & Hp & Hlt & Hgt).
    assert (Hse : searched m (l1 ++ l2) s (fst <$> last l1) w) by (right; eauto 10).
    assert (Hend : forall x, x ∈ l2 -> s < m_end x.2).
    { intros x Hx. pose proof (Hgt x Hx). apply chain_app in Hc as [_ Hc].
      pose proof (chain_bounds _ _ _ Hc Hx). lia. }
    rewrite (bind_some _ _ _ _ _ (nearest_in m l1 l2 w BEFORE Hg Hne Hp)).
    destruct (last_snoc_inv l1) as [-> | (l' & p & r & ->)].
    + cbn [last fmap option_fmap option_map to_ptr reader_from].
      rewrite (bind_some _ _ _ _ _ (nearest_in m [] l2 w AFTER Hg Hne Hp)).
      apply (scan_then_lock_spec m [] l2); auto. intros x Hx. by apply elem_of_nil in Hx.
    + rewrite last_snoc in *. cbn [fmap option_fmap option_map fst to_ptr] in *.
      assert (Hle : m_start r < s) by (apply (Hlt (p, r)); set_solver).
      rewrite <- app_assoc in *. apply reader_from_spec; auto. lia.
Qed.

(** On an empty tree the retry follows an invalid pointer. *)
Lemma reader_retry_empty m s e :
  stable m [] -> 0 <= s < e -> lock_range_reader_retry s e m = None.
Proof.
  intros Hst Hs. rewrite retry_unfold.
  destruct (tree_find_spec m [] s e rt_reader Hst Hs) as ([p |] & w & Hf & Hhit).
  - destruct Hhit as ([| ? ?] & ? & ? & ? & _); done.
  - destruct Hhit as ([| ? ?] & [| ? ?] & ? & Hp & _); try done.
    rewrite (bind_some _ _ _ _ _ Hf). unfold bind, tree_nearest.
    rewrite (ot_nearest_empty _ w BEFORE) by (done || apply Hst). cbn [reader_from].
    unfold bind, tree_nearest. rewrite (ot_nearest_empty _ w AFTER) by (done || apply Hst).
    unfold scan_then_lock, bind, tree_size.
    rewrite ot_size_spec by apply Hst. by rewrite (g_contents _ _ (st_good _ _ Hst)).
Qed.

Lemma tree_add_first m s e ty :
  stable m [] -> 0 <= s < e -> ty = rt_reader \/ ty = rt_writer ->
  exists m', tree_add (new_range s e ty) m = Some (m_next m, m') /\
    stable m' [(m_next m, new_range s e ty)] /\
    m_detached m' = m_detached m /\ m_events m' = m_events m.
Proof.
  intros [Hg Hc Hok] Hs Hty.
  destruct (tree_add_good m [] [] (new_range s e ty) Hg) as (m' & Ha & Hg' & Hd & Hev).
  { split; constructor. }
  exists m'. split; [done |]. split; [| done]. constructor; [done | simpl; lia |].
  apply Forall_singleton. destruct Hty as [-> | ->]; constructor; simpl; auto; done.
Qed.

Lemma reader_lock_spec m rs s e :
  stable m rs -> 0 <= s < e -> Z.of_nat (length rs) < 2 ^ 30 ->
  exists o m', lock_range_reader s e m = Some (o, m') /\ lock_result m rs s e reader o m'.
Proof.
  intros Hst Hs Hlen. unfold lock_range_reader.
  erewrite bind_some by (apply tree_size_good; [apply Hst | lia]).
  destruct rs as [| x rs].
  - destruct (tree_add_first m s e rt_reader) as (m' & Ha & Hst' & Hd & Hev); auto.
    change (Z.of_nat (length (@nil (positive * range))) =? 0) with true. cbv iota.
    rewrite (bind_some _ _ _ _ _ Ha). exists (Acquired (Some (m_next m))), m'.
    split; [done |]. simpl. split; [intros x Hx; by apply elem_of_nil in Hx |].
    exists [], []. auto.
  - destruct (Z.eqb_spec (Z.of_nat (length (x :: rs))) 0) as [E | _]; [simpl in E; lia |].
    by apply reader_retry_spec.
Qed.

(** [wait] of [lock_range_writer]. *)
Definition writer_wait p : M (T := T) outcome :=
  bind (read p) (fun n =>
  bind (when (negb (m_write_wanted n)) (write p want_write)) (fun _ => ret (Waiting p))).
Definition writer_check_prev (s e : Z) w : M (T := T) outcome :=
  bind (tree_nearest w BEFORE) (fun b =>
  match b with
  | Wild => fault
  | Null => bind (tree_insert_at (new_range s e rt_writer) w) (fun p => ret (Acquired (Some p)))
  | Ptr p =>
      bind (read p) (fun n =>
      if s <? m_end n then writer_wait p
      else bind (tree_insert_at (new_range s e rt_writer) w) (fun p => ret (Acquired (Some p))))
  end).

Lemma writer_wait_spec m l1 p r l2 s e :
  stable m (l1 ++ (p, r) :: l2) -> overlaps r s e ->
  exists o m', writer_wait p m = Some (o, m') /\
    lock_result m (l1 ++ (p, r) :: l2) s e writer o m'.
Proof.
  intros Hst Ho. unfold writer_wait.
  rewrite (bind_some _ _ _ _ _ (read_in _ _ _ _ _ (st_good _ _ Hst))).
  destruct (flag_spec m l1 p r l2 writer Hst) as (m' & Hw & Hfl); [done |].
  simpl in Hw, Hfl. rewrite (bind_some _ _ _ _ _ Hw). exists (Waiting p), m'. split; [done |].
  exists r. eexists. split; [set_solver |]. split; [done |]. split; [done |]. exact Hfl.
Qed.

Lemma writer_insert_spec m l1 l2 w s e :
  stable m (l1 ++ l2) -> position (m_tree m) w l1 l2 -> 0 <= s < e ->
  (forall x, x ∈ l1 ++ l2 -> ~ overlaps x.2 s e) -> chain_end 0 l1 <= s -> chain e l2 ->
  exists o m', bind (tree_insert_at (new_range s e rt_writer) w)
      (fun p => ret (Acquired (Some p))) m = Some (o, m') /\
    lock_result m (l1 ++ l2) s e writer o m'.
Proof.
  intros Hst Hp Hs Hno Hc1 Hc2.
  destruct (insert_reader_spec m w l1 l2 s e rt_writer) as (m' & Hi & Hst' & Hd & Hev); auto.
  rewrite (bind_some _ _ _ _ _ Hi). exists (Acquired (Some (m_next m))), m'. split; [done |].
  simpl. split; [intros x Hx Ho; by destruct (Hno x Hx) |]. exists l1, l2. auto.
Qed.

Lemma writer_check_prev_spec m l1 l2 w s e :
  stable m (l1 ++ l2) -> l1 ++ l2 <> [] -> position (m_tree m) w l1 l2 -> 0 <= s < e ->
  (forall x, x ∈ l1 -> m_start x.2 < s) -> chain e l2 ->
  exists o m', writer_check_prev s e w m = Some (o, m') /\
    lock_result m (l1 ++ l2) s e writer o m'.
Proof.
  intros Hst Hne Hp Hs Hlt Hc2. pose proof Hst as [Hg Hc Hok]. unfold writer_check_prev.
  rewrite (bind_some _ _ _ _ _ (nearest_in m l1 l2 w BEFORE Hg Hne Hp)).
  assert (Hins : chain_end 0 l1 <= s -> exists o m',
    bind (tree_insert_at (new_range s e rt_writer) w) (fun p => ret (Acquired (Some p))) m
      = Some (o, m') /\ lock_result m (l1 ++ l2) s e writer o m').
  { intros Hce. apply writer_insert_spec; auto. apply chain_app in Hc as [Hc1 _].
    intros x [Hx | Hx]%elem_of_app [Ho1 Ho2].
    - pose proof (chain_bounds _ _ _ Hc1 Hx). lia.
    - pose proof (chain_bounds _ _ _ Hc2 Hx). lia. }
  destruct (last_snoc_inv l1) as [-> | (l' & p & r & ->)].
  - apply Hins. simpl. lia.
  - rewrite last_snoc, chain_end_snoc in *. cbn [fmap option_fmap option_map fst to_ptr] in *.
    rewrite (bind_some _ _ _ _ _ (read_snoc _ _ _ _ _ Hg)).
    destruct (Z.ltb_spec s (m_end r)) as [Ho | Hno]; [| by apply Hins].
    rewrite <- app_assoc in *. apply writer_wait_spec; [done |].
    assert (m_start r < s) by (apply (Hlt (p, r)); set_solver). split; lia.
Qed.

Lemma writer_lock_spec m rs s e :
  stable m rs -> 0 <= s < e -> Z.of_nat (length rs) < 2 ^ 30 ->
  exists o m', lock_range_writer s e m = Some (o, m') /\ lock_result m rs s e writer o m'.
Proof.
  intros Hst Hs Hlen. pose proof Hst as [Hg Hc Hok]. unfold lock_range_writer.
  fold (writer_check_prev s e).
  erewrite bind_some by (apply tree_size_good; [apply Hst | lia]).
  destruct rs as [| x rs].
  { destruct (tree_add_first m s e rt_writer) as (m' & Ha & Hst' & Hd & Hev); auto.
    change (Z.of_nat (length (@nil (positive * range))) =? 0) with true. cbv iota.
    rewrite (bind_some _ _ _ _ _ Ha). exists (Acquired (Some (m_next m))), m'.
    split; [done |]. simpl. split; [intros x Hx; by apply elem_of_nil in Hx |].
    exists [], []. auto. }
  destruct (Z.eqb_spec (Z.of_nat (length (x :: rs))) 0) as [E | _]; [simpl in E; lia |].
  assert (Hne : x :: rs <> []) by done. revert Hst Hg Hc Hlen Hne.
  generalize (x :: rs). clear x rs Hok. intros rs Hst Hg Hc Hlen Hne.
  destruct (tree_find_spec m rs s e rt_writer Hst Hs) as (hit & w & Hf & Hhit).
  rewrite (bind_some _ _ _ _ _ Hf). destruct hit as [p |].
  - destruct Hhit as (l1 & r & l2 & -> & Hr). apply writer_wait_spec; [done |].
    apply chain_app in Hc as [_ (_ & Hc3 & _)]. simpl in *. split; lia.
  - destruct Hhit as (l1 & l2 & -> & Hp & Hlt & Hgt).
    rewrite (bind_some _ _ _ _ _ (nearest_in m l1 l2 w AFTER Hg Hne Hp)).
    destruct l2 as [| [q n] l2]; cbn [head fmap option_fmap option_map fst to_ptr].
    + by apply writer_check_prev_spec.
    + rewrite (bind_some _ _ _ _ _ (read_in _ _ _ _ _ Hg)).
      apply chain_app in Hc as [_ (Hc2 & Hc3 & Hc4)]. simpl in Hc2, Hc3, Hc4.
      destruct (Z.ltb_spec (m_start n) e) as [Ho | Hno].
      * apply writer_wait_spec; [done |].
        assert (s < m_start n) by (apply (Hgt (q, n)); set_solver). split; lia.
      * apply writer_check_prev_spec; auto. simpl. auto with lia.
Qed.

(** [lock_range], and a wake-up on a tree that is not empty. *)
Lemma lock_spec m rs s e t :
  stable m rs -> 0 <= s < e -> Z.of_nat (length rs) < 2 ^ 30 ->
  exists o m', lock_range s e t m = Some (o, m') /\ lock_result m rs s e t o m'.
Proof. destruct t; [apply reader_lock_spec | apply writer_lock_spec]. Qed.
Lemma wake_spec m rs s e t :
  stable m rs -> t = writer \/ rs <> [] -> 0 <= s < e -> Z.of_nat (length rs) < 2 ^ 30 ->
  exists o m', lock_range_wake s e t m = Some (o, m') /\ lock_result m rs s e t o m'.
Proof.
  intros Hst Ht. destruct t; [| by apply writer_lock_spec].
  destruct Ht as [Ht | Ht]; [done |]. by apply reader_retry_spec.
Qed.

(** ** Unlocking *)

(** The notifications sent when a range leaves the tree. *)
Definition retire_events (p : positive) (r : range) : list event :=
  (if m_write_wanted r then [NotifyWriters p] else []) ++
  (if m_read_wanted r then [NotifyReaders p] else []).

Lemma good_events m rs evs :
  good m rs -> good (Manager (m_tree m) (m_detached m) (m_next m) evs) rs.
Proof. intros [H1 H2 H3 H4]. by constructor. Qed.

Lemma delete_node_spec m rs p r :
  good m rs -> m_detached m !! p = Some r ->
  exists m', delete_node p m = Some (tt, m') /\ good m' rs /\
    m_detached m' = delete p (m_detached m) /\ m_events m' = m_events m.
Proof.
  intros Hg Hd. unfold delete_node. rewrite Hd. eexists. split; [done |].
  split; [| done]. destruct Hg as [H1 H2 H3 H4]. constructor; simpl; auto.
  - intros q [Hq | [y Hq]]; apply H3; [by left |].
    right. apply lookup_delete_Some in Hq as [_ Hq]. eauto.
  - intros q Hq. apply lookup_delete_None. right. auto.
Qed.

Lemma retire_spec m l1 p r l2 :
  good m (l1 ++ (p, r) :: l2) -> Z.of_nat (length (l1 ++ (p, r) :: l2)) < 2 ^ 32 ->
  exists m', retire p m = Some (tt, m') /\ good m' (l1 ++ l2) /\
    m_detached m' = m_detached m /\ m_events m' = m_events m ++ retire_events p r.
Proof.
  intros Hg Hlen. unfold retire.
  destruct (tree_remove_good _ _ _ _ _ Hg Hlen) as (m1 & H1 & Hg1 & Hd1 & _ & He1).
  rewrite (bind_some _ _ _ _ _ H1).
  assert (Hp : m_detached m1 !! p = Some r) by (rewrite Hd1; apply lookup_insert_eq).
  rewrite (bind_some _ _ _ _ _ (read_detached _ _ _ _ Hg1 Hp)).
  set (m2 := Manager (m_tree m1) (m_detached m1) (m_next m1) (m_events m1 ++ retire_events p r)).
  assert (H2 : forall k : M (T := T) unit,
    bind (when (m_write_wanted r) (notify (NotifyWriters p))) (fun _ =>
      bind (when (m_read_wanted r) (notify (NotifyReaders p))) (fun _ => k)) m1 = k m2).
  { intros k. unfold bind, when, notify, ret, m2, retire_events.
    destruct (m_write_wanted r), (m_read_wanted r); simpl; rewrite <- ?app_assoc, ?app_nil_r;
      try done. by destruct m1. }
  rewrite H2.
  destruct (delete_node_spec m2 (l1 ++ l2) p r) as (m3 & H3 & Hg3 & Hd3 & He3); auto.
  { by apply good_events. }
  exists m3. split; [done |]. split; [done |]. split.
  - rewrite Hd3. simpl. rewrite Hd1. apply delete_insert_id. apply (g_disj _ _ Hg). auto.
  - rewrite He3. simpl. by rewrite He1.
Qed.

(** A sequence of ranges without gaps from [c] to [e]. *)
Fixpoint contig (c e : Z) (mid : list (positive * range)) : Prop :=
  match mid with
  | [] => c = e
  | x :: mid' => m_start x.2 = c /\ contig (m_end x.2) e mid'
  end.

(** What is left of the proxies of a lock when it is released, and who is notified. *)
Definition release_one (x : positive * range) : option (positive * range) :=
  if m_refs x.2 =? 1 then None else Some (x.1, dec_refs x.2).
Definition released (mid : list (positive * range)) : list (positive * range) := omap release_one mid.
Definition release_events (mid : list (positive * range)) : list event :=
  concat ((fun x => if m_refs x.2 =? 1 then retire_events x.1 x.2 else []) <$> mid).

Definition proxy_reader (r : range) : Prop :=
  m_type r = rt_reader /\ m_is_proxy r = true /\ 1 <= m_refs r.

Lemma contig_ge lo c e mid : chain lo mid -> contig c e mid -> c <= e.
Proof.
  revert lo c. induction mid as [| x mid IH]; simpl; intros lo c; [lia |].
  intros (_ & ? & Hc) [<- Hm]. specialize (IH _ _ Hc Hm). lia.
Qed.

Lemma dec_and_retire_spec m pre p r post reset :
  good m (pre ++ (p, r) :: post) -> Z.of_nat (length (pre ++ (p, r) :: post)) < 2 ^ 32 ->
  exists m', forall (k : bool -> M (T := T) bool),
    bind (write p dec_refs) (fun _ =>
      if m_refs r - 1 =? 0 then bind (retire p) (fun _ => k true) else k reset) m
    = k ((m_refs r =? 1) || reset) m' /\
    good m' (pre ++ released [(p, r)] ++ post) /\
    m_detached m' = m_detached m /\ m_events m' = m_events m ++ release_events [(p, r)].
Proof.
  intros Hg Hlen.
  destruct (write_in m pre post p r dec_refs Hg) as (m1 & Hw & Hg1 & Hd1 & _ & He1); [done |].
  unfold released, release_events, release_one. simpl. rewrite app_nil_r.
  destruct (Z.eqb_spec (m_refs r) 1) as [E | E].
  - destruct (retire_spec m1 pre p (dec_refs r) post Hg1) as (m2 & Hr & Hg2 & Hd2 & He2).
    { rewrite length_app in *. done. }
    exists m2. intros k. rewrite (bind_some _ _ _ _ _ Hw), (proj2 (Z.eqb_eq _ _)) by lia.
    rewrite (bind_some _ _ _ _ _ Hr). split; [done |]. split; [done |].
    split; [congruence |]. by rewrite He2, He1.
  - exists m1. intros k. rewrite (bind_some _ _ _ _ _ Hw), (proj2 (Z.eqb_neq _ _)) by lia.
    split; [done |]. split; [done |]. split; [congruence |]. by rewrite He1, app_nil_r.
Qed.

Lemma release_proxies_spec mid : forall fuel m pre post c e reset,
  good m (pre ++ mid ++ post) -> chain 0 mid -> 0 <= c -> e < 2 ^ 63 -> contig c e mid ->
  Forall (fun x => proxy_reader x.2) mid -> (length mid <= fuel)%nat ->
  Z.of_nat (length (pre ++ mid ++ post)) < 2 ^ 32 ->
  exists reset' m', release_proxies fuel (u64 (c - e)) (to_ptr (fst <$> head (mid ++ post))) reset m
      = Some (reset', m') /\
    reset' = existsb (fun x => m_refs x.2 =? 1) mid || reset /\
    good m' (pre ++ released mid ++ post) /\
    m_detached m' = m_detached m /\ m_events m' = m_events m ++ release_events mid.
Proof.
  induction mid as [| [p r] mid IH];
    intros fuel m pre post c e reset Hg Hch Hc0 He63 Hc Hpx Hfuel Hlen.
  - simpl in Hc. subst e. replace (u64 (c - c)) with 0 by (by rewrite Z.sub_diag).
    exists reset, m. split; [by destruct fuel |]. by rewrite app_nil_r.
  - pose proof Hch as (Hch1 & Hch2 & Hch3). simpl in Hch1, Hch2, Hch3.
    pose proof Hc as [Hst Hm]. simpl in Hst, Hm.
    pose proof (contig_ge _ _ _ _ Hch3 Hm) as Hge.
    apply Forall_cons in Hpx as [Hpr Hpx].
    destruct fuel as [| fuel]; [simpl in Hfuel; lia |].
    cbn [release_proxies app head fmap option_fmap option_map fst to_ptr].
    assert (Hu : u64 (c - e) = c - e + 2 ^ 64).
    { unfold u64. rewrite <- (Z_mod_plus_full _ 1), Z.mod_small; lia. }
    rewrite (proj2 (Z.eqb_neq _ _)) by lia.
    rewrite (bind_some _ _ _ _ _ (read_in _ _ _ _ _ Hg)).
    replace (u64 (u64 (c - e) - u64 (m_start r - m_end r))) with (u64 (m_end r - e))
      by (unfold u64; rewrite Zminus_mod_idemp_l, Zminus_mod_idemp_r; f_equal; lia).
    set (nextc := if negb (u64 (m_end r - e) =? 0) then _ else _).
    assert (Hnext : nextc m = Some (if u64 (m_end r - e) =? 0 then Null
                                    else to_ptr (fst <$> head (mid ++ post)), m)).
    { subst nextc. destruct (Z.eqb_spec (u64 (m_end r - e)) 0) as [E | E]; [done |]. cbn [negb].
      rewrite (bind_some _ _ _ _ _ (tree_next_in _ _ _ _ _ Hg)).
      destruct mid as [| [q n] mid].
      { simpl in Hm. rewrite Hm, Z.sub_diag in E. done. }
      apply Forall_cons in Hpx as [(Hn1 & Hn2 & Hn3) _]. simpl in Hn1, Hn2, Hn3.
      cbn [app head fmap option_fmap option_map fst to_ptr].
      change (good m (pre ++ [(p, r)] ++ (q, n) :: mid ++ post)) in Hg. rewrite app_assoc in Hg.
      rewrite (bind_some _ _ _ _ _ (read_in _ _ _ _ _ Hg)).
      destruct Hm as [Hm _]. simpl in Hm.
      rewrite !bind_assert; [done | by apply bool_decide_eq_true | |].
      - apply negb_true_iff, Z.eqb_neq. lia.
      - by apply Z.eqb_eq. }
    rewrite (bind_some _ _ _ _ _ Hnext).
    destruct (dec_and_retire_spec m pre p r (mid ++ post) reset Hg Hlen) as (m1 & Hk).
    destruct (Hk (fun b => release_proxies fuel (u64 (m_end r - e))
      (if u64 (m_end r - e) =? 0 then Null else to_ptr (fst <$> head (mid ++ post))) b))
      as (Hstep & Hg1 & Hd1 & He1).
    rewrite Hstep. rewrite app_assoc in Hg1.
    destruct (IH fuel m1 (pre ++ released [(p, r)]) post (m_end r) e ((m_refs r =? 1) || reset))
      as (reset' & m2 & Hrel & Hr & Hg2 & Hd2 & He2); auto.
    + eapply chain_weaken; [| exact Hch3]. lia.
    + lia.
    + simpl in Hfuel. lia.
    + unfold released. rewrite !length_app in *. simpl in *.
      destruct (release_one (p, r)); simpl; lia.
    + exists reset', m2. split.
      { rewrite <- Hrel. destruct (Z.eqb_spec (u64 (m_end r - e)) 0) as [-> | _]; [| done].
        by destruct fuel. }
      split. { rewrite Hr. simpl. by destruct (m_refs r =? 1), (existsb _ mid). }
      split. { rewrite <- app_assoc in Hg2. unfold released in *. simpl in *.
               by destruct (release_one (p, r)). }
      split; [congruence |]. rewrite He2, He1, <- app_assoc. unfold release_events. simpl.
      by rewrite app_nil_r.
Qed.

(** A lock whose own range is in the tree. *)
Lemma unlock_own_spec m l1 p r l2 s e t :
  good m (l1 ++ (p, r) :: l2) -> Z.of_nat (length (l1 ++ (p, r) :: l2)) < 2 ^ 32 ->
  1 <= m_refs r ->
  exists m', unlock_range (Lock s e t (Some p)) m = Some (Lock s e t None, m') /\
    good m' (l1 ++ l2) /\ m_detached m' = m_detached m /\
    m_events m' = m_events m ++ retire_events p r.
Proof.
  intros Hg Hlen Hr. destruct (retire_spec _ _ _ _ _ Hg Hlen) as (m' & Hret & H).
  exists m'. split; [| done].
  assert (Hb : (m_refs r =? 0) = false) by (apply Z.eqb_neq; lia).
  unfold unlock_range. destruct t; cbn [h_type].
  - unfold unlock_range_reader. cbn [h_ptr h_start h_end h_type]. unfold bind at 1 2.
    rewrite (read_in _ _ _ _ _ Hg), Hb. cbn [negb ret].
    by rewrite (bind_some _ _ _ _ _ Hret).
  - unfold unlock_range_writer. cbn [h_ptr h_start h_end h_type].
    rewrite (bind_some _ _ _ _ _ (read_in _ _ _ _ _ Hg)), bind_assert by (by rewrite Hb).
    by rewrite (bind_some _ _ _ _ _ Hret).
Qed.

Definition drop_own (o : option positive) (d : gmap positive range) : gmap positive range :=
  match o with Some q => delete q d | None => d end.

(** A reader lock that was split into proxies. *)
Lemma unlock_proxied_spec m pre mid post s e o :
  good m (pre ++ mid ++ post) -> chain 0 (pre ++ mid ++ post) -> mid <> [] ->
  0 <= s -> e < 2 ^ 63 -> contig s e mid -> Forall (fun x => proxy_reader x.2) mid ->
  Z.of_nat (length (pre ++ mid ++ post)) < 2 ^ 32 ->
  match o with Some q => exists r, m_detached m !! q = Some r /\ m_refs r = 0 | None => True end ->
  exists m', unlock_range (Lock s e reader o) m
      = Some (Lock s e reader
          (if existsb (fun x => m_refs x.2 =? 1) mid then None else o), m') /\
    good m' (pre ++ released mid ++ post) /\ m_detached m' = drop_own o (m_detached m) /\
    m_events m' = m_events m ++ release_events mid.
Proof.
  intros Hg Hc Hne Hs He Hcon Hpx Hlen Ho. cbn [unlock_range h_type].
  unfold unlock_range_reader. cbn [h_ptr h_start h_end h_type].
  rewrite (bind_some _ _ m false m).
  2: { destruct o as [q |]; [| done]. destruct Ho as (r & Hr & Hz).
       rewrite (bind_some _ _ _ _ _ (read_detached _ _ _ _ Hg Hr)), Hz. done. }
  pose proof Hc as [_ [Hcm _]%chain_app]%chain_app.
  destruct mid as [| [p r] mid]; [done |].
  pose proof Hpx as [(Hp1 & Hp2 & Hp3) _]%Forall_cons. simpl in Hp1, Hp2, Hp3.
  assert (Hst : m_start r = s) by apply Hcon.
  assert (Hf : exists w, tree_find (any_range s e) m = Some ((Some p, w), m)).
  { unfold tree_find.
    pose proof (ot_find_spec (m_tree m) (any_range s e) (g_tree _ _ Hg)) as Hf.
    destruct (ot_find (m_tree m) (any_range s e)) as [[q |] w].
    - destruct Hf as (_ & k1 & d & k2 & Hcont & Hcmp). rewrite (g_contents _ _ Hg) in Hcont.
      exists w. unfold compare in Hcmp. simpl in Hcmp. rewrite int_compare_sgn in Hcmp.
      assert (Heq : (p, r) = (q, d)).
      { eapply (chain_unique 0 _ _ _ s Hc); [set_solver | rewrite Hcont; set_solver | |];
          apply covers_spec; simpl.
        - destruct Hcm as (_ & Hcm & _). simpl in Hcm. lia.
        - rewrite Hcont in Hc. apply chain_app in Hc as [_ (_ & ? & _)]. simpl in *. lia. }
      by injection Heq as -> ->.
    - destruct Hf as (k1 & k2 & Hp & Hs').
      pose proof (ot_position_contents _ _ _ _ Hp) as Hcont. rewrite (g_contents _ _ Hg) in Hcont.
      exfalso. eapply (straddles_no_hit _ _ _ p r pre (mid ++ post) Hs'); [done |].
      unfold compare. simpl. rewrite int_compare_sgn. lia. }
  destruct Hf as (w & Hf).
  destruct (release_proxies_spec ((p, r) :: mid)
    (Z.to_nat (Z.of_nat (length (pre ++ ((p, r) :: mid) ++ post)))) m pre post s e false)
    as (reset & m1 & Hrel & Hres & Hg1 & Hd1 & He1); auto.
  { eapply chain_weaken; [| exact Hcm]. apply chain_app in Hc as [Hc _].
    by apply chain_end_ge. }
  { rewrite Nat2Z.id, !length_app. lia. }
  rewrite orb_false_r in Hres.
  assert (Hdel : exists m2, match o with Some q => delete_node q | None => ret tt end m1
    = Some (tt, m2) /\ good m2 (pre ++ released ((p, r) :: mid) ++ post) /\
    m_detached m2 = drop_own o (m_detached m1) /\ m_events m2 = m_events m1).
  { destruct o as [q |]; [| by exists m1]. destruct Ho as (d & Hd & _). rewrite <- Hd1 in Hd.
    by apply (delete_node_spec m1 _ q d). }
  destruct Hdel as (m2 & Hdel & Hg2 & Hd2 & He2).
  exists m2. split; [| split; [done |]; split; congruence].
  assert (Hrest : bind (tree_find (any_range s e)) (fun f =>
      match fst f with
      | None => fault
      | Some p =>
          bind (read p) (fun pr =>
          bind (assert (negb (m_refs pr =? 0))) (fun _ =>
          bind (assert (bool_decide (m_type pr = rt_reader))) (fun _ =>
          bind (assert (m_is_proxy pr)) (fun _ =>
          bind tree_size (fun sz =>
          bind (release_proxies (Z.to_nat sz) (u64 (s - e)) (Ptr p) false) (fun reset =>
          bind (match o with Some q => delete_node q | None => ret tt end) (fun _ =>
          ret (if reset then Lock s e reader None else Lock s e reader o))))))))
      end) m = Some (if reset then Lock s e reader None else Lock s e reader o, m2)).
  { rewrite (bind_some _ _ _ _ _ Hf). cbn [fst].
    rewrite (bind_some _ _ _ _ _ (read_in _ _ _ _ _ Hg)), !bind_assert.
    - rewrite (bind_some _ _ _ _ _ (tree_size_good _ _ Hg Hlen)).
      cbn [app head fmap option_fmap option_map fst to_ptr] in Hrel.
      by rewrite (bind_some _ _ _ _ _ Hrel), (bind_some _ _ _ _ _ Hdel).
    - done.
    - by apply bool_decide_eq_true.
    - apply negb_true_iff, Z.eqb_neq. lia. }
  rewrite <- Hres. destruct o; (etrans; [exact Hrest | by destruct reset]).
Qed.

End Ops.
End RangeLockOps.
