(* ===== verification/RangeLockSafe.v ===== *)
(** * Safety of the range lock manager

    Threads lock, wait, wake up and unlock; every step is one critical section. The
    reference counts of the tree are the number of locks held at each offset; from this
    follow mutual exclusion, the absence of faults in [lock_range] and [unlock_range],
    and that no wake-up is lost. *)
From S2P Require Import Prelude Avl RangeLock RangeLockInv RangeLockOps.
From stdpp Require Import base list numbers option sorting gmap relations.
Local Open Scope Z_scope.

Module RangeLockSafe.
Import Avl RangeLock RangeLockInv RangeLockOps.

#[export] Instance event_eq_dec : EqDecision event.
Proof. solve_decision. Defined.
#[export] Instance range_eq_dec : EqDecision range.
Proof. solve_decision. Defined.

(** ** Counting locks *)

Definition hcov (t : lock_type) (x : Z) (h : range_lock) : Z :=
  if decide (h_type h = t) then ind (h_start h) (h_end h) x else 0.
Definition cnt (t : lock_type) (x : Z) (held : list range_lock) : Z :=
  foldr (fun h acc => hcov t x h + acc) 0 held.

Lemma cnt_app t x l1 l2 : cnt t x (l1 ++ l2) = cnt t x l1 + cnt t x l2.
Proof. induction l1; simpl; [done |]. rewrite IHl1. lia. Qed.
Lemma hcov_nonneg t x h : 0 <= hcov t x h.
Proof. unfold hcov, ind. destruct (decide (h_type h = t)); [destruct (_ && _) |]; lia. Qed.
Lemma cnt_nonneg t x l : 0 <= cnt t x l.
Proof. induction l as [| h l IH]; simpl; [lia |]. pose proof (hcov_nonneg t x h). lia. Qed.
Lemma hcov_in t x h : h_type h = t -> h_start h <= x < h_end h -> hcov t x h = 1.
Proof.
  intros <- Hx. unfold hcov, ind. rewrite decide_True by done.
  rewrite (proj2 (Z.leb_le _ _)), (proj2 (Z.ltb_lt _ _)) by lia. done.
Qed.
Lemma cnt_ge t x h l : h ∈ l -> h_type h = t -> h_start h <= x < h_end h -> 1 <= cnt t x l.
Proof.
  intros (l1 & l2 & ->)%list_elem_of_split Ht Hx. rewrite cnt_app. simpl.
  rewrite (hcov_in t x h) by done. pose proof (cnt_nonneg t x l1). pose proof (cnt_nonneg t x l2). lia.
Qed.
Lemma cnt_ge_two t x h h' l1 l2 :
  h_type h = t -> h_start h <= x < h_end h -> h' ∈ l1 ++ l2 -> h_type h' = t ->
  h_start h' <= x < h_end h' -> 2 <= cnt t x (l1 ++ h :: l2).
Proof.
  intros Ht Hx Hin Ht' Hx'. pose proof (cnt_ge t x h' (l1 ++ l2) Hin Ht' Hx') as H.
  rewrite cnt_app in *. simpl. rewrite (hcov_in t x h) by done. lia.
Qed.
Lemma cnt_middle t x h l1 l2 : cnt t x (l1 ++ h :: l2) = cnt t x (l1 ++ l2) + hcov t x h.
Proof. rewrite !cnt_app. simpl. lia. Qed.

(** ** Weights at an offset *)

Lemma rw_zero x r : covers x r = false -> rw x r = 0.
Proof. intros H. unfold rw. rewrite H. by destruct (bool_decide _). Qed.
Lemma ww_zero x r : covers x r = false -> ww x r = 0.
Proof. intros H. unfold ww. by rewrite H, andb_false_r. Qed.

Lemma weight_zero (f : range -> Z) (rs : list (positive * range)) :
  (forall y, y ∈ rs -> f y.2 = 0) -> weight f rs = 0.
Proof.
  induction rs as [| y rs IH]; intros H; [done |]. rewrite weight_cons, (H y), IH; [done | |].
  - intros z Hz. apply H. set_solver.
  - set_solver.
Qed.

Lemma weight_in (f : Z -> range -> Z) lo (rs : list (positive * range)) p r x :
  (forall r, covers x r = false -> f x r = 0) ->
  chain lo rs -> (p, r) ∈ rs -> covers x r = true -> weight (f x) rs = f x r.
Proof.
  intros Hf Hc (l1 & l2 & ->)%list_elem_of_split Hx. apply covers_spec in Hx.
  pose proof Hc as [Hc1 (Hc2 & Hc3 & Hc4)]%chain_app. simpl in Hc2, Hc3, Hc4.
  rewrite weight_app, weight_cons, !weight_zero; simpl; [lia | |];
    intros y Hy; apply Hf; apply not_true_is_false; rewrite covers_spec.
  - pose proof (chain_bounds _ _ _ Hc4 Hy). lia.
  - pose proof (chain_bounds _ _ _ Hc1 Hy). lia.
Qed.

Lemma weight_covered (f : Z -> range -> Z) (rs : list (positive * range)) x :
  (forall r, covers x r = false -> f x r = 0) -> weight (f x) rs <> 0 ->
  exists p r, (p, r) ∈ rs /\ covers x r = true.
Proof.
  intros Hf. induction rs as [| [p r] rs IH]; [done |]. rewrite weight_cons. simpl. intros H.
  destruct (covers x r) eqn:E; [exists p, r; set_solver |].
  rewrite (Hf r E) in H. destruct IH as (q & d & ? & ?); [lia |]. exists q, d. set_solver.
Qed.

(** Pieces that cover an interval, with a boundary at each end, make it up. *)
Lemma tiles_from (l : list (positive * range)) : forall c e,
  chain c l -> c = e \/ ends e l -> (forall x, c <= x < e -> exists p r, (p, r) ∈ l /\ covers x r = true) ->
  exists mid post, l = mid ++ post /\ contig c e mid.
Proof.
  induction l as [| [p r] l IH]; intros c e Hc He Hcov.
  - exists [], []. split; [done |]. destruct He as [He | (y & Hy & _)]; [done |].
    by apply elem_of_nil in Hy.
  - destruct (decide (c = e)) as [-> | Hne]; [by exists [], ((p, r) :: l) |].
    destruct Hc as (H1 & H2 & H3). simpl in H1, H2, H3.
    assert (Hle : m_end r <= e /\ (m_end r = e \/ ends e l)).
    { destruct He as [He | (y & Hy & <-)]; [done |].
      apply elem_of_cons in Hy as [-> | Hy]; [simpl; auto with lia |].
      pose proof (chain_bounds _ _ _ H3 Hy). split; [lia |]. right. exists y. auto. }
    destruct Hle as [Hle He'].
    assert (Hst : m_start r = c).
    { destruct (Hcov c) as (q & d & [Heq | Hin]%elem_of_cons & Hx%covers_spec); [lia | |].
      - injection Heq as -> ->. lia.
      - pose proof (chain_bounds _ _ _ H3 Hin). simpl in *. lia. }
    destruct (IH (m_end r) e) as (mid & post & -> & Hm); auto.
    { intros x Hx. destruct (Hcov x) as (q & d & [Heq | Hin]%elem_of_cons & Hxc); [lia | |].
      - injection Heq as -> ->. apply covers_spec in Hxc. lia.
      - eauto. }
    exists ((p, r) :: mid), post. done.
Qed.

Lemma tiles (rs : list (positive * range)) s e :
  chain 0 rs -> starts s rs -> ends e rs -> s < e ->
  (forall x, s <= x < e -> exists p r, (p, r) ∈ rs /\ covers x r = true) ->
  exists pre mid post, rs = pre ++ mid ++ post /\ contig s e mid /\ mid <> [].
Proof.
  intros Hc ([p r] & (pre & l & ->)%list_elem_of_split & Hs) He Hlt Hcov. simpl in Hs.
  pose proof Hc as [Hc1 (Hc2 & Hc3 & Hc4)]%chain_app. simpl in Hc2, Hc3, Hc4.
  assert (Hpre : forall y, y ∈ pre -> m_end y.2 <= s).
  { intros y Hy. pose proof (chain_bounds _ _ _ Hc1 Hy). lia. }
  destruct (tiles_from ((p, r) :: l) s e) as (mid & post & Heq & Hm).
  - simpl. auto with lia.
  - right. destruct He as (y & [Hy | Hy]%elem_of_app & <-); [pose proof (Hpre y Hy); lia |].
    by exists y.
  - intros x Hx. destruct (Hcov x Hx) as (q & d & [Hy | Hy]%elem_of_app & Hxc); [| eauto].
    apply covers_spec in Hxc. pose proof (Hpre _ Hy). simpl in *. lia.
  - exists pre, mid, post. rewrite Heq. split; [done |]. split; [done |].
    intros ->. simpl in Hm. lia.
Qed.

(** ** Which locks the tree represents *)

Section System.
Context {T : Type} {OT : OrderedTree range T}.
Implicit Types (m : manager T) (rs : list (positive * range)) (held : list range_lock).

Definition lock_rt (t : lock_type) : range_type :=
  match t with reader => rt_reader | writer => rt_writer end.

(** The lock's own range is in the tree. *)
Definition owns rs (h : range_lock) : Prop :=
  exists p r, h_ptr h = Some p /\ (p, r) ∈ rs /\ m_is_proxy r = false /\
    m_start r = h_start h /\ m_end r = h_end h /\ m_type r = lock_rt (h_type h).

(** The lock is represented by proxies; its own range, if it had one, is detached. *)
Definition proxied m rs (h : range_lock) : Prop :=
  h_type h = reader /\ starts (h_start h) rs /\ ends (h_end h) rs /\
  match h_ptr h with
  | Some p => exists r, m_detached m !! p = Some r /\ m_refs r = 0
  | None => True
  end.

Record locks m rs held : Prop := {
  lk_stable : stable m rs;
  lk_rw x : weight (rw x) rs = cnt reader x held;
  lk_ww x : weight (ww x) rs = cnt writer x held;
  lk_bounds h : h ∈ held -> 0 <= h_start h < h_end h /\ h_end h < 2 ^ 63;
  lk_held h : h ∈ held -> owns rs h \/ proxied m rs h;
  lk_nodup : NoDup (omap h_ptr held);
  lk_owner p r : (p, r) ∈ rs -> m_is_proxy r = false -> exists h, h ∈ held /\ h_ptr h = Some p
}.

Lemma locks_init : locks lock_manager_new [] [].
Proof.
  destruct (ot_empty_ok (A := range) (T := T)) as [H1 H2].
  constructor; simpl; try done.
  - constructor; [| done | constructor]. constructor; simpl; auto.
    intros p [Hp | [x Hp]]; [by apply elem_of_nil in Hp |]. by rewrite lookup_empty in Hp.
  - intros h Hh. by apply elem_of_nil in Hh.
  - intros h Hh. by apply elem_of_nil in Hh.
  - constructor.
  - intros p r Hp. by apply elem_of_nil in Hp.
Qed.

(** The pointers of the locks held are allocated. *)
Lemma ptr_allocated m rs held h p :
  locks m rs held -> h ∈ held -> h_ptr h = Some p -> (p < m_next m)%positive.
Proof.
  intros Hl Hh Hp. apply (g_fresh _ _ (st_good _ _ (lk_stable _ _ _ Hl))).
  destruct (lk_held _ _ _ Hl h Hh) as [(q & r & Hq & Hin & _) | (_ & _ & _ & Hd)].
  - left. rewrite Hp in Hq. injection Hq as ->. apply list_elem_of_fmap. exists (q, r). auto.
  - right. rewrite Hp in Hd. destruct Hd as (r & Hr & _). by exists r.
Qed.

Lemma boundary_insert (P : range -> Prop) l1 l2 (y : positive * range) :
  (exists x, x ∈ l1 ++ l2 /\ P x.2) -> exists x, x ∈ l1 ++ y :: l2 /\ P x.2.
Proof. intros (x & Hx & HP). exists x. set_solver. Qed.

(** A lock that gets a range of its own. *)
Lemma locks_insert m l1 l2 held m' s e t :
  locks m (l1 ++ l2) held -> 0 <= s < e -> e < 2 ^ 63 ->
  stable m' (l1 ++ (m_next m, new_range s e (lock_rt t)) :: l2) ->
  m_detached m' = m_detached m ->
  locks m' (l1 ++ (m_next m, new_range s e (lock_rt t)) :: l2)
    (Lock s e t (Some (m_next m)) :: held).
Proof.
  intros Hl Hs He Hst Hd. set (v := new_range s e (lock_rt t)).
  assert (Hv : forall x, rw x v = hcov reader x (Lock s e t None) /\
    ww x v = hcov writer x (Lock s e t None)).
  { intros x. unfold v, rw, ww, covers, hcov, ind. destruct t; simpl; by destruct (_ && _). }
  constructor; auto.
  - intros x. rewrite weight_app, weight_cons. simpl. rewrite (proj1 (Hv x)).
    pose proof (lk_rw _ _ _ Hl x) as H. rewrite weight_app in H.
    change (hcov reader x (Lock s e t (Some (m_next m)))) with (hcov reader x (Lock s e t None)). lia.
  - intros x. rewrite weight_app, weight_cons. simpl. rewrite (proj2 (Hv x)).
    pose proof (lk_ww _ _ _ Hl x) as H. rewrite weight_app in H.
    change (hcov writer x (Lock s e t (Some (m_next m)))) with (hcov writer x (Lock s e t None)). lia.
  - intros h [-> | Hh]%elem_of_cons; [done |]. by apply (lk_bounds _ _ _ Hl).
  - intros h [-> | Hh]%elem_of_cons.
    + left. exists (m_next m), v. split; [done |]. split; [set_solver |].
      unfold v. by destruct t.
    + destruct (lk_held _ _ _ Hl h Hh) as [(q & r & H1 & H2 & H3) | (H1 & H2 & H3 & H4)].
      * left. exists q, r. split; [done |]. split; [set_solver | done].
      * right. split; [done |].
        split; [by apply (boundary_insert (fun r => m_start r = h_start h)) |].
        split; [by apply (boundary_insert (fun r => m_end r = h_end h)) |]. by rewrite Hd.
  - simpl. constructor; [| apply Hl].
    intros (h & Hh & Hp)%list_elem_of_omap. pose proof (ptr_allocated _ _ _ _ _ Hl Hh Hp). lia.
  - intros p r Hin Hp. rewrite elem_of_app, elem_of_cons in Hin.
    destruct (decide (p = m_next m)) as [-> | Hne]; [eexists; split; [by left | done] |].
    destruct (lk_owner _ _ _ Hl p r) as (h & Hh & Hhp); [set_solver | done |].
    exists h. split; [by right | done].
Qed.

(** A reader that shares the ranges of others. *)
Lemma locks_shared m rs held m' rs' s e :
  locks m rs held -> 0 <= s < e -> e < 2 ^ 63 ->
  shared m rs m' rs' s e -> starts s rs' -> ends e rs' ->
  locks m' rs' (Lock s e reader None :: held).
Proof.
  intros Hl Hs He Hsh Hst Hen. constructor.
  - by eapply shared_stable.
  - intros x. rewrite (sh_rw _ _ _ _ _ _ Hsh), (lk_rw _ _ _ Hl). simpl.
    unfold hcov at 1. simpl. lia.
  - intros x. rewrite (sh_ww _ _ _ _ _ _ Hsh), (lk_ww _ _ _ Hl). done.
  - intros h [-> | Hh]%elem_of_cons; [done |]. by apply (lk_bounds _ _ _ Hl).
  - intros h [-> | Hh]%elem_of_cons; [right; repeat split; done |].
    destruct (lk_held _ _ _ Hl h Hh) as [(q & r & H1 & H2 & H3 & H4 & H5 & H6) | (H1 & H2 & H3 & H4)].
    + destruct (sh_fixed _ _ _ _ _ _ Hsh q r H2) as [Hshr | Hin]; [| left; exists q, r; auto 10].
      destruct (sh_keep _ _ _ _ _ _ Hsh q r H2 H3) as [Hin | Hdet]; [left; exists q, r; auto 10 |].
      right. split.
      { destruct Hshr as [Hty _]. rewrite Hty in H6. by destruct (h_type h). }
      split; [apply (sh_starts _ _ _ _ _ _ Hsh); by exists (q, r) |].
      split; [apply (sh_ends _ _ _ _ _ _ Hsh); by exists (q, r) |].
      rewrite H1. eauto.
    + right. split; [done |]. split; [by apply (sh_starts _ _ _ _ _ _ Hsh) |].
      split; [by apply (sh_ends _ _ _ _ _ _ Hsh) |].
      destruct (h_ptr h); [| done]. destruct H4 as (r & H4 & H5). exists r. split; [| done].
      eapply lookup_weaken; [exact H4 |]. apply Hsh.
  - apply Hl.
  - intros p r Hin Hp.
    destruct (lk_owner _ _ _ Hl p r) as (h & Hh & Hhp); [by apply (sh_orig _ _ _ _ _ _ Hsh) | done |].
    exists h. split; [by right | done].
Qed.

(** A thread that waits changes only a flag. *)
Lemma locks_flagged m rs held m' rs' p t :
  locks m rs held -> flagged m rs m' rs' p t -> locks m' rs' held.
Proof.
  intros Hl [Hst (l1 & r & r' & l2 & -> & -> & ->) Hd _].
  set (r' := match t with reader => want_read r | writer => want_write r end) in *.
  assert (Hr' : m_start r' = m_start r /\ m_end r' = m_end r /\ m_type r' = m_type r /\
    m_refs r' = m_refs r /\ m_is_proxy r' = m_is_proxy r) by (subst r'; by destruct t).
  destruct Hr' as (E1 & E2 & E3 & E4 & E5).
  assert (Hin : forall q d, (q, d) ∈ l1 ++ (p, r) :: l2 -> exists d', (q, d') ∈ l1 ++ (p, r') :: l2 /\
    m_start d' = m_start d /\ m_end d' = m_end d /\ m_type d' = m_type d /\ m_is_proxy d' = m_is_proxy d).
  { intros q d Hqd. rewrite elem_of_app, elem_of_cons in Hqd. destruct Hqd as [H | [H | H]].
    - exists d. set_solver.
    - injection H as -> ->. exists r'. set_solver.
    - exists d. set_solver. }
  constructor; auto; try apply Hl.
  - intros x. rewrite <- (lk_rw _ _ _ Hl x), !weight_app, !weight_cons. simpl.
    by rewrite (rw_ext x r r').
  - intros x. rewrite <- (lk_ww _ _ _ Hl x), !weight_app, !weight_cons. simpl.
    unfold ww, covers. by rewrite E1, E2, E3.
  - intros h Hh.
    destruct (lk_held _ _ _ Hl h Hh) as [(q & d & H1 & H2 & H3 & H4 & H5 & H6) | (H1 & H2 & H3 & H4)].
    + destruct (Hin q d H2) as (d' & Hd' & F1 & F2 & F3 & F4). left. exists q, d'.
      split; [done |]. split; [done |]. split; [congruence |]. split; [congruence |]. split; congruence.
    + right. rewrite <- Hd in H4. split; [done |]. split; [| split; [| done]].
      * destruct H2 as ([q d] & Hq & <-). destruct (Hin q d Hq) as (d' & Hd' & F1 & F2 & _).
        by exists (q, d').
      * destruct H3 as ([q d] & Hq & <-). destruct (Hin q d Hq) as (d' & Hd' & F1 & F2 & _).
        by exists (q, d').
  - intros q d Hqd Hp. rewrite elem_of_app, elem_of_cons in Hqd.
    destruct Hqd as [H | [H | H]].
    + apply (lk_owner _ _ _ Hl q d); [set_solver | done].
    + injection H as -> ->. apply (lk_owner _ _ _ Hl p r); [set_solver | congruence].
    + apply (lk_owner _ _ _ Hl q d); [set_solver | done].
Qed.

(** The lock of a range covers every offset of it. *)
Lemma own_range m rs held h q :
  locks m rs held -> h ∈ held -> h_ptr h = Some q -> q ∈ rs.*1 ->
  exists r, (q, r) ∈ rs /\ m_is_proxy r = false /\ m_start r = h_start h /\ m_end r = h_end h /\
    m_type r = lock_rt (h_type h).
Proof.
  intros Hl Hh Hq Hin.
  destruct (lk_held _ _ _ Hl h Hh) as [(p & r & H1 & H2 & H3) | (_ & _ & _ & Hd)].
  - rewrite Hq in H1. injection H1 as ->. eauto.
  - rewrite Hq in Hd. destruct Hd as (r & Hr & _).
    rewrite (g_disj _ _ (st_good _ _ (lk_stable _ _ _ Hl)) q Hin) in Hr. done.
Qed.

(** The references of a range that covers [x] are the readers of [x]. *)
Lemma refs_count m rs held p r x :
  locks m rs held -> (p, r) ∈ rs -> covers x r = true -> m_type r = rt_reader ->
  m_refs r = cnt reader x held.
Proof.
  intros Hl Hin Hx Ht. rewrite <- (lk_rw _ _ _ Hl x).
  rewrite (weight_in rw 0 rs p r x); auto; [| apply rw_zero | apply Hl].
  by rewrite rw_reader, Hx.
Qed.

(** Where a reader lock is held, the range is a reader's. *)
Lemma reader_range m rs held p r x h :
  locks m rs held -> (p, r) ∈ rs -> covers x r = true -> h ∈ held -> h_type h = reader ->
  h_start h <= x < h_end h -> m_type r = rt_reader.
Proof.
  intros Hl Hin Hx Hh Ht Hb. pose proof (cnt_ge reader x h held Hh Ht Hb) as Hge.
  rewrite <- (lk_rw _ _ _ Hl x) in Hge.
  rewrite (weight_in rw 0 rs p r x) in Hge; auto; [| apply rw_zero | apply Hl].
  unfold rw in Hge. destruct (bool_decide_reflect (m_type r = rt_writer)) as [E | E]; [lia |].
  pose proof (st_ok _ _ (lk_stable _ _ _ Hl)) as Hok. rewrite Forall_forall in Hok.
  destruct (ok_type _ (Hok _ Hin)); done.
Qed.

(** A piece that two locks hold, one of them a reader, has two references. *)
Lemma shared_piece m rs h1 h h2 q d x h' :
  locks m rs (h1 ++ h :: h2) -> (q, d) ∈ rs -> covers x d = true ->
  h' ∈ h1 ++ h2 -> h_type h' = reader -> h_start h' <= x < h_end h' ->
  h_start h <= x < h_end h -> 2 <= m_refs d.
Proof.
  intros Hl Hin Hx Hh' Ht' Hb' Hb.
  assert (Hrd : m_type d = rt_reader).
  { eapply (reader_range _ _ _ q d x h' Hl); auto. set_solver. }
  rewrite (refs_count _ _ _ q d x Hl) by done.
  destruct (h_type h) eqn:Eh; [by eapply cnt_ge_two |].
  assert (Hw : 1 <= cnt writer x (h1 ++ h :: h2)) by (apply (cnt_ge writer x h); auto; set_solver).
  rewrite <- (lk_ww _ _ _ Hl x), (weight_in ww 0 rs q d x) in Hw; auto; [| apply ww_zero | apply Hl].
  rewrite ww_reader in Hw by done. lia.
Qed.

Lemma omap_middle_nodup (h1 h2 : list range_lock) h p h' :
  NoDup (omap h_ptr (h1 ++ h :: h2)) -> h_ptr h = Some p -> h' ∈ h1 ++ h2 -> h_ptr h' <> Some p.
Proof.
  rewrite omap_app. simpl. intros Hnd Hp Hin Hp'. rewrite Hp in Hnd.
  apply NoDup_app in Hnd as (_ & H1 & [H2 _]%NoDup_cons).
  apply elem_of_app in Hin as [Hin | Hin].
  - apply (H1 p); [| by left]. apply list_elem_of_omap. eauto.
  - apply H2. apply list_elem_of_omap. eauto.
Qed.
Lemma omap_nodup_drop (h1 h2 : list range_lock) h :
  NoDup (omap h_ptr (h1 ++ h :: h2)) -> NoDup (omap h_ptr (h1 ++ h2)).
Proof.
  rewrite !omap_app. simpl. destruct (h_ptr h); [| done].
  rewrite !NoDup_app. intros (H1 & H2 & [H3 H4]%NoDup_cons). split; [done |]. split; [| done].
  intros x Hx Hx2. apply (H2 x Hx). by right.
Qed.

(** The boundaries of the other locks survive if pieces with two references do. *)
Lemma proxied_kept m rs m' rs' h1 h h2 h' :
  locks m rs (h1 ++ h :: h2) -> h' ∈ h1 ++ h2 -> proxied m rs h' ->
  (forall q d, (q, d) ∈ rs -> 2 <= m_refs d \/ (exists x, covers x d = true /\ ~ h_start h <= x < h_end h) ->
    exists d', (q, d') ∈ rs' /\ m_start d' = m_start d /\ m_end d' = m_end d) ->
  m_detached m' = drop_own (h_ptr h) (m_detached m) \/ m_detached m' = m_detached m ->
  proxied m' rs' h'.
Proof.
  intros Hl Hh' (Ht & (x & Hx & Hxs) & (y & Hy & Hye) & Hd) Hkeep Hdet.
  assert (Hb : 0 <= h_start h' < h_end h').
  { apply (lk_bounds _ _ _ Hl h'). set_solver. }
  assert (Hrange : forall q d, (q, d) ∈ rs -> m_start d < m_end d).
  { intros q d Hq. apply (chain_bounds 0 rs (q, d)); [apply Hl | done]. }
  assert (Hpiece : forall q d z, (q, d) ∈ rs -> covers z d = true -> h_start h' <= z < h_end h' ->
    exists d', (q, d') ∈ rs' /\ m_start d' = m_start d /\ m_end d' = m_end d).
  { intros q d z Hq Hz Hz'. apply (Hkeep q d Hq).
    destruct (decide (h_start h <= z < h_end h)) as [Hin | Hout].
    - left. by eapply shared_piece.
    - right. eauto. }
  split; [done |]. destruct x as [q d], y as [q' d']. simpl in *.
  split; [| split].
  - destruct (Hpiece q d (h_start h')) as (d2 & H1 & H2 & H3); auto; [| lia |].
    { apply covers_spec. pose proof (Hrange q d Hx). lia. }
    exists (q, d2). split; [done | simpl; lia].
  - destruct (Hpiece q' d' (h_end h' - 1)) as (d2 & H1 & H2 & H3); auto; [| lia |].
    { apply covers_spec. pose proof (Hrange q' d' Hy). lia. }
    exists (q', d2). split; [done | simpl; lia].
  - destruct (h_ptr h') as [p |] eqn:Ep; [| done]. destruct Hd as (r & Hr & Hz). exists r.
    split; [| done]. destruct Hdet as [-> | ->]; [| done]. unfold drop_own.
    destruct (h_ptr h) as [p' |] eqn:Ep'; [| done]. apply lookup_delete_Some. split; [| done].
    intros ->. by apply (omap_middle_nodup h1 h2 h p h' (lk_nodup _ _ _ Hl)).
Qed.

Lemma range_weights r t :
  range_ok r -> m_is_proxy r = false -> m_type r = lock_rt t ->
  forall x, rw x r = hcov reader x (Lock (m_start r) (m_end r) t None) /\
    ww x r = hcov writer x (Lock (m_start r) (m_end r) t None).
Proof.
  intros Hok Hp Ht x. unfold rw, ww, covers, hcov, ind. rewrite Ht, (ok_single _ Hok Hp).
  destruct t; simpl; by destruct (_ && _).
Qed.

Lemma chain_drop lo l1 x l2 : chain lo (l1 ++ x :: l2) -> chain lo (l1 ++ l2).
Proof.
  rewrite !chain_app. simpl. intros (H1 & H2 & H3 & H4). split; [done |].
  eapply chain_weaken; [| exact H4]. lia.
Qed.

Lemma fst_not_elsewhere (l1 l2 : list (positive * range)) p r d :
  NoDup (l1 ++ (p, r) :: l2).*1 -> (p, d) ∈ l1 ++ l2 -> False.
Proof.
  intros [Hn1 Hn2]%nodup_fst_middle [Hq | Hq]%elem_of_app; [apply Hn1 | apply Hn2];
    apply list_elem_of_fmap; by exists (p, d).
Qed.

(** A lock whose own range leaves the tree. *)
Lemma locks_retire m l1 p r l2 h1 h h2 m' :
  locks m (l1 ++ (p, r) :: l2) (h1 ++ h :: h2) -> h_ptr h = Some p ->
  good m' (l1 ++ l2) -> m_detached m' = m_detached m ->
  locks m' (l1 ++ l2) (h1 ++ h2).
Proof.
  intros Hl Hp Hg Hd. pose proof (lk_stable _ _ _ Hl) as [Hg0 Hc Hok].
  destruct (own_range _ _ _ h p Hl) as (r' & Hr' & Hnp & Hs & He & Ht);
    [set_solver | done | auto |].
  assert (r' = r) as ->.
  { destruct (decide ((p, r') = (p, r))) as [Heq | Hne]; [congruence |]. exfalso.
    apply (fst_not_elsewhere _ _ _ _ r' (good_nodup _ _ Hg0)).
    rewrite elem_of_app, elem_of_cons in *. tauto. }
  pose proof (range_weights r (h_type h) (ok_middle _ _ _ _ Hok) Hnp Ht) as Hw.
  assert (Hcov : forall t x, hcov t x (Lock (m_start r) (m_end r) (h_type h) None) = hcov t x h).
  { intros t x. rewrite Hs, He. done. }
  constructor.
  - constructor; [done | by eapply chain_drop |].
    apply Forall_app in Hok as [? [_ ?]%Forall_cons]. by apply Forall_app.
  - intros x. pose proof (lk_rw _ _ _ Hl x) as H.
    rewrite weight_app, weight_cons, cnt_middle, <- Hcov, <- (proj1 (Hw x)) in H.
    rewrite weight_app. simpl in H. lia.
  - intros x. pose proof (lk_ww _ _ _ Hl x) as H.
    rewrite weight_app, weight_cons, cnt_middle, <- Hcov, <- (proj2 (Hw x)) in H.
    rewrite weight_app. simpl in H. lia.
  - intros h' Hh'. apply (lk_bounds _ _ _ Hl). set_solver.
  - intros h' Hh'. pose proof (omap_middle_nodup _ _ _ _ _ (lk_nodup _ _ _ Hl) Hp Hh') as Hne.
    destruct (lk_held _ _ _ Hl h') as [(q & d & H1 & H2 & H3) | Hpx]; [set_solver | |].
    + left. exists q, d. split; [done |]. split; [| done].
      assert (q <> p) by congruence. rewrite elem_of_app, elem_of_cons in *.
      destruct H2 as [? | [? | ?]]; [by left | congruence | by right].
    + right. eapply (proxied_kept m _ m' _ h1 h h2); eauto.
      intros q d Hq Hor. exists d. split; [| done]. rewrite elem_of_app, elem_of_cons in *.
      destruct Hq as [? | [Heq | ?]]; [by left | | by right]. injection Heq as -> ->. exfalso.
      destruct Hor as [Hor | (x & Hx & Hnx)].
      * rewrite (ok_single _ (ok_middle _ _ _ _ Hok) Hnp) in Hor. lia.
      * apply covers_spec in Hx. lia.
  - eapply omap_nodup_drop, Hl.
  - intros q d Hq Hqp. destruct (lk_owner _ _ _ Hl q d) as (h' & Hh' & Hhp); [set_solver | done |].
    exists h'. split; [| done]. rewrite elem_of_app, elem_of_cons in *.
    destruct Hh' as [? | [-> | ?]]; [by left | | by right]. exfalso.
    rewrite Hp in Hhp. injection Hhp as <-.
    eapply (fst_not_elsewhere _ _ _ _ d (good_nodup _ _ Hg0)). done.
Qed.

(** ** Releasing proxies *)

Lemma released_cons x mid :
  released (x :: mid) = if m_refs x.2 =? 1 then released mid else (x.1, dec_refs x.2) :: released mid.
Proof. unfold released, release_one. simpl. by destruct (m_refs x.2 =? 1). Qed.

Lemma chain_released lo mid post : chain lo (mid ++ post) -> chain lo (released mid ++ post).
Proof.
  revert lo. induction mid as [| x mid IH]; intros lo; [done |]. rewrite released_cons. simpl.
  intros (H1 & H2 & H3). apply IH in H3.
  destruct (m_refs x.2 =? 1); simpl; [eapply chain_weaken; [| exact H3]; lia | auto].
Qed.

Lemma released_in mid q d : (q, d) ∈ mid -> m_refs d <> 1 -> (q, dec_refs d) ∈ released mid.
Proof.
  intros Hin Hr. apply list_elem_of_omap. exists (q, d). split; [done |].
  unfold release_one. simpl. by rewrite (proj2 (Z.eqb_neq _ _) Hr).
Qed.
Lemma released_inv mid q d : (q, d) ∈ released mid ->
  exists d', (q, d') ∈ mid /\ d = dec_refs d' /\ m_refs d' <> 1.
Proof.
  intros ([q' d'] & Hin & Hrel)%list_elem_of_omap. unfold release_one in Hrel. simpl in Hrel.
  destruct (Z.eqb_spec (m_refs d') 1); [done |]. injection Hrel as -> <-. eauto.
Qed.

Lemma released_weight mid x c e :
  chain c mid -> contig c e mid -> Forall (fun y => proxy_reader y.2) mid ->
  weight (rw x) (released mid) = weight (rw x) mid - ind c e x /\
  weight (ww x) (released mid) = 0 /\ weight (ww x) mid = 0.
Proof.
  revert c. induction mid as [| [p r] mid IH]; intros c Hc Hm Hpx.
  - simpl in Hm. subst. rewrite ind_empty. done.
  - destruct Hc as (_ & H2 & H3), Hm as [H4 H5]. simpl in H2, H3, H4, H5.
    apply Forall_cons in Hpx as [(Ht & Hp & Hr) Hpx]. simpl in Ht, Hp, Hr.
    destruct (IH (m_end r)) as (IH1 & IH2 & IH3); auto.
    pose proof (contig_ge _ _ _ _ H3 H5).
    rewrite released_cons, (ind_split c (m_end r) e) by lia. cbn [fst snd].
    assert (Hx : (if covers x r then 1 else 0) = ind c (m_end r) x).
    { unfold ind, covers. by rewrite H4. }
    rewrite !weight_cons. cbn [snd]. rewrite (rw_reader x r Ht), (ww_reader x r Ht).
    destruct (Z.eqb_spec (m_refs r) 1) as [E | E].
    + rewrite E. destruct (covers x r); lia.
    + rewrite !weight_cons. cbn [snd]. rewrite (rw_reader _ (dec_refs r)), (ww_reader _ (dec_refs r)) by done.
      change (covers x (dec_refs r)) with (covers x r). simpl m_refs. destruct (covers x r); lia.
Qed.

Lemma contig_within c e mid x : chain c mid -> contig c e mid -> x ∈ mid ->
  c <= m_start x.2 < m_end x.2 /\ m_end x.2 <= e.
Proof.
  revert c. induction mid as [| y mid IH]; intros c Hc Hm Hx; [by apply elem_of_nil in Hx |].
  destruct Hc as (H1 & H2 & H3), Hm as [H4 H5]. pose proof (contig_ge _ _ _ _ H3 H5).
  apply elem_of_cons in Hx as [-> | Hx]; [lia |]. specialize (IH _ H3 H5 Hx). lia.
Qed.

Lemma range_ok_dec r : range_ok r -> proxy_reader r -> m_refs r <> 1 -> range_ok (dec_refs r).
Proof.
  intros [O1 O2 O3 O4 O5] (Ht & Hp & Hr) Hne. constructor; simpl; auto; [lia | congruence].
Qed.

Lemma locks_release m pre mid post h1 h h2 m' :
  locks m (pre ++ mid ++ post) (h1 ++ h :: h2) -> proxied m (pre ++ mid ++ post) h ->
  contig (h_start h) (h_end h) mid -> chain (h_start h) mid ->
  Forall (fun x => proxy_reader x.2) mid ->
  good m' (pre ++ released mid ++ post) -> m_detached m' = drop_own (h_ptr h) (m_detached m) ->
  locks m' (pre ++ released mid ++ post) (h1 ++ h2).
Proof.
  intros Hl Hpx Hm Hcm Hprx Hg Hd. pose proof (lk_stable _ _ _ Hl) as [Hg0 Hc Hok].
  assert (Hprx' : forall q d, (q, d) ∈ mid -> proxy_reader d).
  { intros q d Hq. rewrite Forall_forall in Hprx. apply (Hprx _ Hq). }
  assert (Hout : forall q d, (q, d) ∈ pre ++ mid ++ post -> m_is_proxy d = false ->
    (q, d) ∈ pre ++ released mid ++ post).
  { intros q d Hq Hp. rewrite !elem_of_app in *. destruct Hq as [? | [Hq | ?]]; [tauto | | tauto].
    destruct (Hprx' q d Hq) as (_ & Hp' & _). congruence. }
  assert (Hcnt : forall x, hcov reader x h = ind (h_start h) (h_end h) x /\ hcov writer x h = 0).
  { intros x. unfold hcov. rewrite (proj1 Hpx). done. }
  constructor.
  - constructor; [done | |].
    + apply chain_app in Hc as [Hc1 Hc2]. apply chain_app. split; [done |]. by apply chain_released.
    + rewrite !Forall_app in *. destruct Hok as (? & Hokm & ?). split; [done |]. split; [| done].
      rewrite Forall_forall in Hokm |- *. intros [q d] (d' & Hin & -> & Hne)%released_inv.
      apply range_ok_dec; [apply (Hokm _ Hin) | by eapply Hprx' | done].
  - intros x. pose proof (lk_rw _ _ _ Hl x) as H.
    destruct (released_weight mid x _ _ Hcm Hm Hprx) as (E1 & _ & _).
    rewrite !weight_app, cnt_middle, (proj1 (Hcnt x)) in *. lia.
  - intros x. pose proof (lk_ww _ _ _ Hl x) as H.
    destruct (released_weight mid x _ _ Hcm Hm Hprx) as (_ & E2 & E3).
    rewrite !weight_app, cnt_middle, (proj2 (Hcnt x)) in *. lia.
  - intros h' Hh'. apply (lk_bounds _ _ _ Hl). set_solver.
  - intros h' Hh'. destruct (lk_held _ _ _ Hl h') as [(q & d & H1 & H2 & H3 & H4) | Hpx']; [set_solver | |].
    + left. exists q, d. auto.
    + right. eapply (proxied_kept m _ m' _ h1 h h2); eauto.
      intros q d Hq Hor. rewrite !elem_of_app in Hq.
      destruct Hq as [? | [Hq | ?]]; [exists d; set_solver | | exists d; set_solver].
      exists (dec_refs d). split; [| done]. rewrite !elem_of_app. right. left.
      apply released_in; [done |]. destruct Hor as [Hor | (x & Hx%covers_spec & Hnx)]; [lia |].
      pose proof (contig_within _ _ _ _ Hcm Hm Hq). simpl in *. lia.
  - eapply omap_nodup_drop, Hl.
  - intros q d Hq Hqp.
    assert (Hq' : (q, d) ∈ pre ++ mid ++ post).
    { rewrite !elem_of_app in *. destruct Hq as [? | [Hq | ?]]; [tauto | | tauto].
      apply released_inv in Hq as (d' & Hin & -> & _). destruct (Hprx' q d' Hin) as (_ & Hp' & _).
      simpl in Hqp. congruence. }
    destruct (lk_owner _ _ _ Hl q d Hq' Hqp) as (h' & Hh' & Hhp).
    exists h'. split; [| done]. rewrite elem_of_app, elem_of_cons in *.
    destruct Hh' as [? | [-> | ?]]; [by left | | by right]. exfalso.
    destruct Hpx as (_ & _ & _ & Hdet). rewrite Hhp in Hdet. destruct Hdet as (r & Hr & _).
    rewrite (g_disj _ _ Hg0 q) in Hr; [done |]. apply list_elem_of_fmap. by exists (q, d).
Qed.

(** The pieces that make up a proxied lock. *)
Lemma proxied_pieces m rs h1 h h2 :
  locks m rs (h1 ++ h :: h2) -> proxied m rs h ->
  exists pre mid post, rs = pre ++ mid ++ post /\ contig (h_start h) (h_end h) mid /\ mid <> [] /\
    chain (h_start h) mid /\ Forall (fun x => proxy_reader x.2) mid.
Proof.
  intros Hl Hpx. pose proof (lk_stable _ _ _ Hl) as [Hg Hc Hok].
  assert (Hh : h ∈ h1 ++ h :: h2) by set_solver.
  destruct (lk_bounds _ _ _ Hl h Hh) as [Hb _]. pose proof Hpx as (Ht & Hst & Hen & Hdet).
  destruct (tiles rs (h_start h) (h_end h)) as (pre & mid & post & -> & Hm & Hne); auto; [lia | |].
  { intros x Hx. apply (weight_covered rw); [apply rw_zero |].
    pose proof (cnt_ge reader x h _ Hh Ht Hx). rewrite (lk_rw _ _ _ Hl x). lia. }
  assert (Hcm : chain (h_start h) mid).
  { apply chain_app in Hc as [_ [Hc _]%chain_app].
    destruct mid as [| y mid]; [done |]. destruct Hc as (? & ? & ?), Hm as [Hm _].
    simpl. auto with lia. }
  exists pre, mid, post. split; [done |]. split; [done |]. split; [done |]. split; [done |].
  apply Forall_forall. intros [q d] Hq. simpl.
  assert (Hin : (q, d) ∈ pre ++ mid ++ post) by set_solver.
  assert (Hokd : range_ok d) by (rewrite Forall_forall in Hok; apply (Hok _ Hin)).
  pose proof (contig_within _ _ _ _ Hcm Hm Hq) as Hw. simpl in Hw.
  assert (Hcov : covers (m_start d) d = true) by (apply covers_spec; lia).
  assert (Hrd : m_type d = rt_reader).
  { eapply (reader_range _ _ _ q d (m_start d) h Hl); auto. lia. }
  split; [done |]. split; [| apply Hokd].
  destruct (m_is_proxy d) eqn:Ep; [done | exfalso].
  destruct (lk_owner _ _ _ Hl q d Hin Ep) as (h0 & Hh0 & Hp0).
  assert (Hq1 : q ∈ (pre ++ mid ++ post).*1) by (apply list_elem_of_fmap; by exists (q, d)).
  assert (Hh0' : h0 ∈ h1 ++ h2).
  { rewrite elem_of_app, elem_of_cons in *. destruct Hh0 as [? | [-> | ?]]; [by left | | by right].
    rewrite Hp0 in Hdet. destruct Hdet as (r & Hr & _). by rewrite (g_disj _ _ Hg q Hq1) in Hr. }
  destruct (own_range _ _ _ h0 q Hl Hh0 Hp0 Hq1) as (d' & Hd' & _ & Hs' & He' & Ht').
  assert (d' = d) as ->.
  { destruct (list_elem_of_split _ _ Hin) as (k1 & k2 & Hk). rewrite Hk in Hd'.
    destruct (decide (d' = d)) as [| Hned]; [done | exfalso].
    eapply (fst_not_elsewhere k1 k2 q d d'); [rewrite <- Hk; by apply (good_nodup m) |].
    rewrite elem_of_app, elem_of_cons in *. destruct Hd' as [? | [? | ?]]; [tauto | congruence | tauto]. }
  pose proof (shared_piece _ _ _ _ _ q d (m_start d) h0 Hl Hin Hcov Hh0') as H2.
  rewrite (ok_single _ Hokd Ep) in H2. rewrite Hrd in Ht'. destruct (h_type h0); [| done].
  assert (2 <= 1); [apply H2; [done | lia | lia] | lia].
Qed.

(** What an unlock does to a range: it stays, or its waiters are notified. *)
Definition kept_or_notified rs rs' (evs : list event) : Prop :=
  forall p r, (p, r) ∈ rs ->
    (exists r', (p, r') ∈ rs' /\ m_read_wanted r' = m_read_wanted r /\ m_write_wanted r' = m_write_wanted r) \/
    (forall ev, ev ∈ retire_events p r -> ev ∈ evs).

Lemma release_notifies mid p r :
  (p, r) ∈ mid -> m_refs r = 1 -> forall ev, ev ∈ retire_events p r -> ev ∈ release_events mid.
Proof.
  intros Hin Hr ev Hev. unfold release_events. apply list_elem_of_In, in_concat.
  exists (retire_events p r). split; [| by apply list_elem_of_In]. apply list_elem_of_In.
  apply list_elem_of_fmap. exists (p, r). split; [| done]. simpl. by rewrite Hr.
Qed.

Lemma unlock_locks m rs h1 h h2 :
  locks m rs (h1 ++ h :: h2) -> Z.of_nat (length rs) < 2 ^ 30 ->
  exists rl m' rs' evs, unlock_range h m = Some (rl, m') /\ locks m' rs' (h1 ++ h2) /\
    m_events m' = m_events m ++ evs /\ kept_or_notified rs rs' evs.
Proof.
  intros Hl Hlen. assert (Hh : h ∈ h1 ++ h :: h2) by set_solver.
  pose proof (lk_stable _ _ _ Hl) as [Hg Hc Hok].
  destruct (lk_bounds _ _ _ Hl h Hh) as [Hb1 Hb2]. destruct (lk_held _ _ _ Hl h Hh) as [Hown | Hpx].
  - destruct Hown as (p & r & Hp & (l1 & l2 & ->)%list_elem_of_split & Hrest).
    destruct (unlock_own_spec m l1 p r l2 (h_start h) (h_end h) (h_type h)) as (m' & Hu & Hg' & Hd & He);
      [done | lia | by apply (ok_middle _ _ _ _ Hok) |].
    do 2 eexists. exists (l1 ++ l2), (retire_events p r). rewrite <- Hp in Hu.
    split; [by destruct h |]. split; [by eapply locks_retire |]. split; [done |].
    intros q d Hq. rewrite elem_of_app, elem_of_cons in Hq. destruct Hq as [? | [Heq | ?]].
    + left. exists d. set_solver.
    + injection Heq as -> ->. by right.
    + left. exists d. set_solver.
  - destruct (proxied_pieces _ _ _ _ _ Hl Hpx) as (pre & mid & post & -> & Hm & Hne & Hcm & Hprx).
    destruct (unlock_proxied_spec m pre mid post (h_start h) (h_end h) (h_ptr h))
      as (m' & Hu & Hg' & Hd & He); auto; [lia | lia | apply Hpx |].
    exists (Lock (h_start h) (h_end h) reader
      (if existsb (fun x => m_refs x.2 =? 1) mid then None else h_ptr h)), m',
      (pre ++ released mid ++ post), (release_events mid).
    split; [destruct h as [s e t o]; destruct Hpx as [Ht _]; simpl in *; subst t; exact Hu |].
    split; [by eapply locks_release |]. split; [done |].
    intros q d Hq. rewrite !elem_of_app in Hq.
    destruct Hq as [? | [Hq | ?]]; [left; exists d; set_solver | | left; exists d; set_solver].
    destruct (decide (m_refs d = 1)) as [E | E]; [right; by apply release_notifies |].
    left. exists (dec_refs d). split; [| done]. rewrite !elem_of_app. right. left. by apply released_in.
Qed.

(** ** The system of threads *)

(** A thread inside [condition_variable::wait] on the range at [w_on]. *)
Record waiter := Waiter { w_start : Z; w_end : Z; w_type : lock_type; w_on : positive }.
(** A thread that left [wait] and is about to take the mutex again. *)
Record request := Request { q_start : Z; q_end : Z; q_type : lock_type }.

Record sys := Sys {
  s_man : manager T; s_held : list range_lock; s_wait : list waiter; s_ready : list request }.

Definition sys_init : sys := Sys lock_manager_new [] [] [].

Definition resume (w : waiter) : request := Request (w_start w) (w_end w) (w_type w).
Definition wait_event (w : waiter) : event :=
  match w_type w with reader => NotifyReaders (w_on w) | writer => NotifyWriters (w_on w) end.

(** The state after a critical section of [lock_range]. *)
Definition after_lock (m' : manager T) (y : sys) (ready : list request) (s e : Z) (t : lock_type)
  (o : outcome) : sys :=
  match o with
  | Acquired q => Sys m' (Lock s e t q :: s_held y) (s_wait y) ready
  | Waiting p => Sys m' (s_held y) (Waiter s e t p :: s_wait y) ready
  end.

(** The state after an unlock: the notified threads are ready. *)
Definition after_unlock (m' : manager T) (y : sys) (held : list range_lock) : sys :=
  let evs := drop (length (m_events (s_man y))) (m_events m') in
  Sys m' held (filter (fun w => wait_event w ∉ evs) (s_wait y))
    (s_ready y ++ (resume <$> filter (fun w => wait_event w ∈ evs) (s_wait y))).

(** The tree has few enough nodes for its 32-bit counter. *)
Definition small (y : sys) : Prop := Z.of_nat (length (contents (m_tree (s_man y)))) < 2 ^ 30.

Inductive step : sys -> sys -> Prop :=
  | step_lock y s e t o m' :
      0 <= s < e -> e < 2 ^ 63 -> small y ->
      lock_range s e t (s_man y) = Some (o, m') ->
      step y (after_lock m' y (s_ready y) s e t o)
  | step_wake y r1 q r2 o m' :
      s_ready y = r1 ++ q :: r2 -> small y ->
      lock_range_wake (q_start q) (q_end q) (q_type q) (s_man y) = Some (o, m') ->
      step y (after_lock m' y (r1 ++ r2) (q_start q) (q_end q) (q_type q) o)
  | step_spurious y w1 w w2 :
      s_wait y = w1 ++ w :: w2 ->
      step y (Sys (s_man y) (s_held y) (w1 ++ w2) (resume w :: s_ready y))
  | step_unlock y h1 h h2 rl m' :
      s_held y = h1 ++ h :: h2 -> small y ->
      unlock_range h (s_man y) = Some (rl, m') ->
      step y (after_unlock m' y (h1 ++ h2)).

Definition reachable (y : sys) : Prop := rtc step sys_init y.

(** ** The invariant *)

Definition wanted (t : lock_type) (r : range) : bool :=
  match t with reader => m_read_wanted r | writer => m_write_wanted r end.

(** Every waiting thread waits on a range of the tree that is marked for it. *)
Definition waits rs (wait : list waiter) : Prop :=
  forall w, w ∈ wait -> exists r, (w_on w, r) ∈ rs /\ wanted (w_type w) r = true.

Definition sane (s e : Z) : Prop := 0 <= s < e /\ e < 2 ^ 63.

Record inv (y : sys) rs : Prop := {
  i_locks : locks (s_man y) rs (s_held y);
  i_waits : waits rs (s_wait y);
  i_wait_sane w : w ∈ s_wait y -> sane (w_start w) (w_end w);
  i_ready_sane q : q ∈ s_ready y -> sane (q_start q) (q_end q)
}.

Lemma inv_contents y rs : inv y rs -> contents (m_tree (s_man y)) = rs.
Proof. intros Hi. apply (g_contents _ _ (st_good _ _ (lk_stable _ _ _ (i_locks _ _ Hi)))). Qed.
Lemma inv_small y rs : inv y rs -> small y -> Z.of_nat (length rs) < 2 ^ 30.
Proof. intros Hi. unfold small. by rewrite (inv_contents _ _ Hi). Qed.

Lemma waits_flagged rs m' p s e t m rs' wait :
  waits rs wait -> flagged m rs m' rs' p t -> waits rs' (Waiter s e t p :: wait).
Proof.
  intros Hw [_ (l1 & r & r' & l2 & -> & -> & ->) _ _] w [-> | Hin]%elem_of_cons.
  - eexists. split; [apply elem_of_app; right; left; reflexivity |]. simpl. by destruct t.
  - destruct (Hw w Hin) as (d & Hd & Hwd). rewrite elem_of_app, elem_of_cons in Hd.
    destruct Hd as [? | [Heq | ?]]; [exists d; set_solver | | exists d; set_solver].
    injection Heq as -> ->. eexists. split; [apply elem_of_app; right; left; reflexivity |].
    unfold wanted in *. destruct t, (w_type w); simpl; done.
Qed.

Lemma waits_shared rs m m' rs' s e wait : shared m rs m' rs' s e -> waits rs wait -> waits rs' wait.
Proof.
  intros Hsh Hw w Hin. destruct (Hw w Hin) as (r & Hr & Hwr). exists r. split; [| done].
  destruct (sh_fixed _ _ _ _ _ _ Hsh _ _ Hr) as [(_ & H1 & H2) | ?]; [| done].
  unfold wanted in Hwr. destruct (w_type w); congruence.
Qed.

Lemma waits_superset rs rs' wait : rs ⊆ rs' -> waits rs wait -> waits rs' wait.
Proof. intros Hsub Hw w Hin. destruct (Hw w Hin) as (r & Hr & Hwr). exists r. auto. Qed.

(** A critical section of [lock_range] keeps the invariant. *)
Lemma lock_result_inv y rs ready m' s e t o :
  inv y rs -> sane s e -> (forall q, q ∈ ready -> sane (q_start q) (q_end q)) ->
  lock_result (s_man y) rs s e t o m' ->
  exists rs', inv (after_lock m' y ready s e t o) rs'.
Proof.
  intros Hi [Hs He] Hrd Hres. pose proof (i_locks _ _ Hi) as Hl.
  destruct o as [q | p]; simpl in *.
  - destruct Hres as [_ Hres].
    assert (Hgen : forall rs', locks m' rs' (Lock s e t q :: s_held y) ->
      waits rs' (s_wait y) -> inv (Sys m' (Lock s e t q :: s_held y) (s_wait y) ready) rs').
    { intros rs' H1 H2. constructor; simpl; auto. apply Hi. }
    destruct t; [destruct q as [q |]; simpl in Hres |].
    + destruct Hres as (l1 & l2 & -> & -> & Hst & Hd & _). eexists. apply Hgen.
      * by apply (locks_insert _ l1 l2 _ m' s e reader).
      * eapply waits_superset; [| apply Hi]. intros z Hz. set_solver.
    + destruct Hres as (rs' & Hsh & H1 & H2). exists rs'. apply Hgen.
      * by eapply locks_shared.
      * eapply waits_shared; [exact Hsh | apply Hi].
    + destruct Hres as (l1 & l2 & -> & -> & Hst & Hd & _). eexists. apply Hgen.
      * by apply (locks_insert _ l1 l2 _ m' s e writer).
      * eapply waits_superset; [| apply Hi]. intros z Hz. set_solver.
  - pose proof Hres as (r & rs' & _ & _ & _ & Hfl). exists rs'. constructor; simpl; auto.
    + by eapply locks_flagged.
    + eapply waits_flagged; [apply Hi | exact Hfl].
    + intros w [-> | Hw]%elem_of_cons; [done | by apply (i_wait_sane _ _ Hi)].
Qed.

Lemma step_inv y y' rs : step y y' -> inv y rs -> exists rs', inv y' rs'.
Proof.
  intros Hstep Hi. pose proof (i_locks _ _ Hi) as Hl. pose proof (lk_stable _ _ _ Hl) as Hst.
  destruct Hstep as [y s e t o m' Hs He Hsm Hop | y r1 q r2 o m' Hr Hsm Hop
    | y w1 w w2 Hw | y h1 h h2 rl m' Hh Hsm Hop].
  - destruct (lock_spec (s_man y) rs s e t) as (o' & m2 & Hop' & Hres); auto; [by apply (inv_small y) |].
    rewrite Hop in Hop'. injection Hop' as <- <-.
    eapply lock_result_inv; [exact Hi | done | apply Hi | done].
  - assert (Hq : sane (q_start q) (q_end q)) by (apply (i_ready_sane _ _ Hi); rewrite Hr; set_solver).
    assert (Hne : q_type q = writer \/ rs <> []).
    { destruct (q_type q) eqn:Eq; [right | by left]. intros ->. simpl in Hop.
      rewrite (reader_retry_empty _ _ _ Hst) in Hop; [done | apply Hq]. }
    destruct (wake_spec (s_man y) rs (q_start q) (q_end q) (q_type q)) as (o' & m2 & Hop' & Hres);
      auto; [apply Hq | by apply (inv_small y) |].
    rewrite Hop in Hop'. injection Hop' as <- <-.
    eapply lock_result_inv; [exact Hi | done | | done].
    intros q' Hq'. apply (i_ready_sane _ _ Hi). rewrite Hr. set_solver.
  - exists rs. constructor; simpl; [done | | |].
    + intros w' Hw'. apply (i_waits _ _ Hi). rewrite Hw. set_solver.
    + intros w' Hw'. apply (i_wait_sane _ _ Hi). rewrite Hw. set_solver.
    + intros q [-> | Hq]%elem_of_cons; [| by apply (i_ready_sane _ _ Hi)].
      apply (i_wait_sane _ _ Hi w). rewrite Hw. set_solver.
  - rewrite Hh in Hl. destruct (unlock_locks _ _ _ _ _ Hl (inv_small _ _ Hi Hsm))
      as (rl' & m2 & rs' & evs & Hop' & Hl' & Hev & Hk).
    rewrite Hop in Hop'. injection Hop' as <- <-. exists rs'.
    unfold after_unlock. rewrite Hev, drop_app_length. constructor; simpl; [done | | |].
    + intros w [Hne Hw]%list_elem_of_filter. destruct (i_waits _ _ Hi w Hw) as (r & Hr & Hwr).
      destruct (Hk _ _ Hr) as [(r' & Hr' & E1 & E2) | Hnot].
      * exists r'. split; [done |]. unfold wanted in *. destruct (w_type w); congruence.
      * exfalso. apply Hne, Hnot. unfold retire_events, wait_event, wanted in *.
        destruct (w_type w); rewrite Hwr; set_solver.
    + intros w [_ Hw]%list_elem_of_filter. by apply (i_wait_sane _ _ Hi).
    + intros q [Hq | Hq]%elem_of_app; [by apply (i_ready_sane _ _ Hi) |].
      apply list_elem_of_fmap in Hq as (w & -> & [_ Hw]%list_elem_of_filter).
      by apply (i_wait_sane _ _ Hi).
Qed.

Lemma reachable_inv y : reachable y -> exists rs, inv y rs.
Proof.
  intros Hr. apply (rtc_ind_r (R := step) (fun y => exists rs, inv y rs) sys_init); [| | exact Hr].
  - exists []. constructor; simpl; [apply locks_init | | |];
      intros ? Hin; by apply elem_of_nil in Hin.
  - intros y1 y2 _ Hst [rs Hi]. by eapply step_inv.
Qed.

(** ** Executable runs *)

Inductive action :=
  | ALock (s e : Z) (t : lock_type) | AWake (i : nat) | ASpurious (i : nat) | AUnlock (i : nat).

Definition small_b (y : sys) : bool := Z.of_nat (length (contents (m_tree (s_man y)))) <? 2 ^ 30.

Definition run_action (a : action) (y : sys) : option sys :=
  if small_b y then
    match a with
    | ALock s e t =>
        if (0 <=? s) && (s <? e) && (e <? 2 ^ 63) then
          match lock_range s e t (s_man y) with
          | Some (o, m') => Some (after_lock m' y (s_ready y) s e t o)
          | None => None
          end
        else None
    | AWake i =>
        match drop i (s_ready y) with
        | q :: r2 =>
            match lock_range_wake (q_start q) (q_end q) (q_type q) (s_man y) with
            | Some (o, m') =>
                Some (after_lock m' y (take i (s_ready y) ++ r2) (q_start q) (q_end q) (q_type q) o)
            | None => None
            end
        | [] => None
        end
    | ASpurious i =>
        match drop i (s_wait y) with
        | w :: w2 =>
            Some (Sys (s_man y) (s_held y) (take i (s_wait y) ++ w2) (resume w :: s_ready y))
        | [] => None
        end
    | AUnlock i =>
        match drop i (s_held y) with
        | h :: h2 =>
            match unlock_range h (s_man y) with
            | Some (_, m') => Some (after_unlock m' y (take i (s_held y) ++ h2))
            | None => None
            end
        | [] => None
        end
    end
  else None.

Fixpoint run (l : list action) (y : sys) : option sys :=
  match l with
  | [] => Some y
  | a :: l => match run_action a y with Some y' => run l y' | None => None end
  end.

Lemma run_action_step a y y' : run_action a y = Some y' -> step y y'.
Proof.
  unfold run_action. destruct (small_b y) eqn:Es; [| done]. apply Z.ltb_lt in Es.
  destruct a as [s e t | i | i | i].
  - destruct ((0 <=? s) && (s <? e) && (e <? 2 ^ 63)) eqn:Eb; [| done].
    apply andb_true_iff in Eb as [[H1%Z.leb_le H2%Z.ltb_lt]%andb_true_iff H3%Z.ltb_lt].
    destruct (lock_range s e t (s_man y)) as [[o m'] |] eqn:El; [| done]. intros [= <-].
    by apply step_lock.
  - destruct (drop i (s_ready y)) as [| q r2] eqn:Ed; [done |]. apply drop_split in Ed.
    destruct (lock_range_wake _ _ _ _) as [[o m'] |] eqn:El; [| done]. intros [= <-].
    by apply step_wake.
  - destruct (drop i (s_wait y)) as [| w w2] eqn:Ed; [done |]. apply drop_split in Ed.
    intros [= <-]. by apply step_spurious.
  - destruct (drop i (s_held y)) as [| h h2] eqn:Ed; [done |]. apply drop_split in Ed.
    destruct (unlock_range _ _) as [[rl m'] |] eqn:El; [| done]. intros [= <-].
    by eapply step_unlock.
Qed.

Lemma run_steps l : forall y y', run l y = Some y' -> rtc step y y'.
Proof.
  induction l as [| a l IH]; simpl; intros y y' H; [injection H as <-; constructor |].
  destruct (run_action a y) as [y1 |] eqn:E; [| done].
  eapply rtc_l; [by eapply run_action_step | by apply IH].
Qed.

Lemma run_reachable l y : run l sys_init = Some y -> reachable y.
Proof. apply run_steps. Qed.

(** ** Locks held and ranges of the tree *)

Definition h_overlaps (h : range_lock) (s e : Z) : Prop := h_start h < e /\ s < h_end h.

Lemma cnt_holder t x held : cnt t x held <> 0 ->
  exists h, h ∈ held /\ h_type h = t /\ h_start h <= x < h_end h.
Proof.
  induction held as [| h held IH]; simpl; [done |]. intros Hne.
  unfold hcov, ind in Hne. destruct (decide (h_type h = t)) as [Ht | Ht].
  - destruct (Z.leb_spec (h_start h) x), (Z.ltb_spec x (h_end h)); simpl in Hne;
      try (destruct IH as (h' & ? & ?); [lia | exists h'; split; [by right | done]]).
    exists h. split; [by left |]. auto with lia.
  - destruct IH as (h' & ? & ?); [lia |]. exists h'. split; [by right | done].
Qed.

(** A range is held by a lock of its type. *)
Lemma range_holder m rs held p r x :
  locks m rs held -> (p, r) ∈ rs -> covers x r = true ->
  exists h, h ∈ held /\ m_type r = lock_rt (h_type h) /\ h_start h <= x < h_end h.
Proof.
  intros Hl Hin Hx. pose proof (st_ok _ _ (lk_stable _ _ _ Hl)) as Hok.
  rewrite Forall_forall in Hok. specialize (Hok _ Hin). simpl in Hok.
  destruct (ok_type _ Hok) as [Ht | Ht].
  - destruct (cnt_holder reader x held) as (h & Hh & Hth & Hb).
    + rewrite <- (refs_count _ _ _ p r x Hl) by done. pose proof (ok_refs _ Hok). lia.
    + exists h. rewrite Hth. auto.
  - destruct (cnt_holder writer x held) as (h & Hh & Hth & Hb).
    + rewrite <- (lk_ww _ _ _ Hl x), (weight_in ww 0 rs p r x); auto; [| apply ww_zero | apply Hl].
      unfold ww. by rewrite Ht, Hx.
    + exists h. rewrite Hth. auto.
Qed.

(** A lock is held on a range of its type. *)
Lemma holder_range m rs held h x :
  locks m rs held -> h ∈ held -> h_start h <= x < h_end h ->
  exists p r, (p, r) ∈ rs /\ covers x r = true /\ m_type r = lock_rt (h_type h).
Proof.
  intros Hl Hh Hb. destruct (h_type h) eqn:Et.
  - pose proof (cnt_ge reader x h held Hh Et Hb) as Hge.
    destruct (weight_covered rw rs x) as (p & r & Hin & Hx); [apply rw_zero | rewrite (lk_rw _ _ _ Hl); lia |].
    exists p, r. split; [done |]. split; [done |]. by eapply (reader_range _ _ _ p r x h Hl).
  - pose proof (cnt_ge writer x h held Hh Et Hb) as Hge. rewrite <- (lk_ww _ _ _ Hl x) in Hge.
    destruct (weight_covered ww rs x) as (p & r & Hin & Hx); [apply ww_zero | lia |].
    exists p, r. split; [done |]. split; [done |]. simpl.
    rewrite (weight_in ww 0 rs p r x) in Hge; auto; [| apply ww_zero | apply Hl].
    unfold ww in Hge. destruct (bool_decide_reflect (m_type r = rt_writer)); [done | simpl in Hge; lia].
Qed.

(** At one offset, a writer is alone. *)
Lemma held_exclusive m rs h1 a h2 b x :
  locks m rs (h1 ++ a :: h2) -> b ∈ h1 ++ h2 ->
  h_start a <= x < h_end a -> h_start b <= x < h_end b -> h_type a = reader /\ h_type b = reader.
Proof.
  intros Hl Hb Ha Hbx. assert (Ha' : a ∈ h1 ++ a :: h2) by set_solver.
  destruct (holder_range _ _ _ a x Hl Ha' Ha) as (p & r & Hin & Hx & Ht).
  destruct (holder_range _ _ _ b x Hl) as (p' & r' & Hin' & Hx' & Ht'); [set_solver | done |].
  assert (Heq : (p, r) = (p', r')).
  { eapply (chain_unique 0 rs _ _ x); [apply Hl | done | done | done | done]. }
  injection Heq as <- <-. rewrite Ht in Ht'.
  destruct (h_type a) eqn:Ea, (h_type b) eqn:Eb; try done. exfalso.
  pose proof (cnt_ge_two writer x a b h1 h2 Ea Ha Hb Eb Hbx) as H2.
  rewrite <- (lk_ww _ _ _ Hl x), (weight_in ww 0 rs p r x) in H2; auto; [| apply ww_zero | apply Hl].
  unfold ww in H2. destruct (_ && _); lia.
Qed.

Lemma lock_result_meaning y rs s e t o m' :
  inv y rs -> 0 <= s < e -> lock_result (s_man y) rs s e t o m' ->
  match o with
  | Acquired _ => forall h, h ∈ s_held y -> h_overlaps h s e -> t = reader /\ h_type h = reader
  | Waiting p => exists r h, (p, r) ∈ rs /\ overlaps r s e /\ h ∈ s_held y /\ h_overlaps h s e /\
      m_type r = lock_rt (h_type h) /\ (t = reader -> h_type h = writer \/ m_write_wanted r = true)
  end.
Proof.
  intros Hi Hs Hres. pose proof (i_locks _ _ Hi) as Hl. destruct o as [q | p]; simpl in Hres.
  - destruct Hres as [Hno _]. intros h Hh [Ho1 Ho2].
    pose proof (lk_bounds _ _ _ Hl h Hh) as [Hb _].
    destruct (holder_range _ _ _ h (Z.max s (h_start h)) Hl Hh) as (p & r & Hin & Hx & Ht); [lia |].
    apply covers_spec in Hx. destruct (Hno (p, r) Hin) as [-> Hex]; [split; simpl; lia |].
    split; [done |]. unfold excludes_readers in Hex. simpl in Hex. rewrite Ht in Hex.
    by destruct (h_type h).
  - destruct Hres as (r & rs' & Hin & [Ho1 Ho2] & Hex & _).
    pose proof (chain_bounds 0 rs (p, r) (st_chain _ _ (lk_stable _ _ _ Hl)) Hin) as Hb. simpl in Hb.
    destruct (range_holder _ _ _ p r (Z.max s (m_start r)) Hl Hin) as (h & Hh & Ht & Hbh).
    { apply covers_spec. lia. }
    exists r, h. split; [done |]. split; [done |]. split; [done |]. split; [split; lia |].
    split; [done |]. intros ->. specialize (Hex eq_refl). unfold excludes_readers in Hex.
    rewrite Ht in Hex. apply orb_true_iff in Hex as [Hex | Hex]; [left | by right].
    apply bool_decide_eq_true in Hex. by destruct (h_type h).
Qed.

Lemma no_holder_no_range m rs : locks m rs [] -> rs = [].
Proof.
  intros Hl. destruct rs as [| [p r] rs]; [done |]. exfalso.
  destruct (range_holder _ _ _ p r (m_start r) Hl) as (h & Hh & _); [set_solver | |].
  - apply covers_spec. pose proof (st_chain _ _ (lk_stable _ _ _ Hl)) as (_ & ? & _). simpl in *. lia.
  - by apply elem_of_nil in Hh.
Qed.

(** * Properties *)

(** Two locks that are held on overlapping ranges are both reader locks. *)
(** What a critical section of [lock_range] may do for the range [[s, e)]: grant a lock only
    when every lock held on an overlapping range is a reader's and so is the new one, and
    make the thread wait only on a range of the tree that overlaps, for a lock that is held
    on it (a reader only when that lock is a writer's or a writer waits for its range). *)
Definition lock_outcome (y : sys) (s e : Z) (t : lock_type) (o : outcome) : Prop :=
  match o with
  | Acquired _ => forall h, h ∈ s_held y -> h_overlaps h s e -> t = reader /\ h_type h = reader
  | Waiting p => exists r h, (p, r) ∈ contents (m_tree (s_man y)) /\ overlaps r s e /\
      h ∈ s_held y /\ h_overlaps h s e /\ m_type r = lock_rt (h_type h) /\
      (t = reader -> h_type h = writer \/ m_write_wanted r = true)
  end.

Lemma no_range_no_holder m held : locks m [] held -> held = [].
Proof.
  intros Hl. destruct held as [| h held]; [done |]. exfalso.
  pose proof (lk_bounds _ _ _ Hl h (list_elem_of_here _ _)) as [Hb _].
  pose proof (lk_rw _ _ _ Hl (h_start h)) as Hrw. pose proof (lk_ww _ _ _ Hl (h_start h)) as Hww.
  assert (Hpos : forall t, 0 <= cnt t (h_start h) held) by (intros t; apply cnt_nonneg).
  assert (Hc : hcov (h_type h) (h_start h) h = 1) by (apply hcov_in; [done | lia]).
  cbn [weight cnt foldr] in Hrw, Hww. fold (cnt reader (h_start h) held) in Hrw. fold (cnt writer (h_start h) held) in Hww.
  pose proof (Hpos reader). pose proof (Hpos writer). destruct (h_type h); lia.
Qed.

(** A critical section after a wake-up. *)
Lemma wake_meaning y q : reachable y -> small y -> q ∈ s_ready y ->
  (lock_range_wake (q_start q) (q_end q) (q_type q) (s_man y) = None <->
     q_type q = reader /\ contents (m_tree (s_man y)) = []) /\
  (forall o m', lock_range_wake (q_start q) (q_end q) (q_type q) (s_man y) = Some (o, m') ->
     lock_outcome y (q_start q) (q_end q) (q_type q) o).
Proof.
  intros Hr Hsm Hq. destruct (reachable_inv y Hr) as (rs & Hinv).
  pose proof (lk_stable _ _ _ (i_locks _ _ Hinv)) as Hst. unfold lock_outcome. rewrite (inv_contents _ _ Hinv).
  destruct (i_ready_sane _ _ Hinv q Hq) as [Hs He].
  destruct (decide (q_type q = reader /\ rs = [])) as [[Ht ->] | Hne].
  { rewrite Ht. cbn [lock_range_wake]. by rewrite (reader_retry_empty _ _ _ Hst). }
  assert (Hne' : q_type q = writer \/ rs <> []).
  { destruct (q_type q); [right; intros ->; by apply Hne | by left]. }
  destruct (wake_spec (s_man y) rs (q_start q) (q_end q) (q_type q) Hst Hne' Hs
    (inv_small _ _ Hinv Hsm)) as (o & m' & -> & Hres).
  split; [by split |]. intros o' m'' [= <- <-].
  by apply (lock_result_meaning y rs _ _ _ o m').
Qed.
(** When it faults, no lock is held. *)
Lemma wake_fault_unheld y q : reachable y -> small y -> q ∈ s_ready y ->
  lock_range_wake (q_start q) (q_end q) (q_type q) (s_man y) = None -> s_held y = [].
Proof.
  intros Hr Hsm Hq Hn. apply (wake_meaning y q Hr Hsm Hq) in Hn as [_ Hc]. destruct (reachable_inv y Hr) as (rs & Hinv).
  rewrite (inv_contents _ _ Hinv) in Hc. subst rs. eapply no_range_no_holder, Hinv.
Qed.

Lemma held_compatible (y : sys) (i j : nat) (a b : range_lock) :
  reachable y -> s_held y !! i = Some a -> s_held y !! j = Some b -> i <> j ->
  h_overlaps a (h_start b) (h_end b) -> h_type a = reader /\ h_type b = reader.
Proof.
  intros Hr Hi Hj Hne [Ho1 Ho2]. destruct (reachable_inv y Hr) as (rs & Hinv).
  pose proof (i_locks _ _ Hinv) as Hl.
  pose proof (lk_bounds _ _ _ Hl a (list_elem_of_lookup_2 _ _ _ Hi)) as [? _].
  pose proof (lk_bounds _ _ _ Hl b (list_elem_of_lookup_2 _ _ _ Hj)) as [? _].
  rewrite <- (take_drop_middle _ _ _ Hi) in Hl.
  apply (held_exclusive _ _ _ _ _ b (Z.max (h_start a) (h_start b)) Hl); [| lia | lia].
  apply elem_of_app. destruct (decide (j < i)%nat).
  - left. apply list_elem_of_lookup. exists j. by rewrite lookup_take_lt.
  - right. apply list_elem_of_lookup. exists (j - S i)%nat. rewrite lookup_drop.
    by replace (S i + (j - S i))%nat with j by lia.
Qed.

(** C1: Mutual exclusion: in every reachable state of the lock manager, two locks that
    are held on overlapping ranges are both reader locks. *)
Theorem range_lock_mutual_exclusion (y : sys) (i j : nat) (a b : range_lock) :
  reachable y -> s_held y !! i = Some a -> s_held y !! j = Some b -> i <> j ->
  h_overlaps a (h_start b) (h_end b) -> h_type a = reader /\ h_type b = reader.
Proof. apply held_compatible. Qed.

(** C11: [lock_range] on a reachable state whose tree has fewer than 2^30 ranges. Its first
    critical section, up to the first wait, never faults and has a [lock_outcome]. A later
    one, after a wake-up, faults exactly when the thread is a reader and the tree has become
    empty in the meantime ([reader_retry_crash] is such a run), and otherwise has a
    [lock_outcome] as well. *)
Theorem lock_range_exact (y : sys) :
  reachable y -> small y ->
  (forall s e t, 0 <= s < e -> e < 2 ^ 63 ->
     exists o m', lock_range s e t (s_man y) = Some (o, m') /\ lock_outcome y s e t o) /\
  (forall q, q ∈ s_ready y ->
     (lock_range_wake (q_start q) (q_end q) (q_type q) (s_man y) = None <->
        q_type q = reader /\ contents (m_tree (s_man y)) = []) /\
     (forall o m', lock_range_wake (q_start q) (q_end q) (q_type q) (s_man y) = Some (o, m') ->
        lock_outcome y (q_start q) (q_end q) (q_type q) o)).
Proof.
  intros Hr Hsm. destruct (reachable_inv y Hr) as (rs & Hinv).
  split.
  - intros s e t Hs He. unfold lock_outcome. rewrite (inv_contents _ _ Hinv). destruct (lock_spec (s_man y) rs s e t) as (o & m' & Hop & Hres);
      [apply (i_locks _ _ Hinv) | done | by apply (inv_small y) |].
    exists o, m'. split; [done |]. by apply (lock_result_meaning y rs s e t o m').
  - intros q Hq. by apply wake_meaning.
Qed.

(** C12: [unlock_range] of a lock that is held never faults: no assertion fails, no
    freed or unallocated range is accessed and no range is deleted twice. *)
Theorem unlock_range_no_fault (y : sys) (h : range_lock) :
  reachable y -> small y -> h ∈ s_held y ->
  exists rl m', unlock_range h (s_man y) = Some (rl, m').
Proof.
  intros Hr Hsm (h1 & h2 & Hh)%list_elem_of_split. destruct (reachable_inv y Hr) as (rs & Hinv).
  pose proof (i_locks _ _ Hinv) as Hl. rewrite Hh in Hl.
  destruct (unlock_locks _ _ _ _ _ Hl (inv_small _ _ Hinv Hsm)) as (rl & m' & _ & _ & Hop & _).
  eauto.
Qed.

(** C13: No wake-up is lost: in a reachable state every thread inside [wait] waits on a
    range of the tree that is marked for its kind of thread; so when no lock is held the
    tree is empty and no thread is left waiting. *)
Theorem no_lost_wakeup (y : sys) :
  reachable y ->
  (forall w, w ∈ s_wait y ->
     exists r, (w_on w, r) ∈ contents (m_tree (s_man y)) /\ wanted (w_type w) r = true) /\
  (s_held y = [] -> contents (m_tree (s_man y)) = [] /\ s_wait y = []).
Proof.
  intros Hr. destruct (reachable_inv y Hr) as (rs & Hinv). rewrite (inv_contents _ _ Hinv).
  split; [apply (i_waits _ _ Hinv) |]. intros Hh. pose proof (i_locks _ _ Hinv) as Hl.
  rewrite Hh in Hl. apply no_holder_no_range in Hl as ->. split; [done |].
  destruct (s_wait y) as [| w ws] eqn:Ew; [done |]. exfalso.
  destruct (i_waits _ _ Hinv w) as (r & Hr' & _); [rewrite Ew; by left |].
  by apply elem_of_nil in Hr'.
Qed.

End System.
(** ** Runs on the AVL tree *)

Abbreviation avl_sys := (sys (T := avltree range)) (only parsing).

(** Three overlapping readers, a writer elsewhere and a writer that waits. *)
Definition busy : avl_sys :=
  default sys_init (run [ALock 0 10 reader; ALock 5 15 reader; ALock 12 20 writer;
    ALock 30 40 writer; ALock 8 9 reader] sys_init).
(** A waiting writer that was woken up while another reader still holds a lock. *)
Definition woken : avl_sys :=
  default sys_init (run [ALock 0 10 reader; ALock 5 15 reader; ALock 12 20 writer; AUnlock 0] sys_init).

Lemma busy_reachable : reachable busy.
Proof.
  apply (run_reachable [ALock 0 10 reader; ALock 5 15 reader; ALock 12 20 writer;
    ALock 30 40 writer; ALock 8 9 reader]). vm_compute. reflexivity.
Qed.
Lemma woken_reachable : reachable woken.
Proof.
  apply (run_reachable [ALock 0 10 reader; ALock 5 15 reader; ALock 12 20 writer; AUnlock 0]).
  vm_compute. reflexivity.
Qed.

Lemma range_lock_mutual_exclusion_witness :
  exists a b, s_held busy !! 0%nat = Some a /\ s_held busy !! 2%nat = Some b /\
    h_overlaps a (h_start b) (h_end b) /\ h_type a = reader /\ h_type b = reader.
Proof.
  do 2 eexists. split; [vm_compute; reflexivity |]. split; [vm_compute; reflexivity |].
  split; [vm_compute; auto |].
  apply (range_lock_mutual_exclusion busy 0 2); [apply busy_reachable | vm_compute; reflexivity
    | vm_compute; reflexivity | lia | vm_compute; auto].
Defined.

Lemma lock_range_exact_witness :
  (exists o m', lock_range 0 3 reader (s_man woken) = Some (o, m') /\ lock_outcome woken 0 3 reader o) /\
  (forall o m', lock_range_wake 12 20 writer (s_man woken) = Some (o, m') -> lock_outcome woken 12 20 writer o).
Proof.
  destruct (lock_range_exact woken) as [H1 H2]; [apply woken_reachable | vm_compute; reflexivity |].
  split; [apply H1; lia |]. apply (H2 (Request 12 20 writer)). vm_compute. left.
Defined.

Lemma unlock_range_no_fault_witness :
  exists rl m', unlock_range (Lock 5 15 reader None) (s_man busy) = Some (rl, m').
Proof.
  apply (unlock_range_no_fault busy); [apply busy_reachable | vm_compute; reflexivity |].
  vm_compute. right. right. left.
Defined.

Lemma no_lost_wakeup_witness :
  s_wait busy <> [] /\
  forall w, w ∈ s_wait busy ->
    exists r, (w_on w, r) ∈ contents (m_tree (s_man busy)) /\ wanted (w_type w) r = true.
Proof.
  split; [vm_compute; discriminate |]. apply (no_lost_wakeup busy). apply busy_reachable.
Defined.

(** The fault of a reader that tries again happens: a writer holds [[0, 10)], a reader waits for [[5, 15)],
    the writer unlocks and notifies; the reader wakes up, starts again at [retry], finds
    no range before its own and follows the invalid pointer that [nearest] gives for an
    empty tree. *)
Theorem reader_retry_crash :
  exists y : avl_sys, run [ALock 0 10 writer; ALock 5 15 reader; AUnlock 0] sys_init = Some y /\
    s_ready y = [Request 5 15 reader] /\
    lock_range_wake 5 15 reader (s_man y) = None.
Proof. eexists. split; [vm_compute; reflexivity |]. split; vm_compute; reflexivity. Qed.

(** A handle can be left with a dangling pointer: two readers lock [[0, 10)], the first
    unlocks while the second holds the proxy. [unlock_range_reader] deletes the first
    handle's range but resets [m_ptr] only when a proxy lost its last reference, so
    [~range_lock] reads the deleted range. *)
Theorem unlock_leaves_dangling :
  exists y : avl_sys, run [ALock 0 10 reader; ALock 0 10 reader] sys_init = Some y /\
    Lock 0 10 reader (Some 1%positive) ∈ s_held y /\
    exists m', unlock_range (Lock 0 10 reader (Some 1%positive)) (s_man y)
        = Some (Lock 0 10 reader (Some 1%positive), m') /\
      range_lock_destroy (Lock 0 10 reader (Some 1%positive)) m' = None.
Proof.
  eexists. split; [vm_compute; reflexivity |]. split; [vm_compute; right; left |].
  eexists. split; vm_compute; reflexivity.
Qed.

End RangeLockSafe.
