(* ===== verification/RangeMutex.v ===== *)
(** * What a file needs of its range lock

    [file::lock_range] and [file::unlock_range] (src/backends/nvram-nvml/file.cpp) forward to
    the file's [lock_manager]. The class [RangeMutex] states what an operation that runs
    without others relies on: from a manager on which no lock is held, a lock is granted at
    once, and unlocking it leads back to such a manager. The lock manager of [RangeLock]
    implements it. *)
From S2P Require Import Prelude Avl RangeLock RangeLockInv RangeLockOps RangeLockSafe.
From stdpp Require Import base list numbers option gmap.
Local Open Scope Z_scope.

Module RangeMutex.
Import Avl RangeLock RangeLockInv RangeLockOps RangeLockSafe.

(** [lk_lock l s e t] is [None] when the calling thread would wait, or faults. *)
Class RangeMutex (L : Type) := {
  lk_handle : Type;
  lk_new : L;
  lk_lock : L -> Z -> Z -> lock_type -> option (lk_handle * L);
  lk_unlock : L -> lk_handle -> option L;
  lk_idle : L -> Prop;
  lk_new_idle : lk_idle lk_new;
  lk_lock_idle l s e t : lk_idle l ->
    exists h l', lk_lock l s e t = Some (h, l') /\ exists l'', lk_unlock l' h = Some l'' /\ lk_idle l'' }.

Abbreviation locker := (manager (avltree range)).

Definition lock_now (m : locker) (s e : Z) (t : lock_type) : option (range_lock * locker) :=
  match lock_range s e t m with
  | Some (Acquired p, m') => Some (Lock s e t p, m')
  | _ => None
  end.
Definition unlock_now (m : locker) (h : range_lock) : option locker :=
  match unlock_range h m with Some (_, m') => Some m' | None => None end.
(** No range is in the tree. *)
Definition idle (m : locker) : Prop := good m [].

(** The one range in the tree leaves it when its lock is released. *)
Lemma unlock_one m s e t p r : good m [(p, r)] -> m_refs r = 1 ->
  exists m', unlock_now m (Lock s e t (Some p)) = Some m' /\ idle m'.
Proof.
  intros Hg Hr. destruct (retire_spec m [] p r [] Hg) as (m' & Hre & Hg' & _); [simpl; lia |]. exists m'. split; [| done].
  unfold unlock_now, unlock_range. destruct t; cbn [h_type h_ptr].
  - unfold unlock_range_reader. cbn [h_ptr]. rewrite (bind_some _ _ _ (negb (m_refs r =? 0)) m).
    + rewrite Hr. cbn [Z.eqb negb]. by rewrite (bind_some _ _ _ _ _ Hre).
    + by rewrite (bind_some _ _ _ _ _ (read_in m [] [] p r Hg)).
  - unfold unlock_range_writer. cbn [h_ptr]. rewrite (bind_some _ _ _ _ _ (read_in m [] [] p r Hg)), bind_assert by (by rewrite Hr).
    by rewrite (bind_some _ _ _ _ _ Hre).
Qed.
(** A lock on an empty tree is granted, also one for an empty range. *)
Lemma idle_lock m s e t : idle m ->
  exists h m', lock_now m s e t = Some (h, m') /\ exists m'', unlock_now m' h = Some m'' /\ idle m''.
Proof.
  intros Hg. assert (Hsize : tree_size m = Some (0, m)) by (apply (tree_size_good m [] Hg); simpl; lia).
  destruct (tree_add_good m [] [] (new_range s e (match t with reader => rt_reader | writer => rt_writer end)) Hg)
    as (m' & Ha & Hg' & _); [split; constructor |].
  exists (Lock s e t (Some (m_next m))), m'. split; [| by apply (unlock_one _ _ _ _ _ _ Hg'); destruct t].
  unfold lock_now, lock_range. destruct t.
  - unfold lock_range_reader. rewrite (bind_some _ _ _ _ _ Hsize). cbn [Z.eqb]. by rewrite (bind_some _ _ _ _ _ Ha).
  - unfold lock_range_writer. rewrite (bind_some _ _ _ _ _ Hsize). cbn [Z.eqb]. by rewrite (bind_some _ _ _ _ _ Ha).
Qed.

(** [lock_manager] as a range mutex. *)
#[export] Instance lock_manager_mutex : RangeMutex locker.
Proof.
  refine {| lk_handle := range_lock; lk_new := lock_manager_new; lk_lock := lock_now;
            lk_unlock := unlock_now; lk_idle := idle |}.
  - apply (st_good _ _ (lk_stable _ _ _ locks_init)).
  - apply idle_lock.
Defined.

End RangeMutex.
