(* ===== verification/Errors.v ===== *)
(** * Error codes (src/errors.h, src/errors.cpp, include/efs-api.h, lib/errors.c)

    The daemon reports the outcome of a request as an [error_code]; the wire carries the
    API code that [make_api_error] assigns to it; the client library turns an API code
    into a message with [efs_strerror]. *)
From S2P Require Import Prelude.
From stdpp Require Import base list numbers option strings.
Local Open Scope string_scope.
Local Open Scope Z_scope.

Module Errors.

(** ** include/efs-api.h *)
Definition EFS_API_ERRMAX : Z := 512.
Definition EFS_API_SUCCESS : Z := 0.
Definition EFS_API_ESNAFU : Z := -1.
Definition EFS_API_EINVAL : Z := -2.
Definition EFS_API_EBADREQUEST : Z := -3.
Definition EFS_API_EBADRESPONSE : Z := -4.
Definition EFS_API_ENOMEM : Z := -5.
Definition EFS_API_ECONNFAILED : Z := -6.
Definition EFS_API_ERPCSENDFAILED : Z := -7.
Definition EFS_API_ERPCRECVFAILED : Z := -8.
Definition EFS_API_EPACKFAILED : Z := -9.
Definition EFS_API_EUNPACKFAILED : Z := -10.
Definition EFS_API_ENOSUCHTASK : Z := -12.
Definition EFS_API_ETASKPENDING : Z := -11.
Definition EFS_API_ETASKINPROGRESS : Z := -13.
Definition EFS_API_ENOSUCHPATH : Z := -14.
Definition EFS_API_EPATHEXISTS : Z := -15.
Definition EFS_API_UNKNOWN : Z := - EFS_API_ERRMAX.

(** ** lib/errors.c *)

(** [ERR_REMAP(n)] *)
Definition ERR_REMAP (n : Z) : Z := if n <? 0 then - n else n.

(** The designated initialisers of [norns_errlist]; the other entries of the array of
    [EFS_API_ERRMAX + 1] pointers are null. *)
Definition errlist_init : list (Z * string) := [
  (ERR_REMAP EFS_API_SUCCESS, "Success");
  (ERR_REMAP EFS_API_ESNAFU, "Internal error");
  (ERR_REMAP EFS_API_EINVAL, "Invalid arguments");
  (ERR_REMAP EFS_API_EBADREQUEST, "Bad request");
  (ERR_REMAP EFS_API_EBADRESPONSE, "Bad response");
  (ERR_REMAP EFS_API_ENOMEM, "Cannot allocate memory");
  (ERR_REMAP EFS_API_ECONNFAILED, "Cannot connect to daemon");
  (ERR_REMAP EFS_API_ERPCSENDFAILED, "Cannot send requests to daemon");
  (ERR_REMAP EFS_API_ERPCRECVFAILED, "Cannot receive responses from daemon");
  (ERR_REMAP EFS_API_EPACKFAILED, "Cannot pack request");
  (ERR_REMAP EFS_API_EUNPACKFAILED, "Cannot unpack response");
  (ERR_REMAP EFS_API_ENOSUCHTASK, "Task does not exist");
  (ERR_REMAP EFS_API_ETASKPENDING, "Task pending");
  (ERR_REMAP EFS_API_ETASKINPROGRESS, "Task in progress");
  (ERR_REMAP EFS_API_ENOSUCHPATH, "Resource not found");
  (ERR_REMAP EFS_API_EPATHEXISTS, "Resource already imported");
  (ERR_REMAP EFS_API_ERRMAX, "Unknown error")].

Fixpoint designated (l : list (Z * string)) (i : Z) : option string :=
  match l with
  | [] => None
  | (j, s) :: l => if i =? j then Some s else designated l i
  end.

(** [norns_errlist[i]]: [None] outside of the array, else a pointer that may be null. *)
Definition norns_errlist (i : Z) : option (option string) :=
  if (0 <=? i) && (i <? EFS_API_ERRMAX + 1) then Some (designated errlist_init i) else None.

(** [efs_strerror(errnum)] *)
Definition efs_strerror (errnum : Z) : option (option string) :=
  let errnum := if EFS_API_ERRMAX <? errnum then EFS_API_ERRMAX else errnum in
  norns_errlist (ERR_REMAP errnum).

(** ** src/errors.h *)
Inductive error_code :=
  | success | internal_error | invalid_arguments | bad_request
  | no_such_task | task_pending | task_in_progress
  | no_such_path | path_already_imported.

#[export] Instance error_code_eq_dec : EqDecision error_code.
Proof. solve_decision. Defined.

(** The values of the enumerators. *)
Definition error_code_value (ec : error_code) : Z :=
  match ec with
  | success => 0 | internal_error => 1 | invalid_arguments => 2 | bad_request => 3
  | no_such_task => 1000 | task_pending => 1001 | task_in_progress => 1002
  | no_such_path => 2000 | path_already_imported => 2001
  end.

Definition all_error_codes : list error_code :=
  [success; internal_error; invalid_arguments; bad_request; no_such_task; task_pending;
   task_in_progress; no_such_path; path_already_imported].

(** The enumerator with a value, if there is one. *)
Definition error_code_of (v : Z) : option error_code :=
  List.find (fun ec => error_code_value ec =? v) all_error_codes.

(** ** src/errors.cpp *)

(** The [switch] of [make_api_error] over the value of its argument. *)
Definition api_error_of_value (v : Z) : Z :=
  match error_code_of v with
  | Some success => EFS_API_SUCCESS
  | Some internal_error => EFS_API_ESNAFU
  | Some invalid_arguments => EFS_API_EINVAL
  | Some bad_request => EFS_API_EBADREQUEST
  | Some no_such_task => EFS_API_ENOSUCHTASK
  | Some task_pending => EFS_API_ETASKPENDING
  | Some task_in_progress => EFS_API_ETASKINPROGRESS
  | Some no_such_path => EFS_API_ENOSUCHPATH
  | Some path_already_imported => EFS_API_EPATHEXISTS
  | None => EFS_API_UNKNOWN
  end.
Definition make_api_error (ec : error_code) : Z := api_error_of_value (error_code_value ec).

(** [operator<<] *)
Definition print_error_code (ec : error_code) : string :=
  match ec with
  | success => "success"
  | internal_error => "internal error"
  | invalid_arguments => "invalid arguments"
  | bad_request => "bad request"
  | no_such_task => "no such task"
  | task_pending => "task pending"
  | task_in_progress => "task in progress"
  | no_such_path => "path to resource not found"
  | path_already_imported => "path already exists"
  end.

(** ** Lemmas *)

Lemma error_code_of_value ec : error_code_of (error_code_value ec) = Some ec.
Proof. by destruct ec. Qed.

Lemma make_api_error_range ec : -15 <= make_api_error ec <= 0.
Proof. destruct ec; vm_compute; split; discriminate. Qed.

(** The code survives the trip through the unsigned [status] field of the response. *)
Lemma status_roundtrip ec : s32 (u32 (make_api_error ec)) = make_api_error ec.
Proof. rewrite s32_u32. pose proof (make_api_error_range ec). apply s32_small. lia. Qed.

Lemma make_api_error_inj ec ec' : make_api_error ec = make_api_error ec' -> ec = ec'.
Proof. destruct ec, ec'; vm_compute; congruence. Qed.

Lemma designated_small i : 0 <= i <= 15 -> exists s, designated errlist_init i = Some s.
Proof.
  intros Hi. assert (Hc : i ∈ seqZ 0 16) by (apply elem_of_seqZ; lia).
  revert i Hi Hc. assert (Hall : Forall (fun i => is_Some (designated errlist_init i)) (seqZ 0 16)).
  { apply (bool_decide_unpack _). vm_compute. exact I. }
  rewrite Forall_forall in Hall. intros i Hi Hc. destruct (Hall i Hc) as [s Hs]. eauto.
Qed.

Lemma designated_gap i : 15 < i -> i <> EFS_API_ERRMAX -> designated errlist_init i = None.
Proof.
  intros Hi Hne. unfold EFS_API_ERRMAX in Hne. unfold designated, errlist_init.
  repeat match goal with
  | |- context [if i =? ?j then _ else _] =>
      rewrite (proj2 (Z.eqb_neq i j)) by (let k := eval vm_compute in j in change j with k; lia)
  end. done.
Qed.

(** * Properties *)

(** [efs_strerror] on every [int]: it reads outside of its table exactly for codes
    below [-EFS_API_ERRMAX], returns a message for the documented codes of either sign
    and for everything from [EFS_API_ERRMAX] up, and a null pointer for the codes in
    between. *)
Theorem efs_strerror_spec (e : Z) :
  - 2 ^ 31 < e < 2 ^ 31 ->
  (efs_strerror e = None <-> e < - EFS_API_ERRMAX) /\
  ((exists s, efs_strerror e = Some (Some s)) <->
     -15 <= e <= 15 \/ e = - EFS_API_ERRMAX \/ EFS_API_ERRMAX <= e) /\
  (efs_strerror e = Some None <-> - EFS_API_ERRMAX < e < -15 \/ 15 < e < EFS_API_ERRMAX).
Proof.
  intros He. unfold efs_strerror, norns_errlist, ERR_REMAP, EFS_API_ERRMAX in *.
  set (i := if (if 512 <? e then 512 else e) <? 0 then _ else _).
  assert (Hi : (e < -512 /\ 512 < i) \/ (-512 <= e < 0 /\ i = - e) \/ (0 <= e <= 512 /\ i = e) \/
               (512 < e /\ i = 512)).
  { subst i. destruct (Z.ltb_spec 512 e) as [H | H].
    - destruct (Z.ltb_spec 512 0); lia.
    - destruct (Z.ltb_spec e 0); lia. }
  clearbody i.
  assert (H512 : designated errlist_init 512 = Some "Unknown error") by reflexivity.
  destruct (Z.leb_spec 0 i); [| lia].
  destruct (Z.ltb_spec i (512 + 1)) as [Hlt | Hge]; cbn [andb].
  - destruct (Z.eq_dec i 512) as [-> | Hne].
    { rewrite H512. split; [split; [done | lia] |]. split; [| split; [done | lia]].
      split; [lia | eauto]. }
    destruct (Z.le_gt_cases i 15).
    + destruct (designated_small i) as [s ->]; [lia |]. split; [split; [done | lia] |].
      split; [split; [lia | eauto] | split; [done | lia]].
    + rewrite (designated_gap i) by (unfold EFS_API_ERRMAX; lia).
      split; [split; [done | lia] |]. split; [split; [by intros [? ?] | lia] | split; [lia | done]].
  - split; [split; [lia | done] |]. split; [split; [by intros [? ?] | lia] | split; [done | lia]].
Qed.

Lemma efs_strerror_spec_witness :
  (efs_strerror (-600) = None <-> -600 < - EFS_API_ERRMAX) /\
  ((exists s, efs_strerror (-600) = Some (Some s)) <->
     -15 <= -600 <= 15 \/ -600 = - EFS_API_ERRMAX \/ EFS_API_ERRMAX <= -600) /\
  (efs_strerror (-600) = Some None <->
     - EFS_API_ERRMAX < -600 < -15 \/ 15 < -600 < EFS_API_ERRMAX).
Proof. apply (efs_strerror_spec (-600)). lia. Defined.

(** the API codes identify the daemon's error codes: [make_api_error] never falls
    through to the unknown code, is injective, keeps success apart from every error, and
    the client library has a message for each of its codes, also after the code has
    crossed the wire in the unsigned 32-bit [status] field. *)
Theorem make_api_error_faithful (ec ec' : error_code) :
  make_api_error ec <> EFS_API_UNKNOWN /\
  (make_api_error ec = make_api_error ec' <-> ec = ec') /\
  (make_api_error ec = EFS_API_SUCCESS <-> ec = success) /\
  s32 (u32 (make_api_error ec)) = make_api_error ec /\
  exists s, efs_strerror (s32 (u32 (make_api_error ec))) = Some (Some s).
Proof.
  split; [by destruct ec |]. split; [split; [apply make_api_error_inj | by intros ->] |].
  split; [split; [by apply (make_api_error_inj ec success) | by intros ->] |].
  rewrite status_roundtrip. split; [done |].
  destruct ec; eexists; reflexivity.
Qed.

End Errors.
