(* ===== verification/Wire.v ===== *)
(** * Framing of API messages (lib/communication.c, src/api/message.h)

    A message on the API socket is an 8-byte length in network order followed by that
    many bytes of body. This file models the byte-order helpers, the client's send and
    receive loops over [write] and [read], and the daemon's [message] class. *)
From S2P Require Import Prelude.
From stdpp Require Import base list numbers option.
Local Open Scope Z_scope.

Module Wire.

(** ** Bytes of machine words *)

(** The [n] low bytes of a word, least significant first. *)
Fixpoint le_bytes (n : nat) (x : Z) : list Z :=
  match n with O => [] | S n => x mod 256 :: le_bytes n (x / 256) end.
Fixpoint le_value (l : list Z) : Z :=
  match l with [] => 0 | b :: l => b + 256 * le_value l end.

(** The bytes of a [uint64_t] object in memory, on a big- or little-endian host. *)
Definition mem_of_u64 (big : bool) (x : Z) : list Z :=
  if big then reverse (le_bytes 8 x) else le_bytes 8 x.
Definition u64_of_mem (big : bool) (l : list Z) : Z :=
  if big then le_value (reverse l) else le_value l.

(** [htonl] and [ntohl]: the identity on a big-endian host, else a byte swap. *)
Definition htonl (big : bool) (x : Z) : Z :=
  if big then x else le_value (reverse (le_bytes 4 x)).
Definition ntohl : bool -> Z -> Z := htonl.

(** [htonll] and [ntohll] *)
Definition htonll (big : bool) (x : Z) : Z :=
  if 1 =? htonl big 1 then x
  else Z.lor (u64 (Z.shiftl (htonl big (Z.land x 0xFFFFFFFF)) 32)) (htonl big (u32 (Z.shiftr x 32))).
Definition ntohll (big : bool) (x : Z) : Z :=
  if 1 =? ntohl big 1 then x
  else Z.lor (u64 (Z.shiftl (ntohl big (Z.land x 0xFFFFFFFF)) 32)) (ntohl big (u32 (Z.shiftr x 32))).

(** ** A stream socket

    [read] and [write] may transfer fewer bytes than asked for, may be interrupted and
    may fail; [script] says how the next calls end. [read] gives end of file when the
    peer has sent everything. A call that succeeds does not change [errno]. *)
Inductive io := Transfer (k : nat) | Interrupted | Failed.
Definition EINTR : Z := 4.
Definition EIO : Z := 5.

Record conn := Conn {
  c_in : list Z;        (* bytes the peer has sent and that are not yet read *)
  c_out : list Z;       (* bytes written *)
  c_reads : list io; c_writes : list io;
  c_errno : Z }.

(** [read(conn, buf, n)]: the bytes read, or -1. *)
Definition sys_read (n : nat) (c : conn) : option (list Z) * conn :=
  let go k rest :=
    let d := take (Nat.min (S k) n) (c_in c) in
    (Some d, Conn (drop (length d) (c_in c)) (c_out c) rest (c_writes c) (c_errno c)) in
  match c_reads c with
  | Transfer k :: rest => go k rest
  | Interrupted :: rest => (None, Conn (c_in c) (c_out c) rest (c_writes c) EINTR)
  | Failed :: rest => (None, Conn (c_in c) (c_out c) rest (c_writes c) EIO)
  | [] => go n []
  end.
(** [write(conn, data, n)]: how many bytes were written, or -1. *)
Definition sys_write (data : list Z) (c : conn) : option nat * conn :=
  let go k rest :=
    let d := take (S k) data in
    (Some (length d), Conn (c_in c) (c_out c ++ d) (c_reads c) rest (c_errno c)) in
  match c_writes c with
  | Transfer k :: rest => go k rest
  | Interrupted :: rest => (None, Conn (c_in c) (c_out c) (c_reads c) rest EINTR)
  | Failed :: rest => (None, Conn (c_in c) (c_out c) (c_reads c) rest EIO)
  | [] => go (length data) []
  end.

(** [recv_data(conn, data, size)]: the bytes received so far are [got]; the result is -1
    or the bytes stored in [data]. [None] when the loop is still running after [fuel]
    iterations. *)
Fixpoint recv_data (fuel : nat) (size : nat) (got : list Z) (c : conn)
  : option (option (list Z) * conn) :=
  if (length got <? size)%nat then
    match fuel with
    | O => None
    | S fuel =>
        match sys_read (size - length got) c with
        | (None, c') => if c_errno c' =? EINTR then recv_data fuel size got c' else Some (None, c')
        | (Some [], c') =>
            if c_errno c' =? EINTR then recv_data fuel size got c' else Some (Some got, c')
        | (Some d, c') => recv_data fuel size (got ++ d) c'
        end
    end
  else Some (Some got, c).

(** [send_data(conn, data, size)]: whether it returns a count and not -1. *)
Fixpoint send_data (fuel : nat) (data : list Z) (c : conn) : option (bool * conn) :=
  match data with
  | [] => Some (true, c)
  | _ =>
      match fuel with
      | O => None
      | S fuel =>
          match sys_write data c with
          | (None, c') => if c_errno c' =? EINTR then send_data fuel data c' else Some (false, c')
          | (Some n, c') => send_data fuel (drop n data) c'
          end
      end
  end.

Section Host.
Context (big : bool).

(** [send_message(conn, buffer)] on a buffer with [b_data] not null. *)
Definition send_message (fuel : nat) (msg : list Z) (c : conn) : option (bool * conn) :=
  match msg with
  | [] => Some (false, c)
  | _ =>
      match send_data fuel (mem_of_u64 big (htonll big (Z.of_nat (length msg)))) c with
      | Some (true, c') => send_data fuel msg c'
      | r => r
      end
  end.

(** The bytes of an object after [got] was stored at its start. *)
Definition overwrite (got old : list Z) : list Z := got ++ drop (length got) old.

(** [recv_message(conn, buffer)]: the message, or [None] when it returns -1. [malloc n]
    tells whether an allocation succeeds, and with which contents. *)
Definition recv_message (malloc : Z -> option (list Z)) (fuel : nat) (c : conn)
  : option (option (list Z) * conn) :=
  match recv_data fuel 8 [] c with
  | None => None
  | Some (None, c') => Some (None, c')
  | Some (Some got, c') =>
      let prefix := u64_of_mem big (overwrite got (mem_of_u64 big 0)) in
      let msg_size := ntohll big prefix in
      if msg_size =? 0 then Some (None, c')
      else
        match malloc msg_size with
        | None => Some (None, c')
        | Some junk =>
            match recv_data fuel (Z.to_nat msg_size) [] c' with
            | None => None
            | Some (None, c'') => Some (None, c'')
            | Some (Some got, c'') => Some (Some (overwrite got junk), c'')
            end
        end
  end.

End Host.

(** ** The daemon's side: class [message] *)

Definition HEADER_LENGTH : nat := 8.
(** [std::vector<uint8_t>::max_size()] *)
Definition vector_max_size : Z := 2 ^ 63 - 1.

Inductive part := header | body.

Record message := Message {
  m_header : list Z; m_header_length : Z; m_body : list Z; m_body_length : Z;
  m_expected_body_length : Z }.

Definition message_new : message := Message (replicate HEADER_LENGTH 0) 0 [] 0 0.

Definition expected_length (m : message) (p : part) : Z :=
  match p with header => Z.of_nat HEADER_LENGTH | body => m_expected_body_length m end.
Definition message_length (m : message) (p : part) : Z :=
  match p with header => m_header_length m | body => m_body_length m end.
Definition buffer (m : message) (p : part) : list Z :=
  match p with header => m_header m | body => m_body m end.
(** A buffer of the message after a read stored [d] in it. *)
Definition fill (m : message) (p : part) (d : list Z) : message :=
  match p with
  | header => Message (overwrite d (m_header m)) (m_header_length m) (m_body m) (m_body_length m)
                (m_expected_body_length m)
  | body => Message (m_header m) (m_header_length m) (overwrite d (m_body m)) (m_body_length m)
                (m_expected_body_length m)
  end.
Definition clear (m : message) : message := Message [] 0 [] 0 0.

(** [vec.resize(n)] *)
Definition vec_resize (n : nat) (l : list Z) : list Z := take n l ++ replicate (n - length l) 0.

(** [encode_response(resp)]; [store] is [Response::store_to_buffer], which appends to the
    buffer it is given. *)
Definition encode_response (big : bool) (store : list Z -> option (list Z)) (m : message)
  : bool * message :=
  match store (m_body m) with
  | None => (false, m)
  | Some b =>
      let len := Z.of_nat (length b) in
      let h := vec_resize HEADER_LENGTH (m_header m) in
      (true, Message (overwrite (mem_of_u64 big (htonll big len)) h) (Z.of_nat HEADER_LENGTH) b len
               (m_expected_body_length m))
  end.

(** [decode_header(msg_length)]; [None] when [resize] throws. *)
Definition decode_header (big : bool) (msg_length : Z) (m : message) : option (bool * message) :=
  if negb (msg_length =? Z.of_nat HEADER_LENGTH) then Some (false, m)
  else
    let n := ntohll big (u64_of_mem big (m_header m)) in
    if vector_max_size <? n then None
    else Some (true, Message (m_header m) (Z.of_nat HEADER_LENGTH)
                       (vec_resize (Z.to_nat n) (m_body m)) (m_body_length m) n).

(** ** Lemmas on byte order *)

Definition is_byte (b : Z) : Prop := 0 <= b < 256.

Lemma le_bytes_length n x : length (le_bytes n x) = n.
Proof. revert x. induction n; intros; simpl; auto. Qed.

Lemma le_value_app l1 l2 :
  le_value (l1 ++ l2) = le_value l1 + 2 ^ (8 * Z.of_nat (length l1)) * le_value l2.
Proof.
  induction l1 as [| b l1 IH]; [simpl; lia |].
  change (length (b :: l1)) with (S (length l1)). cbn [app le_value]. rewrite IH.
  replace (8 * Z.of_nat (S (length l1))) with (8 + 8 * Z.of_nat (length l1)) by lia.
  rewrite Z.pow_add_r by lia. change (2 ^ 8) with 256. ring.
Qed.

Lemma le_value_bytes n x : 0 <= x < 2 ^ (8 * Z.of_nat n) -> le_value (le_bytes n x) = x.
Proof.
  revert x. induction n as [| n IH]; intros x Hx; [simpl in *; lia |]. cbn [le_bytes le_value].
  rewrite IH.
  - pose proof (Z.div_mod x 256). lia.
  - replace (8 * Z.of_nat (S n)) with (8 + 8 * Z.of_nat n) in Hx by lia.
    rewrite Z.pow_add_r in Hx by lia. change (2 ^ 8) with 256 in Hx.
    split; [apply Z.div_pos; lia |]. apply Z.div_lt_upper_bound; lia.
Qed.

Lemma le_bytes_app n k x :
  le_bytes (n + k) x = le_bytes n x ++ le_bytes k (x / 2 ^ (8 * Z.of_nat n)).
Proof.
  revert x. induction n as [| n IH]; intros x.
  - simpl. by rewrite Z.div_1_r.
  - cbn [Nat.add le_bytes app]. rewrite IH. do 3 f_equal.
    replace (8 * Z.of_nat (S n)) with (8 + 8 * Z.of_nat n) by lia.
    rewrite Z.pow_add_r, Z.div_div by lia. done.
Qed.

Lemma le_bytes_mod n x : le_bytes n (x mod 2 ^ (8 * Z.of_nat n)) = le_bytes n x.
Proof.
  revert x. induction n as [| n IH]; intros x; [done |]. cbn [le_bytes].
  replace (8 * Z.of_nat (S n)) with (8 + 8 * Z.of_nat n) by lia.
  rewrite Z.pow_add_r by lia. change (2 ^ 8) with 256.
  assert (0 < 2 ^ (8 * Z.of_nat n)) by (apply Z.pow_pos_nonneg; lia).
  rewrite Z.rem_mul_r by lia. f_equal.
  - rewrite (Z.mul_comm 256), Z_mod_plus_full. apply Z.mod_mod. lia.
  - rewrite (Z.mul_comm 256), Z_div_plus_full, (Z.div_small (x mod 256)) by
      (try apply Z.mod_pos_bound; lia). rewrite Z.add_0_l. apply IH.
Qed.

Lemma le_value_range l : Forall is_byte l -> 0 <= le_value l < 2 ^ (8 * Z.of_nat (length l)).
Proof.
  induction 1 as [| b l Hb Hl IH]; [simpl; lia |]. unfold is_byte in Hb.
  change (length (b :: l)) with (S (length l)). cbn [le_value].
  replace (8 * Z.of_nat (S (length l))) with (8 + 8 * Z.of_nat (length l)) by lia.
  rewrite Z.pow_add_r by lia. change (2 ^ 8) with 256. nia.
Qed.

Lemma le_bytes_bytes n x : Forall is_byte (le_bytes n x).
Proof.
  revert x. induction n as [| n IH]; intros x; constructor; [apply Z.mod_pos_bound; lia | apply IH].
Qed.

Lemma le_bytes_value l : Forall is_byte l -> le_bytes (length l) (le_value l) = l.
Proof.
  induction 1 as [| b l Hb Hl IH]; [done |]. unfold is_byte in Hb. cbn [length le_bytes le_value].
  rewrite (Z.mul_comm 256), Z_mod_plus_full, Z.mod_small, Z_div_plus_full, Z.div_small by lia.
  by rewrite Z.add_0_l, IH.
Qed.

Lemma htonl_range x : 0 <= htonl false x < 2 ^ 32.
Proof.
  unfold htonl. pose proof (le_value_range (reverse (le_bytes 4 x))) as H.
  rewrite length_reverse, le_bytes_length in H. apply H.
  apply Forall_reverse, le_bytes_bytes.
Qed.

(** On a little-endian host [htonll] swaps the eight bytes. *)
Lemma htonll_little x : 0 <= x < 2 ^ 64 -> htonll false x = le_value (reverse (le_bytes 8 x)).
Proof.
  intros Hx. unfold htonll. change (1 =? htonl false 1) with false. cbv iota.
  rewrite Z.shiftl_mul_pow2, Z.shiftr_div_pow2 by lia.
  change 0xFFFFFFFF with (Z.ones 32). rewrite Z.land_ones by lia.
  pose proof (htonl_range (x mod 2 ^ 32)). pose proof (htonl_range (u32 (x / 2 ^ 32))).
  rewrite u64_small by nia.
  assert (Hor : forall a b, 0 <= b < 2 ^ 32 -> Z.lor (a * 2 ^ 32) b = a * 2 ^ 32 + b).
  { intros a b Hb. assert (Hland : Z.land (a * 2 ^ 32) b = 0).
    { apply Z.bits_inj'. intros n Hn. rewrite Z.land_spec, Z.bits_0.
      destruct (Z.le_gt_cases 32 n).
      - rewrite <- (Z.mod_small b (2 ^ 32)), Z.mod_pow2_bits_high by lia. apply andb_false_r.
      - by rewrite Z.mul_pow2_bits_low by lia. }
    by rewrite Z.add_nocarry_lxor, Z.lxor_lor. }
  rewrite Hor by done. unfold htonl.
  change 8%nat with (4 + 4)%nat. rewrite le_bytes_app, reverse_app, le_value_app.
  rewrite length_reverse, le_bytes_length.
  change 32 with (8 * Z.of_nat 4) at 1. rewrite le_bytes_mod.
  change (2 ^ (8 * Z.of_nat 4)) with (2 ^ 32).
  replace (u32 (x / 2 ^ 32)) with (x / 2 ^ 32); [ring |].
  rewrite u32_small; [done |]. split; [apply Z.div_pos; lia |]. apply Z.div_lt_upper_bound; lia.
Qed.

Lemma le_bytes8_range x : 0 <= le_value (reverse (le_bytes 8 x)) < 2 ^ 64.
Proof.
  pose proof (le_value_range (reverse (le_bytes 8 x))) as H.
  rewrite length_reverse, le_bytes_length in H. apply H. apply Forall_reverse, le_bytes_bytes.
Qed.

(** The header is in network order, whatever the host's order. *)
Lemma header_bytes big x : 0 <= x < 2 ^ 64 -> mem_of_u64 big (htonll big x) = reverse (le_bytes 8 x).
Proof.
  intros Hx. destruct big; [done |]. rewrite htonll_little by done. unfold mem_of_u64.
  replace 8%nat with (length (reverse (le_bytes 8 x))) at 1
    by (by rewrite length_reverse, le_bytes_length).
  apply le_bytes_value, Forall_reverse, le_bytes_bytes.
Qed.

Lemma header_value big x : 0 <= x < 2 ^ 64 -> ntohll big (u64_of_mem big (reverse (le_bytes 8 x))) = x.
Proof.
  intros Hx. unfold u64_of_mem. destruct big.
  - rewrite reverse_involutive, le_value_bytes by (simpl; lia). done.
  - change ntohll with htonll. rewrite htonll_little by apply le_bytes8_range.
    replace 8%nat with (length (reverse (le_bytes 8 x))) at 1
      by (by rewrite length_reverse, le_bytes_length).
    rewrite le_bytes_value by (apply Forall_reverse, le_bytes_bytes).
    rewrite reverse_involutive. apply le_value_bytes. simpl. lia.
Qed.

(** ** Lemmas on the transfer loops *)

(** Calls of the script may be short or interrupted, but do not fail. *)
Definition no_failure (l : list io) : Prop := Failed ∉ l.

#[export] Instance io_eq_dec : EqDecision io.
Proof. solve_decision. Defined.
#[export] Instance no_failure_dec l : Decision (no_failure l).
Proof. unfold no_failure. apply _. Defined.

Lemma no_failure_cons x l : no_failure (x :: l) -> x <> Failed /\ no_failure l.
Proof. unfold no_failure. rewrite not_elem_of_cons. intros [? ?]. auto. Qed.

(** A successful [read] of a stream that holds data. *)
Lemma take_min_cons k n (l : list Z) :
  (0 < n <= length l)%nat -> exists b d, take (Nat.min (S k) n) l = b :: d /\ (length (b :: d) <= n)%nat.
Proof.
  intros [Hn Hl]. destruct l as [| b l]; [simpl in Hl; lia |]. destruct n as [| n]; [lia |].
  exists b, (take (Nat.min k n) l). split; [done |]. simpl. rewrite length_take. simpl in Hl. lia.
Qed.

Lemma recv_data_complete reads : forall fuel size got inp out writes err,
  no_failure reads -> (length got <= size)%nat -> (size - length got <= length inp)%nat ->
  (length reads < fuel)%nat ->
  exists reads' err', no_failure reads' /\ (length reads' <= length reads)%nat /\
    recv_data fuel size got (Conn inp out reads writes err) =
    Some (Some (got ++ take (size - length got) inp),
          Conn (drop (size - length got) inp) out reads' writes err').
Proof.
  induction reads as [| r reads IH]; intros fuel size got inp out writes err Hnf Hg Hin Hfuel;
    (destruct fuel as [| fuel]; [lia |]); cbn [recv_data];
    (destruct (Nat.ltb_spec (length got) size) as [Hlt | Hge];
      [| replace (size - length got)%nat with 0%nat by lia; rewrite take_0, drop_0, app_nil_r; eauto]).
  - (* the script is used up: everything asked for is read *)
    unfold sys_read. cbn [c_reads c_in c_out c_writes c_errno].
    rewrite (Nat.min_r (S (size - length got)) (size - length got)) by lia.
    rewrite length_take_le by lia.
    destruct (take (size - length got) inp) as [| b d] eqn:Et.
    { apply (f_equal length) in Et. rewrite length_take in Et. simpl in Et. lia. }
    rewrite <- Et. exists [], err. split; [done |]. split; [done |].
    assert (Hlen : length (got ++ take (size - length got) inp) = size).
    { rewrite length_app, length_take. lia. }
    destruct fuel; cbn [recv_data]; rewrite Hlen, Nat.ltb_irrefl; done.
  - apply no_failure_cons in Hnf as [Hr Hnf]. simpl in Hfuel.
    unfold sys_read. cbn [c_reads c_in c_out c_writes c_errno]. destruct r as [k | |]; [| | done].
    + destruct (take_min_cons k (size - length got) inp) as (b & d & Et & Hd); [lia |].
      rewrite Et. set (x := b :: d) in *.
      assert (Hx : take (length x) inp = x).
      { rewrite <- Et, length_take. f_equal. lia. }
      destruct (IH fuel size (got ++ x) (drop (length x) inp) out writes err)
        as (reads' & err' & H1 & H2 & H3); auto.
      { rewrite length_app. lia. }
      { rewrite length_app, length_drop. lia. }
      { lia. }
      exists reads', err'. split; [done |]. split; [simpl; lia |]. subst x. cbn [recv_data].
      rewrite H3. rewrite length_app, drop_drop, <- app_assoc.
      replace (length (b :: d) + (size - (length got + length (b :: d))))%nat
        with (size - length got)%nat by lia.
      do 4 f_equal. rewrite <- Hx at 1. rewrite take_take_drop. f_equal. lia.
    + cbn [c_errno]. rewrite Z.eqb_refl.
      destruct (IH fuel size got inp out writes EINTR) as (reads' & err' & H1 & H2 & H3); auto; [lia |].
      exists reads', err'. split; [done |]. split; [simpl; lia | done].
Qed.

Lemma send_data_complete writes : forall fuel data inp out reads err,
  no_failure writes -> (length writes < fuel)%nat ->
  exists writes' err', no_failure writes' /\ (length writes' <= length writes)%nat /\
    send_data fuel data (Conn inp out reads writes err) =
    Some (true, Conn inp (out ++ data) reads writes' err').
Proof.
  induction writes as [| w writes IH]; intros fuel data inp out reads err Hnf Hfuel;
    (destruct fuel as [| fuel]; [lia |]);
    (destruct data as [| b data]; [cbn [send_data]; rewrite app_nil_r; eauto |]); cbn [send_data].
  - unfold sys_write. cbn [c_writes c_in c_out c_reads c_errno].
    rewrite (take_ge (b :: data)) by lia. rewrite (drop_ge (b :: data)) by lia.
    exists [], err. split; [done |]. split; [done |]. by destruct fuel.
  - apply no_failure_cons in Hnf as [Hw Hnf]. simpl in Hfuel.
    unfold sys_write. cbn [c_writes c_in c_out c_reads c_errno]. destruct w as [k | |]; [| | done].
    + destruct (IH fuel (drop (length (take (S k) (b :: data))) (b :: data)) inp
        (out ++ take (S k) (b :: data)) reads err) as (w' & e' & H1 & H2 & H3); auto; [lia |].
      exists w', e'. split; [done |]. split; [simpl; lia |]. rewrite H3, <- app_assoc.
      rewrite length_take. destruct (Nat.le_gt_cases (S k) (length (b :: data))).
      * rewrite (Nat.min_l (S k)), take_drop by lia. done.
      * rewrite (Nat.min_r (S k)), (take_ge _ (S k)), drop_ge by lia. by rewrite app_nil_r.
    + rewrite Z.eqb_refl.
      destruct (IH fuel (b :: data) inp out reads EINTR) as (w' & e' & H1 & H2 & H3); auto; [lia |].
      exists w', e'. split; [done |]. split; [simpl; lia | done].
Qed.

Lemma send_message_complete big fuel msg inp out reads writes err :
  msg <> [] -> Z.of_nat (length msg) < 2 ^ 64 -> no_failure writes -> (length writes < fuel)%nat ->
  exists writes' err', no_failure writes' /\
    send_message big fuel msg (Conn inp out reads writes err) =
    Some (true, Conn inp (out ++ reverse (le_bytes 8 (Z.of_nat (length msg))) ++ msg) reads writes' err').
Proof.
  intros Hne Hlen Hnf Hfuel. unfold send_message. rewrite header_bytes by lia.
  destruct msg as [| b msg]; [done |]. set (m := b :: msg) in *.
  destruct (send_data_complete writes fuel (reverse (le_bytes 8 (Z.of_nat (length m)))) inp out reads err)
    as (w1 & e1 & Hn1 & Hl1 & ->); auto.
  destruct (send_data_complete w1 fuel m inp
    (out ++ reverse (le_bytes 8 (Z.of_nat (length m)))) reads e1) as (w2 & e2 & Hn2 & _ & ->); auto; [lia |].
  exists w2, e2. split; [done |]. by rewrite <- app_assoc.
Qed.

Lemma overwrite_all d old : (length old <= length d)%nat -> overwrite d old = d.
Proof. intros. unfold overwrite. by rewrite drop_ge, app_nil_r. Qed.

Lemma recv_message_complete big malloc fuel msg rest out reads writes err junk :
  msg <> [] -> Z.of_nat (length msg) < 2 ^ 64 -> no_failure reads -> (length reads < fuel)%nat ->
  malloc (Z.of_nat (length msg)) = Some junk -> length junk = length msg ->
  exists reads' err', no_failure reads' /\
    recv_message big malloc fuel
      (Conn (reverse (le_bytes 8 (Z.of_nat (length msg))) ++ msg ++ rest) out reads writes err) =
    Some (Some msg, Conn rest out reads' writes err').
Proof.
  intros Hne Hlen Hnf Hfuel Hmal Hjunk. unfold recv_message.
  set (h := reverse (le_bytes 8 (Z.of_nat (length msg)))).
  assert (Hh : length h = 8%nat) by (unfold h; by rewrite length_reverse, le_bytes_length).
  destruct (recv_data_complete reads fuel 8 [] (h ++ msg ++ rest) out writes err)
    as (r1 & e1 & Hn1 & Hl1 & ->); auto; [simpl; lia | rewrite length_app; simpl; lia |].
  assert (Ht : take 8 (h ++ msg ++ rest) = h) by (rewrite <- Hh; apply take_app_length).
  assert (Hd : drop 8 (h ++ msg ++ rest) = msg ++ rest) by (rewrite <- Hh; apply drop_app_length).
  cbn [app length]. rewrite Nat.sub_0_r, Ht, Hd.
  rewrite overwrite_all by (rewrite Hh; by destruct big).
  unfold h. rewrite header_value by lia.
  assert (Hpos : (0 < length msg)%nat) by (destruct msg; [done | simpl; lia]).
  rewrite (proj2 (Z.eqb_neq _ _)) by lia. rewrite Hmal, Nat2Z.id.
  destruct (recv_data_complete r1 fuel (length msg) [] (msg ++ rest) out writes e1)
    as (r2 & e2 & Hn2 & Hl2 & ->); auto; [simpl; lia | rewrite length_app; simpl; lia | lia |].
  cbn [app length]. rewrite Nat.sub_0_r, take_app_length, drop_app_length.
  rewrite overwrite_all by lia. eauto.
Qed.

(** At end of file [read] gives no bytes. *)
Lemma recv_data_eof fuel size got out writes err :
  (length got < size)%nat ->
  recv_data (S fuel) size got (Conn [] out [] writes err) =
  if err =? EINTR then recv_data fuel size got (Conn [] out [] writes err)
  else Some (Some got, Conn [] out [] writes err).
Proof.
  intros Hlt. cbn [recv_data]. rewrite (proj2 (Nat.ltb_lt _ _) Hlt).
  unfold sys_read. cbn [c_reads c_in]. by rewrite take_nil.
Qed.

(** A call of [read] that gives everything there is. *)
Lemma recv_data_all fuel size got inp out writes err :
  (0 < size - length got <= length inp)%nat ->
  recv_data (S fuel) size got (Conn inp out [] writes err) =
  Some (Some (got ++ take (size - length got) inp), Conn (drop (size - length got) inp) out [] writes err).
Proof.
  intros Hin. cbn [recv_data]. rewrite (proj2 (Nat.ltb_lt _ _)) by lia.
  unfold sys_read. cbn [c_reads c_in c_out c_writes c_errno].
  rewrite (Nat.min_r (S (size - length got)) (size - length got)), length_take_le by lia.
  destruct (take (size - length got) inp) as [| b d] eqn:Et.
  { apply (f_equal length) in Et. rewrite length_take in Et. simpl in Et. lia. }
  rewrite <- Et.
  assert (Hlen : length (got ++ take (size - length got) inp) = size).
  { rewrite length_app, length_take. lia. }
  destruct fuel; cbn [recv_data]; by rewrite Hlen, Nat.ltb_irrefl.
Qed.
Lemma recv_data_part fuel size got inp out writes err :
  (0 < length inp < size - length got)%nat ->
  recv_data (S fuel) size got (Conn inp out [] writes err) =
  recv_data fuel size (got ++ inp) (Conn [] out [] writes err).
Proof.
  intros Hin. cbn [recv_data]. rewrite (proj2 (Nat.ltb_lt _ _)) by lia.
  unfold sys_read. cbn [c_reads c_in c_out c_writes c_errno].
  rewrite take_ge, drop_ge by lia. destruct inp; [simpl in Hin; lia | done].
Qed.

Lemma recv_data_spins fuel size got out writes :
  (length got < size)%nat -> recv_data fuel size got (Conn [] out [] writes EINTR) = None.
Proof.
  intros Hlt. induction fuel as [| fuel IH]; [| by rewrite recv_data_eof].
  cbn [recv_data]. by rewrite (proj2 (Nat.ltb_lt _ _) Hlt).
Qed.

(** * Properties *)

(** C27: a message sent by the client arrives unchanged: [send_message] on a host of any
    byte order writes a frame from which [recv_message] on a host of any byte order
    returns exactly the message and leaves exactly the bytes that follow, however the
    kernel splits or interrupts the calls of [write] and [read]. Both loops end within
    one iteration more than the calls the script lists. *)
Theorem message_roundtrip (big1 big2 : bool) (msg rest : list Z) (c1 c2 : conn)
    (malloc : Z -> option (list Z)) (junk : list Z) :
  msg <> [] -> Z.of_nat (length msg) < 2 ^ 64 ->
  no_failure (c_writes c1) -> no_failure (c_reads c2) -> c_out c1 = [] ->
  malloc (Z.of_nat (length msg)) = Some junk -> length junk = length msg ->
  exists c1' c2',
    send_message big1 (S (length (c_writes c1))) msg c1 = Some (true, c1') /\
    (c_in c2 = c_out c1' ++ rest ->
     recv_message big2 malloc (S (length (c_reads c2))) c2 = Some (Some msg, c2') /\
     c_in c2' = rest).
Proof.
  intros Hne Hlen Hw Hr Hout Hmal Hjunk. destruct c1 as [i1 o1 r1 w1 e1], c2 as [i2 o2 r2 w2 e2].
  cbn [c_in c_out c_reads c_writes] in *. subst o1.
  destruct (send_message_complete big1 (S (length w1)) msg i1 [] r1 w1 e1) as (w' & e' & _ & ->); auto.
  destruct (recv_message_complete big2 malloc (S (length r2)) msg rest o2 r2 w2 e2 junk)
    as (r' & e'' & _ & Hrecv); auto.
  do 2 eexists. split; [done |]. cbn [c_in c_out app]. intros ->. rewrite <- app_assoc, Hrecv. done.
Qed.

Lemma message_roundtrip_witness :
  exists c1' c2',
    send_message true 3 [7; 8; 9] (Conn [] [] [] [Transfer 0; Interrupted] 0) = Some (true, c1') /\
    (c_in (Conn ([0;0;0;0;0;0;0;3;7;8;9] ++ [1]) [] [Transfer 2; Interrupted; Transfer 0] [] 0)
       = c_out c1' ++ [1] ->
     recv_message false (fun n => Some (replicate (Z.to_nat n) 0)) 4
       (Conn ([0;0;0;0;0;0;0;3;7;8;9] ++ [1]) [] [Transfer 2; Interrupted; Transfer 0] [] 0)
       = Some (Some [7; 8; 9], c2') /\ c_in c2' = [1]).
Proof.
  apply (message_roundtrip true false [7; 8; 9] [1] (Conn [] [] [] [Transfer 0; Interrupted] 0)
    (Conn ([0;0;0;0;0;0;0;3;7;8;9] ++ [1]) [] [Transfer 2; Interrupted; Transfer 0] [] 0)
    (fun n => Some (replicate (Z.to_nat n) 0)) [0; 0; 0]);
    [done | simpl; lia | by apply (bool_decide_unpack _) | by apply (bool_decide_unpack _)
    | done | done | done].
Defined.

(** The daemon's [message] class and the client agree on the frame: after
    [encode_response] the header and body buffers, written one after the other, are a
    frame that the client's [recv_message] returns as the body, and a header read from a
    client's frame makes [decode_header] expect exactly the bytes that follow it. *)
Theorem message_class_framing (big1 big2 : bool) (msg : list Z) (store : list Z -> option (list Z))
    (m : message) (c : conn) (malloc : Z -> option (list Z)) (junk : list Z) :
  store (m_body (clear m)) = Some msg -> msg <> [] -> Z.of_nat (length msg) <= vector_max_size ->
  no_failure (c_reads c) -> malloc (Z.of_nat (length msg)) = Some junk -> length junk = length msg ->
  exists m', encode_response big1 store (clear m) = (true, m') /\
    (c_in c = buffer m' header ++ buffer m' body ->
       exists c', recv_message big2 malloc (S (length (c_reads c))) c = Some (Some msg, c')) /\
    (exists m2, decode_header big1 8 (fill message_new header (buffer m' header)) = Some (true, m2) /\
       expected_length m2 body = Z.of_nat (length msg) /\
       length (buffer m2 body) = length msg).
Proof.
  intros Hst Hne Hlen Hr Hmal Hjunk. unfold vector_max_size in Hlen.
  unfold encode_response. rewrite Hst. eexists. split; [done |].
  set (n := Z.of_nat (length msg)) in *.
  assert (Hhd : overwrite (mem_of_u64 big1 (htonll big1 n)) (vec_resize HEADER_LENGTH (m_header (clear m)))
    = reverse (le_bytes 8 n)).
  { rewrite header_bytes by lia. apply overwrite_all. done. }
  cbn [buffer m_header m_body]. rewrite Hhd. split.
  - intros Hin. destruct c as [i o r w e]. cbn [c_in c_reads] in *. subst i.
    destruct (recv_message_complete big2 malloc (S (length r)) msg [] o r w e junk)
      as (r' & e' & _ & Hrecv); auto; [lia |].
    rewrite app_nil_r in Hrecv. eauto.
  - unfold decode_header. cbn [fill message_new m_header].
    rewrite overwrite_all by (by rewrite length_reverse, le_bytes_length).
    rewrite header_value by lia. unfold vector_max_size.
    rewrite (proj2 (Z.ltb_ge _ _)) by lia. eexists. split; [done |]. split; [done |].
    cbn [buffer m_body fill message_new]. unfold vec_resize, n.
    rewrite Nat2Z.id, length_app, length_replicate, length_take. simpl. lia.
Qed.

Lemma message_class_framing_witness :
  exists m', encode_response false (fun b => Some (b ++ [8; 1])) (clear message_new) = (true, m') /\
    (c_in (Conn [0;0;0;0;0;0;0;2;8;1] [] [Transfer 3] [] 0) = buffer m' header ++ buffer m' body ->
       exists c', recv_message true (fun n => Some (replicate (Z.to_nat n) 0)) 2
         (Conn [0;0;0;0;0;0;0;2;8;1] [] [Transfer 3] [] 0) = Some (Some [8; 1], c')) /\
    (exists m2, decode_header false 8 (fill message_new header (buffer m' header)) = Some (true, m2) /\
       expected_length m2 body = 2 /\ length (buffer m2 body) = 2%nat).
Proof.
  apply (message_class_framing false true [8; 1] (fun b => Some (b ++ [8; 1])) message_new
    (Conn [0;0;0;0;0;0;0;2;8;1] [] [Transfer 3] [] 0) (fun n => Some (replicate (Z.to_nat n) 0)) [0; 0]);
    [done | done | unfold vector_max_size; simpl; lia | by apply (bool_decide_unpack _) | done | done].
Defined.

(** a truncated reply is not detected: when the peer closes the connection after
    only some of the announced [n] bytes, [recv_message] succeeds and returns them
    followed by whatever the allocated buffer held. If a [read] was interrupted before,
    [errno] still says so at the end of file and the client never leaves the receive
    loop. *)
Theorem truncated_reply (big : bool) (part junk : list Z) (malloc : Z -> option (list Z)) (n : Z)
    (fuel : nat) :
  0 < n < 2 ^ 64 -> Z.of_nat (length part) < n -> part <> [] -> malloc n = Some junk ->
  (exists c', recv_message big malloc (S (S fuel)) (Conn (reverse (le_bytes 8 n) ++ part) [] [] [] 0) =
     Some (Some (overwrite part junk), c')) /\
  recv_message big malloc fuel
    (Conn (reverse (le_bytes 8 n) ++ part) [] [Interrupted] [] 0) = None.
Proof.
  intros Hn Hpart Hne Hmal. set (h := reverse (le_bytes 8 n)).
  assert (Hh : length h = 8%nat) by (unfold h; by rewrite length_reverse, le_bytes_length).
  assert (Hval : ntohll big (u64_of_mem big (overwrite h (mem_of_u64 big 0))) = n).
  { rewrite overwrite_all by (rewrite Hh; by destruct big). apply header_value. lia. }
  assert (Hz : (n =? 0) = false) by (apply Z.eqb_neq; lia).
  assert (Hp0 : (0 < length part)%nat) by (destruct part; [done | simpl; lia]).
  assert (Hhead : forall f e, recv_data (S f) 8 [] (Conn (h ++ part) [] [] [] e) =
    Some (Some h, Conn part [] [] [] e)).
  { intros f e. rewrite recv_data_all by (rewrite length_app; simpl; lia).
    cbn [length app]. rewrite Nat.sub_0_r.
    replace 8%nat with (length h) by done. by rewrite take_app_length, drop_app_length. }
  assert (Hbody : forall f e, recv_data (S f) (Z.to_nat n) [] (Conn part [] [] [] e) =
    recv_data f (Z.to_nat n) part (Conn [] [] [] [] e)).
  { intros f e. apply (recv_data_part f (Z.to_nat n) [] part). simpl. lia. }
  split.
  - unfold recv_message. rewrite Hhead, Hval, Hz, Hmal, Hbody, recv_data_eof by lia.
    change (0 =? EINTR) with false. cbv iota. eauto.
  - unfold recv_message. destruct fuel as [| [| fuel]]; [done | done |].
    assert (Hint : recv_data (S (S fuel)) 8 [] (Conn (h ++ part) [] [Interrupted] [] 0) =
      recv_data (S fuel) 8 [] (Conn (h ++ part) [] [] [] EINTR)) by done.
    rewrite Hint, Hhead, Hval, Hz, Hmal, Hbody, recv_data_spins by lia. done.
Qed.

Lemma truncated_reply_witness :
  (exists c', recv_message false (fun _ => Some [50; 51; 52]) 2
     (Conn (reverse (le_bytes 8 3) ++ [8]) [] [] [] 0) = Some (Some [8; 51; 52], c')) /\
  recv_message false (fun _ => Some [50; 51; 52]) 0
    (Conn (reverse (le_bytes 8 3) ++ [8]) [] [Interrupted] [] 0) = None.
Proof.
  apply (truncated_reply false [8] [50; 51; 52] (fun _ => Some [50; 51; 52]) 3 0);
    [lia | simpl; lia | done | done].
Defined.

End Wire.
