(* ===== verification/Api.v ===== *)
(** * The daemon's API (common/messages.proto, src/api/requests.{h,cpp}, src/api/listener.h,
    src/context.cpp)

    A session reads one framed request, decodes it, hands it to [context::api_handler] and
    writes the framed response. Requests that need time get a task id, are tracked and
    run later by a worker of the thread pool.

    The protobuf library and the code it generates are a parameter, the class [Protobuf],
    with the round trip of serialisation as its law. The storage backends are the
    parameter of section [Context]. *)
From S2P Require Import Prelude Errors Wire.
From stdpp Require Import base list numbers option gmap strings relations.
Local Open Scope Z_scope.

Module Api.
Import Errors Wire.

(** ** common/messages.proto *)

Inductive UserRequest_Type := LOAD_PATH | UNLOAD_PATH | STATUS | GET_CONFIG | CHANGE_TYPE.
Record LoadPath := MkLoadPath {
  lp_backend : string; lp_path : string; lp_is_directory : bool; lp_offset : Z; lp_size : Z }.
Record UnloadPath := MkUnloadPath { up_path : string; up_dest : string }.
Record ChangeType := MkChangeType { ct_path : string; ct_is_persistent : bool }.
Record UserRequest := MkUserRequest {
  ur_type : UserRequest_Type; load_desc : option LoadPath; unload_desc : option UnloadPath;
  change_desc : option ChangeType; ur_tid : option Z }.

Inductive UserResponse_Type := ACCEPTED | REJECTED.
Record UserResponse := MkUserResponse {
  us_type : UserResponse_Type; us_tid : option Z; us_status : option Z }.

(** Values the fields can hold: [int64], [uint64] and [uint32]. *)
Definition in_s64 (z : Z) : Prop := - 2 ^ 63 <= z < 2 ^ 63.
Definition opt_all {X} (P : X -> Prop) (o : option X) : Prop :=
  match o with Some x => P x | None => True end.
Definition request_wf (r : UserRequest) : Prop :=
  opt_all (fun d => in_s64 (lp_offset d) /\ is_u64 (lp_size d)) (load_desc r) /\
  opt_all is_u64 (ur_tid r).
Definition response_wf (r : UserResponse) : Prop :=
  opt_all is_u64 (us_tid r) /\ opt_all (fun s => 0 <= s < 2 ^ 32) (us_status r).

(** The protobuf library. [parse_request data size] is [ParseFromArray], whose size is an [int].
    A well-formed message of less than 2 GiB, the limit of the library, is parsed back from
    its serialisation, which is not empty; nothing is known of other sizes. A response has three
    fields of fixed width. *)
Class Protobuf := {
  pack_request : UserRequest -> list Z;
  parse_request : list Z -> Z -> option UserRequest;
  pack_response : UserResponse -> list Z;
  parse_response : list Z -> option UserResponse;
  parse_pack_request r : request_wf r -> Z.of_nat (length (pack_request r)) < 2 ^ 31 ->
    parse_request (pack_request r) (Z.of_nat (length (pack_request r))) = Some r;
  parse_pack_response r : response_wf r -> parse_response (pack_response r) = Some r;
  pack_request_size r : 0 < Z.of_nat (length (pack_request r));
  pack_response_size r : 0 < Z.of_nat (length (pack_response r)) < 2 ^ 31
}.
(** A message that the library can carry. *)
Definition request_ok `{Protobuf} (r : UserRequest) : Prop := request_wf r /\ Z.of_nat (length (pack_request r)) < 2 ^ 31.

(** ** src/api/requests.h *)

Inductive request_type := load_path | unload_path | status | get_config | change_type | rt_bad_request.

Record request := MkRequest {
  m_type : request_type; m_backend : string; m_path : string; m_is_directory : bool;
  m_offset : Z; m_size : Z; m_tid : Z; m_is_persistent : bool; m_dest : string }.

(** The constructors. A member without an initialiser keeps what was in the storage [mem]
    when its type is a number, and is empty when it is a string or path. *)
Definition request_of_type (mem : request) (t : request_type) : request :=
  MkRequest t "" "" (m_is_directory mem) (m_offset mem) (m_size mem) (m_tid mem)
    (m_is_persistent mem) "".
Definition request_load (mem : request) (backend path : string) (dir : bool) (offset size : Z) : request :=
  MkRequest load_path backend path dir offset size (m_tid mem) (m_is_persistent mem) "".
Definition request_status (mem : request) (tid : Z) : request :=
  MkRequest status "" "" (m_is_directory mem) (m_offset mem) (m_size mem) tid
    (m_is_persistent mem) "".
Definition request_change (mem : request) (path : string) (persistent : bool) : request :=
  MkRequest (m_type mem) "" path (m_is_directory mem) (m_offset mem) (m_size mem) (m_tid mem)
    persistent "".
Definition request_unload (mem : request) (path dest : string) : request :=
  MkRequest (m_type mem) "" path (m_is_directory mem) (m_offset mem) (m_size mem) (m_tid mem)
    (m_is_persistent mem) dest.

(** [request::create_from_buffer(buffer, size)] *)
Definition create_from_buffer `{Protobuf} (mem : request) (buffer : list Z) (size : Z) : request :=
  let bad := request_of_type mem rt_bad_request in
  match parse_request buffer size with
  | Some user_req =>
      match ur_type user_req with
      | LOAD_PATH =>
          match load_desc user_req with
          | Some d =>
              let is_directory := lp_is_directory d in
              let offset := if is_directory then 0 else lp_offset d in
              let size := if is_directory then 0 else lp_size d in
              request_load mem (lp_backend d) (lp_path d) is_directory offset size
          | None => bad
          end
      | UNLOAD_PATH =>
          match unload_desc user_req with
          | Some d => request_unload mem (up_path d) (up_dest d)
          | None => bad
          end
      | STATUS =>
          match ur_tid user_req with
          | Some tid => request_status mem (u32 tid)
          | None => bad
          end
      | GET_CONFIG => bad
      | CHANGE_TYPE =>
          match change_desc user_req with
          | Some d => request_change mem (ct_path d) (ct_is_persistent d)
          | None => bad
          end
      end
  | None => bad
  end.

(** [message::decode_body(msg_length)]: the length becomes an [int]. *)
Definition decode_body `{Protobuf} (mem : request) (buffer : list Z) (msg_length : Z) : request :=
  create_from_buffer mem buffer (s32 msg_length).
(** The request of a body that was read completely. *)
Definition decoded `{Protobuf} (mem : request) (bytes : list Z) : request := decode_body mem bytes (Z.of_nat (length bytes)).
Lemma decoded_ok `{Protobuf} mem r : request_ok r ->
  decoded mem (pack_request r) = create_from_buffer mem (pack_request r) (Z.of_nat (length (pack_request r))).
Proof. intros [_ Hl]. unfold decoded, decode_body. by rewrite s32_small by lia. Qed.

Inductive response_type := accepted | rejected.

Record response := MkResponse {
  r_type : response_type; r_has_tid : bool; r_tid : Z; r_has_retval : bool; r_retval : error_code }.

(** The constructors of [response]. *)
Definition response_code (t : response_type) (ec : error_code) : response :=
  MkResponse t false 0 true ec.
Definition response_task (t : response_type) (tid : Z) (ec : error_code) : response :=
  MkResponse t true tid true ec.

(** [response::store_to_buffer]: the message, and the buffer it is appended to. *)
Definition user_response (r : response) : UserResponse :=
  MkUserResponse (match r_type r with accepted => ACCEPTED | rejected => REJECTED end)
    (if r_has_tid r then Some (r_tid r) else None)
    (if r_has_retval r then Some (u32 (make_api_error (r_retval r))) else None).
Definition store_to_buffer `{Protobuf} (r : response) (buffer : list Z) : option (list Z) :=
  Some (buffer ++ pack_response (user_response r)).

(** [tracker<task_id, progress>] *)
Abbreviation tracker := (gmap Z error_code).
Definition tracker_exists (t : tracker) (key : Z) : bool := bool_decide (is_Some (t !! key)).
Definition tracker_add (t : tracker) (key : Z) (st : error_code) : option tracker :=
  if tracker_exists t key then None else Some (<[key := st]> t).
Definition tracker_get (t : tracker) (key : Z) : option error_code := t !! key.
Definition tracker_set (t : tracker) (key : Z) (st : error_code) : tracker :=
  match t !! key with None => t | Some _ => <[key := st]> t end.

(** ** src/context.cpp *)
Section Context.

(** The storage backends, by name. *)
Context {S : Type} (has_backend : string -> bool)
  (backend_load backend_unload : string -> string -> S -> error_code * S).

(** The part of [context] that requests use: the id counter of [create_tid], the
    requests handed to the thread pool and the ones a worker is processing. *)
Record context := Ctx {
  c_tracker : tracker; c_last_tid : Z; c_queue : list (Z * request);
  c_running : list (Z * request); c_store : S }.

(** [request::create_tid()] *)
Definition create_tid (c : context) : Z := u32 (c_last_tid c + 1).

(** [context::api_handler(user_req)]; [None] when an assertion fails. *)
Definition api_handler (req : request) (c : context) : option (response * context) :=
  match m_type req with
  | rt_bad_request => Some (response_code rejected bad_request, c)
  | status =>
      let st := match tracker_get (c_tracker c) (m_tid req) with
                | Some st => st
                | None => no_such_task
                end in
      Some (response_code accepted st, c)
  | _ =>
      let tid := create_tid c in
      if tracker_exists (c_tracker c) tid then None
      else
        match tracker_add (c_tracker c) tid task_pending with
        | None => None
        | Some t =>
            Some (response_task accepted tid success,
                  Ctx t tid (c_queue c ++ [(tid, req)]) (c_running c) (c_store c))
        end
  end.

(** The task of a request: whether the handler finds work to do for it. *)
Definition has_work (req : request) : bool :=
  match m_type req with
  | load_path | unload_path => has_backend (m_backend req)
  | _ => false
  end.

(** A worker takes a task: up to [m_tracker.set(tid, task_in_progress)], or to the end when
    there is nothing to do. *)
Definition task_start (tid : Z) (req : request) (queue : list (Z * request)) (c : context) : context :=
  if has_work req then
    Ctx (tracker_set (c_tracker c) tid task_in_progress) (c_last_tid c) queue
      ((tid, req) :: c_running c) (c_store c)
  else Ctx (c_tracker c) (c_last_tid c) queue (c_running c) (c_store c).

(** The rest of the handler: the backend operation and the final status. *)
Definition task_finish (tid : Z) (req : request) (running : list (Z * request)) (c : context) : context :=
  let op := match m_type req with load_path => backend_load | _ => backend_unload end in
  let '(ec, s) := op (m_backend req) (m_path req) (c_store c) in
  Ctx (tracker_set (c_tracker c) tid ec) (c_last_tid c) (c_queue c) running s.

(** The daemon serves requests while workers run tasks. *)
Inductive step : context -> context -> Prop :=
  | step_request c req resp c' : api_handler req c = Some (resp, c') -> step c c'
  | step_start c q1 tid req q2 :
      c_queue c = q1 ++ (tid, req) :: q2 -> step c (task_start tid req (q1 ++ q2) c)
  | step_finish c r1 tid req r2 :
      c_running c = r1 ++ (tid, req) :: r2 -> step c (task_finish tid req (r1 ++ r2) c).

Definition initial (s : S) : context := Ctx ∅ 0 [] [] s.
Definition reachable (s : S) (c : context) : Prop := rtc step (initial s) c.

(** ** src/api/listener.h: a session serves one request

    [inp] are the bytes the client sends before it stops; [async_read] of more bytes than
    there are ends with an error, and the session is over. *)
Inductive session_end := Closed | Replied (bytes : list Z) | Terminated.

Definition async_read (n : nat) (inp : list Z) : option (list Z * list Z) :=
  if (n <=? length inp)%nat then Some (take n inp, drop n inp) else None.

(** [do_write_response] *)
Definition do_write_response (m : message) : session_end :=
  Replied (buffer m header ++ buffer m body).

(** [do_read_request_body]; [Terminated] when an assertion or an exception ends the daemon. *)
Definition do_read_request_body `{Protobuf} (big : bool) (mem : request) (m : message)
  (inp : list Z) (c : context) : session_end * context :=
  let body_length := expected_length m body in
  if negb (body_length =? 0) then
    match async_read (Z.to_nat body_length) inp with
    | Some (d, _) =>
        let m := fill m body d in
        let req := decode_body mem (buffer m body) body_length in
        match api_handler req c with
        | None => (Terminated, c)
        | Some (resp, c') =>
            let '(ok, m) := encode_response big (store_to_buffer resp) (clear m) in
            if ok then (do_write_response m, c') else (Closed, c')
        end
    | None => (Closed, c)
    end
  else (Closed, c).

(** [do_read_request] on a new session. *)
Definition do_read_request `{Protobuf} (big : bool) (mem : request) (inp : list Z) (c : context)
  : session_end * context :=
  let m := message_new in
  match async_read (Z.to_nat (expected_length m header)) inp with
  | Some (d, rest) =>
      match decode_header big (Z.of_nat (length d)) (fill m header d) with
      | None => (Terminated, c)
      | Some (true, m) => do_read_request_body big mem m rest c
      | Some (false, _) => (Closed, c)
      end
  | None => (Closed, c)
  end.

(** ** Invariants of the tracker *)

Definition is_async (req : request) : bool :=
  match m_type req with rt_bad_request | status => false | _ => true end.

(** Every task id is in use. *)
Definition full (t : tracker) : Prop := forall tid, 0 <= tid < 2 ^ 32 -> is_Some (t !! tid).

Record inv (c : context) : Prop := {
  inv_ids : (0 <= c_last_tid c < 2 ^ 32 /\
             forall tid, is_Some (c_tracker c !! tid) <-> 1 <= tid <= c_last_tid c) \/
            (c_last_tid c = 0 /\ full (c_tracker c));
  inv_queue tid req : (tid, req) ∈ c_queue c -> c_tracker c !! tid = Some task_pending;
  inv_running tid req : (tid, req) ∈ c_running c ->
    c_tracker c !! tid = Some task_in_progress /\ has_work req = true;
  inv_once : NoDup ((c_queue c).*1 ++ (c_running c).*1)
}.

Lemma api_handler_sync req c : is_async req = false ->
  exists resp, api_handler req c = Some (resp, c).
Proof. unfold is_async, api_handler. destruct (m_type req); try done; eauto. Qed.

Lemma api_handler_async req c : is_async req = true ->
  api_handler req c =
    match c_tracker c !! create_tid c with
    | Some _ => None
    | None => Some (response_task accepted (create_tid c) success,
        Ctx (<[create_tid c := task_pending]> (c_tracker c)) (create_tid c)
          (c_queue c ++ [(create_tid c, req)]) (c_running c) (c_store c))
    end.
Proof.
  intros Ha. unfold api_handler, tracker_add, tracker_exists.
  destruct (c_tracker c !! create_tid c) eqn:E.
  - rewrite bool_decide_true by eauto. unfold is_async in Ha. by destruct (m_type req).
  - rewrite bool_decide_false by (by intros [? ?]). unfold is_async in Ha. by destruct (m_type req).
Qed.

Lemma tracker_set_lookup t k st k' :
  tracker_set t k st !! k' = if decide (k = k') then (fun _ => st) <$> t !! k' else t !! k'.
Proof.
  unfold tracker_set. destruct (t !! k) eqn:E; destruct (decide (k = k')) as [-> | Hne].
  - by rewrite lookup_insert_eq, E.
  - by rewrite lookup_insert_ne.
  - by rewrite E.
  - done.
Qed.

Lemma tracker_set_some t k st k' : is_Some (tracker_set t k st !! k') <-> is_Some (t !! k').
Proof. rewrite tracker_set_lookup. destruct (decide (k = k')); [apply fmap_is_Some | done]. Qed.

Lemma full_set t k st : full t -> full (tracker_set t k st).
Proof. intros H tid Ht. apply tracker_set_some. auto. Qed.

Lemma ids_set c (t : tracker) k st :
  t = tracker_set (c_tracker c) k st ->
  ((0 <= c_last_tid c < 2 ^ 32 /\
             forall tid, is_Some (c_tracker c !! tid) <-> 1 <= tid <= c_last_tid c) \/
            (c_last_tid c = 0 /\ full (c_tracker c))) ->
  ((0 <= c_last_tid c < 2 ^ 32 /\ forall tid, is_Some (t !! tid) <-> 1 <= tid <= c_last_tid c) \/
            (c_last_tid c = 0 /\ full t)).
Proof.
  intros -> [[H1 H2] | [H1 H2]]; [left | right]; (split; [done |]).
  - intros tid. by rewrite tracker_set_some.
  - by apply full_set.
Qed.

Lemma fresh_pending c tid : inv c -> c_tracker c !! tid = None -> tid ∉ (c_queue c).*1 ++ (c_running c).*1.
Proof.
  intros Hi Hn [Hq | Hq]%elem_of_app; apply list_elem_of_fmap in Hq as ([t r] & -> & Hin); simpl in Hn.
  - by rewrite (inv_queue _ Hi _ _ Hin) in Hn.
  - by rewrite (proj1 (inv_running _ Hi _ _ Hin)) in Hn.
Qed.

Lemma inv_request c req resp c' : inv c -> api_handler req c = Some (resp, c') -> inv c'.
Proof.
  intros Hi Hh. destruct (is_async req) eqn:Ea.
  2: { destruct (api_handler_sync req c Ea) as (r & Hr). rewrite Hr in Hh. by injection Hh as _ <-. }
  rewrite api_handler_async in Hh by done.
  destruct (c_tracker c !! create_tid c) eqn:En; [done |]. injection Hh as _ <-.
  set (tid := create_tid c) in *.
  pose proof (fresh_pending c tid Hi En) as Hfresh.
  assert (Hne : forall k r, (k, r) ∈ c_queue c \/ (k, r) ∈ c_running c -> tid <> k).
  { intros k r Hk Heq. rewrite <- Heq in Hk. apply Hfresh, elem_of_app.
    destruct Hk as [Hk | Hk]; [left | right]; apply list_elem_of_fmap; by exists (tid, r). }
  constructor; simpl.
  - destruct (inv_ids _ Hi) as [[H1 H2] | [H1 H2]].
    + destruct (decide (c_last_tid c = 2 ^ 32 - 1)) as [Hmax | Hmax].
      * right. assert (tid = 0) as ->. { unfold tid, create_tid. rewrite Hmax. done. }
        split; [done |]. intros k Hk. destruct (decide (k = 0)) as [-> | Hk0].
        -- rewrite lookup_insert_eq. eauto.
        -- rewrite lookup_insert_ne by done. apply H2. lia.
      * left. assert (tid = c_last_tid c + 1) as ->.
        { unfold tid, create_tid. apply u32_small. lia. }
        split; [lia |]. intros k. destruct (decide (k = c_last_tid c + 1)) as [-> | Hk].
        -- rewrite lookup_insert_eq. split; [lia | eauto].
        -- rewrite lookup_insert_ne by done. rewrite H2. lia.
    + exfalso. destruct (H2 tid) as [x Hx]; [| by rewrite Hx in En].
      unfold tid, create_tid. rewrite H1. vm_compute. split; [discriminate | reflexivity].
  - intros k r [Hk | Hk]%elem_of_app.
    + rewrite lookup_insert_ne by (by eapply Hne; left). by eapply inv_queue.
    + apply list_elem_of_singleton in Hk. injection Hk as -> ->. apply lookup_insert_eq.
  - intros k r Hk. rewrite lookup_insert_ne by (by eapply Hne; right). by apply (inv_running _ Hi).
  - rewrite fmap_app. simpl. rewrite <- app_assoc.
    pose proof (inv_once _ Hi) as Hnd. rewrite NoDup_app in Hnd |- *.
    rewrite elem_of_app in Hfresh. destruct Hnd as (N1 & N2 & N3).
    split; [done |]. split.
    + intros x Hx [-> | Hx']%elem_of_cons; [tauto | by apply (N2 x)].
    + apply NoDup_cons. split; [tauto | done].
Qed.

Lemma inv_start c q1 tid req q2 :
  inv c -> c_queue c = q1 ++ (tid, req) :: q2 -> inv (task_start tid req (q1 ++ q2) c).
Proof.
  intros Hi Hq. assert (Hin : (tid, req) ∈ c_queue c) by (rewrite Hq; set_solver).
  assert (Hsub : forall x, x ∈ q1 ++ q2 -> x ∈ c_queue c) by (intros x; rewrite Hq; set_solver).
  pose proof (inv_once _ Hi) as Hnd.
  rewrite Hq, fmap_app, fmap_cons in Hnd. cbn [fst] in Hnd. rewrite <- app_assoc in Hnd.
  cbn [app] in Hnd.
  assert (Hnd' : NoDup ((q1 ++ q2).*1 ++ (c_running c).*1) /\
    tid ∉ (q1 ++ q2).*1 ++ (c_running c).*1).
  { rewrite fmap_app, <- app_assoc. apply NoDup_app in Hnd as (N1 & N2 & [N3 N4]%NoDup_cons). split.
    - apply NoDup_app. split; [done |]. split; [| done]. intros x Hx Hx'. apply (N2 x Hx). by right.
    - intros [H | H]%elem_of_app; [apply (N2 tid H); by left | done]. }
  destruct Hnd' as [Hnd1 Hnd2]. unfold task_start. destruct (has_work req) eqn:Ew.
  - constructor; simpl.
    + eapply ids_set; [done | apply Hi].
    + intros k r Hk. rewrite tracker_set_lookup. destruct (decide (tid = k)) as [<- | Hne].
      * exfalso. apply Hnd2, elem_of_app. left. apply list_elem_of_fmap. by exists (tid, r).
      * by eapply inv_queue, Hsub.
    + intros k r [Heq | Hk]%elem_of_cons.
      * injection Heq as -> ->. rewrite tracker_set_lookup, decide_True by done.
        by rewrite (inv_queue _ Hi _ _ Hin).
      * rewrite tracker_set_lookup. destruct (decide (tid = k)) as [<- | Hne].
        -- exfalso. apply Hnd2, elem_of_app. right. apply list_elem_of_fmap. by exists (tid, r).
        -- by apply (inv_running _ Hi).
    + rewrite NoDup_app in Hnd1 |- *. rewrite elem_of_app in Hnd2. destruct Hnd1 as (N1 & N2 & N3).
      split; [done |]. split.
      * intros x Hx [-> | Hx']%elem_of_cons; [tauto | by apply (N2 x)].
      * apply NoDup_cons. split; [tauto | done].
  - constructor; simpl; [apply Hi | | apply Hi | done].
    intros k r Hk. by eapply inv_queue, Hsub.
Qed.

Lemma inv_finish c r1 tid req r2 :
  inv c -> c_running c = r1 ++ (tid, req) :: r2 -> inv (task_finish tid req (r1 ++ r2) c).
Proof.
  intros Hi Hr. unfold task_finish. destruct (_ (m_backend req) _ _) as [ec st].
  pose proof (inv_once _ Hi) as Hnd. rewrite Hr, fmap_app, fmap_cons in Hnd. cbn [fst] in Hnd.
  assert (Hnd' : NoDup ((c_queue c).*1 ++ (r1 ++ r2).*1) /\ tid ∉ (c_queue c).*1 ++ (r1 ++ r2).*1).
  { rewrite fmap_app. rewrite app_assoc in Hnd |- *.
    apply NoDup_app in Hnd as (N1 & N2 & [N3 N4]%NoDup_cons). split.
    - apply NoDup_app. split; [done |]. split; [| done]. intros x Hx Hx'. apply (N2 x Hx). by right.
    - intros [H | H]%elem_of_app; [apply (N2 tid H); by left | done]. }
  destruct Hnd' as [Hnd1 Hnd2].
  constructor; simpl; [eapply ids_set; [done | apply Hi] | | | done].
  - intros k r Hk. rewrite tracker_set_lookup. destruct (decide (tid = k)) as [<- | Hne].
    + exfalso. apply Hnd2, elem_of_app. left. apply list_elem_of_fmap. by exists (tid, r).
    + by eapply inv_queue.
  - intros k r Hk. rewrite tracker_set_lookup. destruct (decide (tid = k)) as [<- | Hne].
    + exfalso. apply Hnd2, elem_of_app. right. apply list_elem_of_fmap. by exists (tid, r).
    + apply (inv_running _ Hi). rewrite Hr. set_solver.
Qed.

Lemma api_step_inv c c' : step c c' -> inv c -> inv c'.
Proof.
  intros [? ? ? ? H | ? ? ? ? ? H | ? ? ? ? ? H] Hi;
    [by eapply inv_request | by apply inv_start | by apply inv_finish].
Qed.

Lemma api_reachable_inv s c : reachable s c -> inv c.
Proof.
  intros Hr. apply (rtc_ind_r (R := step) inv (initial s)); [| | exact Hr].
  - constructor; simpl.
    + left. split; [lia |]. intros tid. rewrite lookup_empty. split; [by intros [? ?] | lia].
    + intros tid req H. by apply elem_of_nil in H.
    + intros tid req H. by apply elem_of_nil in H.
    + constructor.
  - intros c1 c2 _ Hs Hi. by eapply api_step_inv.
Qed.

(** ** Requests without work *)

(** The task [tid] is pending, and nothing that can still run will change that. *)
Definition stuck (tid : Z) (c : context) : Prop :=
  c_tracker c !! tid = Some task_pending /\ tid ∉ (c_running c).*1 /\
  (forall req, (tid, req) ∈ c_queue c -> has_work req = false).

Lemma stuck_step tid c c' : step c c' -> stuck tid c -> stuck tid c'.
Proof.
  intros [c0 req resp c1 Hh | c0 q1 k req q2 Hq | c0 r1 k req r2 Hr] (H1 & H2 & H3).
  - destruct (is_async req) eqn:Ea.
    2: { destruct (api_handler_sync req c0 Ea) as (r & Hr). rewrite Hr in Hh. by injection Hh as _ <-. }
    rewrite api_handler_async in Hh by done.
    destruct (c_tracker c0 !! create_tid c0) eqn:En; [done |]. injection Hh as _ <-.
    assert (create_tid c0 <> tid) by (intros Heq; rewrite Heq in En; congruence).
    split; [| split]; simpl; [by rewrite lookup_insert_ne | done |].
    intros r [Hin | Hin]%elem_of_app; [by apply H3 |]. apply list_elem_of_singleton in Hin. congruence.
  - unfold task_start. destruct (has_work req) eqn:Ew.
    + assert (k <> tid).
      { intros ->. rewrite (H3 req) in Ew; [done |]. rewrite Hq. set_solver. }
      split; [| split]; simpl; [by rewrite tracker_set_lookup, decide_False | |].
      * rewrite not_elem_of_cons. auto.
      * intros r Hin. apply H3. rewrite Hq. set_solver.
    + split; [| split]; simpl; [done | done |]. intros r Hin. apply H3. rewrite Hq. set_solver.
  - unfold task_finish. destruct (_ (m_backend req) _ _) as [ec st].
    assert (k <> tid).
    { intros ->. apply H2. apply list_elem_of_fmap. exists (tid, req). split; [done |]. rewrite Hr. set_solver. }
    split; [| split]; simpl; [by rewrite tracker_set_lookup, decide_False | | done].
    intros Hin. apply H2. rewrite Hr. rewrite fmap_app in *. set_solver.
Qed.

Lemma stuck_forever tid c c' : rtc step c c' -> stuck tid c -> stuck tid c'.
Proof. induction 1; [done |]. intros Hs. apply IHrtc. by eapply stuck_step. Qed.

(** An asynchronous request is accepted under a new id while there is one. *)
Lemma fresh_tid s c : reachable s c -> ~ full (c_tracker c) -> c_tracker c !! create_tid c = None.
Proof.
  intros Hr Hnf. pose proof (api_reachable_inv s c Hr) as Hi. apply eq_None_not_Some. intros Hsome.
  destruct (inv_ids _ Hi) as [[H1 H2] | [_ H2]]; [| done].
  unfold create_tid in Hsome. destruct (decide (c_last_tid c = 2 ^ 32 - 1)) as [E | E].
  - rewrite E in Hsome. change (u32 (2 ^ 32 - 1 + 1)) with 0 in Hsome. apply H2 in Hsome. lia.
  - rewrite u32_small in Hsome by lia. apply H2 in Hsome. lia.
Qed.

Lemma accept_async s c req :
  reachable s c -> is_async req = true -> ~ full (c_tracker c) ->
  exists tid, 0 <= tid < 2 ^ 32 /\ c_tracker c !! tid = None /\
    api_handler req c = Some (response_task accepted tid success,
      Ctx (<[tid := task_pending]> (c_tracker c)) tid (c_queue c ++ [(tid, req)])
        (c_running c) (c_store c)).
Proof.
  intros Hr Ha Hnf. pose proof (fresh_tid s c Hr Hnf) as Hn. exists (create_tid c).
  split; [apply u32_range |]. split; [done |]. rewrite api_handler_async by done. by rewrite Hn.
Qed.

(** * Properties *)

(** C34: task ids are unique and tracked: in every reachable state of the daemon
    [api_handler] fails its assertions only when all [2^32] ids are in use; otherwise an
    asynchronous request gets an id that was not in use, and the answer to a status
    request is the tracked status of the task or [no_such_task], without a change of
    state. *)
Theorem api_handler_total (s : S) (c : context) (req : request) :
  reachable s c ->
  (api_handler req c = None -> is_async req = true /\ full (c_tracker c)) /\
  (is_async req = true -> ~ full (c_tracker c) ->
     exists tid c', api_handler req c = Some (response_task accepted tid success, c') /\
       0 <= tid < 2 ^ 32 /\ c_tracker c !! tid = None /\ c_tracker c' !! tid = Some task_pending) /\
  (m_type req = status ->
     api_handler req c = Some (response_code accepted
       (default no_such_task (c_tracker c !! m_tid req)), c)).
Proof.
  intros Hr. split; [| split].
  - intros Hn. destruct (is_async req) eqn:Ea.
    2: { destruct (api_handler_sync req c Ea) as (r & Hr'). congruence. }
    split; [done |]. destruct (inv_ids _ (api_reachable_inv s c Hr)) as [[H1 H2] | [_ H2]]; [| done].
    exfalso. destruct (accept_async s c req Hr Ea) as (tid & _ & _ & Hs); [| congruence].
    intros Hf. destruct (proj1 (H2 0) (Hf 0 ltac:(lia))). lia.
  - intros Ha Hnf. destruct (accept_async s c req Hr Ha Hnf) as (tid & H1 & H2 & H3).
    do 2 eexists. split; [exact H3 |]. split; [done |]. split; [done |]. apply lookup_insert_eq.
  - intros Ht. unfold api_handler, tracker_get. rewrite Ht. by destruct (c_tracker c !! m_tid req).
Qed.

(** C35: the life of a task: in every reachable state a task in the queue is pending and
    a task that a worker runs is in progress, each is there once, and every status comes
    from an id that was issued. *)
Theorem task_lifecycle (s : S) (c : context) :
  reachable s c ->
  (forall tid req, (tid, req) ∈ c_queue c -> c_tracker c !! tid = Some task_pending) /\
  (forall tid req, (tid, req) ∈ c_running c ->
     c_tracker c !! tid = Some task_in_progress /\ has_backend (m_backend req) = true) /\
  NoDup ((c_queue c).*1 ++ (c_running c).*1) /\
  (forall tid, is_Some (c_tracker c !! tid) -> 1 <= tid <= c_last_tid c \/ full (c_tracker c)).
Proof.
  intros Hr. pose proof (api_reachable_inv s c Hr) as Hi. split; [| split; [| split]].
  - apply Hi.
  - intros tid req Hin. destruct (inv_running _ Hi tid req Hin) as [H1 H2]. split; [done |].
    unfold has_work in H2. by destruct (m_type req).
  - apply Hi.
  - intros tid Ht. destruct (inv_ids _ Hi) as [[_ H] | [_ H]]; [left; by apply H | by right].
Qed.

(** a request to unload never runs: whatever was in the storage of the request
    object, [create_from_buffer] leaves its backend empty, so when no backend has the
    empty name and the request is accepted, its task stays pending in every later state.
    The same happens to a load request for a backend that does not exist. *)
Theorem unload_never_runs `{Protobuf} (s : S) (mem req : request) (d : UnloadPath)
    (c c' c'' : context) (tid : Z) :
  reachable s c -> has_backend "" = false ->
  (req = decoded mem (pack_request (MkUserRequest UNLOAD_PATH None (Some d) None None)) /\
     request_ok (MkUserRequest UNLOAD_PATH None (Some d) None None)) \/
    m_type req = load_path /\ has_backend (m_backend req) = false ->
  api_handler req c = Some (response_task accepted tid success, c') ->
  rtc step c' c'' -> c_tracker c'' !! tid = Some task_pending.
Proof.
  intros Hr Hb Hreq Hh Hrun. pose proof (api_reachable_inv s c Hr) as Hi.
  assert (Hw : has_work req = false).
  { destruct Hreq as [[-> Hok] | [Ht Hn]]; [| unfold has_work; by rewrite Ht].
    rewrite decoded_ok by done. unfold create_from_buffer. rewrite parse_pack_request by apply Hok. simpl.
    unfold has_work. simpl. by destruct (m_type mem). }
  destruct (is_async req) eqn:Ea.
  2: { exfalso. unfold is_async, api_handler in *. destruct (m_type req); try done. }
  rewrite api_handler_async in Hh by done.
  destruct (c_tracker c !! create_tid c) eqn:En; [done |]. injection Hh as <- <-.
  apply (stuck_forever _ _ _ Hrun). pose proof (fresh_pending c _ Hi En) as Hfresh.
  rewrite elem_of_app in Hfresh. split; [| split]; simpl.
  - apply lookup_insert_eq.
  - tauto.
  - intros r [Hin | Hin]%elem_of_app.
    + exfalso. apply Hfresh. left. apply list_elem_of_fmap. by exists (create_tid c, r).
    + apply list_elem_of_singleton in Hin. by injection Hin as ->.
Qed.

(** ** Sessions *)

Lemma async_read_app (d rest : list Z) : async_read (length d) (d ++ rest) = Some (d, rest).
Proof.
  unfold async_read. rewrite (proj2 (Nat.leb_le _ _)) by (rewrite length_app; lia).
  by rewrite take_app_length, drop_app_length.
Qed.

Lemma session_header `{Protobuf} big mem n rest c :
  0 <= n < 2 ^ 64 ->
  do_read_request big mem (reverse (le_bytes 8 n) ++ rest) c =
  if vector_max_size <? n then (Terminated, c)
  else do_read_request_body big mem
         (Message (reverse (le_bytes 8 n)) 8 (replicate (Z.to_nat n) 0) 0 n) rest c.
Proof.
  intros Hn. unfold do_read_request. set (h := reverse (le_bytes 8 n)).
  assert (Hh : length h = 8%nat) by (unfold h; by rewrite length_reverse, le_bytes_length).
  change (Z.to_nat (expected_length message_new header)) with 8%nat. rewrite <- Hh, async_read_app.
  unfold decode_header. rewrite Hh. cbn [negb Z.of_nat Z.eqb HEADER_LENGTH fill m_header m_body message_new].
  change (Z.of_nat 8 =? Z.of_nat HEADER_LENGTH) with true. cbv iota. cbn [negb].
  rewrite overwrite_all by (rewrite Hh; done).
  assert (Hval : ntohll big (u64_of_mem big h) = n) by (by apply header_value). rewrite Hval.
  destruct (vector_max_size <? n); [done |].
  assert (Hv : vec_resize (Z.to_nat n) [] = replicate (Z.to_nat n) 0).
  { unfold vec_resize. by rewrite take_nil, Nat.sub_0_r. }
  by rewrite Hv.
Qed.

Lemma session_reply `{Protobuf} big mem r rest c c' resp :
  request_ok r ->
  api_handler (decoded mem (pack_request r)) c = Some (resp, c') ->
  do_read_request big mem
    (reverse (le_bytes 8 (Z.of_nat (length (pack_request r)))) ++ pack_request r ++ rest) c =
  (Replied (reverse (le_bytes 8 (Z.of_nat (length (pack_response (user_response resp)))))
            ++ pack_response (user_response resp)), c').
Proof.
  intros [Hwf Hmax] Hh. pose proof (pack_request_size r) as Hsz.
  pose proof (pack_response_size (user_response resp)) as Hsz'. unfold vector_max_size in *.
  rewrite session_header by lia. unfold vector_max_size. rewrite (proj2 (Z.ltb_ge _ _)) by lia.
  unfold do_read_request_body. cbn [expected_length m_expected_body_length].
  rewrite (proj2 (Z.eqb_neq _ _)) by lia. cbn [negb]. rewrite Nat2Z.id, async_read_app.
  cbn [fill buffer m_body]. rewrite overwrite_all by (by rewrite length_replicate).
  unfold decoded in Hh. rewrite Hh. unfold encode_response, store_to_buffer.
  cbn [clear m_body m_header app do_write_response buffer]. unfold do_write_response.
  cbn [buffer m_header m_body]. rewrite header_bytes by lia.
  by rewrite overwrite_all by (by rewrite length_reverse, le_bytes_length).
Qed.

(** A session answers a well-formed request: it decodes exactly the request that the
    client serialised, passes it to [api_handler] and replies with one frame that holds
    the response, leaving the state [api_handler] left. A length prefix above the
    largest vector ends the daemon with an exception instead. *)
Theorem session_serves `{Protobuf} (big : bool) (mem : request) (r : UserRequest) (rest : list Z)
    (c c' : context) (resp : response) (n : Z) :
  request_ok r ->
  api_handler (decoded mem (pack_request r)) c = Some (resp, c') ->
  vector_max_size < n < 2 ^ 64 ->
  do_read_request big mem
    (reverse (le_bytes 8 (Z.of_nat (length (pack_request r)))) ++ pack_request r ++ rest) c =
  (Replied (reverse (le_bytes 8 (Z.of_nat (length (pack_response (user_response resp)))))
            ++ pack_response (user_response resp)), c') /\
  parse_request (pack_request r) (Z.of_nat (length (pack_request r))) = Some r /\
  do_read_request big mem (reverse (le_bytes 8 n) ++ rest) c = (Terminated, c).
Proof.
  intros Hwf Hh Hn. split; [by apply session_reply |]. split; [by apply parse_pack_request; apply Hwf |].
  unfold vector_max_size in Hn. rewrite session_header by lia. unfold vector_max_size.
  by rewrite (proj2 (Z.ltb_lt _ _)) by lia.
Qed.

End Context.

(** ** A codec for witnesses

    Messages as a single number, by the encoding of countable types. *)
#[export] Instance UserRequest_Type_eq_dec : EqDecision UserRequest_Type.
Proof. solve_decision. Defined.
#[export] Instance UserResponse_Type_eq_dec : EqDecision UserResponse_Type.
Proof. solve_decision. Defined.
#[export] Instance LoadPath_eq_dec : EqDecision LoadPath.
Proof. solve_decision. Defined.
#[export] Instance UnloadPath_eq_dec : EqDecision UnloadPath.
Proof. solve_decision. Defined.
#[export] Instance ChangeType_eq_dec : EqDecision ChangeType.
Proof. solve_decision. Defined.
#[export] Instance UserRequest_eq_dec : EqDecision UserRequest.
Proof. solve_decision. Defined.
#[export] Instance UserResponse_eq_dec : EqDecision UserResponse.
Proof. solve_decision. Defined.

#[export] Instance UserRequest_Type_countable : Countable UserRequest_Type.
Proof.
  refine (inj_countable' (fun t => match t with LOAD_PATH => 0 | UNLOAD_PATH => 1 | STATUS => 2
                                      | GET_CONFIG => 3 | CHANGE_TYPE => 4 end)
    (fun n => match n with 0 => LOAD_PATH | 1 => UNLOAD_PATH | 2 => STATUS
                         | 3 => GET_CONFIG | _ => CHANGE_TYPE end) _).
  by intros [].
Defined.
#[export] Instance UserResponse_Type_countable : Countable UserResponse_Type.
Proof.
  refine (inj_countable' (fun t => match t with ACCEPTED => true | REJECTED => false end)
    (fun b : bool => if b then ACCEPTED else REJECTED) _).
  by intros [].
Defined.
#[export] Instance LoadPath_countable : Countable LoadPath.
Proof.
  refine (inj_countable' (fun d => (lp_backend d, lp_path d, lp_is_directory d, lp_offset d, lp_size d))
    (fun '(b, p, i, o, z) => MkLoadPath b p i o z) _).
  by intros [].
Defined.
#[export] Instance UnloadPath_countable : Countable UnloadPath.
Proof.
  refine (inj_countable' (fun d => (up_path d, up_dest d)) (fun '(p, q) => MkUnloadPath p q) _).
  by intros [].
Defined.
#[export] Instance ChangeType_countable : Countable ChangeType.
Proof.
  refine (inj_countable' (fun d => (ct_path d, ct_is_persistent d)) (fun '(p, q) => MkChangeType p q) _).
  by intros [].
Defined.
#[export] Instance UserRequest_countable : Countable UserRequest.
Proof.
  refine (inj_countable' (fun r => (ur_type r, load_desc r, unload_desc r, change_desc r, ur_tid r))
    (fun '(t, l, u, c, i) => MkUserRequest t l u c i) _).
  by intros [].
Defined.
#[export] Instance UserResponse_countable : Countable UserResponse.
Proof.
  refine (inj_countable' (fun r => (us_type r, us_tid r, us_status r))
    (fun '(t, i, s) => MkUserResponse t i s) _).
  by intros [].
Defined.

Definition codec_pack {X} `{Countable X} (x : X) : list Z := [Zpos (encode x)].
Definition codec_parse {X} `{Countable X} (l : list Z) : option X :=
  match l with [Zpos p] => decode p | _ => None end.

Program Definition codec : Protobuf := {|
  pack_request := codec_pack; parse_request l _ := codec_parse l;
  pack_response := codec_pack; parse_response := codec_parse |}.
Next Obligation. intros. apply decode_encode. Qed.
Next Obligation. intros. apply decode_encode. Qed.
Next Obligation. done. Qed.
Next Obligation. done. Qed.

(** ** Witnesses: a daemon with one backend whose operations succeed *)

Definition demo_has (b : string) : bool := bool_decide (b = "nvram").
Definition demo_op (b p : string) (u : unit) : error_code * unit := (success, u).
Definition demo_mem : request := MkRequest change_type "" "" false 0 0 0 false "".
Definition demo_load : request := request_load demo_mem "nvram" "/data/in" false 0 0.
Definition demo_unload : UserRequest :=
  MkUserRequest UNLOAD_PATH None (Some (MkUnloadPath "/data/in" "/out")) None None.
(** After a load request, and with the load in progress. *)
Definition demo_queued : context (S := unit) := Ctx {[1 := task_pending]} 1 [(1, demo_load)] [] tt.
Definition demo_busy : context (S := unit) := Ctx {[1 := task_in_progress]} 1 [] [(1, demo_load)] tt.

Lemma demo_queued_reachable : reachable demo_has demo_op demo_op tt demo_queued.
Proof. eapply rtc_once, (step_request _ _ _ _ demo_load). vm_compute. reflexivity. Qed.
Lemma demo_busy_reachable : reachable demo_has demo_op demo_op tt demo_busy.
Proof.
  eapply rtc_r; [apply demo_queued_reachable |].
  refine (step_start _ _ _ demo_queued [] 1 demo_load [] _). reflexivity.
Qed.

Lemma api_handler_total_witness :
  (api_handler demo_load demo_busy = None -> is_async demo_load = true /\ full (c_tracker demo_busy)) /\
  (is_async demo_load = true -> ~ full (c_tracker demo_busy) ->
     exists tid c', api_handler demo_load demo_busy = Some (response_task accepted tid success, c') /\
       0 <= tid < 2 ^ 32 /\ c_tracker demo_busy !! tid = None /\
       c_tracker c' !! tid = Some task_pending) /\
  (m_type demo_load = status ->
     api_handler demo_load demo_busy = Some (response_code accepted
       (default no_such_task (c_tracker demo_busy !! m_tid demo_load)), demo_busy)).
Proof. apply (api_handler_total demo_has demo_op demo_op tt), demo_busy_reachable. Defined.

Lemma task_lifecycle_witness :
  (forall tid req, (tid, req) ∈ c_running demo_busy ->
     c_tracker demo_busy !! tid = Some task_in_progress /\ demo_has (m_backend req) = true) /\
  (1, demo_load) ∈ c_running demo_busy.
Proof.
  split; [| left]. apply (task_lifecycle demo_has demo_op demo_op tt demo_busy), demo_busy_reachable.
Defined.

Lemma unload_never_runs_witness :
  exists c', api_handler (decoded (H := codec) demo_mem
      (pack_request (Protobuf := codec) demo_unload)) demo_busy
      = Some (response_task accepted 2 success, c') /\
    c_tracker c' !! 2 = Some task_pending.
Proof.
  eexists. split; [vm_compute; reflexivity |].
  eapply (unload_never_runs demo_has demo_op demo_op (H := codec) tt demo_mem _
    (MkUnloadPath "/data/in" "/out") demo_busy _ _ 2);
    [apply demo_busy_reachable | vm_compute; reflexivity | left; split; [reflexivity | vm_compute; auto]
    | vm_compute; reflexivity | apply rtc_refl].
Defined.

Lemma session_serves_witness :
  exists resp c',
    do_read_request (H := codec) false demo_mem
      (reverse (le_bytes 8 (Z.of_nat (length (pack_request (Protobuf := codec) demo_unload)))) ++
       pack_request (Protobuf := codec) demo_unload ++ [7]) demo_busy =
    (Replied (reverse (le_bytes 8 (Z.of_nat (length (pack_response (Protobuf := codec) (user_response resp)))))
              ++ pack_response (Protobuf := codec) (user_response resp)), c') /\
    parse_request (Protobuf := codec) (pack_request (Protobuf := codec) demo_unload) 1 = Some demo_unload /\
    do_read_request (H := codec) false demo_mem (reverse (le_bytes 8 (2 ^ 63)) ++ [7]) demo_busy
      = (Terminated, demo_busy).
Proof.
  do 2 eexists.
  eapply (session_serves (H := codec) false demo_mem demo_unload [7] demo_busy _ _ (2 ^ 63));
    [vm_compute; auto | vm_compute; reflexivity | vm_compute; auto].
Defined.

End Api.
