(* ===== verification/Listener.v ===== *)
(** * The listener of the API: src/api/listener.h

    One thread runs the handlers of an io_service: it accepts connections and, for each of them,
    reads the header of a request, reads its body, calls the context, and writes the response.
    The handlers of different sessions interleave with each other, with the clients, who send
    their bytes in pieces, and with the workers of the context. [do_read_request] of [Api] is
    what a session does when it runs alone; here every interleaving of sessions is shown to
    answer as sessions do that run one at a time. *)
From S2P Require Import Prelude Errors Wire Api.
From Stdlib Require Import Ascii String.
From stdpp Require Import base list numbers option strings gmap sets relations.
Local Open Scope Z_scope.
Local Open Scope list_scope.

Module Listener.
Import Errors Wire Api.

(** What a session waits for. [Queued] is a connection that was not accepted yet. *)
Inductive phase := Queued | ReadingHeader | ReadingBody (m : message) | Writing (m : message) | Over.

(** [class session], with the bytes the client has sent, how many of them were read, whether
    the client is done, and the bytes that were written. *)
Record session := Session { s_phase : phase; s_pos : nat; s_inp : list Z; s_eof : bool; s_out : list Z }.
Definition new_connection : session := Session Queued 0 [] false [].

(** The completion of [async_read] of [n] bytes: [None] as long as it waits, [Some None] with
    an error. *)
Definition completed (n : nat) (s : session) : option (option (list Z)) :=
  if (n <=? length (drop (s_pos s) (s_inp s)))%nat then Some (Some (take n (drop (s_pos s) (s_inp s))))
  else if s_eof s then Some None else None.

Section Listener.
Context {S : Type} (has_backend : string -> bool) (backend_load backend_unload : string -> string -> S -> error_code * S).
Context `{PB : Protobuf} (big : bool) (mem : request).
Abbreviation context := (Api.context (S := S)).
Abbreviation api_step := (Api.step has_backend backend_load backend_unload).
Abbreviation api_reachable := (Api.reachable has_backend backend_load backend_unload).

(** The handler of [do_read_request]; no result when an exception ends the program. *)
Definition header_handler (r : option (list Z)) : option phase :=
  match r with
  | None => Some Over
  | Some d =>
      match decode_header big (Z.of_nat (length d)) (fill message_new header d) with
      | None => None
      | Some (true, m) => Some (if negb (expected_length m body =? 0) then ReadingBody m else Over)
      | Some (false, _) => Some Over
      end
  end.
(** The handler of [do_read_request_body]. *)
Definition body_handler (m : message) (r : option (list Z)) (c : context) : option (phase * context) :=
  match r with
  | None => Some (Over, c)
  | Some d =>
      let m := fill m body d in
      let req := decode_body mem (buffer m body) (expected_length m body) in
      match api_handler req c with
      | None => None
      | Some (resp, c') =>
          let '(ok, m) := encode_response big (store_to_buffer resp) (clear m) in
          Some (if ok then Writing m else Over, c')
      end
  end.
Definition frame_of (m : message) : list Z := buffer m header ++ buffer m body.

(** [class listener]: its thread, if it has one, which runs the handlers in [m_ios.run()] or has
    returned from it; [l_stopped] is the flag of [m_ios] and [l_accepting] whether an accept is
    outstanding; [l_calls] records the calls of the callback, [l_dead] the end of the program. *)
Inductive thread := InRun | Returned.
Record listener := Listener { m_thread : option thread; l_stopped : bool; l_accepting : bool; l_sessions : gmap positive session; l_context : context;
  l_calls : list (positive * (context * context)); l_dead : bool }.
Definition set_session (x : positive) (s : session) (l : listener) : listener :=
  Listener (m_thread l) (l_stopped l) (l_accepting l) (<[x := s]> (l_sessions l)) (l_context l) (l_calls l) (l_dead l).
Definition set_context (c : context) (l : listener) : listener :=
  Listener (m_thread l) (l_stopped l) (l_accepting l) (l_sessions l) c (l_calls l) (l_dead l).
Definition set_accepting (b : bool) (l : listener) : listener :=
  Listener (m_thread l) (l_stopped l) b (l_sessions l) (l_context l) (l_calls l) (l_dead l).
Definition set_thread (t : option thread) (stopped : bool) (l : listener) : listener :=
  Listener t stopped (l_accepting l) (l_sessions l) (l_context l) (l_calls l) (l_dead l).
Definition terminate (l : listener) : listener :=
  Listener (m_thread l) (l_stopped l) (l_accepting l) (l_sessions l) (l_context l) (l_calls l) true.
Definition record_call (x : positive) (c c' : context) (l : listener) : listener :=
  Listener (m_thread l) (l_stopped l) (l_accepting l) (l_sessions l) c' (l_calls l ++ [(x, (c, c'))]) (l_dead l).

(** [do_accept], and the constructor. *)
Definition do_accept (l : listener) : listener := set_accepting true l.
Definition listener_new (c : context) : listener := do_accept (Listener None false false ∅ c [] false).
(** [run]: a new thread, unless there is one. *)
Definition run (l : listener) : listener := match m_thread l with Some _ => l | None => set_thread (Some InRun) (l_stopped l) l end.
(** [stop]: where its caller is, and its next step, which does not exist while it waits in
    [join] for the thread to return. It asks [m_ios] to stop, joins the thread, and then resets
    both. *)
Inductive stop_pc := S_enter | S_join | S_end.
Definition stop_step (pc : stop_pc) (l : listener) : option (stop_pc * listener) :=
  match pc with
  | S_enter => match m_thread l with None => Some (S_end, l) | Some _ => Some (S_join, set_thread (m_thread l) true l) end
  | S_join =>
      match m_thread l with
      | Some Returned => Some (S_end, set_thread None false l)
      | _ => None
      end
  | S_end => None
  end.
(** The thread runs handlers; it returns from [m_ios.run()] when [m_ios] was stopped. *)
Definition running (l : listener) : bool :=
  match m_thread l with Some InRun => negb (l_stopped l) && negb (l_dead l) | _ => false end.
Definition returns (l : listener) : option listener :=
  match m_thread l with
  | Some InRun => if l_stopped l && negb (l_dead l) then Some (set_thread (Some Returned) true l) else None
  | _ => None
  end.

(** The next handler of a connection, if it can run. *)
Definition handle (x : positive) (l : listener) : option listener :=
  match l_sessions l !! x with
  | None => None
  | Some s =>
      match s_phase s with
      | Queued =>
          if l_accepting l
          then Some (do_accept (set_session x (Session ReadingHeader 0 (s_inp s) (s_eof s) []) (set_accepting false l))) else None
      | ReadingHeader =>
          match completed HEADER_LENGTH s with
          | None => None
          | Some r =>
              match header_handler r with
              | None => Some (terminate l)
              | Some p => Some (set_session x (Session p (s_pos s + HEADER_LENGTH) (s_inp s) (s_eof s) []) l)
              end
          end
      | ReadingBody m =>
          let n := Z.to_nat (expected_length m body) in
          match completed n s with
          | None => None
          | Some r =>
              match body_handler m r (l_context l) with
              | None => Some (terminate l)
              | Some (p, c) =>
                  let l := match r with Some _ => record_call x (l_context l) c l | None => l end in
                  Some (set_session x (Session p (s_pos s + n) (s_inp s) (s_eof s) []) l)
              end
          end
      | Writing m => Some (set_session x (Session Over (s_pos s) (s_inp s) (s_eof s) (frame_of m)) l)
      | Over => None
      end
  end.

Inductive task_step : context -> context -> Prop :=
  | worker_start c q1 tid req q2 : c_queue c = q1 ++ (tid, req) :: q2 -> task_step c (task_start has_backend tid req (q1 ++ q2) c)
  | worker_finish c r1 tid req r2 : c_running c = r1 ++ (tid, req) :: r2 ->
      task_step c (task_finish backend_load backend_unload tid req (r1 ++ r2) c).

(** The clients, the handlers of the thread, its return, and the workers. *)
Inductive activity : listener -> listener -> Prop :=
  | client_connects l x : l_sessions l !! x = None -> activity l (set_session x new_connection l)
  | client_sends l x s bs : l_sessions l !! x = Some s -> s_eof s = false ->
      activity l (set_session x (Session (s_phase s) (s_pos s) (s_inp s ++ bs) false (s_out s)) l)
  | client_closes l x s : l_sessions l !! x = Some s ->
      activity l (set_session x (Session (s_phase s) (s_pos s) (s_inp s) true (s_out s)) l)
  | handler_runs l x l' : running l = true -> handle x l = Some l' -> activity l l'
  | accept_fails l : running l = true -> l_accepting l = true -> activity l (do_accept (set_accepting false l))
  | write_fails l x s m k : running l = true -> l_sessions l !! x = Some s -> s_phase s = Writing m ->
      activity l (set_session x (Session Over (s_pos s) (s_inp s) (s_eof s) (take k (frame_of m))) l)
  | thread_returns l l' : returns l = Some l' -> activity l l'
  | worker_runs l c : l_dead l = false -> task_step (l_context l) c -> activity l (set_context c l).

(** Together with the calls of [run] and the steps of [stop]. *)
Inductive lstep : listener -> listener -> Prop :=
  | listener_acts l l' : activity l l' -> lstep l l'
  | listener_runs l : lstep l (run l)
  | listener_stops pc l pc' l' : stop_step pc l = Some (pc', l') -> lstep l l'.

(** ** Sessions that run alone *)

Lemma async_read_take n inp d rest : async_read n inp = Some (d, rest) <-> (n <= length inp)%nat /\ d = take n inp /\ rest = drop n inp.
Proof.
  unfold async_read. destruct (Nat.leb_spec n (length inp)); split; intros H0; [by injection H0 as <- <- | | done | lia].
  by destruct H0 as (_ & -> & ->).
Qed.

(** What was read decides what a session does: bytes that follow do not matter. *)
Definition waits_for (inp : list Z) (m : message) : Prop :=
  (HEADER_LENGTH <= length inp)%nat /\ header_handler (Some (take HEADER_LENGTH inp)) = Some (ReadingBody m).
Lemma waits_for_app inp m bs : waits_for inp m -> waits_for (inp ++ bs) m.
Proof. intros [Hl Hh]. split; [rewrite length_app; lia |]. by rewrite take_app_le. Qed.
Lemma session_body inp m (c : context) : waits_for inp m -> do_read_request big mem inp c = do_read_request_body big mem m (drop HEADER_LENGTH inp) c.
Proof.
  intros [Hl Hh]. unfold do_read_request. change (Z.to_nat (expected_length message_new header)) with HEADER_LENGTH.
  rewrite (proj2 (async_read_take _ _ _ _) (conj Hl (conj eq_refl eq_refl))). cbn [header_handler] in Hh.
  destruct (decode_header _ _ _) as [[[|] m'] |]; [| done | done]. destruct (negb _); [by injection Hh as -> | done].
Qed.
Lemma waits_nonzero inp m : waits_for inp m -> (expected_length m body =? 0) = false.
Proof.
  intros [_ Hh]. cbn [header_handler] in Hh. destruct (decode_header _ _ _) as [[[|] m'] |]; [| done | done].
  destruct (expected_length m' body =? 0) eqn:E; [done | by injection Hh as <-].
Qed.
Lemma expected_fill m d : expected_length (fill m body d) body = expected_length m body.
Proof. done. Qed.

(** The body of a session, on input that is long enough. *)
Lemma session_called inp m (c : context) d : waits_for inp m -> completed (Z.to_nat (expected_length m body)) (Session (ReadingBody m) HEADER_LENGTH inp false []) = Some (Some d) ->
  forall bs, do_read_request big mem (inp ++ bs) c =
    match body_handler m (Some d) c with
    | None => (Terminated, c)
    | Some (Writing m', c') => (Replied (frame_of m'), c')
    | Some (_, c') => (Closed, c')
    end.
Proof.
  intros Hw Hc bs. rewrite (session_body _ m) by (by apply waits_for_app). unfold do_read_request_body.
  rewrite (waits_nonzero inp m Hw). cbn [negb]. unfold completed in Hc. cbn [s_pos s_inp s_eof] in Hc.
  destruct (Nat.leb_spec (Z.to_nat (expected_length m body)) (length (drop HEADER_LENGTH inp))) as [Hn | Hn]; [| done]. injection Hc as <-.
  assert (Hl : (HEADER_LENGTH <= length inp)%nat) by apply Hw.
  rewrite drop_app_le by done. rewrite length_drop in Hn.
  rewrite (proj2 (async_read_take _ _ (take (Z.to_nat (expected_length m body)) (drop HEADER_LENGTH inp))
    (drop (Z.to_nat (expected_length m body)) (drop HEADER_LENGTH inp ++ bs)))).
  2: { rewrite length_app, length_drop. split; [lia |]. split; [| reflexivity]. rewrite take_app_le; [done |]. rewrite length_drop. lia. }
  cbn [body_handler]. rewrite expected_fill. destruct (api_handler _ c) as [[resp c'] |]; [| done].
  by destruct (encode_response _ _ _) as [[|] m'].
Qed.

(** ** What a session has done *)

(** A reply of a session that runs alone on this input, from a state in which it was called. *)
Definition replied (calls : list (positive * (context * context))) (x : positive) (inp reply : list Z) : Prop :=
  exists c c', (x, (c, c')) ∈ calls /\ forall bs, do_read_request big mem (inp ++ bs) c = (Replied reply, c').
Definition session_ok (calls : list (positive * (context * context))) (x : positive) (s : session) : Prop :=
  match s_phase s with
  | Queued | ReadingHeader => s_pos s = O /\ s_out s = [] /\ (x ∉ calls.*1)
  | ReadingBody m => s_pos s = HEADER_LENGTH /\ s_out s = [] /\ (x ∉ calls.*1) /\ waits_for (s_inp s) m
  | Writing m => s_out s = [] /\ replied calls x (s_inp s) (frame_of m)
  | Over => s_out s = [] \/ exists reply, replied calls x (s_inp s) reply /\ s_out s `prefix_of` reply
  end.
(** A call of the callback: from a state of the context to the next. *)
Definition call_ok (s0 : S) (now : context) (k : positive * (context * context)) : Prop :=
  let '(_, (c, c')) := k in api_reachable s0 c /\ (exists req resp, api_handler req c = Some (resp, c')) /\ rtc api_step c' now.
Record linv (s0 : S) (l : listener) : Prop := {
  li_context : api_reachable s0 (l_context l);
  li_accepting : l_accepting l = true;
  li_once : NoDup (l_calls l).*1;
  li_calls : Forall (call_ok s0 (l_context l)) (l_calls l);
  li_known : forall x, x ∈ (l_calls l).*1 -> is_Some (l_sessions l !! x);
  li_sessions : forall x s, l_sessions l !! x = Some s -> session_ok (l_calls l) x s }.

Lemma worker_is_step c c' : task_step c c' -> api_step c c'.
Proof. destruct 1; by constructor. Qed.
Lemma call_later s0 c c' k : api_step c c' -> call_ok s0 c k -> call_ok s0 c' k.
Proof. destruct k as [x [a b]]. intros Hs (H1 & H2 & H3). do 2 (split; [done |]). by eapply rtc_r. Qed.
Lemma replied_app calls x inp reply bs : replied calls x inp reply -> replied calls x (inp ++ bs) reply.
Proof. intros (c & c' & Hin & Hr). exists c, c'. split; [done |]. intros bs'. rewrite <- app_assoc. apply Hr. Qed.
Lemma session_ok_app calls x p n inp eof eof' out bs :
  session_ok calls x (Session p n inp eof out) -> session_ok calls x (Session p n (inp ++ bs) eof' out).
Proof.
  unfold session_ok. cbn. destruct p as [| | m | m |]; [done | done | | |].
  - intros (H1 & H2 & H3 & H4). split_and!; [done | done | done | by apply waits_for_app].
  - intros (H1 & H2). split; [done | by apply replied_app].
  - intros [H1 | (reply & H1 & H2)]; [by left | right]. exists reply. split; [by apply replied_app | done].
Qed.
(** Another session is called. *)
Lemma session_ok_called calls x y c c' s : x <> y -> session_ok calls x s -> session_ok (calls ++ [(y, (c, c'))]) x s.
Proof.
  assert (Hn : x <> y -> (x ∉ calls.*1) -> x ∉ (calls ++ [(y, (c, c'))]).*1) by (intros; rewrite fmap_app, elem_of_app; set_solver).
  assert (Hr : forall inp reply, replied calls x inp reply -> replied (calls ++ [(y, (c, c'))]) x inp reply).
  { intros inp reply (a & b & Hin & Hr). exists a, b. split; [rewrite elem_of_app; by left | done]. }
  unfold session_ok. intros Hne. destruct (s_phase s); naive_solver.
Qed.

(** A session gets a new state. *)
Lemma linv_session s0 l x s : linv s0 l -> session_ok (l_calls l) x s -> linv s0 (set_session x s l).
Proof.
  intros [H1 H2 H3 H4 H5 H6] Hs. constructor; cbn; [done | done | done | done | |].
  - intros y Hy. destruct (decide (x = y)) as [-> | Hne]; [rewrite lookup_insert_eq; eauto |].
    rewrite lookup_insert_ne by done. by apply H5.
  - intros y s' Hy. destruct (decide (x = y)) as [-> | Hne].
    + rewrite lookup_insert_eq in Hy. by injection Hy as <-.
    + rewrite lookup_insert_ne in Hy by done. by apply H6.
Qed.

Lemma body_called m d (c c' : context) p : body_handler m (Some d) c = Some (p, c') ->
  (exists req resp, api_handler req c = Some (resp, c')) /\ (p = Over \/ exists m', p = Writing m').
Proof.
  unfold body_handler. intros Hb. destruct (api_handler _ c) as [[resp c1] |] eqn:E; [| done].
  destruct (encode_response _ _ _) as [[|] m1]; injection Hb as <- <-; eauto 6.
Qed.

Lemma linv_called s0 l x s m d p c : linv s0 l -> l_sessions l !! x = Some s -> s_phase s = ReadingBody m ->
  completed (Z.to_nat (expected_length m body)) s = Some (Some d) -> body_handler m (Some d) (l_context l) = Some (p, c) ->
  linv s0 (set_session x (Session p (s_pos s + Z.to_nat (expected_length m body)) (s_inp s) (s_eof s) []) (record_call x (l_context l) c l)).
Proof.
  intros [H1 H2 H3 H4 H5 H6] Hs Hp Hc Hb. pose proof (H6 x s Hs) as Hok. unfold session_ok in Hok. rewrite Hp in Hok.
  destruct Hok as (Hpos & _ & Hx & Hw).
  assert (Hcall : forall bs, do_read_request big mem (s_inp s ++ bs) (l_context l) =
    match p with Writing m' => (Replied (frame_of m'), c) | _ => (Closed, c) end).
  { intros bs. assert (Hc' : completed (Z.to_nat (expected_length m body)) (Session (ReadingBody m) HEADER_LENGTH (s_inp s) false []) = Some (Some d)).
    { unfold completed in *. cbn [s_pos s_inp s_eof]. rewrite Hpos in Hc. destruct (_ <=? _)%nat; [done | by destruct (s_eof s)]. }
    rewrite (session_called (s_inp s) m _ d Hw Hc' bs), Hb. by destruct p. }
  destruct (body_called _ _ _ _ _ Hb) as [(req & resp & E) Hpw]. assert (Ha : api_step (l_context l) c) by (by eapply step_request).
  constructor; cbn [set_session record_call l_sessions l_context l_calls l_accepting].
  - by eapply rtc_r.
  - done.
  - rewrite fmap_app. apply NoDup_app. split; [done |]. split; [| apply NoDup_singleton]. set_solver.
  - apply Forall_app. split; [| apply Forall_singleton; split; [done | split; [by exists req, resp | reflexivity]]].
    eapply Forall_impl; [exact H4 |]. intros k. by apply call_later.
  - intros y Hy. destruct (decide (x = y)) as [-> | Hne]; [rewrite lookup_insert_eq; eauto |].
    rewrite lookup_insert_ne by done. apply H5. rewrite fmap_app in Hy. set_solver.
  - intros y s' Hy. destruct (decide (x = y)) as [-> | Hne].
    + rewrite lookup_insert_eq in Hy. injection Hy as <-. unfold session_ok. cbn [s_phase s_out s_inp].
      destruct Hpw as [-> | [m' ->]]; [by left |]. split; [done |]. exists (l_context l), c.
      split; [rewrite elem_of_app; right; constructor | done].
    + rewrite lookup_insert_ne in Hy by done. apply session_ok_called; [done | by apply H6].
Qed.

Lemma linv_handle s0 l x l' : linv s0 l -> handle x l = Some l' -> linv s0 l'.
Proof.
  intros Hi E. unfold handle in E. destruct (l_sessions l !! x) as [s |] eqn:Hs; [| done].
  pose proof (li_sessions s0 l Hi x s Hs) as Hok. unfold session_ok in Hok. destruct (s_phase s) as [| | m | m |] eqn:Hp.
  - rewrite (li_accepting s0 l Hi) in E. injection E as <-.
    assert (linv s0 (set_session x (Session ReadingHeader 0 (s_inp s) (s_eof s) []) l)) as [H1 H2 H3 H4 H5 H6]; [| by constructor].
    apply linv_session; [done |]. split; [done |]. split; [done | apply Hok].
  - destruct (completed HEADER_LENGTH s) as [r |] eqn:Ec; [| done]. destruct (header_handler r) as [p |] eqn:Eh.
    2: { injection E as <-. destruct Hi. by constructor. }
    injection E as <-. apply linv_session; [done |]. destruct Hok as (Hpos & _ & Hx). rewrite Hpos. unfold session_ok. cbn [s_phase s_out s_pos s_inp].
    assert (Hph : p = Over \/ exists m, p = ReadingBody m /\ exists d, r = Some d).
    { unfold header_handler in Eh. destruct r as [d |]; [| left; by injection Eh as <-].
      destruct (decode_header _ _ _) as [[[|] m] |]; [| left; by injection Eh as <- | done].
      destruct (negb _); injection Eh as <-; eauto 6. }
    destruct Hph as [-> | (m & -> & d & ->)]; [by left |]. do 3 (split; [done |]). unfold completed in Ec. rewrite Hpos, drop_0 in Ec.
    destruct (Nat.leb_spec HEADER_LENGTH (length (s_inp s))) as [Hn | Hn]; [| by destruct (s_eof s)]. injection Ec as <-. by split.
  - destruct (completed _ s) as [[d |] |] eqn:Ec; [| | done].
    + destruct (body_handler m (Some d) (l_context l)) as [[p c] |] eqn:Eb.
      2: { injection E as <-. destruct Hi. by constructor. }
      injection E as <-. by eapply linv_called.
    + injection E as <-. apply linv_session; [done | by left].
  - injection E as <-. apply linv_session; [done |]. right. exists (frame_of m). split; [apply Hok | done].
  - done.
Qed.

Lemma linv_thread s0 l t b : linv s0 l -> linv s0 (set_thread t b l).
Proof. intros []. by constructor. Qed.
Lemma activity_inv s0 l l' : activity l l' -> linv s0 l -> linv s0 l'.
Proof.
  destruct 1 as [l x Hx | l x s bs Hs He | l x s Hs | l x l' Hr E | l Hr Ha | l x s m k Hr Hs Hp | l l' E | l c Hd Hw]; intros Hi.
  - apply linv_session; [done |]. do 2 (split; [done |]). intros Hin%(li_known s0 l Hi). rewrite Hx in Hin. by destruct Hin.
  - apply linv_session; [done |]. pose proof (li_sessions s0 l Hi x s Hs) as Hok. destruct s. by eapply session_ok_app.
  - apply linv_session; [done |]. pose proof (li_sessions s0 l Hi x s Hs) as Hok. destruct s as [p n inp eof out].
    rewrite <- (app_nil_r inp) in Hok |- *. cbn. eapply (session_ok_app _ _ _ _ _ eof true _ []) in Hok. by rewrite app_nil_r in Hok.
  - by eapply linv_handle.
  - destruct Hi. by constructor.
  - apply linv_session; [done |]. pose proof (li_sessions s0 l Hi x s Hs) as Hok. unfold session_ok in Hok. rewrite Hp in Hok.
    right. exists (frame_of m). split; [apply Hok |]. apply prefix_take.
  - unfold returns in E. destruct (m_thread l) as [[] |]; [| done | done]. destruct (l_stopped l && _); [| done].
    injection E as <-. by apply linv_thread.
  - apply worker_is_step in Hw. destruct Hi as [H1 H2 H3 H4 H5 H6]. constructor; cbn; [| done | done | | done | done].
    + by eapply rtc_r.
    + eapply Forall_impl; [exact H4 |]. intros kk. by apply call_later.
Qed.
Lemma lstep_inv s0 l l' : lstep l l' -> linv s0 l -> linv s0 l'.
Proof.
  intros [l1 l2 Ha | l1 | pc l1 pc' l2 E] Hi; [by eapply activity_inv | |].
  - unfold run. destruct (m_thread l1); [done |]. by apply linv_thread.
  - unfold stop_step in E. destruct pc, (m_thread l1) as [[] |]; simplify_eq; try done; by apply linv_thread.
Qed.
Lemma lreachable_inv s0 l : rtc lstep (listener_new (initial s0)) l -> linv s0 l.
Proof.
  assert (Hi : linv s0 (listener_new (initial s0))).
  { constructor; cbn; [apply rtc_refl | done | constructor | constructor | |].
    - by intros x ?%elem_of_nil.
    - intros x s. by rewrite lookup_empty. }
  revert Hi. induction 2 as [| l1 l2 l3 Hst _ IH]; [done |]. apply IH. by eapply lstep_inv.
Qed.

(** C28: Sessions that interleave are served as if they ran one at a time: in every state of the
    listener the context is one that requests and workers reach, each connection calls the
    context at most once, and the bytes that a session has written are the beginning of the
    reply that a session alone gives to the bytes of its client, from the state of the context
    at its call, whose successor is followed by the present state. *)
Theorem listener_serializes (s0 : S) (l : listener) :
  rtc lstep (listener_new (initial s0)) l ->
  api_reachable s0 (l_context l) /\ NoDup (l_calls l).*1 /\
  forall x s, l_sessions l !! x = Some s -> s_out s <> [] ->
    exists c c' reply, (x, (c, c')) ∈ l_calls l /\ api_reachable s0 c /\ rtc api_step c' (l_context l) /\
      do_read_request big mem (s_inp s) c = (Replied reply, c') /\ s_out s `prefix_of` reply.
Proof.
  intros Hl%lreachable_inv. destruct Hl as [H1 H2 H3 H4 H5 H6]. split; [done |]. split; [done |]. intros x s Hs Ho.
  assert (Hr : exists reply, replied (l_calls l) x (s_inp s) reply /\ s_out s `prefix_of` reply).
  { specialize (H6 x s Hs). unfold session_ok in H6. destruct (s_phase s); naive_solver. }
  destruct Hr as (reply & (c & c' & Hin & Hd) & Hp). exists c, c', reply. specialize (Hd []). rewrite app_nil_r in Hd.
  rewrite Forall_forall in H4. specialize (H4 _ Hin) as (Hc & _ & Hn). done.
Qed.

(** ** A request that has arrived is answered *)

(** The steps that a session takes when it runs alone and replies. *)
Lemma session_steps inp (c c' : context) reply eof : do_read_request big mem inp c = (Replied reply, c') ->
  exists m d m', waits_for inp m /\ completed HEADER_LENGTH (Session ReadingHeader 0 inp eof []) = Some (Some (take HEADER_LENGTH inp)) /\
    completed (Z.to_nat (expected_length m body)) (Session (ReadingBody m) HEADER_LENGTH inp eof []) = Some (Some d) /\
    body_handler m (Some d) c = Some (Writing m', c') /\ frame_of m' = reply.
Proof.
  intros E. unfold do_read_request in E. change (Z.to_nat (expected_length message_new header)) with HEADER_LENGTH in E.
  destruct (async_read HEADER_LENGTH inp) as [[d rest] |] eqn:Er; [| done]. apply async_read_take in Er as (Hl & -> & ->).
  destruct (decode_header _ _ _) as [[[|] m] |] eqn:Eh; [| done | done]. unfold do_read_request_body in E.
  destruct (negb (expected_length m body =? 0)) eqn:Hz; [| done].
  destruct (async_read (Z.to_nat (expected_length m body)) (drop HEADER_LENGTH inp)) as [[d rest] |] eqn:Eb; [| done].
  apply async_read_take in Eb as (Hb & -> & ->). destruct (api_handler _ c) as [[resp c1] |] eqn:Ea; [| done].
  exists m, (take (Z.to_nat (expected_length m body)) (drop HEADER_LENGTH inp)).
  destruct (encode_response _ _ _) as [[|] m'] eqn:Ee; [| done]. injection E as <- <-. exists m'.
  assert (Hw : header_handler (Some (take HEADER_LENGTH inp)) = Some (ReadingBody m)) by (unfold header_handler; by rewrite Eh, Hz).
  split; [by split |]. unfold completed. cbn [s_pos s_inp]. rewrite drop_0, !(proj2 (Nat.leb_le _ _)) by done.
  do 2 (split; [done |]). split; [| done]. unfold body_handler. rewrite expected_fill, Ea. by rewrite Ee.
Qed.

(** The state when the session [x] has been served. *)
Definition served (x : positive) (c' : context) (reply : list Z) (l l' : listener) : Prop :=
  l_context l' = c' /\ (s_out <$> l_sessions l' !! x) = Some reply /\ forall y, y <> x -> l_sessions l' !! y = l_sessions l !! y.
Lemma served_session x c' reply l l' s : served x c' reply (set_session x s l) l' -> served x c' reply l l'.
Proof. intros (H1 & H2 & H3). split; [done |]. split; [done |]. intros y Hy. rewrite H3 by done. cbn. by rewrite lookup_insert_ne. Qed.

Lemma answer_body l x m d m' c' n inp eof : running l = true -> l_sessions l !! x = Some (Session (ReadingBody m) n inp eof []) ->
  completed (Z.to_nat (expected_length m body)) (Session (ReadingBody m) n inp eof []) = Some (Some d) ->
  body_handler m (Some d) (l_context l) = Some (Writing m', c') -> exists l', rtc lstep l l' /\ served x c' (frame_of m') l l'.
Proof.
  intros Hr Hs Hc Hb. eexists. split.
  - eapply rtc_l; [apply listener_acts, (handler_runs _ x); [done |] | eapply rtc_once, listener_acts, (handler_runs _ x)].
    + unfold handle. rewrite Hs. cbn [s_phase]. rewrite Hc, Hb. reflexivity.
    + exact Hr.
    + unfold handle. cbn [set_session record_call l_sessions]. rewrite lookup_insert_eq. reflexivity.
  - split; [done |]. cbn. rewrite insert_insert_eq, lookup_insert_eq. split; [done |]. intros y Hy. by rewrite lookup_insert_ne.
Qed.
Lemma answer_header l x m d m' c' inp eof : running l = true -> l_sessions l !! x = Some (Session ReadingHeader 0 inp eof []) ->
  waits_for inp m -> completed HEADER_LENGTH (Session ReadingHeader 0 inp eof []) = Some (Some (take HEADER_LENGTH inp)) ->
  completed (Z.to_nat (expected_length m body)) (Session (ReadingBody m) HEADER_LENGTH inp eof []) = Some (Some d) ->
  body_handler m (Some d) (l_context l) = Some (Writing m', c') -> exists l', rtc lstep l l' /\ served x c' (frame_of m') l l'.
Proof.
  intros Hr Hs [Hl Hw] Hc Hd Hb. set (l1 := set_session x (Session (ReadingBody m) HEADER_LENGTH inp eof []) l).
  assert (Hst : lstep l l1).
  { apply listener_acts, (handler_runs _ x); [done |]. unfold handle. rewrite Hs. cbn [s_phase]. by rewrite Hc, Hw. }
  destruct (answer_body l1 x m d m' c' HEADER_LENGTH inp eof) as (l' & Hl' & Hsv); [exact Hr | | done | done |].
  { cbn. by rewrite lookup_insert_eq. }
  exists l'. split; [by eapply rtc_l |]. by eapply served_session.
Qed.

(** C29: A request that has arrived is answered: from every state of the listener in which its
    thread runs, a connection whose client has sent a complete well-formed request of less than
    2 GiB, and which was not closed or served yet, can be served by steps of the listener alone,
    whatever the other sessions are waiting for: the context handles exactly this request, the
    client gets the frame with the response, and the other sessions are as they were. *)
Theorem listener_answers (s0 : S) (l : listener) (x : positive) (s : session) (r : UserRequest) (rest : list Z)
    (resp : response) (c' : context) :
  rtc lstep (listener_new (initial s0)) l -> running l = true ->
  l_sessions l !! x = Some s -> (x ∉ (l_calls l).*1) -> s_phase s <> Over ->
  request_ok r -> s_inp s = reverse (le_bytes 8 (Z.of_nat (length (pack_request r)))) ++ pack_request r ++ rest ->
  api_handler (decoded mem (pack_request r)) (l_context l) = Some (resp, c') ->
  exists l', rtc lstep l l' /\
    served x c' (reverse (le_bytes 8 (Z.of_nat (length (pack_response (user_response resp))))) ++ pack_response (user_response resp)) l l'.
Proof.
  intros Hl%lreachable_inv Hr Hs Hx Ho Hwf Hinp Ha. destruct s as [p n inp eof out]. cbn [s_inp s_phase] in *.
  pose proof (session_reply big mem r rest (l_context l) c' resp Hwf Ha) as E. rewrite <- Hinp in E.
  destruct (session_steps inp (l_context l) c' _ eof E) as (m & d & m' & Hw & Hh & Hd & Hb & <-).
  pose proof (li_sessions s0 l Hl x _ Hs) as Hok. unfold session_ok in Hok. cbn [s_phase s_pos s_out s_inp] in Hok.
  destruct p as [| | m1 | m1 |]; [| | | | done].
  - destruct Hok as (-> & -> & _). set (l1 := set_session x (Session ReadingHeader 0 inp eof []) l).
    assert (Hst : lstep l l1).
    { apply listener_acts, (handler_runs _ x); [done |]. unfold handle. rewrite Hs. cbn [s_phase s_inp s_eof].
      rewrite (li_accepting s0 l Hl). f_equal. unfold l1. destruct Hl as [_ Hacc _ _ _ _]. clear -Hacc. destruct l. cbn in *. by subst. }
    destruct (answer_header l1 x m d m' c' inp eof) as (l' & Hl' & Hsv); try done; [by unfold l1; cbn; rewrite lookup_insert_eq |].
    exists l'. split; [by eapply rtc_l |]. by eapply served_session.
  - destruct Hok as (-> & -> & _). by eapply answer_header.
  - destruct Hok as (-> & -> & _ & Hw1). assert (m1 = m) as -> by (destruct Hw as [_ Hw], Hw1 as [_ Hw1]; congruence).
    by eapply answer_body.
  - destruct Hok as (_ & c1 & c2 & Hin & _). destruct Hx. apply list_elem_of_fmap. by exists (x, (c1, c2)).
Qed.

(** What the other threads leave alone while the listener is being stopped. *)
Lemma handle_keeps x l l' : handle x l = Some l' -> m_thread l' = m_thread l /\ l_stopped l' = l_stopped l.
Proof.
  unfold handle. destruct (l_sessions l !! x) as [s |]; [| done]. destruct (s_phase s) as [| | m | m |]; [| | | | done].
  - destruct (l_accepting l); [| done]. by intros [= <-].
  - destruct (completed _ s) as [r |]; [| done]. destruct (header_handler r); by intros [= <-].
  - destruct (completed _ s) as [r |]; [| done]. destruct (body_handler _ _ _) as [[p c] |]; [| by intros [= <-]].
    destruct r; by intros [= <-].
  - by intros [= <-].
Qed.
Lemma activity_keeps l l' : activity l l' ->
  (m_thread l = None <-> m_thread l' = None) /\ l_stopped l' = l_stopped l.
Proof.
  destruct 1 as [l x Hx | l x s bs Hs He | l x s Hs | l x l' Hr E | l Hr Ha | l x s m k Hr Hs Hp | l l' E | l c Hd Hw]; try done.
  - by apply handle_keeps in E as [-> ->].
  - unfold returns in E. destruct (m_thread l) as [[] |]; [| done | done]. destruct (l_stopped l) eqn:Es; [| done].
    destruct (l_dead l); [done |]. by injection E as <-.
Qed.
Lemma returns_stopped l : m_thread l = Some InRun -> l_stopped l = true -> l_dead l = false ->
  returns l = Some (set_thread (Some Returned) true l).
Proof. intros Ht Hs Hd. unfold returns. by rewrite Ht, Hs, Hd. Qed.

(** Once [m_ios] is stopped, or without its thread, the listener does nothing: clients and
    workers go on, but no session moves and nothing is called. *)
Theorem stopped_listener_is_silent (l l' : listener) : running l = false -> activity l l' ->
  l_calls l' = l_calls l /\ forall x s', l_sessions l' !! x = Some s' ->
    l_sessions l !! x = None \/ exists s, l_sessions l !! x = Some s /\ s_phase s' = s_phase s /\ s_out s' = s_out s /\ s_pos s' = s_pos s.
Proof.
  intros Hru.
  assert (Hput : forall x s0 s1, l_sessions l !! x = s0 -> (match s0 with None => True | Some s0 => s_phase s1 = s_phase s0 /\ s_out s1 = s_out s0 /\ s_pos s1 = s_pos s0 end) ->
    forall y s', <[x := s1]> (l_sessions l) !! y = Some s' ->
    l_sessions l !! y = None \/ exists s, l_sessions l !! y = Some s /\ s_phase s' = s_phase s /\ s_out s' = s_out s /\ s_pos s' = s_pos s).
  { intros x s0 s1 Hx Hc y s' Hy. destruct (decide (x = y)) as [-> | Hne].
    - rewrite lookup_insert_eq in Hy. injection Hy as <-. destruct s0 as [s0 |]; [right | by left]. by exists s0.
    - rewrite lookup_insert_ne in Hy by done. right. by exists s'. }
  destruct 1 as [l x Hx | l x s bs Hs He | l x s Hs | l x l' Hr E | l Hr Ha | l x s m k Hr Hs Hp | l l' E | l c Hd Hw]; try congruence.
  - split; [done |]. by apply (Hput x None).
  - split; [done |]. by apply (Hput x (Some s)).
  - split; [done |]. by apply (Hput x (Some s)).
  - unfold returns in E. destruct (m_thread l) as [[] |]; [| done | done]. destruct (l_stopped l && _); [| done].
    injection E as <-. split; [done |]. intros x s' Hx. right. by exists s'.
  - split; [done |]. intros x s' Hx. right. by exists s'.
Qed.

End Listener.

(** ** Two clients: the request of the first arrives in two pieces, the second sends nothing. *)

#[local] Existing Instance codec.
Abbreviation demo_step := (lstep (S := unit) demo_has demo_op demo_op false demo_mem).
Definition demo_frame : list Z := reverse (le_bytes 8 (Z.of_nat (length (pack_request demo_unload)))) ++ pack_request demo_unload.
Definition demo_first (inp : list Z) : session := Session ReadingHeader 0 inp false [].
Definition demo_listener (inp : list Z) : listener (S := unit) :=
  Listener (Some InRun) false true {[1%positive := demo_first inp; 2%positive := new_connection]} (initial tt) [] false.

Lemma demo_reached : rtc demo_step (listener_new (initial tt)) (demo_listener demo_frame).
Proof.
  apply (rtc_l _ _ (run (listener_new (initial tt)))); [apply listener_runs |].
  eapply rtc_l; [apply listener_acts, (client_connects _ _ _ _ _ _ 1%positive); by vm_compute |].
  eapply rtc_l; [apply listener_acts, (handler_runs _ _ _ _ _ _ 1%positive); [done | by vm_compute] |].
  eapply rtc_l; [apply listener_acts, (client_connects _ _ _ _ _ _ 2%positive); by vm_compute |].
  eapply rtc_l; [apply listener_acts, (client_sends _ _ _ _ _ _ 1%positive (demo_first []) (take 3 demo_frame)); by vm_compute |].
  eapply rtc_l; [apply listener_acts, (client_sends _ _ _ _ _ _ 1%positive (demo_first (take 3 demo_frame)) (drop 3 demo_frame)); by vm_compute |].
  match goal with |- rtc _ ?a ?b => replace a with b by (by vm_compute); apply rtc_refl end.
Qed.

Lemma listener_answers_witness : exists resp c' l', rtc demo_step (demo_listener demo_frame) l' /\
  served 1%positive c' (reverse (le_bytes 8 (Z.of_nat (length (pack_response (user_response resp))))) ++ pack_response (user_response resp))
    (demo_listener demo_frame) l'.
Proof.
  do 2 eexists. eapply (listener_answers demo_has demo_op demo_op false demo_mem tt (demo_listener demo_frame) 1%positive (demo_first demo_frame) demo_unload []).
  - apply demo_reached.
  - done.
  - by vm_compute.
  - by intros ?%elem_of_nil.
  - done.
  - by vm_compute.
  - by vm_compute.
  - by vm_compute.
Defined.

Definition demo_next (l : listener (S := unit)) : listener := default l (handle false demo_mem 1%positive l).
Definition demo_end : listener (S := unit) := demo_next (demo_next (demo_next (demo_listener demo_frame))).
Lemma demo_end_reached : rtc demo_step (listener_new (initial tt)) demo_end.
Proof.
  transitivity (demo_listener demo_frame); [apply demo_reached |].
  assert (Hn : forall l, running l = true -> handle false demo_mem 1%positive l = Some (demo_next l) -> demo_step l (demo_next l))
    by (intros l Hl1 Hl2; by eapply listener_acts, handler_runs).
  eapply rtc_l; [apply Hn; by vm_compute |]. eapply rtc_l; [apply Hn; by vm_compute |]. apply rtc_once, Hn; by vm_compute.
Qed.
Lemma demo_end_out : exists s, l_sessions demo_end !! 1%positive = Some s /\ s_out s <> [].
Proof. eexists. split; [vm_compute; reflexivity | done]. Qed.

Lemma listener_serializes_witness : exists s c c' reply, l_sessions demo_end !! 1%positive = Some s /\ s_out s <> [] /\
  (1%positive, (c, c')) ∈ l_calls demo_end /\ do_read_request false demo_mem (s_inp s) c = (Replied reply, c') /\ s_out s `prefix_of` reply.
Proof.
  destruct demo_end_out as (s & Hs & Ho).
  destruct (listener_serializes demo_has demo_op demo_op false demo_mem tt demo_end demo_end_reached) as (_ & _ & H).
  destruct (H 1%positive s Hs Ho) as (c & c' & reply & Hin & _ & _ & Hr & Hp). by exists s, c, c', reply.
Defined.

End Listener.
