(* ===== verification/Client.v ===== *)
(** * The client library (lib/efs-api.c, lib/requests.c, lib/communication.c, lib/xmalloc.c,
    lib/xstring.c)

    A user of the API calls [efs_load], [efs_status] or [efs_unload] on a control block; the
    library packs a request, sends it to the daemon over a UNIX socket and unpacks the
    reply. The allocator, the connection and the daemon behind it are parameters; the
    last theorems connect the library to the daemon of Api.v. A result [None] is a fault
    (an access outside of an allocation or through a null pointer) or a loop that has not
    ended within the fuel given to the transfer loops. *)
From S2P Require Import Prelude Errors Wire Api.
From stdpp Require Import base list numbers option gmap strings relations.
From Stdlib Require Import Ascii String.
Local Open Scope Z_scope.

Module Client.
Import Errors Wire Api.

(** ** include/efs-api.h: the control block; a [char*] is a string or null *)
Record efs_iocb := Iocb {
  efs_backend : option string; efs_path : option string; efs_offset : Z; efs_size : Z; iocb_tid : Z }.

(** [EFS_IOCB_INIT] *)
Definition EFS_IOCB_INIT (backend path : option string) (offset size : Z) : efs_iocb :=
  Iocb backend path offset size 0.

(** ** lib/requests.h *)
Inductive request_type_t := EFS_LOAD_PATH | EFS_UNLOAD_PATH | EFS_STATUS | EFS_GET_CONFIG.
Inductive response_type_t := EFS_REQUEST_ACCEPTED | EFS_REQUEST_REJECTED | EFS_BAD_REQUEST.
Record response_t := Response { cr_type : response_type_t; cr_tid : Z; cr_status : Z }.

(** The bytes of a string, and the string before the first null byte. *)
Definition byte_of_ascii (a : ascii) : Z := Z.of_N (N_of_ascii a).
Definition ascii_of_byte (b : Z) : ascii := ascii_of_N (Z.to_N b).
Definition bytes_of (s : string) : list Z := byte_of_ascii <$> list_ascii_of_string s.
Fixpoint cstring (l : list Z) : string :=
  match l with
  | [] => EmptyString
  | b :: l => if b =? 0 then EmptyString else String (ascii_of_byte b) (cstring l)
  end.

Section Library.

(** [malloc n]: the bytes that can be used at the address it returns, or null. *)
Context (malloc : Z -> option (list Z)) (sizeof_UserRequest sizeof_LoadPath : Z).
Context `{Protobuf}.
(** The byte order of the host, [connect], the daemon and the iterations allowed to a
    transfer loop. *)
Context {St : Type} (big : bool) (connect : option conn) (serve : list Z -> St -> list Z * St) (fuel : nat).

(** ** lib/xmalloc.c *)
Definition norns_xmalloc (size : Z) (clear : bool) : option (list Z) :=
  if size <=? 0 then None
  else
    match malloc size with
    | None => None
    | Some b => Some (if clear then replicate (Z.to_nat size) 0 ++ drop (Z.to_nat size) b else b)
    end.
Definition xmalloc (size : Z) : option (list Z) := norns_xmalloc size true.
Definition xmalloc_nz (size : Z) : option (list Z) := norns_xmalloc size false.

(** ** lib/xstring.c *)

(** [block[i] = b], in bounds. *)
Definition store_byte (block : list Z) (i : nat) (b : Z) : option (list Z) :=
  if (i <? List.length block)%nat then Some (<[i := b]> block) else None.
(** [strncpy(block, str, n)] with room for [n] bytes. *)
Definition strncpy (block : list Z) (s : string) (n : nat) : option (list Z) :=
  if (n <=? List.length block)%nat then
    Some (overwrite (take n (bytes_of s ++ replicate n 0)) block)
  else None.

(** [xstrdup(str)]: a fault, null, or a block with a copy. *)
Definition xstrdup (str : option string) : option (option (list Z)) :=
  match str with
  | None => Some None
  | Some s =>
      let sz := Z.of_nat (String.length s) + 1 in
      match xmalloc sz with
      | None => None
      | Some res =>
          match strncpy res s (Z.to_nat sz) with
          | None => None
          | Some res => Some <$> store_byte res (Z.to_nat sz) 0
          end
      end
  end.

(** ** lib/requests.c *)

(** [build_load_path_msg(cbp)]: a fault, null, or the message. *)
Definition build_load_path_msg (cbp : efs_iocb) : option (option LoadPath) :=
  match xmalloc sizeof_LoadPath with
  | None => Some None
  | Some _ =>
      match xstrdup (efs_backend cbp) with
      | None => None
      | Some None => Some None
      | Some (Some backend) =>
          match xstrdup (efs_path cbp) with
          | None => None
          | Some None => Some None
          | Some (Some path) =>
              Some (Some (MkLoadPath (cstring backend) (cstring path) false
                (efs_offset cbp) (efs_size cbp)))
          end
      end
  end.

(** [remap_request_type(type)]; -1 for the others. *)
Definition remap_request_type (t : request_type_t) : option UserRequest_Type :=
  match t with
  | EFS_LOAD_PATH => Some LOAD_PATH
  | EFS_UNLOAD_PATH => Some UNLOAD_PATH
  | EFS_STATUS => Some STATUS
  | EFS_GET_CONFIG => None
  end.

(** [build_request_msg(type, ap)]: the message starts as [efsng__api__user_request__init]
    leaves it, with the first enumerator as its type. *)
Definition build_request_msg (t : request_type_t) (cbp : efs_iocb) : option (option UserRequest) :=
  let with_load ty :=
    match build_load_path_msg cbp with
    | None => None
    | Some None => Some None
    | Some (Some d) => Some (Some (MkUserRequest ty (Some d) None None None))
    end in
  match xmalloc sizeof_UserRequest with
  | None => Some None
  | Some _ =>
      match t with
      | EFS_LOAD_PATH | EFS_UNLOAD_PATH =>
          match remap_request_type t with
          | None => Some None
          | Some ty => with_load ty
          end
      | EFS_STATUS =>
          match remap_request_type t with
          | None => Some None
          | Some ty => Some (Some (MkUserRequest ty None None None (Some (u64 (iocb_tid cbp)))))
          end
      | EFS_GET_CONFIG => Some (Some (MkUserRequest LOAD_PATH None None None None))
      end
  end.

(** [pack_to_buffer(type, buf, cbp)]: the code it returns and the buffer. *)
Definition pack_to_buffer (t : request_type_t) (cbp : efs_iocb) : option (Z * list Z) :=
  match build_request_msg t cbp with
  | None => None
  | Some None => Some (EFS_API_ENOMEM, [])
  | Some (Some reqmsg) =>
      let packed := pack_request reqmsg in
      match xmalloc_nz (Z.of_nat (List.length packed)) with
      | None => Some (EFS_API_ENOMEM, [])
      | Some _ => Some (EFS_API_SUCCESS, packed)
      end
  end.

(** [unpack_from_buffer(buf, resp)]: the code and [*resp] afterwards. *)
Definition unpack_from_buffer (buf : list Z) (resp : response_t) : Z * response_t :=
  match parse_response buf with
  | None => (EFS_API_EUNPACKFAILED, resp)
  | Some respmsg =>
      let ty := match us_type respmsg with
                | ACCEPTED => EFS_REQUEST_ACCEPTED
                | REJECTED => EFS_REQUEST_REJECTED
                end in
      match us_tid respmsg, us_status respmsg with
      | None, None => (EFS_API_EUNPACKFAILED, Response ty (cr_tid resp) (cr_status resp))
      | tid, st =>
          (EFS_API_SUCCESS,
           Response ty (match tid with Some x => x | None => cr_tid resp end)
             (match st with Some x => s32 x | None => cr_status resp end))
      end
  end.

(** ** lib/communication.c *)

(** [send_request(type, resp, cbp)]: the code, [*resp], and the daemon afterwards. The
    daemon answers what was written before the client reads. *)
Definition send_request (t : request_type_t) (resp : response_t) (cbp : efs_iocb) (st : St)
  : option (Z * response_t * St) :=
  match t with
  | EFS_GET_CONFIG => Some (EFS_API_ESNAFU, resp, st)
  | _ =>
      match pack_to_buffer t cbp with
      | None => None
      | Some (res, req_buf) =>
          if negb (res =? EFS_API_SUCCESS) then Some (res, resp, st)
          else
            match connect with
            | None => Some (EFS_API_ECONNFAILED, resp, st)
            | Some c =>
                match send_message big fuel req_buf c with
                | None => None
                | Some (false, _) => Some (EFS_API_ERPCSENDFAILED, resp, st)
                | Some (true, c) =>
                    let '(reply, st) := serve (c_out c) st in
                    let c := Conn (c_in c ++ reply) (c_out c) (c_reads c) (c_writes c) (c_errno c) in
                    match recv_message big (fun n => take (Z.to_nat n) <$> xmalloc_nz n) fuel c with
                    | None => None
                    | Some (None, _) => Some (EFS_API_ERPCRECVFAILED, resp, st)
                    | Some (Some resp_buf, _) =>
                        let '(res, resp) := unpack_from_buffer resp_buf resp in
                        Some (res, resp, st)
                    end
                end
            end
      end
  end.

(** [send_load_request(cbp)]; [resp] is an uninitialised local. *)
Definition send_load_request (junk : response_t) (cbp : efs_iocb) (st : St) : option (Z * efs_iocb * St) :=
  match send_request EFS_LOAD_PATH junk cbp st with
  | None => None
  | Some (res, resp, st) =>
      if negb (res =? EFS_API_SUCCESS) then Some (res, cbp, st)
      else
        match cr_type resp with
        | EFS_REQUEST_ACCEPTED =>
            Some (EFS_API_SUCCESS,
              Iocb (efs_backend cbp) (efs_path cbp) (efs_offset cbp) (efs_size cbp) (s32 (cr_tid resp)), st)
        | _ => Some (cr_status resp, cbp, st)
        end
  end.

(** [send_status_request(cbp)] *)
Definition send_status_request (junk : response_t) (cbp : efs_iocb) (st : St) : option (Z * efs_iocb * St) :=
  match send_request EFS_STATUS junk cbp st with
  | None => None
  | Some (res, resp, st) =>
      if negb (res =? EFS_API_SUCCESS) then Some (res, cbp, st) else Some (cr_status resp, cbp, st)
  end.

(** [send_unload_request(cbp)] *)
Definition send_unload_request (cbp : efs_iocb) (st : St) : option (Z * efs_iocb * St) :=
  match pack_to_buffer EFS_UNLOAD_PATH cbp with
  | None => None
  | Some (res, _) => if negb (res =? EFS_API_SUCCESS) then Some (res, cbp, st) else Some (EFS_API_SUCCESS, cbp, st)
  end.

(** ** lib/efs-api.c; a null control block is [None] *)
Definition efs_load (junk : response_t) (cbp : option efs_iocb) (st : St) : option (Z * option efs_iocb * St) :=
  match cbp with
  | Some cb =>
      match efs_path cb with
      | Some _ =>
          if 0 <=? efs_offset cb then
            match send_load_request junk cb st with
            | Some (r, cb, st) => Some (r, Some cb, st)
            | None => None
            end
          else Some (EFS_API_EINVAL, Some cb, st)
      | None => Some (EFS_API_EINVAL, Some cb, st)
      end
  | None => Some (EFS_API_EINVAL, None, st)
  end.
Definition efs_status (junk : response_t) (cbp : option efs_iocb) (st : St) : option (Z * option efs_iocb * St) :=
  match cbp with
  | Some cb =>
      match send_status_request junk cb st with
      | Some (r, cb, st) => Some (r, Some cb, st)
      | None => None
      end
  | None => Some (EFS_API_EINVAL, None, st)
  end.
Definition efs_unload (cbp : option efs_iocb) (st : St) : option (Z * option efs_iocb * St) :=
  match cbp with
  | Some cb =>
      match send_unload_request cb st with
      | Some (r, cb, st) => Some (r, Some cb, st)
      | None => None
      end
  | None => Some (EFS_API_EINVAL, None, st)
  end.

End Library.
(** ** Strings in memory *)

(** A C string has no null character. *)
Fixpoint no_nul (s : string) : Prop :=
  match s with EmptyString => True | String a s => a <> Ascii.zero /\ no_nul s end.

Lemma byte_of_ascii_nonzero a : a <> Ascii.zero -> byte_of_ascii a <> 0.
Proof.
  intros Ha Hb. apply Ha. unfold byte_of_ascii in Hb.
  rewrite <- (ascii_N_embedding a). by replace (N_of_ascii a) with 0%N by lia.
Qed.
Lemma ascii_of_byte_of_ascii a : ascii_of_byte (byte_of_ascii a) = a.
Proof. unfold ascii_of_byte, byte_of_ascii. rewrite N2Z.id. apply ascii_N_embedding. Qed.

Lemma cstring_bytes s l : no_nul s -> cstring (bytes_of s ++ 0 :: l) = s.
Proof.
  induction s as [| a s IH]; simpl; [done |]. intros [Ha Hs].
  rewrite (proj2 (Z.eqb_neq _ _) (byte_of_ascii_nonzero a Ha)), ascii_of_byte_of_ascii.
  f_equal. by apply IH.
Qed.

Lemma bytes_of_length s : List.length (bytes_of s) = String.length s.
Proof. unfold bytes_of. rewrite length_fmap. induction s; simpl; auto. Qed.

Lemma xstrdup_spec malloc s b :
  no_nul s -> malloc (Z.of_nat (String.length s) + 1) = Some b ->
  (S (String.length s) <= List.length b)%nat ->
  if decide (List.length b = S (String.length s)) then xstrdup malloc (Some s) = None
  else exists blk, xstrdup malloc (Some s) = Some (Some blk) /\ cstring blk = s.
Proof.
  intros Hs Hm Hb. unfold xstrdup, xmalloc, norns_xmalloc.
  set (n := String.length s) in *.
  rewrite (proj2 (Z.leb_gt _ _)) by lia. rewrite Hm.
  replace (Z.to_nat (Z.of_nat n + 1)) with (S n) by lia.
  set (blk := replicate (S n) 0 ++ drop (S n) b).
  assert (Hlen : List.length blk = List.length b).
  { unfold blk. rewrite length_app, length_replicate, length_drop. lia. }
  unfold strncpy. rewrite (proj2 (Nat.leb_le _ _)) by lia.
  assert (Htake : take (S n) (bytes_of s ++ replicate (S n) 0) = bytes_of s ++ [0]).
  { rewrite take_app_ge by (rewrite bytes_of_length; fold n; lia).
    rewrite bytes_of_length. fold n. by replace (S n - n)%nat with 1%nat by lia. }
  rewrite Htake.
  assert (Hblk2 : List.length (overwrite (bytes_of s ++ [0]) blk) = List.length b).
  { unfold overwrite. rewrite !length_app, length_drop, bytes_of_length. fold n. rewrite Hlen. cbn [List.length]. lia. }
  unfold store_byte. rewrite Hblk2. destruct (decide (List.length b = S n)) as [E | E].
  - rewrite E. by rewrite Nat.ltb_irrefl.
  - rewrite (proj2 (Nat.ltb_lt _ _)) by lia. eexists. split; [done |].
    unfold overwrite. rewrite insert_app_r_alt by (rewrite length_app, bytes_of_length; fold n; simpl; lia).
    rewrite <- app_assoc. by apply cstring_bytes.
Qed.

(** ** Packing *)

(** Every allocation succeeds, with at least the bytes that were asked for. *)
Definition allocates (malloc : Z -> option (list Z)) : Prop :=
  forall n, 0 < n -> exists b, malloc n = Some b /\ n <= Z.of_nat (List.length b).
(** The block for the copy of [s] has a byte more than was asked for. *)
Definition spare (malloc : Z -> option (list Z)) (s : string) : bool :=
  match malloc (Z.of_nat (String.length s) + 1) with
  | Some b => Z.of_nat (String.length s) + 1 <? Z.of_nat (List.length b)
  | None => false
  end.

Lemma xstrdup_allocates malloc s : allocates malloc -> no_nul s ->
  if spare malloc s then exists blk, xstrdup malloc (Some s) = Some (Some blk) /\ cstring blk = s
  else xstrdup malloc (Some s) = None.
Proof.
  intros Hr Hs. unfold spare. destruct (Hr (Z.of_nat (String.length s) + 1)) as (b & Hb & Hlen); [lia |]. rewrite Hb.
  pose proof (xstrdup_spec malloc s b Hs Hb ltac:(lia)) as H. destruct (Z.ltb_spec (Z.of_nat (String.length s) + 1) (Z.of_nat (List.length b))).
  - by rewrite decide_False in H by lia.
  - by rewrite decide_True in H by lia.
Qed.

Lemma xmalloc_allocates malloc n clear : allocates malloc -> 0 < n ->
  exists b, norns_xmalloc malloc n clear = Some b /\ n <= Z.of_nat (List.length b).
Proof.
  intros Hr Hn. unfold norns_xmalloc. rewrite (proj2 (Z.leb_gt _ _)) by lia.
  destruct (Hr n Hn) as (b & -> & Hb). eexists. split; [done |].
  destruct clear; [| done]. rewrite length_app, length_replicate, length_drop. lia.
Qed.

Section Packing.
Context (malloc : Z -> option (list Z)) (szr szl : Z) `{Protobuf}.
Context (Hmalloc : allocates malloc) (Hszr : 0 < szr) (Hszl : 0 < szl).

(** The descriptor of a control block. *)
Definition descriptor (backend path : string) (cbp : efs_iocb) : LoadPath :=
  MkLoadPath backend path false (efs_offset cbp) (efs_size cbp).

Lemma build_load_path_msg_ok cbp backend path :
  efs_backend cbp = Some backend -> efs_path cbp = Some path -> no_nul backend -> no_nul path ->
  build_load_path_msg malloc szl cbp =
    if spare malloc backend && spare malloc path then Some (Some (descriptor backend path cbp)) else None.
Proof.
  intros Eb Ep Hb Hp. unfold build_load_path_msg, xmalloc.
  destruct (xmalloc_allocates malloc szl true Hmalloc Hszl) as (x & -> & _). rewrite Eb, Ep.
  pose proof (xstrdup_allocates malloc backend Hmalloc Hb) as H1. pose proof (xstrdup_allocates malloc path Hmalloc Hp) as H2.
  destruct (spare malloc backend); [destruct H1 as (b1 & -> & <-) | by rewrite H1].
  destruct (spare malloc path); [by destruct H2 as (b2 & -> & <-) | by rewrite H2].
Qed.

(** The request of a call. *)
Definition load_request (backend path : string) (cbp : efs_iocb) : UserRequest :=
  MkUserRequest LOAD_PATH (Some (descriptor backend path cbp)) None None None.
Definition status_request (cbp : efs_iocb) : UserRequest :=
  MkUserRequest STATUS None None None (Some (u64 (iocb_tid cbp))).

Lemma pack_ok reqmsg t cbp :
  build_request_msg malloc szr szl t cbp = Some (Some reqmsg) ->
  pack_to_buffer malloc szr szl t cbp = Some (EFS_API_SUCCESS, pack_request reqmsg).
Proof.
  intros Hb. unfold pack_to_buffer. rewrite Hb. unfold xmalloc_nz.
  destruct (xmalloc_allocates malloc (Z.of_nat (List.length (pack_request reqmsg))) false Hmalloc)
    as (x & -> & _); [| done].
  pose proof (pack_request_size reqmsg). lia.
Qed.

Lemma build_request_load cbp backend path :
  efs_backend cbp = Some backend -> efs_path cbp = Some path -> no_nul backend -> no_nul path ->
  let fine := spare malloc backend && spare malloc path in
  build_request_msg malloc szr szl EFS_LOAD_PATH cbp = (if fine then Some (Some (load_request backend path cbp)) else None) /\
  build_request_msg malloc szr szl EFS_UNLOAD_PATH cbp =
    (if fine then Some (Some (MkUserRequest UNLOAD_PATH (Some (descriptor backend path cbp)) None None None)) else None).
Proof.
  intros Eb Ep Hb Hp. unfold build_request_msg, xmalloc.
  destruct (xmalloc_allocates malloc szr true Hmalloc Hszr) as (x & -> & _). simpl.
  rewrite (build_load_path_msg_ok cbp backend path) by done. by destruct (_ && _).
Qed.

Lemma build_request_status cbp :
  build_request_msg malloc szr szl EFS_STATUS cbp = Some (Some (status_request cbp)).
Proof.
  unfold build_request_msg, xmalloc.
  by destruct (xmalloc_allocates malloc szr true Hmalloc Hszr) as (x & -> & _).
Qed.

(** One exchange with the daemon: the reply that the session wrote is unpacked. *)
Lemma exchange {St} big serve fuel t cbp (reqmsg : UserRequest) (resp : UserResponse) (st st' : St) c junk :
  t <> EFS_GET_CONFIG ->
  build_request_msg malloc szr szl t cbp = Some (Some reqmsg) ->
  c_in c = [] -> c_out c = [] -> no_failure (c_reads c) -> no_failure (c_writes c) ->
  (List.length (c_reads c) < fuel)%nat -> (List.length (c_writes c) < fuel)%nat ->
  Z.of_nat (List.length (pack_request reqmsg)) < 2 ^ 31 ->
  serve (reverse (le_bytes 8 (Z.of_nat (List.length (pack_request reqmsg)))) ++ pack_request reqmsg) st =
    (reverse (le_bytes 8 (Z.of_nat (List.length (pack_response resp)))) ++ pack_response resp, st') ->
  response_wf resp ->
  send_request malloc szr szl big (Some c) serve fuel t junk cbp st =
  (let '(res, r) := unpack_from_buffer (pack_response resp) junk in Some (res, r, st')).
Proof.
  intros Ht Hb Hin Hout Hnr Hnw Hfr Hfw Hmax Hserve Hwf.
  pose proof (pack_request_size reqmsg) as Hs1. pose proof (pack_response_size resp) as Hs2.
  unfold vector_max_size in *.
  assert (Hsend : send_request malloc szr szl big (Some c) serve fuel t junk cbp st =
    match send_message big fuel (pack_request reqmsg) c with
    | None => None
    | Some (false, _) => Some (EFS_API_ERPCSENDFAILED, junk, st)
    | Some (true, c) =>
        let '(reply, st) := serve (c_out c) st in
        let c := Conn (c_in c ++ reply) (c_out c) (c_reads c) (c_writes c) (c_errno c) in
        match recv_message big (fun n => take (Z.to_nat n) <$> xmalloc_nz malloc n) fuel c with
        | None => None
        | Some (None, _) => Some (EFS_API_ERPCRECVFAILED, junk, st)
        | Some (Some resp_buf, _) =>
            let '(res, resp) := unpack_from_buffer resp_buf junk in Some (res, resp, st)
        end
    end).
  { unfold send_request. rewrite (pack_ok reqmsg) by done. by destruct t. }
  rewrite Hsend. destruct c as [i o r w e]. cbn [c_in c_out c_reads c_writes] in *. subst i o.
  destruct (send_message_complete big fuel (pack_request reqmsg) [] [] r w e) as (w' & e' & _ & ->); auto.
  { intros E. rewrite E in Hs1. simpl in Hs1. lia. }
  { lia. }
  cbn [c_in c_out c_reads c_writes c_errno app]. rewrite Hserve.
  destruct (xmalloc_allocates malloc (Z.of_nat (List.length (pack_response resp))) false Hmalloc)
    as (x & Hx & Hxl); [lia |].
  destruct (recv_message_complete big (fun n => take (Z.to_nat n) <$> xmalloc_nz malloc n) fuel
    (pack_response resp) []
    (reverse (le_bytes 8 (Z.of_nat (List.length (pack_request reqmsg)))) ++ pack_request reqmsg) r w' e'
    (take (List.length (pack_response resp)) x)) as (r' & e'' & _ & Hrecv); auto.
  { intros E. rewrite E in Hs2. simpl in Hs2. lia. }
  { lia. }
  { unfold xmalloc_nz. rewrite Hx. simpl. by rewrite Nat2Z.id. }
  { rewrite length_take. lia. }
  rewrite app_nil_r in Hrecv. by rewrite Hrecv.
Qed.

End Packing.

(** ** The library and the daemon *)

Section EndToEnd.
Context {S : Type} (has_backend : string -> bool)
  (backend_load backend_unload : string -> string -> S -> error_code * S).
Context (malloc : Z -> option (list Z)) (szr szl : Z) `{Protobuf}.
Context (client_big daemon_big : bool) (mem : Api.request).

(** The daemon behind the socket: one session per connection. *)
Definition daemon (bytes : list Z) (c : Api.context (S := S)) : list Z * Api.context :=
  match do_read_request daemon_big mem bytes c with
  | (Replied b, c') => (b, c')
  | (_, c') => ([], c')
  end.

Lemma daemon_answers reqmsg resp c c' :
  request_ok reqmsg ->
  api_handler (decoded mem (pack_request reqmsg)) c = Some (resp, c') ->
  daemon (reverse (le_bytes 8 (Z.of_nat (List.length (pack_request reqmsg)))) ++ pack_request reqmsg) c =
  (reverse (le_bytes 8 (Z.of_nat (List.length (pack_response (user_response resp)))))
     ++ pack_response (user_response resp), c').
Proof.
  intros Hwf Hh. unfold daemon.
  pose proof (session_reply daemon_big mem reqmsg [] c c' resp Hwf Hh) as Hs.
  rewrite app_nil_r in Hs. by rewrite Hs.
Qed.

(** A fresh connection whose calls do not fail, and loops with enough iterations. *)
Record usable (c : conn) (fuel : nat) : Prop := {
  us_in : c_in c = []; us_out : c_out c = [];
  us_reads : no_failure (c_reads c); us_writes : no_failure (c_writes c);
  us_fuel_r : (List.length (c_reads c) < fuel)%nat;
  us_fuel_w : (List.length (c_writes c) < fuel)%nat
}.

(** C25: [efs_load] end to end, on a connection that does not fail, with an allocator that
    always returns a block of at least the size asked for, for a request of less than 2 GiB,
    while a task id is free. If the blocks for the copies of the two strings have a spare byte,
    the daemon queues exactly the requested load under a new task id and the call returns
    success with that id stored in the control block, on hosts of any byte order and however the
    transfers are split. If one of them has none, the call writes behind the block: a fault. *)
Theorem efs_load_end_to_end (s : S) (c : Api.context) (k : conn) (fuel : nat) (junk : response_t)
    (backend path : string) (offset size tid0 : Z) :
  let cb tid := Iocb (Some backend) (Some path) offset size tid in
  allocates malloc -> 0 < szr -> 0 < szl -> usable k fuel ->
  reachable has_backend backend_load backend_unload s c -> ~ full (c_tracker c) ->
  no_nul backend -> no_nul path -> 0 <= offset < 2 ^ 63 -> 0 <= size < 2 ^ 64 ->
  Z.of_nat (List.length (pack_request (load_request backend path (cb tid0)))) < 2 ^ 31 ->
  if spare malloc backend && spare malloc path then
    exists tid c',
      efs_load malloc szr szl client_big (Some k) daemon fuel junk (Some (cb tid0)) c =
      Some (EFS_API_SUCCESS, Some (cb (s32 tid)), c') /\
      c_tracker c !! tid = None /\ c_tracker c' !! tid = Some task_pending /\
      c_queue c' = c_queue c ++ [(tid, request_load mem backend path false offset size)]
  else efs_load malloc szr szl client_big (Some k) daemon fuel junk (Some (cb tid0)) c = None.
Proof.
  intros cbf Hmalloc Hszr Hszl [U1 U2 U3 U4 U5 U6] Hr Hnf Hb Hp Ho Hsz Hmax.
  set (cb := cbf tid0) in *. destruct (build_request_load malloc szr szl Hmalloc Hszr Hszl cb backend path eq_refl eq_refl Hb Hp) as [Hbuild _].
  destruct (spare malloc backend && spare malloc path).
  2: { unfold efs_load. cbn [efs_path efs_offset cb cbf]. rewrite (proj2 (Z.leb_le _ _)) by lia.
       unfold send_load_request, send_request, pack_to_buffer. by rewrite Hbuild. }
  set (req := request_load mem backend path false offset size).
  destruct (accept_async has_backend backend_load backend_unload s c req Hr eq_refl Hnf)
    as (tid & Hrange & Hnone & Hh).
  assert (Hwf : request_ok (load_request backend path cb)).
  { split; [| exact Hmax]. split; [| done]. simpl. unfold in_s64, is_u64. lia. }
  assert (Hdec : decoded mem (pack_request (load_request backend path cb)) = req).
  { rewrite decoded_ok by done. unfold create_from_buffer. by rewrite parse_pack_request by apply Hwf. }
  rewrite <- Hdec in Hh at 1.
  set (c' := Ctx _ _ _ _ _) in Hh.
  assert (Hd := daemon_answers _ _ _ _ Hwf Hh).
  exists tid, c'. split.
  - unfold efs_load. cbn [efs_path efs_offset cb cbf]. rewrite (proj2 (Z.leb_le _ _)) by lia.
    unfold send_load_request.
    rewrite (exchange malloc szr szl Hmalloc client_big daemon fuel EFS_LOAD_PATH cb
      (load_request backend path cb) (user_response (response_task accepted tid success)) c c' k junk);
      auto.
    + unfold unpack_from_buffer. rewrite parse_pack_response; [done |].
      split; simpl; [unfold is_u64; lia | apply u32_range].
    + split; simpl; [unfold is_u64; lia | apply u32_range].
  - split; [done |]. split; [apply lookup_insert_eq |]. done.
Qed.

(** C26: [efs_status] end to end, on a connection that does not fail, with an allocator that
    always returns a block of at least the size asked for, for a request of less than 2 GiB:
    for a control block whose id came from [efs_load], the call returns the API code of the
    tracked status of that task, or of [no_such_task], and does not change the daemon. *)
Theorem efs_status_end_to_end (c : Api.context) (k : conn) (fuel : nat) (junk : response_t)
    (cb : efs_iocb) (tid : Z) :
  allocates malloc -> 0 < szr -> usable k fuel ->
  0 <= tid < 2 ^ 32 -> iocb_tid cb = s32 tid ->
  Z.of_nat (List.length (pack_request (status_request cb))) < 2 ^ 31 ->
  efs_status malloc szr szl client_big (Some k) daemon fuel junk (Some cb) c =
  Some (make_api_error (default no_such_task (c_tracker c !! tid)), Some cb, c).
Proof.
  intros Hmalloc Hszr [U1 U2 U3 U4 U5 U6] Ht Hcb Hmax.
  set (st := default no_such_task (c_tracker c !! tid)).
  assert (Hid : u32 (u64 (iocb_tid cb)) = tid).
  { rewrite Hcb. unfold u32, u64, s32.
    rewrite Z.mod_mod_divide by (exists (2 ^ 32); reflexivity).
    rewrite Zminus_mod_idemp_l, Z.add_simpl_r. apply Z.mod_small. lia. }
  assert (Hwf : request_ok (status_request cb)).
  { split; [| exact Hmax]. split; [done |]. simpl. apply u64_range. }
  assert (Hh : api_handler (decoded mem (pack_request (status_request cb))) c =
    Some (response_code accepted st, c)).
  { rewrite decoded_ok by done. unfold create_from_buffer. rewrite parse_pack_request by apply Hwf. simpl. rewrite Hid.
    unfold api_handler, tracker_get. simpl. subst st. by destruct (c_tracker c !! tid). }
  assert (Hd := daemon_answers _ _ _ _ Hwf Hh).
  unfold efs_status, send_status_request.
  rewrite (exchange malloc szr szl Hmalloc client_big daemon fuel EFS_STATUS cb
    (status_request cb) (user_response (response_code accepted st)) c c k junk);
    auto; [| by apply build_request_status |].
  - unfold unpack_from_buffer. rewrite parse_pack_response.
    + simpl. by rewrite status_roundtrip.
    + split; [done |]. apply u32_range.
  - split; [done |]. apply u32_range.
Qed.

(** [efs_unload] never reaches the daemon: it returns success as soon as a request
    could be packed, and neither the connection nor the daemon takes part. The request
    it packs carries a load descriptor, which the daemon rejects for an unload. *)
Theorem efs_unload_no_effect (c : Api.context (S := S)) (backend path : string) (cb : efs_iocb) :
  allocates malloc -> 0 < szr -> 0 < szl -> no_nul backend -> no_nul path ->
  efs_backend cb = Some backend -> efs_path cb = Some path ->
  in_s64 (efs_offset cb) -> is_u64 (efs_size cb) -> spare malloc backend = true -> spare malloc path = true ->
  Z.of_nat (List.length (pack_request (MkUserRequest UNLOAD_PATH (Some (descriptor backend path cb)) None None None))) < 2 ^ 31 ->
  efs_unload malloc szr szl (Some cb) c = Some (EFS_API_SUCCESS, Some cb, c) /\
  exists buf, pack_to_buffer malloc szr szl EFS_UNLOAD_PATH cb = Some (EFS_API_SUCCESS, buf) /\
    api_handler (decoded mem buf) c = Some (response_code rejected bad_request, c).
Proof.
  intros Hmalloc Hszr Hszl Hb Hp Eb Ep Ho Hs Hs1 Hs2 Hmax.
  destruct (build_request_load malloc szr szl Hmalloc Hszr Hszl cb backend path Eb Ep Hb Hp) as [_ Hu].
  rewrite Hs1, Hs2 in Hu. cbn [andb] in Hu.
  pose proof (pack_ok malloc szr szl Hmalloc _ _ _ Hu) as Hpack. split.
  - unfold efs_unload, send_unload_request. by rewrite Hpack.
  - eexists. split; [exact Hpack |].
    assert (Hok : request_ok (MkUserRequest UNLOAD_PATH (Some (descriptor backend path cb)) None None None)) by done.
    rewrite decoded_ok by done. unfold create_from_buffer. by rewrite parse_pack_request by apply Hok.
Qed.

End EndToEnd.

(** [xstrdup] writes one byte past the block it asked for: the call is a fault
    exactly when the allocator returned no spare byte, and a copy of the string
    otherwise. *)
Theorem xstrdup_overflow (malloc : Z -> option (list Z)) (s : string) (b : list Z) :
  no_nul s -> malloc (Z.of_nat (String.length s) + 1) = Some b ->
  Z.of_nat (String.length s) + 1 <= Z.of_nat (List.length b) ->
  (xstrdup malloc (Some s) = None <-> Z.of_nat (List.length b) = Z.of_nat (String.length s) + 1) /\
  (Z.of_nat (List.length b) <> Z.of_nat (String.length s) + 1 ->
   exists blk, xstrdup malloc (Some s) = Some (Some blk) /\ cstring blk = s).
Proof.
  intros Hs Hm Hb. pose proof (xstrdup_spec malloc s b Hs Hm ltac:(lia)) as H.
  destruct (decide (List.length b = Datatypes.S (String.length s))) as [E | E].
  - split; [split; [lia | done] | lia].
  - destruct H as (blk & Hx & Hc). split; [split; [congruence | lia] | eauto].
Qed.

(** ** Witnesses *)

Definition demo_malloc (n : Z) : option (list Z) := Some (replicate (Datatypes.S (Z.to_nat n)) 0).
Lemma demo_malloc_allocates : allocates demo_malloc.
Proof. intros n Hn. eexists. split; [done |]. rewrite length_replicate. lia. Qed.

Definition demo_conn : conn := Conn [] [] [Transfer 0; Interrupted] [Interrupted; Transfer 3] 0.
Lemma demo_conn_usable : usable demo_conn 5.
Proof.
  constructor; [done | done | | | simpl; lia | simpl; lia];
    apply (bool_decide_unpack _); vm_compute; exact I.
Qed.
Definition demo_junk : response_t := Response EFS_BAD_REQUEST 77 78.

Lemma demo_not_full : ~ full (c_tracker demo_busy).
Proof. intros Hf. destruct (Hf 5 ltac:(lia)) as [x Hx]. vm_compute in Hx. discriminate. Qed.

Lemma efs_load_end_to_end_witness :
  exists tid c',
    efs_load demo_malloc 64 64 (H := codec) false (Some demo_conn) (daemon (H := codec) true demo_mem) 5
      demo_junk (Some (Iocb (Some "nvram") (Some "/data/in") 0 4096 0)) demo_busy =
    Some (EFS_API_SUCCESS, Some (Iocb (Some "nvram") (Some "/data/in") 0 4096 (s32 tid)), c') /\
    c_tracker demo_busy !! tid = None /\ c_tracker c' !! tid = Some task_pending /\
    c_queue c' = c_queue demo_busy ++ [(tid, request_load demo_mem "nvram" "/data/in" false 0 4096)].
Proof.
  apply (efs_load_end_to_end demo_has demo_op demo_op demo_malloc 64 64 (H := codec) false true demo_mem
    tt demo_busy demo_conn 5 demo_junk "nvram" "/data/in" 0 4096 0);
    [apply demo_malloc_allocates | lia | lia | apply demo_conn_usable | apply demo_busy_reachable
    | apply demo_not_full | | | lia | lia | by vm_compute]; simpl; repeat split; discriminate.
Defined.

Lemma efs_status_end_to_end_witness :
  efs_status demo_malloc 64 64 (H := codec) false (Some demo_conn) (daemon (H := codec) true demo_mem) 5
    demo_junk (Some (Iocb None None 0 0 1)) demo_busy =
  Some (EFS_API_ETASKINPROGRESS, Some (Iocb None None 0 0 1), demo_busy).
Proof.
  apply (efs_status_end_to_end demo_malloc 64 64 (H := codec) false true demo_mem demo_busy demo_conn 5
    demo_junk (Iocb None None 0 0 1) 1);
    [apply demo_malloc_allocates | lia | apply demo_conn_usable | lia | reflexivity | by vm_compute].
Defined.

Lemma efs_unload_no_effect_witness :
  efs_unload demo_malloc 64 64 (H := codec) (Some (Iocb (Some "nvram") (Some "/data/in") 0 0 1)) demo_busy =
    Some (EFS_API_SUCCESS, Some (Iocb (Some "nvram") (Some "/data/in") 0 0 1), demo_busy) /\
  exists buf, pack_to_buffer demo_malloc 64 64 (H := codec) EFS_UNLOAD_PATH
      (Iocb (Some "nvram") (Some "/data/in") 0 0 1) = Some (EFS_API_SUCCESS, buf) /\
    api_handler (decoded (H := codec) demo_mem buf) demo_busy =
      Some (response_code rejected bad_request, demo_busy).
Proof.
  apply (efs_unload_no_effect demo_malloc 64 64 (H := codec) demo_mem demo_busy "nvram" "/data/in"
    (Iocb (Some "nvram") (Some "/data/in") 0 0 1));
    [apply demo_malloc_allocates | lia | lia | simpl; repeat split; discriminate
    | simpl; repeat split; discriminate | done | done | unfold in_s64; simpl; lia
    | unfold is_u64; simpl; lia | by vm_compute | by vm_compute | by vm_compute].
Defined.

Lemma xstrdup_overflow_witness :
  (xstrdup (fun n => Some (replicate (Z.to_nat n) 0)) (Some "nvram") = None <-> 6 = 5 + 1) /\
  (6 <> 5 + 1 -> exists blk,
     xstrdup (fun n => Some (replicate (Z.to_nat n) 0)) (Some "nvram") = Some (Some blk) /\
     cstring blk = "nvram").
Proof.
  apply (xstrdup_overflow (fun n => Some (replicate (Z.to_nat n) 0)) "nvram" (replicate 6 0));
    [simpl; repeat split; discriminate | reflexivity | simpl; lia].
Defined.

End Client.
