(* ===== verification/ThreadPool.v ===== *)
(** * The thread pool (src/thread-pool-queue.h, src/thread-pool.h)

    Submitted tasks go into a queue under a mutex; workers take them in order and block on
    a condition variable while the queue is empty. [stop] raises a flag, invalidates the
    queue and joins the workers. A step of the system is one critical section of a thread
    or one access to the atomic flag. *)
From S2P Require Import Prelude.
From stdpp Require Import base list numbers option relations.

Module ThreadPool.

Section Pool.
Context {T : Type}.

(** ** class queue *)
Record queue := Queue { m_valid : bool; m_queue : list T }.

Definition queue_new : queue := Queue true [].

Definition try_pop (q : queue) : option T * queue :=
  match m_queue q with
  | t :: rest => if m_valid q then (Some t, Queue true rest) else (None, q)
  | [] => (None, q)
  end.

(** [wait_pop], from the evaluation of the wait's predicate on: it blocks, returns false,
    or returns true with a value. *)
Inductive pop_result := MustWait | Invalid | Popped (t : T).
Definition wait_pop (q : queue) : pop_result * queue :=
  match m_queue q, m_valid q with
  | [], true => (MustWait, q)
  | _, false => (Invalid, q)
  | t :: rest, true => (Popped t, Queue true rest)
  end.

Definition push (t : T) (q : queue) : queue := Queue (m_valid q) (m_queue q ++ [t]).
Definition queue_empty (q : queue) : bool := match m_queue q with [] => true | _ => false end.
Definition clear (q : queue) : queue := Queue (m_valid q) [].
Definition invalidate (q : queue) : queue := Queue false (m_queue q).
Definition is_valid (q : queue) : bool := m_valid q.

(** ** class pool *)

(** Where a worker thread is: about to test [m_done], about to call [wait_pop], blocked in
    the wait, notified but not yet running again, executing a task, or returned. *)
Inductive wstate := AtLoop | Entering | Blocked | Notified | Executing (t : T) | Exited.

(** The shared state and the threads; [p_submitted] and [p_started] record the tasks in
    the order they were submitted and taken. *)
Record pool := Pool {
  m_done : bool; m_work_queue : queue; m_threads : list wstate;
  p_submitted : list T; p_started : list T }.

(** The constructor. *)
Definition pool_new (num_threads : nat) : pool :=
  Pool false queue_new (replicate num_threads AtLoop) [] [].

(** One step of [worker]; a blocked or returned thread does not run. *)
Definition worker_step (w : wstate) (p : pool) : option (wstate * pool) :=
  match w with
  | AtLoop => Some (if m_done p then Exited else Entering, p)
  | Entering | Notified =>
      match wait_pop (m_work_queue p) with
      | (MustWait, q) => Some (Blocked, Pool (m_done p) q (m_threads p) (p_submitted p) (p_started p))
      | (Invalid, q) => Some (AtLoop, Pool (m_done p) q (m_threads p) (p_submitted p) (p_started p))
      | (Popped t, q) =>
          Some (Executing t, Pool (m_done p) q (m_threads p) (p_submitted p) (p_started p ++ [t]))
      end
  | Executing _ => Some (AtLoop, p)
  | Blocked | Exited => None
  end.

Definition wake (w : wstate) : wstate := match w with Blocked => Notified | _ => w end.
Definition set_thread (i : nat) (w : wstate) (p : pool) : pool :=
  Pool (m_done p) (m_work_queue p) (<[i := w]> (m_threads p)) (p_submitted p) (p_started p).

(** What the workers and the clients of the pool do. *)
Inductive working : pool -> pool -> Prop :=
  | step_worker p i w w' p' :
      m_threads p !! i = Some w -> worker_step w p = Some (w', p') -> working p (set_thread i w' p')
  (* [submit_and_track], [submit_and_forget]: [push] notifies one blocked thread, if any *)
  | step_submit_wake p i t :
      m_threads p !! i = Some Blocked ->
      working p (Pool (m_done p) (push t (m_work_queue p)) (<[i := Notified]> (m_threads p))
                   (p_submitted p ++ [t]) (p_started p))
  | step_submit p t :
      Blocked ∉ m_threads p ->
      working p (Pool (m_done p) (push t (m_work_queue p)) (m_threads p) (p_submitted p ++ [t]) (p_started p))
  (* a spurious wake-up of [condition_variable::wait] *)
  | step_spurious p i :
      m_threads p !! i = Some Blocked -> working p (set_thread i Notified p).

(** [destroy], and [stop], which calls it: where its thread is, and its next step, which does
    not exist while it waits in [join] for a worker that has not returned. [invalidate]
    notifies all blocked threads. *)
Inductive destroy_pc := D_done | D_invalidate | D_join (i : nat) | D_end.
Definition set_done (p : pool) : pool := Pool true (m_work_queue p) (m_threads p) (p_submitted p) (p_started p).
Definition set_invalid (p : pool) : pool :=
  Pool (m_done p) (invalidate (m_work_queue p)) (wake <$> m_threads p) (p_submitted p) (p_started p).
Definition destroy_step (pc : destroy_pc) (p : pool) : option (destroy_pc * pool) :=
  match pc with
  | D_done => Some (D_invalidate, set_done p)
  | D_invalidate => Some (D_join 0, set_invalid p)
  | D_join i =>
      match m_threads p !! i with
      | None => Some (D_end, p)
      | Some Exited => Some (D_join (S i), p)
      | Some _ => None
      end
  | D_end => None
  end.

(** All together. *)
Inductive step : pool -> pool -> Prop :=
  | step_working p p' : working p p' -> step p p'
  | step_done p : step p (set_done p)
  | step_invalidate p : m_done p = true -> step p (set_invalid p).

Definition reachable (n : nat) (p : pool) : Prop := rtc step (pool_new n) p.

(** ** The invariant *)

Definition is_notified (w : wstate) : bool := match w with Notified => true | _ => false end.
Definition notified (ws : list wstate) : nat := length (filter is_notified ws).

Record inv (n : nat) (p : pool) : Prop := {
  inv_order : p_submitted p = p_started p ++ m_queue (m_work_queue p);
  inv_count : length (m_threads p) = n;
  inv_wake : m_valid (m_work_queue p) = true -> Blocked ∈ m_threads p ->
    (length (m_queue (m_work_queue p)) <= notified (m_threads p))%nat;
  inv_stop : m_valid (m_work_queue p) = false -> m_done p = true /\ Blocked ∉ m_threads p;
  inv_exit : Exited ∈ m_threads p -> m_done p = true
}.

Lemma notified_insert ws i w w' : ws !! i = Some w ->
  (notified (<[i := w']> ws) + (if is_notified w then 1 else 0) =
   notified ws + (if is_notified w' then 1 else 0))%nat.
Proof.
  revert i. induction ws as [| x ws IH]; intros [| i] Hi; simpl in *; try done.
  - injection Hi as ->. unfold notified. rewrite !filter_cons.
    destruct (decide (is_notified w)), (decide (is_notified w')), (is_notified w), (is_notified w');
      simpl in *; try done; lia.
  - specialize (IH i Hi). unfold notified in *. rewrite !filter_cons.
    destruct (decide (is_notified x)); simpl; lia.
Qed.

Lemma elem_insert (ws : list wstate) i w x : x ∈ <[i := w]> ws -> x = w \/ x ∈ ws.
Proof.
  intros (j & Hj)%list_elem_of_lookup. apply list_lookup_insert_Some in Hj as [(_ & <- & _) | (_ & Hj)].
  - by left.
  - right. by eapply list_elem_of_lookup_2.
Qed.

Lemma elem_insert_ne (ws : list wstate) i w w0 x :
  ws !! i = Some w0 -> w0 <> x -> x ∈ ws -> x ∈ <[i := w]> ws.
Proof.
  intros Hi Hne (j & Hj)%list_elem_of_lookup. apply list_elem_of_lookup. exists j.
  rewrite list_lookup_insert_ne; [done |]. intros ->. congruence.
Qed.

Lemma notified_pos ws : Notified ∈ ws -> (0 < notified ws)%nat.
Proof.
  intros Hin. unfold notified. assert (Notified ∈ filter is_notified ws) as H.
  { apply list_elem_of_filter. done. }
  destruct (filter is_notified ws); [by apply elem_of_nil in H | simpl; lia].
Qed.

Lemma inv_init n : inv n (pool_new n).
Proof.
  constructor; simpl; try done.
  - apply length_replicate.
  - intros _ H. apply elem_of_replicate in H as [? _]. done.
  - intros H. apply elem_of_replicate in H as [? _]. done.
Qed.

(** A thread moves to [w'] while the queue goes from the one of [p] to [q]. *)
Lemma inv_move n p i w w' q started :
  inv n p -> m_threads p !! i = Some w ->
  m_valid q = m_valid (m_work_queue p) ->
  p_submitted p = started ++ m_queue q ->
  (w' = Blocked -> m_valid q = true /\ m_queue q = []) ->
  (w' = Exited -> m_done p = true) ->
  (m_valid q = true ->
   length (m_queue q) + (if is_notified w then 1 else 0) <=
   length (m_queue (m_work_queue p)) + (if is_notified w' then 1 else 0) \/ m_queue q = [])%nat ->
  inv n (Pool (m_done p) q (<[i := w']> (m_threads p)) (p_submitted p) started).
Proof.
  intros Hi Hw Hv Ho Hb He Hn. pose proof (notified_insert _ i w w' Hw) as Hcnt.
  constructor; simpl; [done | rewrite length_insert; apply Hi | | |].
  - intros Hvq Hin. destruct (Hn Hvq) as [Hn' | ->]; [| simpl; lia].
    apply elem_insert in Hin as [<- | Hin].
    + destruct Hb as [_ ->]; [done |]. simpl. lia.
    + rewrite Hv in Hvq. pose proof (inv_wake _ _ Hi Hvq Hin). lia.
  - intros Hvq. rewrite Hv in Hvq. destruct (inv_stop _ _ Hi Hvq) as [Hd Hnb].
    split; [done |]. intros [Heq | ?]%elem_insert; [| done].
    destruct Hb as [? _]; [done |]. congruence.
  - intros [Heq | ?]%elem_insert; [by apply He | by apply (inv_exit _ _ Hi)].
Qed.

Lemma inv_worker n p i w w' p' :
  m_threads p !! i = Some w -> worker_step w p = Some (w', p') -> inv n p -> inv n (set_thread i w' p').
Proof.
  intros Hw Hs Hi. pose proof (inv_order _ _ Hi) as Ho.
  assert (Hpop : w = Entering \/ w = Notified -> inv n (set_thread i w' p')).
  { intros Hor. assert (Hs' : match wait_pop (m_work_queue p) with
      | (MustWait, q) => Some (Blocked, Pool (m_done p) q (m_threads p) (p_submitted p) (p_started p))
      | (Invalid, q) => Some (AtLoop, Pool (m_done p) q (m_threads p) (p_submitted p) (p_started p))
      | (Popped t, q) =>
          Some (Executing t, Pool (m_done p) q (m_threads p) (p_submitted p) (p_started p ++ [t]))
      end = Some (w', p')) by (by destruct Hor; subst w).
    unfold wait_pop in Hs'. destruct (m_work_queue p) as [v q] eqn:Eq. simpl in Hs', Ho.
    destruct q as [| t q]; destruct v; injection Hs' as <- <-; unfold set_thread; simpl;
      apply (inv_move n p i w); rewrite ?Eq; simpl; auto; try done;
      try (by left; destruct Hor; subst w; simpl; lia).
    by rewrite Ho, <- app_assoc. }
  destruct w; simpl in Hs; try done; auto; injection Hs as <- <-; unfold set_thread.
  - apply (inv_move n p i AtLoop); auto; destruct (m_done p) eqn:Ed; simpl; auto with lia; done.
  - apply (inv_move n p i (Executing t)); auto; simpl; auto with lia; done.
Qed.

Lemma wake_blocked (ws : list wstate) : Blocked ∉ wake <$> ws.
Proof. intros (x & Hx & _)%list_elem_of_fmap. by destruct x. Qed.

Lemma pool_working_inv n p p' : working p p' -> inv n p -> inv n p'.
Proof.
  intros Hstep Hi. pose proof (inv_order _ _ Hi) as Ho.
  destruct Hstep as [p i w w' p' Hw Hs | p i t Hw | p t Hnb | p i Hw].
  - by eapply inv_worker.
  - pose proof (notified_insert _ i Blocked Notified Hw) as Hcnt. simpl in Hcnt.
    assert (Hin : Blocked ∈ m_threads p) by (by eapply list_elem_of_lookup_2).
    constructor; simpl.
    + by rewrite Ho, app_assoc.
    + rewrite length_insert. apply Hi.
    + intros Hv _. pose proof (inv_wake _ _ Hi Hv Hin). rewrite length_app. simpl. lia.
    + intros Hv. by destruct (inv_stop _ _ Hi Hv).
    + intros [? | ?]%elem_insert; [done | by apply (inv_exit _ _ Hi)].
  - constructor; simpl; try apply Hi.
    + by rewrite Ho, app_assoc.
    + done.
  - unfold set_thread. destruct p as [d q ws sub st]. simpl in *.
    apply (inv_move n (Pool d q ws sub st) i Blocked); auto; simpl; auto with lia; done.
Qed.

Lemma set_done_inv n p : inv n p -> inv n (set_done p).
Proof.
  intros Hi. constructor; simpl; try apply Hi; [| done].
  intros Hv. split; [done |]. by apply (inv_stop _ _ Hi).
Qed.
Lemma set_invalid_inv n p : m_done p = true -> inv n p -> inv n (set_invalid p).
Proof.
  intros Hd Hi. constructor; simpl; [apply Hi | rewrite length_fmap; apply Hi | done | | done].
  intros _. split; [done | apply wake_blocked].
Qed.

Lemma pool_step_inv n p p' : step p p' -> inv n p -> inv n p'.
Proof.
  intros [p1 p2 Hw | p1 | p1 Hd]; [by apply pool_working_inv | apply set_done_inv | by apply set_invalid_inv].
Qed.

Lemma pool_reachable_inv n p : reachable n p -> inv n p.
Proof.
  intros Hr. apply (rtc_ind_r (R := step) (inv n) (pool_new n)); [apply inv_init | | exact Hr].
  intros p1 p2 _ Hs Hi. by eapply pool_step_inv.
Qed.

(** * Properties *)

(** Tasks are taken in the order they were submitted and at most once: in every
    reachable state the tasks submitted so far are the ones taken, in order, followed by
    the ones in the queue. *)
Theorem pool_fifo (n : nat) (p : pool) :
  reachable n p -> p_submitted p = p_started p ++ m_queue (m_work_queue p).
Proof. intros Hr. by apply (inv_order _ _ (pool_reachable_inv n p Hr)). Qed.

(** C36: no wake-up is lost: while the pool is running and a task is in the queue, some
    worker is able to take a step and not asleep, so a task is never left in the queue with
    every worker blocked. *)
Theorem pool_no_lost_wakeup (n : nat) (p : pool) :
  reachable n p -> (0 < n)%nat -> m_done p = false -> m_queue (m_work_queue p) <> [] ->
  exists i w w' p', m_threads p !! i = Some w /\ w <> Blocked /\ worker_step w p = Some (w', p').
Proof.
  intros Hr Hn Hd Hq. pose proof (pool_reachable_inv n p Hr) as Hi.
  assert (Hv : m_valid (m_work_queue p) = true).
  { destruct (m_valid (m_work_queue p)) eqn:E; [done |].
    destruct (inv_stop _ _ Hi E). congruence. }
  assert (Hex : exists i w, m_threads p !! i = Some w /\ w <> Blocked).
  { destruct (m_threads p) as [| w ws] eqn:Et.
    { pose proof (inv_count _ _ Hi) as Hc. rewrite Et in Hc. simpl in Hc. lia. }
    destruct w; try (by exists 0%nat; eexists; split; [done |]).
    assert (Hb : Blocked ∈ m_threads p) by (rewrite Et; by left).
    pose proof (inv_wake _ _ Hi Hv Hb) as Hw. rewrite <- Et.
    assert (Hpos : (0 < notified (m_threads p))%nat).
    { destruct (m_queue (m_work_queue p)); [done | simpl in Hw; lia]. }
    unfold notified in Hpos. destruct (filter is_notified (m_threads p)) as [| x l] eqn:Ef;
      [simpl in Hpos; lia |].
    assert (Hx : x ∈ filter is_notified (m_threads p)) by (rewrite Ef; by left).
    apply list_elem_of_filter in Hx as [Hx1 Hx2]. apply list_elem_of_lookup in Hx2 as (i & Hxi).
    exists i, x. split; [done |]. by intros ->. }
  destruct Hex as (i & w & Hw & Hne).
  assert (Hrun : exists w' p', worker_step w p = Some (w', p')).
  { destruct w; simpl; eauto; try done.
    - destruct (wait_pop (m_work_queue p)) as [[] ?]; eauto.
    - destruct (wait_pop (m_work_queue p)) as [[] ?]; eauto.
    - exfalso. assert (Exited ∈ m_threads p) as H%(inv_exit _ _ Hi)
        by (by eapply list_elem_of_lookup_2). congruence. }
  destruct Hrun as (w' & p' & Hs). exists i, w, w', p'. auto.
Qed.

(** Shutdown: once [destroy] has invalidated the queue, no worker is blocked and
    every step of a worker that is not executing a task leads to its return within two
    more steps, so the joins return as soon as the running tasks are done; the tasks
    still in the queue are dropped: none is taken any more. *)
Theorem pool_shutdown (n : nat) (p : pool) (i : nat) (w : wstate) :
  reachable n p -> m_valid (m_work_queue p) = false -> m_threads p !! i = Some w ->
  w <> Blocked /\
  (w = Exited \/
   exists w1 p1, worker_step w p = Some (w1, p1) /\ p_started p1 = p_started p /\
     (w1 = Exited \/ w1 = AtLoop /\ worker_step AtLoop p1 = Some (Exited, p1))).
Proof.
  intros Hr Hv Hw. pose proof (pool_reachable_inv n p Hr) as Hi.
  destruct (inv_stop _ _ Hi Hv) as [Hd Hnb]. split.
  { intros ->. apply Hnb. by eapply list_elem_of_lookup_2. }
  destruct p as [d [v q] ws sub st]. simpl in *. subst v d.
  destruct w; simpl.
  - right. do 2 eexists. split; [done |]. split; [done |]. by left.
  - right. do 2 eexists. split; [by destruct q |]. split; [done |]. by right.
  - exfalso. apply Hnb. by eapply list_elem_of_lookup_2.
  - right. do 2 eexists. split; [by destruct q |]. split; [done |]. by right.
  - right. do 2 eexists. split; [done |]. split; [done |]. by right.
  - by left.
Qed.

(** *** The end of the pool *)

(** The state of the pool when [destroy] is at [pc]. *)
Definition destroying (n : nat) (pc : destroy_pc) (p : pool) : Prop :=
  inv n p /\
  match pc with
  | D_done => True
  | D_invalidate => m_done p = true
  | D_join i => m_done p = true /\ m_valid (m_work_queue p) = false /\ Forall (eq Exited) (take i (m_threads p))
  | D_end => m_done p = true /\ m_valid (m_work_queue p) = false /\ Forall (eq Exited) (m_threads p)
  end.

(** Flags and returned workers stay as they are. *)
Lemma working_keeps p p' : working p p' ->
  m_done p' = m_done p /\ m_valid (m_work_queue p') = m_valid (m_work_queue p) /\
  length (m_threads p') = length (m_threads p) /\
  forall i, m_threads p !! i = Some Exited -> m_threads p' !! i = Some Exited.
Proof.
  assert (Hex : forall (ws : list wstate) (j : nat) w w' (i : nat), ws !! j = Some w -> w <> Exited -> ws !! i = Some Exited ->
    <[j := w']> ws !! i = Some Exited).
  { intros ws j w w' i Hj Hne Hi. rewrite list_lookup_insert_ne; [done |]. intros ->. congruence. }
  intros [p1 j w w' p2 Hw Hs | p1 j t Hw | p1 t Hnb | p1 j Hw]; cbn.
  - assert (Hne : w <> Exited) by (by intros ->).
    assert (H : m_done p2 = m_done p1 /\ m_valid (m_work_queue p2) = m_valid (m_work_queue p1) /\ m_threads p2 = m_threads p1).
    { unfold worker_step, wait_pop in Hs. destruct (m_work_queue p1) as [[] []] eqn:Eq, w; try discriminate; injection Hs as <- <-; cbn; rewrite ?Eq; done. }
    destruct H as (-> & -> & ->). rewrite length_insert. repeat split; try done. intros i. by eapply Hex.
  - rewrite length_insert. repeat split; try done. intros i. by eapply Hex.
  - done.
  - rewrite length_insert. repeat split; try done. intros i. by eapply Hex.
Qed.

Lemma exited_prefix p p' k : working p p' -> Forall (eq Exited) (take k (m_threads p)) -> Forall (eq Exited) (take k (m_threads p')).
Proof.
  intros (_ & _ & Hl & Hk)%working_keeps HF. rewrite Forall_lookup in HF |- *. intros i w Hi.
  apply lookup_take_Some in Hi as [Hi Hlt]. destruct (lookup_lt_is_Some_2 (m_threads p) i) as [w0 Hw0].
  { rewrite <- Hl. by eapply lookup_lt_Some. }
  assert (Exited = w0) as <- by (apply (HF i); by rewrite lookup_take_lt).
  apply Hk in Hw0. congruence.
Qed.

Lemma destroying_working n pc p p' : working p p' -> destroying n pc p -> destroying n pc p'.
Proof.
  intros Hw [Hi Hpc]. split; [by eapply pool_working_inv |]. destruct (working_keeps p p' Hw) as (Hd & Hv & Hl & _).
  destruct pc as [| | i |]; [done | congruence | |].
  - destruct Hpc as (? & ? & ?). split; [congruence |]. split; [congruence |]. by eapply exited_prefix.
  - destruct Hpc as (? & ? & HF). split; [congruence |]. split; [congruence |].
    rewrite <- (firstn_all (m_threads p')), Hl. eapply exited_prefix; [done |]. by rewrite firstn_all.
Qed.

Lemma destroying_step n pc p pc' p' : destroy_step pc p = Some (pc', p') -> destroying n pc p -> destroying n pc' p'.
Proof.
  intros E [Hi Hpc]. destruct pc as [| | i |]; cbn in E.
  - injection E as <- <-. split; [by apply set_done_inv | done].
  - injection E as <- <-. split; [by apply set_invalid_inv |]. by rewrite take_0.
  - destruct Hpc as (Hd & Hv & HF). destruct (m_threads p !! i) as [[] |] eqn:Ei; try done; injection E as <- <-.
    + split; [done |]. split; [done |]. split; [done |]. rewrite (take_S_r _ _ _ Ei), Forall_app. by repeat constructor.
    + split; [done |]. split; [done |]. split; [done |]. rewrite take_ge in HF; [done |]. by apply lookup_ge_None.
  - done.
Qed.

(** A worker that is not blocked leaves its loop once the pool is done, by steps of its own. *)
Inductive runs (i : nat) : pool -> pool -> Prop :=
  | run_worker p w w' p' : m_threads p !! i = Some w -> worker_step w p = Some (w', p') -> runs i p (set_thread i w' p').

Lemma exits p i w : m_done p = true -> m_valid (m_work_queue p) = false -> m_threads p !! i = Some w -> w <> Blocked ->
  rtc (runs i) p (set_thread i Exited p).
Proof.
  intros Hd Hv Hi Hw. destruct p as [d [v q] ws sub st]. cbn in *. subst d v.
  assert (Hloop : rtc (runs i) (Pool true (Queue false q) (<[i := AtLoop]> ws) sub st) (set_thread i Exited (Pool true (Queue false q) ws sub st))).
  { apply rtc_once. pose proof (run_worker i (Pool true (Queue false q) (<[i := AtLoop]> ws) sub st) AtLoop Exited _
      ltac:(cbn; apply list_lookup_insert_eq; by eapply lookup_lt_Some) eq_refl) as H.
    unfold set_thread in H. cbn in H. rewrite list_insert_insert_eq in H. exact H. }
  destruct w; [| | done | | |].
  - rewrite (list_insert_id ws i AtLoop) in Hloop by done. exact Hloop.
  - eapply rtc_l; [apply (run_worker i _ Entering AtLoop (Pool true (Queue false q) ws sub st)); [done | by destruct q] | exact Hloop].
  - eapply rtc_l; [apply (run_worker i _ Notified AtLoop (Pool true (Queue false q) ws sub st)); [done | by destruct q] | exact Hloop].
  - eapply rtc_l; [apply (run_worker i _ (Executing t) AtLoop (Pool true (Queue false q) ws sub st)); [done | done] | exact Hloop].
  - unfold set_thread. cbn. rewrite list_insert_id by done. apply rtc_refl.
Qed.

(** *** [destroy] together with the steps of the workers *)
Inductive destroys : destroy_pc * pool -> destroy_pc * pool -> Prop :=
  | destroys_own pc p x : destroy_step pc p = Some x -> destroys (pc, p) x
  | destroys_worker pc p i p' : runs i p p' -> destroys (pc, p) (pc, p').

Lemma runs_destroys i pc p p' : rtc (runs i) p p' -> rtc destroys (pc, p) (pc, p').
Proof. apply rtc_congruence. intros ? ?. apply destroys_worker. Qed.

Lemma joins_end n k : forall i p, (length (m_threads p) - i)%nat = k -> destroying n (D_join i) p ->
  exists p', rtc destroys (D_join i, p) (D_end, p').
Proof.
  induction k as [| k IH]; intros i p Hk Hp.
  - exists p. apply rtc_once, destroys_own. cbn. rewrite lookup_ge_None_2 by lia. done.
  - destruct (lookup_lt_is_Some_2 (m_threads p) i ltac:(lia)) as [w Hw]. destruct Hp as [Hi (Hd & Hv & HF)].
    assert (Hnb : w <> Blocked).
    { intros ->. destruct (inv_stop _ _ Hi Hv) as [_ Hn]. apply Hn. by eapply list_elem_of_lookup_2. }
    pose proof (exits p i w Hd Hv Hw Hnb) as Hex. apply (runs_destroys _ (D_join i)) in Hex.
    assert (Hj : destroy_step (D_join i) (set_thread i Exited p) = Some (D_join (S i), set_thread i Exited p)).
    { cbn. by rewrite list_lookup_insert_eq by (by eapply lookup_lt_Some). }
    assert (Hp' : destroying n (D_join i) (set_thread i Exited p)).
    { split; [| cbn; split; [done |]; split; [done |]].
      - unfold set_thread. apply (inv_move n p i w); auto; [apply Hi | done |]. intros H'. congruence.
      - rewrite take_insert_ge by lia. done. }
    destruct (IH (S i) (set_thread i Exited p)) as (p' & Hr).
    + cbn. rewrite length_insert. lia.
    + by eapply destroying_step.
    + exists p'. etransitivity; [exact Hex |]. eapply rtc_l; [by apply destroys_own |]. exact Hr.
Qed.

(** From every state of [destroy], its own steps and those of the workers lead to its end. *)
Lemma destroy_ends n pc p : destroying n pc p -> exists p', rtc destroys (pc, p) (D_end, p').
Proof.
  assert (HJ : forall p, destroying n (D_join 0) p -> exists p', rtc destroys (D_join 0, p) (D_end, p')).
  { intros q Hq. by eapply joins_end. }
  assert (HI : forall p, destroying n D_invalidate p -> exists p', rtc destroys (D_invalidate, p) (D_end, p')).
  { intros q Hq. destruct (HJ (set_invalid q)) as (p' & Hr); [by apply (destroying_step n D_invalidate q) |].
    exists p'. eapply rtc_l; [by apply destroys_own | exact Hr]. }
  intros Hp. destruct pc as [| | i |]; [| by apply HI | by eapply joins_end | by exists p].
  destruct (HI (set_done p)) as (p' & Hr); [by apply (destroying_step n D_done p) |].
  exists p'. eapply rtc_l; [by apply destroys_own | exact Hr].
Qed.

End Pool.
(** ** Witnesses: two workers, two tasks, one of them taken; then the pool is stopped *)

Definition demo : pool (T := nat) := Pool false (Queue true [8]) [Executing 7; AtLoop] [7; 8] [7].
Definition demo_stopped : pool (T := nat) :=
  Pool true (Queue false [8]) [Executing 7; AtLoop] [7; 8] [7].

Lemma demo_reachable : reachable 2 demo.
Proof.
  eapply rtc_l; [apply step_working, (step_submit _ 7); set_solver |].
  eapply rtc_l; [apply step_working, (step_submit _ 8); set_solver |].
  eapply rtc_l; [apply step_working; by eapply (step_worker _ 0) |].
  eapply rtc_l; [apply step_working; by eapply (step_worker _ 0) |].
  apply rtc_refl.
Qed.
Lemma demo_stopped_reachable : reachable 2 demo_stopped.
Proof.
  eapply rtc_r; [eapply rtc_r; [apply demo_reachable | apply step_done] |].
  by apply (step_invalidate (Pool true (Queue true [8]) [Executing 7; AtLoop] [7; 8] [7])).
Qed.

Lemma pool_fifo_witness : p_submitted demo = p_started demo ++ m_queue (m_work_queue demo).
Proof. apply (pool_fifo 2 demo), demo_reachable. Defined.

Lemma pool_no_lost_wakeup_witness :
  exists i w w' p', m_threads demo !! i = Some w /\ w <> Blocked /\ worker_step w demo = Some (w', p').
Proof.
  apply (pool_no_lost_wakeup 2 demo); [apply demo_reachable | lia | reflexivity | discriminate].
Defined.

Lemma pool_shutdown_witness :
  Executing 7 <> Blocked /\
  (Executing 7 = Exited \/
   exists w1 p1, worker_step (Executing 7) demo_stopped = Some (w1, p1) /\
     p_started p1 = p_started demo_stopped /\
     (w1 = Exited \/ w1 = AtLoop /\ worker_step AtLoop p1 = Some (Exited, p1))).
Proof.
  apply (pool_shutdown 2 demo_stopped 0); [apply demo_stopped_reachable | reflexivity | reflexivity].
Defined.

End ThreadPool.
