(* ===== verification/Mdds.v ===== *)
(** * The flat segment tree of src/mdds

    [flat_segment_tree<key, value>] maps every key of an interval [[min, max)] to a
    value. The map is kept as a doubly linked list of leaf nodes, each of which
    starts a segment that lasts until the key of the next leaf; a tree of non-leaf
    nodes is built over the leaves to search them. A leaf node is a record with an
    address, which is what iterators and the tree hold; the list of leaves is the chain
    of [next] pointers from [m_left_leaf] to [m_right_leaf]. A fault, [None], is a null
    pointer dereference or a failed assertion. Keys are compared and never added here,
    so they are integers of any width. *)
From S2P Require Import Prelude.
From stdpp Require Import base list numbers option sorting sets.
Local Open Scope Z_scope.

Module Mdds.

Definition address := positive.

Section FST.
Context {V : Type} `{EqDecision V}.

(** [node<T>] with its [leaf_value_type] *)
Record leaf := Leaf { l_addr : address; l_key : Z; l_val : V }.

(** A [node_base] pointer: null, a leaf node, or a [nonleaf_node] with its
    [nonleaf_value_type] and its two children. *)
Inductive node_base :=
  | Null
  | LeafPtr (a : address)
  | Nonleaf (low high : Z) (left right : node_base).

(** [flat_segment_tree]; [t_next] is the address of the next leaf node to be allocated. *)
Record fst_tree := Fst {
  m_leaves : list leaf; m_root_node : node_base; m_init_val : V; m_valid_tree : bool;
  t_next : address }.

(** [flat_segment_tree(min_val, max_val, init_val)] *)
Definition fst_new (min_val max_val : Z) (init_val : V) : fst_tree :=
  Fst [Leaf 1%positive min_val init_val; Leaf 2%positive max_val init_val] Null init_val false 3%positive.

(** The leaf at an address, and the leaf that follows it. *)
Fixpoint leaf_at (ls : list leaf) (a : address) : option leaf :=
  match ls with
  | [] => None
  | x :: ls => if decide (l_addr x = a) then Some x else leaf_at ls a
  end.
Fixpoint leaf_next (ls : list leaf) (a : address) : option leaf :=
  match ls with
  | [] => None
  | x :: ls => if decide (l_addr x = a) then head ls else leaf_next ls a
  end.

(** ** Insertion *)

(** [get_insertion_pos_leaf(key, start_pos)]: the leaves before the insertion position
    and those from it on; the second list is empty where the code returns null. *)
Fixpoint get_insertion_pos_leaf (key : Z) (ls : list leaf) : list leaf * list leaf :=
  match ls with
  | [] => ([], [])
  | x :: t => if key <=? l_key x then ([], ls)
              else let '(a, b) := get_insertion_pos_leaf key t in (x :: a, b)
  end.

(** [get_insertion_pos_leaf_reverse(key, m_right_leaf)] on the reversed leaves: the
    leaves up to and including the node found, and those after it. *)
Fixpoint insertion_pos_reverse (key : Z) (rev_ls after : list leaf) : list leaf * list leaf :=
  match rev_ls with
  | [] => ([], after)
  | x :: t => if key >? l_key x then (reverse rev_ls, after)
              else insertion_pos_reverse key t (x :: after)
  end.
Definition get_insertion_pos_leaf_reverse (key : Z) (ls : list leaf) : list leaf * list leaf :=
  insertion_pos_reverse key (reverse ls) [].

(** [adjust_segment_range] *)
Definition adjust_segment_range (lo hi start_key end_key : Z) : option (Z * Z) :=
  if start_key >=? end_key then None
  else if (end_key <? lo) || (start_key >? hi) then None
  else Some (if start_key <? lo then lo else start_key, if end_key >? hi then hi else end_key).

Definition is_nil {X} (l : list X) : bool := match l with [] => true | _ => false end.

(** The value of [old_value] once the nodes between the start and the end node are
    unlinked. *)
Definition old_value_after (old : V) (removed : list leaf) : V :=
  match last removed with Some x => l_val x | None => old end.

(** The first half of [insert_to_pos]: the leaves before [new_start_node], that node, the
    nodes between it and [end_pos], [old_value], [changed] and the next free address.
    [mid] holds the leaves from [start_pos] up to [end_pos]. Where [start_pos] is
    [end_pos] and is re-used as the start node, the loop that unlinks the nodes between
    them starts behind [end_pos] and runs off the list. *)
Definition set_start_node (pre mid : list leaf) (start_pos : leaf) (start_key : Z) (val : V)
    (nxt : address) : option (list leaf * leaf * list leaf * V * bool * address) :=
  let reuse :=
    match mid with
    | [] => None
    | _ :: tl => Some (pre, Leaf (l_addr start_pos) (l_key start_pos) val, tl, l_val start_pos,
                       negb (bool_decide (l_val start_pos = val)), nxt)
    end in
  match last pre with
  | Some p =>
      if l_key start_pos =? start_key then
        if decide (l_val p = val)
        then Some (removelast pre, p, mid, l_val start_pos, false, nxt)
        else reuse
      else if decide (l_val p = val)
      then Some (removelast pre, p, mid, l_val p, false, nxt)
      else Some (pre, Leaf nxt start_key val, mid, l_val p, true, Pos.succ nxt)
  | None => if l_key start_pos =? start_key then reuse else None
  end.

(** [insert_to_pos(start_pos, start_key, end_key, val)], where [pre] holds the leaves
    before [start_pos] and [post] those from it on. The result has the new leaves, the
    address of [new_start_node], [changed], and the next free address. *)
Definition insert_to_pos (pre post : list leaf) (start_key end_key : Z) (val : V)
    (nxt : address) : option (list leaf * address * bool * address) :=
  match post with
  | [] => None
  | start_pos :: _ =>
      let '(mid, rest) :=
        match get_insertion_pos_leaf end_key post with
        | (a, []) => (take (pred (length post)) post, drop (pred (length post)) post)
        | r => r
        end in
      match set_start_node pre mid start_pos start_key val nxt, rest with
      | Some (before, new_start, removed, old0, changed0, nxt1), end_pos :: tl =>
          let old := old_value_after old0 removed in
          let changed := changed0 || negb (is_nil removed) in
          if l_key end_pos =? end_key then
            if negb (is_nil tl) && bool_decide (l_val end_pos = val)
            then Some (before ++ new_start :: tl, l_addr new_start, true, nxt1)
            else Some (before ++ new_start :: rest, l_addr new_start, changed, nxt1)
          else if decide (old = val)
               then Some (before ++ new_start :: rest, l_addr new_start, changed, nxt1)
               else Some (before ++ new_start :: Leaf nxt1 end_key old :: rest,
                          l_addr new_start, true, Pos.succ nxt1)
      | _, _ => None
      end
  end.

(** [const_iterator(this, true)]: one past the last segment. *)
Inductive iterator := End | At (a : address).

(** [insert_segment_impl(start_key, end_key, val, forward)], called by [insert_front]
    and [insert_back]. *)
Definition insert_segment_impl (t : fst_tree) (start_key end_key : Z) (val : V) (forward : bool)
    : option (fst_tree * iterator * bool) :=
  let ls := m_leaves t in
  match head ls, last ls with
  | Some l, Some r =>
      match adjust_segment_range (l_key l) (l_key r) start_key end_key with
      | None => Some (t, End, false)
      | Some (start_key, end_key) =>
          let '(pre, post) :=
            if forward then get_insertion_pos_leaf start_key ls
            else get_insertion_pos_leaf_reverse start_key ls in
          match insert_to_pos pre post start_key end_key val (t_next t) with
          | None => None
          | Some (ls', a, changed, nxt) =>
              Some (Fst ls' (m_root_node t) (m_init_val t)
                      (if changed then false else m_valid_tree t) nxt, At a, changed)
          end
      end
  | _, _ => None
  end.
Definition insert_front (t : fst_tree) (s e : Z) (v : V) := insert_segment_impl t s e v true.
Definition insert_back (t : fst_tree) (s e : Z) (v : V) := insert_segment_impl t s e v false.

(** ** Building and searching the tree *)

(** [fill_nonleaf_value_handler]: the range of a parent node. *)
Definition fill_nonleaf_value (ls : list leaf) (lft rgt : node_base) : option (Z * Z) :=
  low ← match lft with
         | LeafPtr a => l_key <$> leaf_at ls a
         | Nonleaf low _ _ _ => Some low
         | Null => None
         end;
  high ← match rgt, lft with
          | LeafPtr a, _ => match leaf_next ls a with
                            | Some n => Some (l_key n)
                            | None => l_key <$> leaf_at ls a
                            end
          | Nonleaf _ high _ _, _ => Some high
          | Null, LeafPtr a => l_key <$> leaf_at ls a
          | Null, Nonleaf _ high _ _ => Some high
          | Null, Null => None
          end;
  Some (low, high).

(** [tree_builder::make_parent_node], with the number of nodes left in the pool. *)
Definition make_parent_node (ls : list leaf) (node1 node2 : node_base) (pool : nat)
    : option (node_base * nat) :=
  match pool with
  | O => None
  | Datatypes.S pool =>
      '(low, high) ← fill_nonleaf_value ls node1 node2;
      Some (Nonleaf low high node1 node2, pool)
  end.

(** The loop of [tree_builder::build] over the leaves, two at a time, and that of
    [build_tree_non_leaf] over the nodes of a layer. *)
Fixpoint build_leaf_parents (ls chain : list leaf) (pool : nat) : option (list node_base * nat) :=
  match chain with
  | [] => Some ([], pool)
  | n1 :: [] => '(p, pool) ← make_parent_node ls (LeafPtr (l_addr n1)) Null pool; Some ([p], pool)
  | n1 :: n2 :: chain =>
      '(p, pool) ← make_parent_node ls (LeafPtr (l_addr n1)) (LeafPtr (l_addr n2)) pool;
      '(ps, pool) ← build_leaf_parents ls chain pool;
      Some (p :: ps, pool)
  end.
Fixpoint build_parents (ls : list leaf) (nodes : list node_base) (pool : nat)
    : option (list node_base * nat) :=
  match nodes with
  | [] => Some ([], pool)
  | n1 :: [] => '(p, pool) ← make_parent_node ls n1 Null pool; Some ([p], pool)
  | n1 :: n2 :: nodes =>
      '(p, pool) ← make_parent_node ls n1 n2 pool;
      '(ps, pool) ← build_parents ls nodes pool;
      Some (p :: ps, pool)
  end.
Fixpoint build_tree_non_leaf (fuel : nat) (ls : list leaf) (nodes : list node_base) (pool : nat)
    : option node_base :=
  match nodes with
  | [] => Some Null
  | [n] => Some n
  | _ => match fuel with
         | O => None
         | Datatypes.S fuel =>
             '(ps, pool) ← build_parents ls nodes pool;
             build_tree_non_leaf fuel ls ps pool
         end
  end.

(** [count_needed_nonleaf_nodes(leaf_count)] *)
Fixpoint count_needed_nonleaf_nodes (fuel leaf_count : nat) : option nat :=
  if decide (leaf_count = 1%nat) then Some O
  else match fuel with
       | O => None
       | Datatypes.S fuel =>
           let half := Nat.div2 (if Nat.odd leaf_count then Datatypes.S leaf_count else leaf_count) in
           n ← count_needed_nonleaf_nodes fuel half; Some (half + n)%nat
       end.

(** [build_tree()], with [leaf_size()] the length of the chain of leaves. Each round of the
    two loops at least halves what is left, rounding up, so the number of leaves bounds
    the rounds. *)
Definition build_tree (t : fst_tree) : option fst_tree :=
  let ls := m_leaves t in
  pool ← count_needed_nonleaf_nodes (length ls) (length ls);
  '(ps, pool) ← build_leaf_parents ls ls pool;
  root ← build_tree_non_leaf (length ls) ls ps pool;
  Some (Fst ls root (m_init_val t) true (t_next t)).

(** The descent of [search_tree] to the last non-leaf layer: a fault, not found, or the
    non-leaf node whose children are leaves. *)
Fixpoint descend (key : Z) (n : node_base) : option (option node_base) :=
  match n with
  | Nonleaf _ _ lft rgt =>
      match lft with
      | LeafPtr _ => Some (Some n)
      | Null => Some None
      | Nonleaf low high _ _ =>
          if (low <=? key) && (key <? high) then descend key lft
          else match rgt with
               | Null => Some None
               | LeafPtr _ => None
               | Nonleaf low high _ _ =>
                   if (low <=? key) && (key <? high) then descend key rgt else Some None
               end
      end
  | _ => None
  end.

(** [search_tree(key, value)]: the iterator and the value; [Some None] is the pair whose
    second component is [false]. *)
Definition search_tree (t : fst_tree) (key : Z) : option (option (address * V)) :=
  let ls := m_leaves t in
  match m_root_node t, head ls, last ls with
  | Null, _, _ => Some None
  | _, Some l, Some r =>
      if negb (m_valid_tree t) || (key <? l_key l) || (l_key r <=? key) then Some None
      else
        match descend key (m_root_node t) with
        | None => None
        | Some None => Some None
        | Some (Some (Nonleaf _ high (LeafPtr a) (LeafPtr b))) =>
            x ← leaf_at ls a; y ← leaf_at ls b;
            if (l_key x <=? key) && (key <? l_key y) then Some (Some (l_addr x, l_val x))
            else if (l_key y <=? key) && (key <? high) then Some (Some (l_addr y, l_val y))
            else Some None
        | Some (Some _) => None
        end
  | _, _, _ => None
  end.

(** [search(key, value)] along the leaves. *)
Definition search (t : fst_tree) (key : Z) : option (option (address * V)) :=
  let ls := m_leaves t in
  match head ls, last ls with
  | Some l, Some r =>
      if (key <? l_key l) || (l_key r <=? key) then Some None
      else
        let '(before, from) := get_insertion_pos_leaf key ls in
        match from with
        | [] => None
        | pos :: _ =>
            if l_key pos =? key then Some (Some (l_addr pos, l_val pos))
            else match last before with
                 | Some p => if l_key p <? key then Some (Some (l_addr p, l_val p)) else Some None
                 | None => Some None
                 end
        end
  | _, _ => None
  end.

(** [operator==]: the keys and values of the leaves. *)
Fixpoint leaves_equal (a b : list leaf) : bool :=
  match a, b with
  | [], [] => true
  | x :: a, y :: b => (l_key x =? l_key y) && bool_decide (l_val x = l_val y) && leaves_equal a b
  | _, _ => false
  end.
Definition fst_equal (a b : fst_tree) : bool := leaves_equal (m_leaves a) (m_leaves b).


(** ** What the tree stands for

    [look d ls k] is the value of the last leaf whose key is at most [k], or [d]. *)
Fixpoint look (d : V) (ls : list leaf) (k : Z) : V :=
  match ls with
  | [] => d
  | x :: t => if k <? l_key x then d else look (l_val x) t k
  end.
Definition value_at (t : fst_tree) (k : Z) : V := look (m_init_val t) (m_leaves t) k.
Definition min_key (t : fst_tree) : Z := default 0 (l_key <$> head (m_leaves t)).
Definition max_key (t : fst_tree) : Z := default 0 (l_key <$> last (m_leaves t)).

Definition incr : list leaf -> Prop := StronglySorted (fun a b => l_key a < l_key b).

(** Neighbouring values differ. *)
Fixpoint adj (l : list V) : Prop :=
  match l with
  | a :: t => match t with b :: _ => a <> b /\ adj t | [] => True end
  | [] => True
  end.

(** The well-formed leaves: strictly increasing keys, distinct addresses in use, no two
    neighbouring segments with the same value, the right leaf with the initial value. *)
Record leaves_ok (ls : list leaf) (init : V) (nxt : address) : Prop := {
  lo_incr : incr ls;
  lo_len : (2 <= length ls)%nat;
  lo_nodup : NoDup (l_addr <$> ls);
  lo_fresh : forall x, x ∈ ls -> (l_addr x < nxt)%positive;
  lo_adj : adj (l_val <$> removelast ls);
  lo_last : l_val <$> last ls = Some init }.

Lemma incr_app a b :
  incr (a ++ b) <-> incr a /\ incr b /\ forall x y, x ∈ a -> y ∈ b -> l_key x < l_key y.
Proof.
  unfold incr. rewrite StronglySorted_app. naive_solver.
Qed.

Lemma look_low d ls k : (forall x, x ∈ ls -> k < l_key x) -> look d ls k = d.
Proof.
  destruct ls as [| x t]; [done |]. intros H. simpl.
  by rewrite (proj2 (Z.ltb_lt _ _) (H x ltac:(left))).
Qed.

Lemma look_app d a b k : incr (a ++ b) -> look d (a ++ b) k = look (look d a k) b k.
Proof.
  revert d. induction a as [| x a IH]; intros d Hi; [done |]. simpl.
  apply StronglySorted_inv in Hi as [Hi Hx].
  destruct (Z.ltb_spec k (l_key x)); [| by apply IH].
  rewrite Forall_forall in Hx. rewrite look_low; [done |].
  intros y Hy. assert (Hab : y ∈ a ++ b) by set_solver. specialize (Hx y Hab). lia.
Qed.

Lemma look_high d ls k :
  (forall x, x ∈ ls -> l_key x <= k) -> look d ls k = default d (l_val <$> last ls).
Proof.
  revert d. induction ls as [| x t IH]; intros d H; [done |]. simpl.
  destruct (Z.ltb_spec k (l_key x)) as [Hlt | _].
  { specialize (H x ltac:(left)). lia. }
  rewrite IH by (intros; apply H; by right). rewrite last_cons. by destruct (last t).
Qed.

Lemma adj_app l1 x l2 : adj (l1 ++ x :: l2) <-> adj (l1 ++ [x]) /\ adj (x :: l2).
Proof.
  induction l1 as [| a l1 IH]; simpl; [tauto |].
  destruct l1 as [| b l1]; simpl in *; [tauto |]. rewrite IH. tauto.
Qed.
Lemma adj_swap_last l1 x y : adj (l1 ++ [x]) -> last l1 <> Some y -> adj (l1 ++ [y]).
Proof.
  induction l1 as [| a l1 IH]; simpl; [tauto |].
  destruct l1 as [| b l1]; simpl in *; [naive_solver |]. intros [? ?] ?. split; [done |]. by apply IH.
Qed.

(** The insertion position splits the leaves by their keys. *)
Lemma insertion_pos_spec key ls : incr ls ->
  let '(a, b) := get_insertion_pos_leaf key ls in
  ls = a ++ b /\ (forall x, x ∈ a -> l_key x < key) /\ (forall x, x ∈ b -> key <= l_key x).
Proof.
  induction ls as [| x t IH]; intros Hi; simpl; [set_solver |].
  apply StronglySorted_inv in Hi as [Hi Hx]. rewrite Forall_forall in Hx.
  destruct (Z.leb_spec key (l_key x)).
  - split; [done |]. split; [set_solver |]. intros y [-> | Hy]%elem_of_cons; [done |].
    specialize (Hx y Hy). lia.
  - specialize (IH Hi). destruct (get_insertion_pos_leaf key t) as [a b].
    destruct IH as (-> & Ha & Hb). split; [done |]. split; [| done].
    intros y [-> | Hy]%elem_of_cons; [lia | by apply Ha].
Qed.


Lemma insertion_pos_unique key a b :
  (forall x, x ∈ a -> l_key x < key) -> (forall x, x ∈ b -> key <= l_key x) ->
  get_insertion_pos_leaf key (a ++ b) = (a, b).
Proof.
  induction a as [| x a IH]; simpl; intros Ha Hb.
  - destruct b as [| y b]; [done |]. simpl.
    by rewrite (proj2 (Z.leb_le _ _) (Hb y ltac:(left))).
  - pose proof (Ha x ltac:(left)). rewrite (proj2 (Z.leb_gt _ _)) by done.
    rewrite IH; [done | | done]. intros y Hy. apply Ha. by right.
Qed.

Lemma insertion_pos_reverse_spec key r after :
  incr (reverse r ++ after) -> (forall x, x ∈ after -> key <= l_key x) ->
  insertion_pos_reverse key r after = get_insertion_pos_leaf key (reverse r ++ after).
Proof.
  revert after. induction r as [| x r IH]; intros after Hi Ha; simpl.
  - symmetry. by apply (insertion_pos_unique key []); [set_solver |].
  - rewrite Z.gtb_ltb. rewrite reverse_cons, <- app_assoc in *. simpl in *.
    destruct (Z.ltb_spec (l_key x) key) as [Hlt | Hge].
    + replace (reverse r ++ x :: after) with ((reverse r ++ [x]) ++ after) by by rewrite <- app_assoc.
      symmetry. rewrite insertion_pos_unique; [done | | done]. intros y Hy.
      apply incr_app in Hi as (_ & _ & Hi). apply elem_of_app in Hy as [Hy | Hy].
      * specialize (Hi y x Hy ltac:(left)). lia.
      * apply list_elem_of_singleton in Hy as ->. done.
    + apply IH; [done |]. intros y [-> | Hy]%elem_of_cons; [done | by apply Ha].
Qed.

(** Both directions of the search for the insertion position agree. *)
Lemma insertion_pos_agree key ls :
  incr ls -> get_insertion_pos_leaf_reverse key ls = get_insertion_pos_leaf key ls.
Proof.
  intros Hi. unfold get_insertion_pos_leaf_reverse.
  rewrite insertion_pos_reverse_spec; rewrite ?reverse_involutive, ?app_nil_r; [done | done | set_solver].
Qed.

(** What [set_start_node] establishes for leaves [pre ++ mid ++ rest]. *)
Record start_ok (pre mid rest : list leaf) (s : Z) (v : V) (nxt : address) (before : list leaf)
    (ns : leaf) (removed : list leaf) (old0 : V) (ch0 : bool) (nxt1 : address) : Prop := {
  so_incr : incr (before ++ [ns]);
  so_key : l_key ns <= s;
  so_val : l_val ns = v;
  so_head : l_key <$> head (before ++ [ns]) = l_key <$> head (pre ++ mid ++ rest);
  so_look : forall d k, k < s -> look d (before ++ [ns]) k = look d pre k;
  so_adj : adj (l_val <$> before ++ [ns]);
  so_old : l_val <$> last (pre ++ mid) = Some (old_value_after old0 removed);
  so_same : ch0 = false -> removed = [] -> before ++ [ns] = pre ++ mid;
  so_nodup : NoDup (l_addr <$> (before ++ [ns]) ++ rest);
  so_fresh : forall x, x ∈ before ++ [ns] -> (l_addr x < nxt1)%positive;
  so_next : (nxt <= nxt1)%positive }.

Lemma removelast_snoc (l : list leaf) x : removelast (l ++ [x]) = l.
Proof. by rewrite removelast_last. Qed.

Lemma last_some_snoc (l : list leaf) x : last l = Some x -> exists l', l = l' ++ [x].
Proof. intros H. apply last_Some in H as [l' ->]. eauto. Qed.

Lemma old_value_last old0 pre mid x :
  last mid = Some x \/ mid = [] /\ last pre = Some x /\ old0 = l_val x ->
  l_val <$> last (pre ++ mid) = Some (old_value_after old0 mid).
Proof.
  unfold old_value_after. rewrite last_app.
  intros [-> | (-> & -> & ->)]; done.
Qed.

(** The start node extends the segment before it. *)
Lemma start_extend before p mid rest s nxt old0 :
  incr ((before ++ [p]) ++ mid ++ rest) -> l_key p <= s -> adj (l_val <$> before ++ [p]) ->
  NoDup (l_addr <$> (before ++ [p]) ++ mid ++ rest) ->
  (forall x, x ∈ before ++ [p] -> (l_addr x < nxt)%positive) ->
  (mid <> [] \/ old0 = l_val p) ->
  start_ok (before ++ [p]) mid rest s (l_val p) nxt before p mid old0 false nxt.
Proof.
  intros Hi Hk Ha Hn Hf Ho. constructor; try done.
  - by apply incr_app in Hi as [? _].
  - by destruct before.
  - destruct mid as [| y mid] using rev_ind.
    + apply (old_value_last _ _ _ p). right. rewrite last_snoc. naive_solver.
    + apply (old_value_last _ _ _ y). left. by rewrite last_snoc.
  - intros _ ->. by rewrite app_nil_r.
  - rewrite !fmap_app in *. apply NoDup_app in Hn as (? & Hd & Hn).
    apply NoDup_app in Hn as (? & _ & ?). apply NoDup_app. split; [done |]. split; [| done].
    intros x Hx Hr. apply (Hd x Hx). apply elem_of_app. by right.
Qed.


(** The start node is the node found, with its value replaced. *)
Lemma start_reuse pre sp tl rest v nxt :
  incr (pre ++ (sp :: tl) ++ rest) -> adj (l_val <$> pre ++ [sp]) ->
  l_val <$> last pre <> Some v ->
  NoDup (l_addr <$> pre ++ (sp :: tl) ++ rest) ->
  (forall x, x ∈ pre ++ [sp] -> (l_addr x < nxt)%positive) ->
  start_ok pre (sp :: tl) rest (l_key sp) v nxt pre (Leaf (l_addr sp) (l_key sp) v) tl (l_val sp)
    (negb (bool_decide (l_val sp = v))) nxt.
Proof.
  intros Hi Ha Hp Hn Hf.
  assert (Hi' : incr (pre ++ [Leaf (l_addr sp) (l_key sp) v])).
  { apply incr_app in Hi as (? & _ & Hlt). apply incr_app. split; [done |]. split.
    - repeat constructor.
    - intros x y Hx ->%list_elem_of_singleton. apply (Hlt x sp); set_solver. }
  constructor; try done.
  - by destruct pre.
  - intros d k Hk. rewrite look_app by done. simpl. by rewrite (proj2 (Z.ltb_lt _ _)).
  - rewrite fmap_app in *. apply (adj_swap_last _ (l_val sp)); [done |]. by rewrite fmap_last.
  - rewrite cons_middle, app_assoc, last_app. unfold old_value_after.
    destruct (last tl); [done |]. by rewrite last_snoc.
  - intros Hc ->. apply negb_false_iff, bool_decide_eq_true in Hc as <-. by destruct sp.
  - rewrite <- app_assoc, !fmap_app in *. cbn [fmap list_fmap app] in *.
    eapply sublist_NoDup; [exact Hn |]. apply sublist_app; [done |]. apply sublist_skip.
    by apply sublist_inserts_l.
  - intros x [Hx | ->%list_elem_of_singleton]%elem_of_app; [apply Hf; set_solver |].
    apply (Hf sp). set_solver.
Qed.

(** A new start node. *)
Lemma start_new pre mid rest s v nxt p :
  incr (pre ++ mid ++ rest) -> last pre = Some p -> l_val p <> v ->
  (forall x, x ∈ pre -> l_key x < s) -> adj (l_val <$> pre) ->
  NoDup (l_addr <$> pre ++ mid ++ rest) ->
  (forall x, x ∈ pre ++ mid ++ rest -> (l_addr x < nxt)%positive) ->
  start_ok pre mid rest s v nxt pre (Leaf nxt s v) mid (l_val p) true (Pos.succ nxt).
Proof.
  intros Hi Hl Hv Hs Ha Hn Hf.
  assert (Hi' : incr (pre ++ [Leaf nxt s v])).
  { apply incr_app in Hi as (? & _ & _). apply incr_app. split; [done |]. split.
    - repeat constructor.
    - intros x y Hx ->%list_elem_of_singleton. by apply Hs. }
  constructor; try done; simpl; try lia.
  - by destruct pre.
  - intros d k Hk. rewrite look_app by done. simpl. by rewrite (proj2 (Z.ltb_lt _ _)).
  - apply last_some_snoc in Hl as [l' ->]. rewrite !fmap_app in *. rewrite <- app_assoc. simpl in *.
    apply adj_app. split; [done |]. by split.
  - destruct mid as [| y mid _] using rev_ind.
    + apply (old_value_last _ _ _ p). right. naive_solver.
    + apply (old_value_last _ _ _ y). left. by rewrite last_snoc.
  - rewrite !fmap_app in *. apply NoDup_app in Hn as (Hn1 & Hd & Hn). simpl.
    apply NoDup_app in Hn as (_ & Hd2 & Hn2). rewrite <- app_assoc. simpl. apply NoDup_app.
    split; [done |]. split.
    + intros a Ha1 [-> | Ha2]%elem_of_cons.
      * apply list_elem_of_fmap in Ha1 as (x & Hnx & Hx). specialize (Hf x ltac:(set_solver)).
        simpl in *. lia.
      * apply (Hd a Ha1). apply elem_of_app. by right.
    + apply NoDup_cons. split; [| done]. intros Hx%list_elem_of_fmap.
      destruct Hx as (x & Hx & Hin). specialize (Hf x ltac:(set_solver)). lia.
  - intros x [Hx | ->%list_elem_of_singleton]%elem_of_app; simpl; [| lia].
    specialize (Hf x ltac:(set_solver)). lia.
Qed.


Lemma adj_prefix l1 l2 : adj (l1 ++ l2) -> adj l1.
Proof.
  destruct l2 as [| x l2]; [by rewrite app_nil_r |]. intros [H _]%adj_app.
  induction l1 as [| a l1 IH]; [done |]. destruct l1; [done |]. simpl in *. tauto.
Qed.
Lemma adj_suffix l1 l2 : adj (l1 ++ l2) -> adj l2.
Proof. destruct l2 as [| x l2]; [done |]. by intros [_ H]%adj_app. Qed.

(** The leaves of a well-formed tree cut at the two ends of the segment to insert. *)
Record cut (pre mid rest : list leaf) (s e : Z) (init : V) (nxt : address) : Prop := {
  cut_ok : leaves_ok (pre ++ mid ++ rest) init nxt;
  cut_range : s < e;
  cut_pre : forall x, x ∈ pre -> l_key x < s;
  cut_mid : forall x, x ∈ mid -> s <= l_key x < e;
  cut_rest : forall x, x ∈ rest -> e <= l_key x;
  cut_end : rest <> [];
  cut_min : pre <> [] \/ l_key <$> head mid = Some s }.

Lemma cut_adj pre mid rest s e init nxt :
  cut pre mid rest s e init nxt ->
  adj ((l_val <$> pre) ++ (l_val <$> mid) ++ (l_val <$> removelast rest)).
Proof.
  intros Hc. pose proof (lo_adj _ _ _ (cut_ok _ _ _ _ _ _ _ Hc)) as Ha.
  pose proof (cut_end _ _ _ _ _ _ _ Hc) as Hr.
  rewrite app_assoc, removelast_app in Ha by done. by rewrite !fmap_app, <- app_assoc in Ha.
Qed.

Lemma set_start_node_spec pre mid rest sp s e v init nxt :
  cut pre mid rest s e init nxt -> head (mid ++ rest) = Some sp ->
  exists before ns removed old0 ch0 nxt1,
    set_start_node pre mid sp s v nxt = Some (before, ns, removed, old0, ch0, nxt1) /\
    start_ok pre mid rest s v nxt before ns removed old0 ch0 nxt1.
Proof.
  intros Hc Hsp. pose proof (cut_adj _ _ _ _ _ _ _ Hc) as Ha. destruct Hc as [[Hi _ Hn Hf _ _] Hse Hp Hm Hr He Hmin].
  assert (Hmid : l_key sp = s -> exists tl, mid = sp :: tl).
  { intros Hk. destruct mid as [| x tl]; simpl in *; [| naive_solver].
    destruct rest as [| y rest]; simplify_eq/=. specialize (Hr sp ltac:(left)). lia. }
  assert (Hfp : forall x, x ∈ pre -> (l_addr x < nxt)%positive) by (intros; apply Hf; set_solver).
  unfold set_start_node. destruct (last pre) as [p |] eqn:El.
  - assert (Hp' : l_key p < s) by (apply Hp; by apply last_Some_elem_of).
    destruct (decide (l_val p = v)) as [Hv | Hv].
    + destruct (last_some_snoc _ _ El) as [before Hpre]. rewrite Hpre, removelast_snoc. rewrite Hpre in *.
      subst v. destruct (Z.eqb_spec (l_key sp) s) as [Hk | Hk].
      * do 6 eexists. split; [reflexivity |]. apply start_extend; try done; [lia | by apply adj_prefix in Ha |].
        left. destruct (Hmid Hk) as [tl ->]. done.
      * do 6 eexists. split; [reflexivity |]. apply start_extend; try done; [lia | by apply adj_prefix in Ha |].
        by right.
    + destruct (Z.eqb_spec (l_key sp) s) as [Hk | Hk].
      * destruct (Hmid Hk) as [tl ->]. do 6 eexists. split; [reflexivity |]. rewrite <- Hk.
        apply start_reuse; try done.
        -- rewrite fmap_app. simpl in *. by apply adj_app in Ha as [? _].
        -- rewrite El. simpl. congruence.
        -- intros x Hx. apply Hf. set_solver.
      * do 6 eexists. split; [reflexivity |]. apply start_new; try done. by apply adj_prefix in Ha.
  - apply last_None in El as ->. destruct Hmin as [? | Hk]; [done |].
    destruct mid as [| x tl]; simplify_eq/=. rewrite Z.eqb_refl. do 6 eexists. split; [reflexivity |].
    apply (start_reuse []); try done. intros x Hx. apply Hf. set_solver.
Qed.


(** What an insertion of [[s, e)] with value [v] makes of the leaves. *)
Record inserted (ls : list leaf) (init : V) (s e : Z) (v : V) (nxt : address)
    (ls' : list leaf) (a : address) (ch : bool) (nxt' : address) : Prop := {
  ins_ok : leaves_ok ls' init nxt';
  ins_min : l_key <$> head ls' = l_key <$> head ls;
  ins_last : last ls' = last ls;
  ins_look : forall d k, look d ls' k = if (s <=? k) && (k <? e) then v else look d ls k;
  ins_same : ch = false -> ls' = ls;
  ins_start : exists x, x ∈ ls' /\ l_addr x = a /\ l_key x <= s /\ l_val x = v }.

Lemma assemble before ns T s e init nxt :
  incr (before ++ [ns]) -> l_key ns <= s -> s < e -> incr T -> (forall x, x ∈ T -> e <= l_key x) ->
  NoDup (l_addr <$> (before ++ [ns]) ++ T) ->
  (forall x, x ∈ (before ++ [ns]) ++ T -> (l_addr x < nxt)%positive) ->
  adj (l_val <$> before ++ [ns]) -> adj (l_val ns :: (l_val <$> removelast T)) ->
  l_val <$> last T = Some init ->
  leaves_ok (before ++ ns :: T) init nxt.
Proof.
  intros Hi Hk Hse HiT HeT Hn Hf Ha HaT Hl. destruct T as [| y T]; [done |].
  rewrite cons_middle, app_assoc. constructor.
  - apply incr_app. split; [done |]. split; [done |]. intros x z Hx Hz. specialize (HeT z Hz).
    apply elem_of_app in Hx as [Hx | ->%list_elem_of_singleton]; [| lia].
    apply incr_app in Hi as (_ & _ & Hi). specialize (Hi x ns Hx ltac:(set_solver)). lia.
  - rewrite !length_app. simpl. lia.
  - done.
  - done.
  - rewrite removelast_app by done. rewrite fmap_app, <- app_assoc in *. simpl.
    rewrite fmap_app in *. rewrite <- app_assoc. simpl in *. apply adj_app. done.
  - by rewrite last_app_cons.
Qed.

Lemma cut_look pre mid rest s e init nxt d k old :
  cut pre mid rest s e init nxt -> l_val <$> last (pre ++ mid) = Some old -> e <= k ->
  look d (pre ++ mid ++ rest) k = look old rest k.
Proof.
  intros [[Hi _ _ _ _ _] Hse Hp Hm _ _ _] Ho Hk. rewrite app_assoc in *. rewrite look_app by done.
  rewrite (look_high _ (pre ++ mid)); [by rewrite Ho |].
  intros x [Hx | Hx]%elem_of_app; [specialize (Hp x Hx) | specialize (Hm x Hx)]; lia.
Qed.

(** The meaning of the new leaves, given what follows the new start node. *)
Lemma assemble_look pre mid rest s e v init nxt before ns removed old0 ch0 nxt1 T d k :
  cut pre mid rest s e init nxt ->
  start_ok pre mid rest s v nxt before ns removed old0 ch0 nxt1 ->
  incr (before ++ ns :: T) -> (forall x, x ∈ T -> e <= l_key x) ->
  (e <= k -> look v T k = look (old_value_after old0 removed) rest k) ->
  look d (before ++ ns :: T) k
  = if (s <=? k) && (k <? e) then v else look d (pre ++ mid ++ rest) k.
Proof.
  intros Hc Hst Hi HT HTk. pose proof Hc as [[Hio _ _ _ _ _] Hse Hp Hm Hr _ _].
  rewrite cons_middle, app_assoc in *. rewrite look_app by done.
  destruct (Z.leb_spec s k) as [Hsk | Hsk]; simpl.
  - assert (Hns : forall d, look d (before ++ [ns]) k = v).
    { intros d'. rewrite look_high; [by rewrite last_snoc; simpl; apply Hst |].
      pose proof (so_incr _ _ _ _ _ _ _ _ _ _ _ _ Hst) as Hib. pose proof (so_key _ _ _ _ _ _ _ _ _ _ _ _ Hst).
      apply incr_app in Hib as (_ & _ & Hib).
      intros x [Hx | ->%list_elem_of_singleton]%elem_of_app; [| lia].
      specialize (Hib x ns Hx ltac:(set_solver)). lia. }
    rewrite Hns. destruct (Z.ltb_spec k e) as [Hke | Hke].
    + apply look_low. intros x Hx. specialize (HT x Hx). lia.
    + rewrite HTk by done. symmetry. eapply cut_look; [done | apply Hst | done].
  - rewrite (so_look _ _ _ _ _ _ _ _ _ _ _ _ Hst) by done.
    rewrite look_low by (intros x Hx; specialize (HT x Hx); lia).
    rewrite <- app_assoc in Hio. rewrite look_app by done. symmetry. apply look_low.
    intros x [Hx | Hx]%elem_of_app; [specialize (Hm x Hx) | specialize (Hr x Hx)]; lia.
Qed.


(** [T] is what follows the new start node: the nodes from [end_pos] on, without it when
    it has the inserted value, or after a new node that ends the segment. *)
Lemma assemble_inserted pre mid rest s e v init nxt before ns removed old0 ch0 nxt1 T ch nxt' :
  cut pre mid rest s e init nxt ->
  start_ok pre mid rest s v nxt before ns removed old0 ch0 nxt1 ->
  incr T -> (forall x, x ∈ T -> e <= l_key x) ->
  NoDup (l_addr <$> (before ++ [ns]) ++ T) ->
  (forall x, x ∈ T -> (l_addr x < nxt')%positive) -> (nxt1 <= nxt')%positive ->
  adj (v :: (l_val <$> removelast T)) -> last T = last rest ->
  (forall k, e <= k -> look v T k = look (old_value_after old0 removed) rest k) ->
  (ch = false -> ch0 = false /\ removed = [] /\ T = rest) ->
  inserted (pre ++ mid ++ rest) init s e v nxt (before ++ ns :: T) (l_addr ns) ch nxt'.
Proof.
  intros Hc Hst HiT HeT Hn Hf Hnx Ha Hl Hlk Hch. pose proof Hc as [Hok Hse _ _ _ Hr _].
  pose proof Hst as [Hib Hkb Hvb Hhb _ Hab _ Hsame _ Hfb _].
  assert (Hok' : leaves_ok (before ++ ns :: T) init nxt').
  { eapply assemble; try done.
    - intros x [Hx | Hx]%elem_of_app; [| by apply Hf]. specialize (Hfb x Hx). lia.
    - by rewrite Hvb.
    - rewrite Hl. pose proof (lo_last _ _ _ Hok) as Hll. rewrite app_assoc, last_app in Hll.
      destruct (last rest) eqn:E; [done |]. by apply last_None in E. }
  constructor; try done.
  - rewrite <- Hhb. by destruct before.
  - destruct rest as [| y rest] using rev_ind; [done |]. rewrite last_snoc in Hl.
    rewrite !app_assoc, last_snoc. destruct T as [| z T]; [done |].
    rewrite last_app_cons, <- Hl. simpl. done.
  - intros d k. eapply assemble_look; try done; [apply Hok' | apply Hlk].
  - intros (H0 & H1 & ->)%Hch. rewrite cons_middle, app_assoc, (Hsame H0 H1). by rewrite <- app_assoc.
  - exists ns. split; [set_solver |]. done.
Qed.

Lemma insert_to_pos_spec pre mid rest s e v init nxt :
  cut pre mid rest s e init nxt ->
  exists ls' a ch nxt', insert_to_pos pre (mid ++ rest) s e v nxt = Some (ls', a, ch, nxt') /\
    inserted (pre ++ mid ++ rest) init s e v nxt ls' a ch nxt'.
Proof.
  intros Hc. pose proof Hc as [Hok Hse Hp Hm Hr He _]. destruct rest as [| ep tl]; [done |].
  assert (exists sp, head (mid ++ ep :: tl) = Some sp) as [sp Hsp] by (destruct mid; simpl; eauto).
  destruct (set_start_node_spec pre mid (ep :: tl) sp s e v init nxt) as
    (before & ns & removed & old0 & ch0 & nxt1 & Hset & Hst); [done | done |].
  pose proof (lo_incr _ _ _ Hok) as Hi. apply incr_app in Hi as (_ & (_ & Hir & _)%incr_app & _).
  pose proof (cut_adj _ _ _ _ _ _ _ Hc) as Ha. rewrite app_assoc, <- fmap_app in Ha.
  pose proof Hst as [_ _ _ _ _ _ Hold _ Hnd _ Hnx].
  assert (Hfr : forall x, x ∈ ep :: tl -> (l_addr x < nxt1)%positive).
  { intros x Hx. pose proof (lo_fresh _ _ _ Hok x ltac:(set_solver)). lia. }
  assert (Hadj : forall w, w = old_value_after old0 removed -> adj (w :: (l_val <$> removelast (ep :: tl)))).
  { intros w ->. rewrite <- fmap_last in Hold. apply last_Some in Hold as [l' Hl']. rewrite Hl', <- app_assoc in Ha.
    by apply adj_suffix in Ha. }
  assert (Hadj2 : adj (l_val <$> removelast (ep :: tl))) by by apply adj_suffix in Ha.
  unfold insert_to_pos. destruct (mid ++ ep :: tl) as [| sp' post] eqn:E; [done |].
  injection Hsp as ->. rewrite <- E. clear post E Hok.
  rewrite (insertion_pos_unique e mid (ep :: tl)), Hset; [| intros x Hx; by apply Hm | done].
  destruct (Z.eqb_spec (l_key ep) e) as [Hk | Hk].
  - destruct tl as [| y tl]; cbn [is_nil negb andb].
    + do 4 eexists. split; [reflexivity |]. eapply assemble_inserted; try done.
      * intros k Hek. simpl. by rewrite (proj2 (Z.ltb_ge _ _)) by lia.
      * intros [-> Hn]%orb_false_iff. by destruct removed.
    + case_bool_decide as Hv.
      * do 4 eexists. split; [reflexivity |]. apply StronglySorted_inv in Hir as [Hir _].
        eapply assemble_inserted; try done.
        -- intros x Hx. apply Hr. by right.
        -- rewrite !fmap_app in *. eapply sublist_NoDup; [exact Hnd |].
           apply sublist_app; [done |]. by apply sublist_cons.
        -- intros x Hx. apply Hfr. by right.
        -- simpl in Hadj2. rewrite Hv in Hadj2. done.
        -- intros k Hek. simpl. rewrite (proj2 (Z.ltb_ge k (l_key ep))) by lia. by rewrite Hv.
      * do 4 eexists. split; [reflexivity |]. eapply assemble_inserted; try done.
        -- intros k Hek. simpl. by rewrite (proj2 (Z.ltb_ge k (l_key ep))) by lia.
        -- intros [-> Hn]%orb_false_iff. by destruct removed.
  - assert (Hlt : e < l_key ep) by (specialize (Hr ep ltac:(left)); lia).
    destruct (decide (old_value_after old0 removed = v)) as [Hv | Hv].
    + do 4 eexists. split; [reflexivity |]. eapply assemble_inserted; try done.
      * by apply Hadj.
      * intros k _. by rewrite Hv.
      * intros [-> Hn]%orb_false_iff. by destruct removed.
    + do 4 eexists. split; [reflexivity |]. eapply assemble_inserted; try done.
      * constructor; [done |]. rewrite Forall_forall. intros x Hx. simpl.
        apply StronglySorted_inv in Hir as [_ Hir]. rewrite Forall_forall in Hir.
        apply elem_of_cons in Hx as [-> | Hx]; [done |]. specialize (Hir x Hx). lia.
      * intros x [-> | Hx]%elem_of_cons; [simpl; lia | by apply Hr].
      * pose proof (so_fresh _ _ _ _ _ _ _ _ _ _ _ _ Hst) as Hfb.
        rewrite <- Permutation_middle, fmap_cons. apply NoDup_cons. split; [| done].
        intros (x & Hx & Hin)%list_elem_of_fmap. simpl in Hx.
        assert (l_addr x < nxt1)%positive; [| lia]. apply elem_of_app in Hin as [? | ?]; auto.
      * intros x [-> | Hx]%elem_of_cons; [simpl; lia |]. specialize (Hfr x Hx). lia.
      * lia.
      * specialize (Hadj _ eq_refl). simpl in *. split; [congruence | done].
      * intros k Hek. simpl. by rewrite (proj2 (Z.ltb_ge k e)) by lia.
Qed.


(** ** The tree over the leaves

    [node_ok n seg rest]: the node [n] covers the leaves [seg], which [rest] follows. Its
    range goes from the first key of [seg] to the first key of [rest], or to the last key
    of [seg] when nothing follows. *)
Definition hi_key (b : leaf) (rest : list leaf) : Z :=
  match rest with r :: _ => l_key r | [] => l_key b end.

Inductive node_ok : node_base -> list leaf -> list leaf -> Prop :=
  | ok_pair a b rest :
      node_ok (Nonleaf (l_key a) (hi_key b rest) (LeafPtr (l_addr a)) (LeafPtr (l_addr b))) [a; b] rest
  | ok_single a : node_ok (Nonleaf (l_key a) (l_key a) (LeafPtr (l_addr a)) Null) [a] []
  | ok_inner lo1 hi1 l1 r1 lo2 hi2 l2 r2 seg1 seg2 rest :
      node_ok (Nonleaf lo1 hi1 l1 r1) seg1 (seg2 ++ rest) ->
      node_ok (Nonleaf lo2 hi2 l2 r2) seg2 rest ->
      node_ok (Nonleaf lo1 hi2 (Nonleaf lo1 hi1 l1 r1) (Nonleaf lo2 hi2 l2 r2)) (seg1 ++ seg2) rest
  | ok_last lo hi l r seg :
      node_ok (Nonleaf lo hi l r) seg [] -> node_ok (Nonleaf lo hi (Nonleaf lo hi l r) Null) seg [].

(** A layer of nodes that together cover a chain of leaves. *)
Inductive layer : list node_base -> list leaf -> Prop :=
  | layer_nil : layer [] []
  | layer_cons n ns seg l : node_ok n seg l -> layer ns l -> layer (n :: ns) (seg ++ l).

Lemma node_ok_shape n seg rest : node_ok n seg rest ->
  exists lo hi l r, n = Nonleaf lo hi l r /\ l_key <$> head seg = Some lo /\
    (rest <> [] -> l_key <$> head rest = Some hi) /\
    (rest = [] -> l_key <$> last seg = Some hi).
Proof.
  induction 1 as [a b rest | a | lo1 hi1 l1 r1 lo2 hi2 l2 r2 seg1 seg2 rest _ IH1 _ IH2 | lo hi l r seg _ IH].
  - do 4 eexists. split; [done |]. split; [done |]. by destruct rest.
  - do 4 eexists. done.
  - destruct IH1 as (? & ? & ? & ? & ? & Hh & _), IH2 as (? & ? & ? & ? & ? & Hh2 & Hr & Hl). simplify_eq.
    do 4 eexists. split; [done |]. split; [by destruct seg1 |]. split; [done |].
    intros Hrest. rewrite last_app. specialize (Hl Hrest). destruct (last seg2); [done |]. done.
  - destruct IH as (? & ? & ? & ? & ? & ? & ? & ?). simplify_eq. do 4 eexists. done.
Qed.

Lemma leaf_at_app pre a post :
  NoDup (l_addr <$> pre ++ a :: post) -> leaf_at (pre ++ a :: post) (l_addr a) = Some a.
Proof.
  induction pre as [| x pre IH]; simpl; intros Hn; [by rewrite decide_True |].
  apply NoDup_cons in Hn as [Hx Hn]. rewrite decide_False; [by apply IH |].
  intros E. apply Hx. rewrite E, fmap_app. set_solver.
Qed.
Lemma leaf_next_app pre a post :
  NoDup (l_addr <$> pre ++ a :: post) -> leaf_next (pre ++ a :: post) (l_addr a) = head post.
Proof.
  induction pre as [| x pre IH]; simpl; intros Hn; [by rewrite decide_True |].
  apply NoDup_cons in Hn as [Hx Hn]. rewrite decide_False; [by apply IH |].
  intros E. apply Hx. rewrite E, fmap_app. set_solver.
Qed.

(** The number of parents of a layer of [n] nodes. *)
Fixpoint half (n : nat) : nat :=
  match n with 0 => 0 | 1 => 1 | Datatypes.S (Datatypes.S n) => Datatypes.S (half n) end%nat.

Lemma nat_ind2 (P : nat -> Prop) :
  P 0%nat -> P 1%nat -> (forall n, P n -> P (Datatypes.S (Datatypes.S n))) -> forall n, P n.
Proof. intros H0 H1 HS. fix IH 1. intros [| [| n]]; [done | done | apply HS, IH]. Qed.

Lemma half_div2 n :
  Nat.div2 (if Nat.odd n then Datatypes.S n else n) = half n.
Proof.
  induction n as [| | n IH] using nat_ind2; [done | done |].
  rewrite Nat.odd_succ_succ. simpl half. rewrite <- IH. by destruct (Nat.odd n).
Qed.
Lemma half_lt n : (2 <= n)%nat -> (1 <= half n < n)%nat.
Proof.
  induction n as [| | n IH] using nat_ind2; [lia | lia |].
  intros _. simpl. destruct n as [| [| n]]; simpl in *; lia.
Qed.


Lemma list_ind2 {X} (P : list X -> Prop) :
  P [] -> (forall x, P [x]) -> (forall x y l, P l -> P (x :: y :: l)) -> forall l, P l.
Proof. intros H0 H1 HS. fix IH 1. intros [| x [| y l]]; [done | done | apply HS, IH]. Qed.

Lemma leaf_parents_ok ls pre chain pool :
  ls = pre ++ chain -> NoDup (l_addr <$> ls) -> (half (length chain) <= pool)%nat ->
  exists ns, build_leaf_parents ls chain pool = Some (ns, (pool - half (length chain))%nat) /\
    layer ns chain /\ length ns = half (length chain).
Proof.
  intros Hls Hn. revert pre pool Hls. induction chain as [| a | a b chain IH] using list_ind2;
    intros pre pool Hls Hp; cbn [length half] in *.
  - exists []. rewrite Nat.sub_0_r. repeat split. constructor.
  - destruct pool as [| pool]; [lia |]. simpl. unfold fill_nonleaf_value.
    assert (leaf_at ls (l_addr a) = Some a) as -> by (rewrite Hls at 1; apply leaf_at_app; by rewrite <- Hls).
    simpl. eexists. rewrite Nat.sub_0_r. repeat split. apply (layer_cons _ [] [a] []); constructor.
  - destruct pool as [| pool]; [lia |]. simpl. unfold fill_nonleaf_value.
    assert (Hb : ls = (pre ++ [a]) ++ b :: chain) by by rewrite <- app_assoc.
    assert (leaf_at ls (l_addr a) = Some a) as -> by (rewrite Hls at 1; apply leaf_at_app; by rewrite <- Hls).
    assert (leaf_at ls (l_addr b) = Some b) as -> by (rewrite Hb; apply leaf_at_app; by rewrite <- Hb).
    assert (leaf_next ls (l_addr b) = head chain) as -> by (rewrite Hb; apply leaf_next_app; by rewrite <- Hb).
    destruct (IH (pre ++ [a; b]) pool) as (ns & Hbuild & Hl & Hlen); [by rewrite <- app_assoc | lia |].
    assert (match head chain with Some n => Some (l_key n) | None => l_key <$> Some b end
      = Some (hi_key b chain)) as -> by by destruct chain.
    simpl. rewrite Hbuild. simpl. eexists. split; [reflexivity |]. split; [| simpl; lia].
    apply (layer_cons _ _ [a; b] chain); [apply ok_pair | done].
Qed.

Lemma layer_parents_ok ls nodes chain pool :
  layer nodes chain -> (half (length nodes) <= pool)%nat ->
  exists ns, build_parents ls nodes pool = Some (ns, (pool - half (length nodes))%nat) /\
    layer ns chain /\ length ns = half (length nodes).
Proof.
  revert chain pool. induction nodes as [| n | n1 n2 nodes IH] using list_ind2;
    intros chain pool Hl Hp; cbn [length half] in *.
  - inversion Hl; subst. exists []. rewrite Nat.sub_0_r. repeat split. constructor.
  - destruct pool as [| pool]; [lia |]. inversion Hl as [| ? ? seg l Hok Hnil]; subst.
    inversion Hnil; subst. rewrite app_nil_r. destruct (node_ok_shape _ _ _ Hok) as (lo & hi & l & r & -> & _).
    simpl. unfold fill_nonleaf_value. simpl. eexists. rewrite Nat.sub_0_r. repeat split. rewrite <- (app_nil_r seg).
    apply layer_cons; [by apply ok_last | constructor].
  - destruct pool as [| pool]; [lia |]. inversion Hl as [| ? ? seg1 l1 Hok1 Hl1]; subst.
    inversion Hl1 as [| ? ? seg2 l2 Hok2 Hl2]; subst.
    destruct (node_ok_shape _ _ _ Hok1) as (lo1 & hi1 & c1 & r1 & -> & _).
    destruct (node_ok_shape _ _ _ Hok2) as (lo2 & hi2 & c2 & r2 & -> & _).
    destruct (IH l2 pool) as (ns & Hb & Hl' & Hlen); [done | lia |].
    simpl. unfold fill_nonleaf_value. simpl. rewrite Hb. simpl. eexists. split; [reflexivity |]. split; [| simpl; lia].
    rewrite app_assoc. apply layer_cons; [by apply ok_inner | done].
Qed.

Lemma count_total fuel n :
  (1 <= n <= fuel)%nat -> exists c, count_needed_nonleaf_nodes fuel n = Some c.
Proof.
  revert n. induction fuel as [| fuel IH]; intros n Hn; [lia |]. cbn [count_needed_nonleaf_nodes].
  destruct (decide (n = 1%nat)); [eauto |]. rewrite half_div2.
  pose proof (half_lt n ltac:(lia)). destruct (IH (half n) ltac:(lia)) as [c ->]. simpl. eauto.
Qed.

Lemma build_non_leaf_ok fuel fuel' c pool ls nodes chain :
  count_needed_nonleaf_nodes fuel (length nodes) = Some c -> (fuel <= fuel')%nat -> (c <= pool)%nat ->
  nodes <> [] -> layer nodes chain ->
  exists root, build_tree_non_leaf fuel' ls nodes pool = Some root /\ node_ok root chain [].
Proof.
  revert fuel' c pool nodes. induction fuel as [| fuel IH]; intros fuel' c pool nodes Hc Hf Hp Hn Hl;
    (destruct nodes as [| n1 [| n2 nodes]]; [done | |]).
  1, 3: inversion Hl as [| ? ? seg l Hok Hnil]; inversion Hnil; subst; rewrite app_nil_r;
    exists n1; by destruct fuel'.
  - done.
  - destruct fuel' as [| fuel']; [lia |]. cbn [count_needed_nonleaf_nodes] in Hc.
    rewrite decide_False, half_div2 in Hc by done.
    destruct (count_needed_nonleaf_nodes fuel (half _)) as [c' |] eqn:Ec; simplify_eq/=.
    destruct (layer_parents_ok ls (n1 :: n2 :: nodes) chain pool) as (ns & Hb & Hl' & Hlen);
      [done | simpl; lia |].
    cbn [build_parents] in Hb. simpl in Hb. rewrite Hb. simpl.
    apply (IH _ c'); [by rewrite Hlen | lia | lia | by destruct ns | done].
Qed.


(** The descent ends at the parent of two leaves whose range has the key. *)
Lemma descend_ok key n seg rest : node_ok n seg rest -> incr (seg ++ rest) ->
  match n with Nonleaf lo hi _ _ => lo <= key < hi | _ => True end ->
  exists lo hi a b pre post,
    descend key n = Some (Some (Nonleaf lo hi (LeafPtr (l_addr a)) (LeafPtr (l_addr b)))) /\
    seg ++ rest = pre ++ a :: b :: post /\ l_key a <= key < hi /\ hi = hi_key b post.
Proof.
  induction 1 as [a b rest | a | lo1 hi1 l1 r1 lo2 hi2 l2 r2 seg1 seg2 rest H1 IH1 H2 IH2 | lo hi l r seg H1 IH];
    intros Hi Hk.
  - do 4 eexists. exists [], rest. done.
  - lia.
  - rewrite <- app_assoc in *. cbn [descend].
    destruct (node_ok_shape _ _ _ H1) as (? & ? & ? & ? & E1 & _ & Hr1 & _). injection E1 as <- <- <- <-.
    destruct (node_ok_shape _ _ _ H2) as (? & ? & ? & ? & E2 & Hh2 & _ & _). injection E2 as <- <- <- <-.
    assert (l_key <$> head (seg2 ++ rest) = Some lo2) as Hh by (by destruct seg2).
    rewrite Hr1 in Hh by (by destruct seg2). injection Hh as <-.
    destruct (Z.ltb_spec key hi1) as [Hlt | Hge].
    + rewrite (proj2 (Z.leb_le _ _)) by lia. simpl andb. apply IH1; [done | lia].
    + rewrite andb_false_r, (proj2 (Z.leb_le _ _)), (proj2 (Z.ltb_lt _ _)) by lia. simpl andb.
      apply incr_app in Hi as Hi'. destruct Hi' as (_ & Hi2 & _).
      destruct IH2 as (lo & hi & a & b & pre & post & ? & Heq & ?); [done | lia |].
      exists lo, hi, a, b, (seg1 ++ pre), post. rewrite Heq, <- app_assoc. done.
  - cbn [descend]. destruct IH as (lo' & hi' & a & b & pre & post & ? & ? & ?); [done | done |].
    rewrite (proj2 (Z.leb_le _ _)), (proj2 (Z.ltb_lt _ _)) by lia. simpl andb.
    do 6 eexists. done.
Qed.

(** The leaf [x] starts the segment that has the key. *)
Definition segment_start (ls : list leaf) (key : Z) (x : leaf) : Prop :=
  exists pre nx post, ls = pre ++ x :: nx :: post /\ l_key x <= key < l_key nx.

Lemma segment_look ls key x d : incr ls -> segment_start ls key x -> look d ls key = l_val x.
Proof.
  intros Hi (pre & nx & post & -> & Hk). rewrite look_app by done. simpl.
  by rewrite (proj2 (Z.ltb_ge _ _)), (proj2 (Z.ltb_lt _ _)) by lia.
Qed.

Lemma search_ok t key x init nxt :
  leaves_ok (m_leaves t) init nxt -> segment_start (m_leaves t) key x ->
  search t key = Some (Some (l_addr x, l_val x)).
Proof.
  intros [Hi _ _ _ _ _] (pre & nx & post & E & Hk). unfold search. rewrite E in *. clear E.
  pose proof Hi as (_ & Hx & Hpx)%incr_app.
  apply StronglySorted_inv in Hx as Hx'. destruct Hx' as [Hnx Hall]. rewrite Forall_forall in Hall.
  assert (Hlo : exists l, head (pre ++ x :: nx :: post) = Some l /\ l_key l <= key).
  { destruct pre as [| l pre]; simpl; eexists; (split; [done |]); [lia |].
    specialize (Hpx l x ltac:(left) ltac:(left)). lia. }
  assert (Hhi : exists r, last (pre ++ x :: nx :: post) = Some r /\ key < l_key r).
  { rewrite last_app_cons, last_cons. destruct (last (nx :: post)) as [r |] eqn:El; [| by apply last_None in El].
    exists r. split; [done |]. apply last_Some_elem_of in El.
    apply elem_of_cons in El as [-> | El]; [lia |]. apply StronglySorted_inv in Hnx as [_ Hnx].
    rewrite Forall_forall in Hnx. specialize (Hnx r El). lia. }
  destruct Hlo as (l & -> & Hl), Hhi as (r & -> & Hr).
  rewrite (proj2 (Z.ltb_ge _ _)), (proj2 (Z.leb_gt _ _)) by lia. simpl orb.
  destruct (Z.eqb_spec (l_key x) key) as [Hxk | Hxk].
  - rewrite (insertion_pos_unique key pre).
    + by rewrite (proj2 (Z.eqb_eq _ _)).
    + intros y Hy. specialize (Hpx y x Hy ltac:(left)). lia.
    + intros y [-> | Hy]%elem_of_cons; [lia |]. specialize (Hall y Hy). lia.
  - rewrite cons_middle, app_assoc, insertion_pos_unique.
    + rewrite (proj2 (Z.eqb_neq _ _)) by lia. rewrite last_snoc. by rewrite (proj2 (Z.ltb_lt _ _)) by lia.
    + intros y [Hy | ->%list_elem_of_singleton]%elem_of_app; [| lia]. specialize (Hpx y x Hy ltac:(left)). lia.
    + intros y [-> | Hy]%elem_of_cons; [lia |]. apply StronglySorted_inv in Hnx as [_ Hnx].
      rewrite Forall_forall in Hnx. specialize (Hnx y Hy). lia.
Qed.


(** ** The contract of the segment tree *)

(** A well-formed tree: its leaves are, and the tree of a tree that is marked valid
    covers them. *)
Record wf (t : fst_tree) : Prop := {
  wf_leaves : leaves_ok (m_leaves t) (m_init_val t) (t_next t);
  wf_root : m_valid_tree t = true -> node_ok (m_root_node t) (m_leaves t) [] }.

Lemma wf_new lo hi v : lo < hi -> wf (fst_new lo hi v).
Proof.
  intros H. constructor; [| done]. constructor; simpl; try done.
  - repeat constructor; simpl; lia.
  - repeat constructor; set_solver.
  - intros x [-> | [-> | Hx%elem_of_nil]%elem_of_cons]%elem_of_cons; simpl; [lia | lia | done].
Qed.

Lemma wf_ends t : wf t -> exists l r,
  head (m_leaves t) = Some l /\ last (m_leaves t) = Some r /\
  min_key t = l_key l /\ max_key t = l_key r /\ l_key l < l_key r.
Proof.
  intros [[Hi Hlen _ _ _ _] _]. unfold min_key, max_key.
  destruct (m_leaves t) as [| l ls]; simpl in *; [lia |].
  destruct ls as [| r ls _] using rev_ind; simpl in *; [lia |].
  exists l, r. rewrite app_comm_cons, last_snoc. split; [done |]. split; [done |].
  split; [done |]. split; [done |]. apply StronglySorted_inv in Hi as [_ Hi].
  rewrite Forall_forall in Hi. apply Hi. set_solver.
Qed.

(** A valid tree finds the leaf that starts the segment of a key. *)
Lemma search_tree_ok t key :
  wf t -> m_valid_tree t = true -> min_key t <= key < max_key t ->
  exists x, segment_start (m_leaves t) key x /\ search_tree t key = Some (Some (l_addr x, l_val x)).
Proof.
  intros Hw Hv Hk. destruct (wf_ends t Hw) as (l & r & Hl & Hr & Hmin & Hmax & _). rewrite Hmin, Hmax in Hk.
  destruct Hw as [[Hi _ Hn _ _ _] Hroot]. specialize (Hroot Hv).
  destruct (node_ok_shape _ _ _ Hroot) as (lo & hi & c1 & c2 & En & Hlo & _ & Hhi).
  rewrite Hl in Hlo. rewrite Hr in Hhi. specialize (Hhi eq_refl). simplify_eq/=.
  destruct (descend_ok key _ _ _ Hroot) as (lo' & hi' & a & b & pre & post & Hd & E & Hka & Hhi);
    [by rewrite app_nil_r | by rewrite En |].
  rewrite app_nil_r in E. unfold search_tree. rewrite Hd, Hl, Hr, Hv. rewrite En. cbn [negb orb].
  rewrite (proj2 (Z.ltb_ge _ _)), (proj2 (Z.leb_gt _ _)) by lia. cbn [orb].
  assert (leaf_at (m_leaves t) (l_addr a) = Some a) as -> by (rewrite E in *; by apply leaf_at_app).
  assert (leaf_at (m_leaves t) (l_addr b) = Some b) as ->.
  { rewrite E, cons_middle, app_assoc in *. by apply leaf_at_app. }
  cbn. destruct (Z.ltb_spec key (l_key b)) as [Hb | Hb].
  - rewrite (proj2 (Z.leb_le (l_key a) key)) by lia. exists a. split; [| done].
    exists pre, b, post. split; [done | lia].
  - rewrite andb_false_r, (proj2 (Z.leb_le _ _)), (proj2 (Z.ltb_lt _ _)) by lia.
    exists b. split; [| done]. destruct post as [| c post]; simpl in *; [lia |].
    exists (pre ++ [a]), c, post. rewrite <- app_assoc. split; [done | lia].
Qed.

Lemma build_tree_ok t : wf t -> exists t', build_tree t = Some t' /\ wf t' /\
  m_leaves t' = m_leaves t /\ m_init_val t' = m_init_val t /\ m_valid_tree t' = true.
Proof.
  intros [Hl _]. pose proof Hl as [_ Hlen Hn _ _ _]. unfold build_tree.
  destruct (length (m_leaves t)) as [| f] eqn:Elen; [lia |].
  destruct (count_total f (half (Datatypes.S f))) as [c Hc].
  { pose proof (half_lt (Datatypes.S f) ltac:(lia)). lia. }
  cbn [count_needed_nonleaf_nodes]. rewrite decide_False, half_div2, Hc by lia. cbn [mbind option_bind].
  destruct (leaf_parents_ok (m_leaves t) [] (m_leaves t) (half (Datatypes.S f) + c)) as (ns & Hb & Hlay & Hns);
    [done | done | rewrite Elen; lia |].
  rewrite Hb. cbn [mbind option_bind]. rewrite Elen in *.
  destruct (build_non_leaf_ok f (Datatypes.S f) c (half (Datatypes.S f) + c - half (Datatypes.S f))%nat
    (m_leaves t) ns (m_leaves t)) as (root & Hr & Hok); [by rewrite Hns | lia | lia | | done |].
  { pose proof (half_lt (Datatypes.S f) ltac:(lia)). destruct ns; simpl in *; [lia | done]. }
  rewrite Hr. cbn [mbind option_bind]. eexists. split; [reflexivity |].
  split; [by constructor | done].
Qed.

Lemma insert_ok t s e v fwd :
  wf t -> s < e -> min_key t < e -> s < max_key t ->
  exists t' a ch, insert_segment_impl t s e v fwd = Some (t', At a, ch) /\ wf t' /\
    m_init_val t' = m_init_val t /\ (ch = false -> m_valid_tree t' = m_valid_tree t) /\
    inserted (m_leaves t) (m_init_val t) (Z.max s (min_key t)) (Z.min e (max_key t)) v (t_next t)
      (m_leaves t') a ch (t_next t').
Proof.
  intros Hw Hse Hlo Hhi. destruct (wf_ends t Hw) as (l & r & Hl & Hr & Hmin & Hmax & Hlr).
  unfold insert_segment_impl. rewrite Hl, Hr. rewrite Hmin, Hmax in *.
  assert (adjust_segment_range (l_key l) (l_key r) s e
    = Some (Z.max s (l_key l), Z.min e (l_key r))) as ->.
  { unfold adjust_segment_range. rewrite Z.geb_leb, !Z.gtb_ltb, (proj2 (Z.leb_gt _ _)) by lia.
    rewrite (proj2 (Z.ltb_ge e _)), (proj2 (Z.ltb_ge (l_key r) s)) by lia. simpl.
    do 2 f_equal; [destruct (Z.ltb_spec s (l_key l)) | destruct (Z.ltb_spec (l_key r) e)]; lia. }
  destruct Hw as [Hok Hroot]. pose proof Hok as [Hi _ _ _ _ _].
  replace (if fwd then _ else _) with (get_insertion_pos_leaf (Z.max s (l_key l)) (m_leaves t))
    by (destruct fwd; [done | by rewrite insertion_pos_agree]).
  pose proof (insertion_pos_spec (Z.max s (l_key l)) _ Hi) as Hs.
  destruct (get_insertion_pos_leaf _ _) as [pre post]. destruct Hs as (E & Hpre & Hpost).
  assert (Hip : incr post) by (rewrite E in Hi; by apply incr_app in Hi as (_ & ? & _)).
  pose proof (insertion_pos_spec (Z.min e (l_key r)) _ Hip) as Hs.
  destruct (get_insertion_pos_leaf _ post) as [mid rest]. destruct Hs as (-> & Hmid & Hrest).
  destruct (insert_to_pos_spec pre mid rest (Z.max s (l_key l)) (Z.min e (l_key r)) v (m_init_val t) (t_next t))
    as (ls' & a & ch & nxt' & Hins & Hres).
  { rewrite E in *. assert (Hrin : r ∈ pre ++ mid ++ rest) by by apply last_Some_elem_of.
    constructor; try done.
    - lia.
    - intros x Hx. split; [apply Hpost; set_solver | by apply Hmid].
    - intros ->. rewrite app_nil_r in Hrin. apply elem_of_app in Hrin as [Hin | Hin];
        [specialize (Hpre r Hin) | specialize (Hmid r Hin)]; lia.
    - destruct pre as [| x pre]; [right | by left]. destruct mid as [| y mid]; simpl in *.
      + apply head_Some_elem_of in Hl. specialize (Hrest l Hl). lia.
      + injection Hl as ->. specialize (Hpost l ltac:(left)). f_equal. lia. }
  rewrite Hins. do 3 eexists. split; [reflexivity |]. rewrite <- E in Hres. split.
  - constructor; simpl; [apply Hres |]. destruct ch; [done |].
    by rewrite (ins_same _ _ _ _ _ _ _ _ _ _ Hres eq_refl).
  - simpl. split; [done |]. split; [by intros -> | done].
Qed.


(** Equal leaves give the same map, and the leaves of a map are determined by it. *)
Lemma leaves_equal_look a b d k : leaves_equal a b = true -> look d a k = look d b k.
Proof.
  revert d b. induction a as [| x a IH]; intros d [| y b]; simpl; try done.
  intros [[Hk%Z.eqb_eq Hv%bool_decide_eq_true]%andb_true_iff He]%andb_true_iff.
  rewrite Hk, Hv. destruct (k <? l_key y); [done | by apply IH].
Qed.

Lemma look_head d x t k : l_key x <= k -> (forall y, y ∈ t -> k < l_key y) -> look d (x :: t) k = l_val x.
Proof. intros Hk Ht. simpl. rewrite (proj2 (Z.ltb_ge _ _)) by done. by apply look_low. Qed.

Lemma look_skip d x y t k : l_key x <= k -> l_key y <= k -> look d (x :: y :: t) k = look d (y :: t) k.
Proof. intros. simpl. by rewrite (proj2 (Z.ltb_ge k (l_key x))), (proj2 (Z.ltb_ge k (l_key y))). Qed.

Lemma incr_second x y t k : incr (x :: y :: t) -> k < l_key y -> forall z, z ∈ y :: t -> k < l_key z.
Proof.
  intros Hi Hk z Hz. apply StronglySorted_inv in Hi as [Hi _]. apply StronglySorted_inv in Hi as [_ Hi].
  rewrite Forall_forall in Hi. apply elem_of_cons in Hz as [-> | Hz]; [done |]. specialize (Hi z Hz). lia.
Qed.

Lemma incr_last x t r : incr (x :: t) -> last t = Some r -> l_key x < l_key r.
Proof.
  intros [_ Hi]%StronglySorted_inv Hl. rewrite Forall_forall in Hi. by apply Hi, last_Some_elem_of.
Qed.

(** The second key of [a] is not before that of [b] when the maps agree. *)
Lemma second_key_le x x2 a y y2 b m d :
  incr (x :: x2 :: a) -> incr (y :: y2 :: b) -> adj (l_val <$> removelast (x :: x2 :: a)) ->
  l_key <$> last (x2 :: a) = Some m -> l_key <$> last (y2 :: b) = Some m -> l_key x = l_key y -> l_val x = l_val y ->
  (forall k, l_key x <= k < m -> look d (x :: x2 :: a) k = look d (y :: y2 :: b) k) ->
  l_key y2 <= l_key x2.
Proof.
  intros Ha Hb Hadj Hla Hlb Hk Hv Hlook. destruct (Z.le_gt_cases (l_key y2) (l_key x2)) as [| Hlt]; [done |].
  exfalso. assert (Hy2 : l_key y2 <= m).
  { destruct b as [| z b]; [simpl in Hlb; injection Hlb as ->; lia |]. rewrite last_cons_cons in Hlb.
    destruct (last (z :: b)) as [w |] eqn:El; [| done].
    apply StronglySorted_inv in Hb as [Hb _]. pose proof (incr_last _ _ _ Hb El).
    injection Hlb as <-. lia. }
  destruct a as [| x3 a]; [simpl in Hla; injection Hla as <-; lia |].
  assert (Hx : l_key x < l_key x2).
  { apply StronglySorted_inv in Ha as [_ Ha]. by inversion Ha. }
  assert (E : look d (x :: x2 :: x3 :: a) (l_key x2) = look d (y :: y2 :: b) (l_key x2)) by (apply Hlook; lia).
  rewrite (look_head d y) in E by (first [lia | by eapply incr_second]).
  cbn [look] in E. rewrite (proj2 (Z.ltb_ge _ _)), (proj2 (Z.ltb_ge _ _)) in E by lia.
  apply StronglySorted_inv in Ha as [Ha _]. assert (Hx3 : l_key x2 < l_key x3).
  { apply StronglySorted_inv in Ha as [_ Ha]. by inversion Ha. }
  rewrite (proj2 (Z.ltb_lt _ _)) in E by done. simpl in Hadj. destruct Hadj as [Hne _]. congruence.
Qed.

Lemma look_leaves_equal a b m init d :
  incr a -> incr b -> adj (l_val <$> removelast a) -> adj (l_val <$> removelast b) ->
  l_key <$> last a = Some m -> l_key <$> last b = Some m ->
  l_val <$> last a = Some init -> l_val <$> last b = Some init ->
  l_key <$> head a = l_key <$> head b ->
  (forall k, default 0 (l_key <$> head a) <= k < m -> look d a k = look d b k) -> leaves_equal a b = true.
Proof.
  revert d b. induction a as [| x a IH]; intros d [| y b] Ha Hb Haa Hab Hla Hlb Hva Hvb Hh Hlook; try done.
  simpl in Hh. injection Hh as Hh. change (default 0 (l_key <$> head (x :: a))) with (l_key x) in Hlook.
  destruct a as [| x2 a].
  - destruct b as [| y2 b].
    + simpl in *. rewrite Hh, Z.eqb_refl. simplify_eq. rewrite bool_decide_true by congruence. done.
    + exfalso. simpl in Hla. injection Hla as <-. rewrite last_cons_cons in Hlb.
      destruct (last (y2 :: b)) eqn:El; [| done]. pose proof (incr_last _ _ _ Hb El).
      injection Hlb as Hlb. lia.
  - destruct b as [| y2 b].
    + exfalso. simpl in Hlb. injection Hlb as <-. rewrite last_cons_cons in Hla.
      destruct (last (x2 :: a)) eqn:El; [| done]. pose proof (incr_last _ _ _ Ha El).
      injection Hla as Hla. lia.
    + rewrite last_cons_cons in Hla, Hlb, Hva, Hvb.
      destruct (last (x2 :: a)) as [ra |] eqn:Ela; [| done]. injection Hla as Hm.
      pose proof (incr_last _ _ _ Ha Ela) as Hxm.
      assert (Hxa : l_key x < l_key x2) by (apply StronglySorted_inv in Ha as [_ Hq]; by inversion Hq).
      assert (Hyb : l_key y < l_key y2) by (apply StronglySorted_inv in Hb as [_ Hq]; by inversion Hq).
      assert (Hv : l_val x = l_val y).
      { specialize (Hlook (l_key x) ltac:(lia)).
        rewrite (look_head d x), (look_head d y) in Hlook;
          [done | lia | apply (incr_second y); [done | lia] | lia | apply (incr_second x); [done | lia]]. }
      assert (Hk2 : l_key x2 = l_key y2).
      { apply Z.le_antisymm.
        - eapply (second_key_le y y2 b x x2 a m d); try done.
          + by rewrite Ela, <- Hm.
          + intros k Hk. symmetry. apply Hlook. lia.
        - eapply (second_key_le x x2 a y y2 b m d); try done. by rewrite Ela, <- Hm. }
      change (leaves_equal (x :: x2 :: a) (y :: y2 :: b)) with
        ((l_key x =? l_key y) && bool_decide (l_val x = l_val y) && leaves_equal (x2 :: a) (y2 :: b)).
      rewrite Hh, Hv, Z.eqb_refl, bool_decide_true by done. cbn [andb].
      apply (IH d); try done.
      * by apply StronglySorted_inv in Ha as [? _].
      * by apply StronglySorted_inv in Hb as [? _].
      * destruct a; [done |]. simpl in Haa. apply Haa.
      * destruct b; [done |]. simpl in Hab. apply Hab.
      * simpl. by rewrite Hm.
      * simpl. by rewrite Hk2.
      * intros k Hk. simpl in Hk. specialize (Hlook k ltac:(lia)).
        rewrite !look_skip in Hlook by lia. done.
Qed.


(** C23: [insert_front] and [insert_back] assign a value to a segment: on a well-formed tree
    whose interval the segment [[s, e)] meets they succeed, keep the tree well formed and
    its interval unchanged, and afterwards the keys of the segment have the value [v] and
    every other key the value it had; when they report that nothing changed, the leaves and
    the validity of the tree are what they were. *)
Theorem fst_insert (t : fst_tree) (s e : Z) (v : V) (forward : bool) :
  wf t -> s < e -> min_key t < e -> s < max_key t ->
  exists t' a changed, insert_segment_impl t s e v forward = Some (t', At a, changed) /\ wf t' /\
    min_key t' = min_key t /\ max_key t' = max_key t /\
    (forall k, min_key t <= k < max_key t ->
       value_at t' k = if (s <=? k) && (k <? e) then v else value_at t k) /\
    (changed = false -> m_leaves t' = m_leaves t /\ m_valid_tree t' = m_valid_tree t).
Proof.
  intros Hw Hse Hlo Hhi. destruct (insert_ok t s e v forward Hw Hse Hlo Hhi) as
    (t' & a & ch & Hins & Hw' & Hinit & Hval & [_ Hmin Hlast Hlook Hsame _]).
  exists t', a, ch. split; [done |]. split; [done |]. unfold min_key, max_key in *.
  rewrite Hmin, Hlast. split; [done |]. split; [done |]. split; [| by intros ->; auto].
  intros k Hk. unfold value_at. rewrite Hinit, Hlook.
  destruct (Z.leb_spec s k), (Z.ltb_spec k e); simpl;
    first [rewrite (proj2 (Z.leb_le _ _)), (proj2 (Z.ltb_lt _ _)) by lia; done
          | rewrite (proj2 (Z.ltb_ge k _)) by lia; by rewrite andb_false_r
          | rewrite (proj2 (Z.leb_gt _ k)) by lia; done].
Qed.

(** C24: [build_tree] finds enough nodes in its pool, and [search_tree] on the tree it
    builds agrees with the linear [search]: both give the leaf that starts the segment of
    the key, with the value of the key, or nothing for a key outside the interval. *)
Theorem fst_search_tree (t : fst_tree) :
  wf t ->
  exists t', build_tree t = Some t' /\ wf t' /\ m_leaves t' = m_leaves t /\
    forall k, search_tree t' k = search t' k /\
      if (min_key t <=? k) && (k <? max_key t)
      then exists x, segment_start (m_leaves t) k x /\
             search_tree t' k = Some (Some (l_addr x, value_at t k))
      else search_tree t' k = Some None.
Proof.
  intros Hw. destruct (build_tree_ok t Hw) as (t' & Hb & Hw' & Hls & Hin & Hv).
  exists t'. split; [done |]. split; [done |]. split; [done |]. intros k.
  assert (Hmm : min_key t' = min_key t /\ max_key t' = max_key t) by (unfold min_key, max_key; by rewrite Hls).
  destruct Hmm as [Hm1 Hm2]. destruct (wf_ends t' Hw') as (l & r & Hl & Hr & Hmin & Hmax & _).
  destruct ((min_key t <=? k) && (k <? max_key t)) eqn:Er.
  - apply andb_true_iff in Er as [?%Z.leb_le ?%Z.ltb_lt].
    destruct (search_tree_ok t' k Hw' Hv) as (x & Hseg & Hs); [lia |].
    rewrite Hs. split; [symmetry; eapply search_ok; [apply Hw' | done] |].
    rewrite Hls in Hseg. exists x. split; [done |]. unfold value_at.
    by rewrite (segment_look _ _ x) by (first [apply Hw | done]).
  - unfold search_tree, search. rewrite Hl, Hr, Hv. simpl negb.
    assert ((k <? l_key l) || (l_key r <=? k) = true) as Ho.
    { apply andb_false_iff in Er as [?%Z.leb_gt | ?%Z.ltb_ge]; apply orb_true_iff;
        [left; apply Z.ltb_lt | right; apply Z.leb_le]; lia. }
    simpl orb. rewrite Ho. pose proof (wf_root _ Hw' Hv) as Hroot.
    destruct (node_ok_shape _ _ _ Hroot) as (? & ? & ? & ? & -> & _). done.
Qed.

(** The leaves are a canonical form: [operator==] holds of two well-formed trees over the
    same interval exactly when they map every key of it to the same value. *)
Theorem fst_equal_extensional (a b : fst_tree) :
  wf a -> wf b -> min_key a = min_key b -> max_key a = max_key b -> m_init_val a = m_init_val b ->
  fst_equal a b = true <-> forall k, min_key a <= k < max_key a -> value_at a k = value_at b k.
Proof.
  intros Ha Hb Hmin Hmax Hinit. unfold fst_equal, value_at. split.
  - intros He k _. rewrite <- Hinit. by apply leaves_equal_look.
  - destruct (wf_ends a Ha) as (la & ra & Hla & Hra & Hmina & Hmaxa & _).
    destruct (wf_ends b Hb) as (lb & rb & Hlb & Hrb & Hminb & Hmaxb & _).
    destruct Ha as [[? ? ? ? ? Hlasta] _], Hb as [[? ? ? ? ? Hlastb] _].
    intros Hlook. rewrite <- Hinit in *. apply (look_leaves_equal _ _ (max_key a) (m_init_val a) (m_init_val a)); try done.
    + rewrite Hra, Hmaxa. done.
    + rewrite Hrb, Hmax, Hmaxb. done.
    + rewrite Hla, Hlb. simpl. congruence.
Qed.

End FST.
Arguments leaf : clear implicits.
Arguments fst_tree : clear implicits.

(** ** Concrete trees *)

(** Three segments over [[0, 100)]. *)
Definition sample_tree : option (fst_tree nat) :=
  '(t, _, _) ← insert_back (fst_new 0 100 0%nat) 0 40 1%nat;
  '(t, _, _) ← insert_back t 40 60 2%nat; Some t.
Definition sample : fst_tree nat := default (fst_new 0 100 0%nat) sample_tree.

Lemma sample_fst_wf : wf sample.
Proof.
  change sample with (Fst [Leaf 1%positive 0 1%nat; Leaf 3%positive 40 2%nat; Leaf 4%positive 60 0%nat;
    Leaf 2%positive 100 0%nat] Null 0%nat false 5%positive).
  constructor; [| done]. constructor; simpl; try done.
  - repeat constructor; simpl; lia.
  - lia.
  - repeat constructor; set_solver.
  - intros x Hx. repeat (apply elem_of_cons in Hx as [-> | Hx]; [simpl; lia |]). by apply elem_of_nil in Hx.
Qed.

Lemma fst_insert_witness :
  exists t' a changed, insert_segment_impl sample 20 50 3%nat true = Some (t', At a, changed) /\ wf t' /\
    min_key t' = min_key sample /\ max_key t' = max_key sample /\
    (forall k, min_key sample <= k < max_key sample ->
       value_at t' k = if (20 <=? k) && (k <? 50) then 3%nat else value_at sample k) /\
    (changed = false -> m_leaves t' = m_leaves sample /\ m_valid_tree t' = m_valid_tree sample).
Proof. apply (fst_insert sample 20 50 3%nat true); [apply sample_fst_wf | | |]; vm_compute; done. Defined.

Lemma fst_search_tree_witness :
  exists t', build_tree sample = Some t' /\ wf t' /\ m_leaves t' = m_leaves sample /\
    forall k, search_tree t' k = search t' k /\
      if (min_key sample <=? k) && (k <? max_key sample)
      then exists x, segment_start (m_leaves sample) k x /\
             search_tree t' k = Some (Some (l_addr x, value_at sample k))
      else search_tree t' k = Some None.
Proof. apply (fst_search_tree sample). apply sample_fst_wf. Defined.

Lemma fst_equal_extensional_witness :
  fst_equal sample sample = true <->
  forall k, min_key sample <= k < max_key sample -> value_at sample k = value_at sample k.
Proof. apply (fst_equal_extensional sample sample); [apply sample_fst_wf | apply sample_fst_wf | done | done | done]. Defined.

(** A segment that only touches the interval is not rejected: [adjust_segment_range]
    clips [[-5, 0)] and [[100, 120)] against [[0, 100)] to empty segments, and
    [insert_to_pos] then follows the links past the end of the list. *)
Theorem fst_insert_at_the_ends (v : nat) :
  v <> 0%nat ->
  insert_front (fst_new 0 100 0%nat) (-5) 0 v = None /\
  insert_front (fst_new 0 100 0%nat) 100 120 v = None.
Proof.
  intros Hv. unfold insert_front, insert_segment_impl, insert_to_pos, set_start_node. simpl.
  split; [done |]. by rewrite decide_False.
Qed.

Lemma fst_insert_at_the_ends_witness :
  insert_front (fst_new 0 100 0%nat) (-5) 0 7%nat = None /\
  insert_front (fst_new 0 100 0%nat) 100 120 7%nat = None.
Proof. apply (fst_insert_at_the_ends 7). done. Defined.

End Mdds.
