(* ===== verification/FuseBuf.v ===== *)
(** * Copying FUSE buffer vectors: src/backends/nvram-nvml/fuse_buf_copy_pmem.cpp

    [fuse_buf_copy_pmem] moves the bytes of one vector of buffers to another; a buffer is a
    block of memory or a file descriptor. Memory is a map from addresses to bytes; the
    four system calls are operations of the kernel's state, given by the class [Kernel]
    with what their manual pages promise. A computation is a function on the memory and the
    kernel's state; [None] is a failed assertion or a null pointer. Sizes and offsets are
    [size_t] and [off_t] values whose sums stay below [2^63] for buffers that exist, so they
    are not wrapped. The same file is in the nvram-devdax backend. *)
From S2P Require Import Prelude.
From stdpp Require Import base list numbers option gmap.
Local Open Scope Z_scope.

Module FuseBuf.

(** ** Memory *)

Abbreviation memory := (gmap Z Z).
Definition mem_get (m : memory) (a : Z) : Z := default 0 (m !! a).
Fixpoint mem_put (m : memory) (a : Z) (bytes : list Z) : memory :=
  match bytes with
  | [] => m
  | b :: bytes => mem_put (<[a := b]> m) (a + 1) bytes
  end.
Definition mem_slice (m : memory) (a len : Z) : list Z := mem_get m <$> seqZ a len.

(** ** Buffers *)

(** [struct fuse_buf] and [struct fuse_bufvec]; [count] is the length of the vector. *)
Record fuse_buf := Buf { b_size : Z; b_flags : Z; b_mem : Z; b_fd : Z; b_pos : Z }.
Record fuse_bufvec := Bufvec { v_idx : nat; v_off : Z; v_buf : list fuse_buf }.

Definition FUSE_BUF_IS_FD : Z := 2.
Definition FUSE_BUF_FD_SEEK : Z := 4.
Definition FUSE_BUF_FD_RETRY : Z := 8.
Definition FUSE_BUF_NO_SPLICE : Z := 2.
Definition FUSE_BUF_FORCE_SPLICE : Z := 4.
Definition EINVAL : Z := 22.

Definition flag (flags f : Z) : bool := negb (Z.land flags f =? 0).

(** The outcome of a system call: [-1] with an [errno], or a number of bytes (for reads, the
    bytes). *)
Inductive io (X : Type) := Failed (errno : Z) | Done (x : X).
Arguments Failed {X}. Arguments Done {X}.

(** The system calls, positioned or at the descriptor's own offset. A call transfers at
    most the number of bytes asked for, and [errno] values are positive. *)
Class Kernel (W : Type) := {
  sys_read : W -> Z -> Z -> option Z -> io (list Z) * W;
  sys_write : W -> Z -> list Z -> option Z -> io Z * W;
  sys_splice : W -> Z -> option Z -> Z -> option Z -> Z -> io Z * W;
  sys_read_le w fd len pos bs w' : 0 <= len -> sys_read w fd len pos = (Done bs, w') -> Z.of_nat (length bs) <= len;
  sys_read_errno w fd len pos e w' : sys_read w fd len pos = (Failed e, w') -> 0 < e;
  sys_write_le w fd bs pos n w' : sys_write w fd bs pos = (Done n, w') -> 0 <= n <= Z.of_nat (length bs);
  sys_write_errno w fd bs pos e w' : sys_write w fd bs pos = (Failed e, w') -> 0 < e;
  sys_splice_le w fd p fd' p' len n w' : 0 <= len -> sys_splice w fd p fd' p' len = (Done n, w') -> 0 <= n <= len;
  sys_splice_errno w fd p fd' p' len e w' : sys_splice w fd p fd' p' len = (Failed e, w') -> 0 < e }.

(** [fuse_buf_size] *)
Definition SIZE_MAX : Z := 2 ^ 64 - 1.
Definition fuse_buf_size (v : fuse_bufvec) : Z :=
  foldl (fun size b => if b_size b =? SIZE_MAX then SIZE_MAX else u64 (size + b_size b)) 0 (v_buf v).

Definition min_size (s1 s2 : Z) : Z := if s1 <? s2 then s1 else s2.

Section Copy.
Context {W : Type} `{Kernel W}.
(** The address of the local buffer of [fuse_buf_fd_to_fd], and the build option. *)
Variable local_buf : Z.
Variable have_splice : bool.

Definition St : Type := memory * W.
Definition M (X : Type) : Type := St -> option (X * St).
Definition ret {X} (x : X) : M X := fun s => Some (x, s).
Definition bind {X Y} (c : M X) (k : X -> M Y) : M Y :=
  fun s => match c s with Some (x, s') => k x s' | None => None end.

(** The loop of [fuse_buf_write]; the fuel is [len], since each further round has written at
    least one byte. *)
Fixpoint fuse_buf_write_loop (fuel : nat) (dst : fuse_buf) (dst_off : Z) (src : fuse_buf)
    (src_off len copied : Z) : M Z := fun s =>
  if len =? 0 then Some (copied, s)
  else match fuel with
  | O => None
  | S fuel =>
      let '(mem, w) := s in
      let pos := if flag (b_flags dst) FUSE_BUF_FD_SEEK then Some (b_pos dst + dst_off) else None in
      let '(res, w) := sys_write w (b_fd dst) (mem_slice mem (b_mem src + src_off) len) pos in
      match res with
      | Failed errno => Some (if copied =? 0 then - errno else copied, (mem, w))
      | Done n =>
          if n =? 0 then Some (copied, (mem, w))
          else if negb (flag (b_flags dst) FUSE_BUF_FD_RETRY) then Some (copied + n, (mem, w))
          else fuse_buf_write_loop fuel dst (dst_off + n) src (src_off + n) (len - n) (copied + n) (mem, w)
      end
  end.
Definition fuse_buf_write (dst : fuse_buf) (dst_off : Z) (src : fuse_buf) (src_off len : Z) : M Z :=
  fuse_buf_write_loop (Z.to_nat len) dst dst_off src src_off len 0.

(** The loop of [fuse_buf_read]. *)
Fixpoint fuse_buf_read_loop (fuel : nat) (dst : fuse_buf) (dst_off : Z) (src : fuse_buf)
    (src_off len copied : Z) : M Z := fun s =>
  if len =? 0 then Some (copied, s)
  else match fuel with
  | O => None
  | S fuel =>
      let '(mem, w) := s in
      let pos := if flag (b_flags src) FUSE_BUF_FD_SEEK then Some (b_pos src + src_off) else None in
      let '(res, w) := sys_read w (b_fd src) len pos in
      match res with
      | Failed errno => Some (if copied =? 0 then - errno else copied, (mem, w))
      | Done bs =>
          let n := Z.of_nat (length bs) in
          let mem := mem_put mem (b_mem dst + dst_off) bs in
          if n =? 0 then Some (copied, (mem, w))
          else if negb (flag (b_flags src) FUSE_BUF_FD_RETRY) then Some (copied + n, (mem, w))
          else fuse_buf_read_loop fuel dst (dst_off + n) src (src_off + n) (len - n) (copied + n) (mem, w)
      end
  end.
Definition fuse_buf_read (dst : fuse_buf) (dst_off : Z) (src : fuse_buf) (src_off len : Z) : M Z :=
  fuse_buf_read_loop (Z.to_nat len) dst dst_off src src_off len 0.

(** [fuse_buf_fd_to_fd], through a local buffer of 4096 bytes. *)
Fixpoint fuse_buf_fd_to_fd_loop (fuel : nat) (dst : fuse_buf) (dst_off : Z) (src : fuse_buf)
    (src_off len copied : Z) : M Z :=
  if len =? 0 then ret copied
  else match fuel with
  | O => fun _ => None
  | S fuel =>
      let tmp := Buf 4096 0 local_buf 0 0 in
      let this_len := min_size (b_size tmp) len in
      bind (fuse_buf_read tmp 0 src src_off this_len) (fun res =>
      if res <? 0 then ret (if copied =? 0 then res else copied)
      else if res =? 0 then ret copied
      else bind (fuse_buf_write dst dst_off tmp 0 res) (fun res =>
      if res <? 0 then ret (if copied =? 0 then res else copied)
      else if res =? 0 then ret copied
      else if res <? this_len then ret (copied + res)
      else fuse_buf_fd_to_fd_loop fuel dst (dst_off + res) src (src_off + res) (len - res) (copied + res)))
  end.
Definition fuse_buf_fd_to_fd (dst : fuse_buf) (dst_off : Z) (src : fuse_buf) (src_off len : Z) : M Z :=
  fuse_buf_fd_to_fd_loop (Z.to_nat len) dst dst_off src src_off len 0.

(** [fuse_buf_splice]; the kernel advances the positions it is given. *)
Fixpoint fuse_buf_splice_loop (fuel : nat) (dst : fuse_buf) (dst_off : Z) (src : fuse_buf) (src_off : Z)
    (srcpos dstpos : option Z) (len copied flags : Z) : M Z := fun s =>
  if len =? 0 then Some (copied, s)
  else match fuel with
  | O => None
  | S fuel =>
      let '(mem, w) := s in
      let '(res, w) := sys_splice w (b_fd src) srcpos (b_fd dst) dstpos len in
      match res with
      | Failed errno =>
          if negb (copied =? 0) then Some (copied, (mem, w))
          else if negb (errno =? EINVAL) || flag flags FUSE_BUF_FORCE_SPLICE then Some (- errno, (mem, w))
          else fuse_buf_fd_to_fd dst dst_off src src_off len (mem, w)
      | Done n =>
          if n =? 0 then Some (copied, (mem, w))
          else if negb (flag (b_flags src) FUSE_BUF_FD_RETRY) && negb (flag (b_flags dst) FUSE_BUF_FD_RETRY)
          then Some (copied + n, (mem, w))
          else fuse_buf_splice_loop fuel dst dst_off src src_off ((fun p => p + n) <$> srcpos)
                 ((fun p => p + n) <$> dstpos) (len - n) (copied + n) flags (mem, w)
      end
  end.
Definition fuse_buf_splice (dst : fuse_buf) (dst_off : Z) (src : fuse_buf) (src_off len flags : Z) : M Z :=
  if have_splice then
    fuse_buf_splice_loop (Z.to_nat len) dst dst_off src src_off
      (if flag (b_flags src) FUSE_BUF_FD_SEEK then Some (b_pos src + src_off) else None)
      (if flag (b_flags dst) FUSE_BUF_FD_SEEK then Some (b_pos dst + dst_off) else None) len 0 flags
  else fuse_buf_fd_to_fd dst dst_off src src_off len.

(** [pmem_memcpy_nodrain] and [pmem_memmove_nodrain]: the source is read before the
    destination is written. *)
Definition mem_move (dst src len : Z) : M unit := fun s =>
  Some (tt, (mem_put s.1 dst (mem_slice s.1 src len), s.2)).

(** [fuse_buf_copy_one] *)
Definition fuse_buf_copy_one (dst : fuse_buf) (dst_off : Z) (src : fuse_buf) (src_off len flags : Z) : M Z :=
  let src_is_fd := flag (b_flags src) FUSE_BUF_IS_FD in
  let dst_is_fd := flag (b_flags dst) FUSE_BUF_IS_FD in
  if negb src_is_fd && negb dst_is_fd then
    let dstmem := b_mem dst + dst_off in
    let srcmem := b_mem src + src_off in
    if negb (dstmem =? srcmem)
    then bind (mem_move dstmem srcmem len) (fun _ => ret len)
    else ret len
  else if negb src_is_fd then fuse_buf_write dst dst_off src src_off len
  else if negb dst_is_fd then fuse_buf_read dst dst_off src src_off len
  else if flag flags FUSE_BUF_NO_SPLICE then fuse_buf_fd_to_fd dst dst_off src src_off len
  else fuse_buf_splice dst dst_off src src_off len flags.

(** [fuse_bufvec_current] and [fuse_bufvec_advance] *)
Definition fuse_bufvec_current (v : fuse_bufvec) : option fuse_buf := v_buf v !! v_idx v.
Definition fuse_bufvec_advance (v : fuse_bufvec) (len : Z) : option (bool * fuse_bufvec) :=
  match fuse_bufvec_current v with
  | None => None
  | Some buf =>
      let off := v_off v + len in
      if b_size buf <? off then None
      else if off =? b_size buf then
        let idx := S (v_idx v) in
        if decide (idx = length (v_buf v)) then Some (false, Bufvec idx off (v_buf v))
        else Some (true, Bufvec idx 0 (v_buf v))
      else Some (true, Bufvec (v_idx v) off (v_buf v))
  end.

(** The loop of [fuse_buf_copy_pmem]: the count or error, and the two vectors. Each round
    that continues has finished a buffer of one of the vectors. *)
Fixpoint copy_loop (fuel : nat) (dstv srcv : fuse_bufvec) (flags copied : Z)
    : M (Z * fuse_bufvec * fuse_bufvec) :=
  match fuse_bufvec_current srcv, fuse_bufvec_current dstv with
  | Some src, Some dst =>
      match fuel with
      | O => fun _ => None
      | S fuel =>
          let len := min_size (b_size src - v_off srcv) (b_size dst - v_off dstv) in
          bind (fuse_buf_copy_one dst (v_off dstv) src (v_off srcv) len flags) (fun res =>
          if res <? 0 then ret (if copied =? 0 then res else copied, dstv, srcv)
          else match fuse_bufvec_advance srcv res with
               | None => fun _ => None
               | Some (false, srcv) => ret (copied + res, dstv, srcv)
               | Some (true, srcv) =>
                   match fuse_bufvec_advance dstv res with
                   | None => fun _ => None
                   | Some (false, dstv) => ret (copied + res, dstv, srcv)
                   | Some (true, dstv) =>
                       if res <? len then ret (copied + res, dstv, srcv)
                       else copy_loop fuel dstv srcv flags (copied + res)
                   end
               end)
      end
  | _, _ => ret (copied, dstv, srcv)
  end.

(** [fuse_buf_copy_pmem]; [same] tells whether the two pointers are equal. *)
Definition fuse_buf_copy_pmem (same : bool) (dstv srcv : fuse_bufvec) (flags : Z)
    : M (Z * fuse_bufvec * fuse_bufvec) :=
  if same then ret (fuse_buf_size dstv, dstv, srcv)
  else copy_loop (length (v_buf dstv) + length (v_buf srcv)) dstv srcv flags 0.

(** ** Memory lemmas *)

(** Bytes written to a list of addresses, in order. *)
Fixpoint scatter (m : memory) (addrs bytes : list Z) : memory :=
  match addrs, bytes with
  | a :: addrs, b :: bytes => scatter (<[a := b]> m) addrs bytes
  | _, _ => m
  end.

Lemma mem_put_scatter m a bs : mem_put m a bs = scatter m (seqZ a (Z.of_nat (length bs))) bs.
Proof.
  revert m a. induction bs as [| b bs IH]; intros m a; simpl; [done |].
  rewrite seqZ_cons by lia. simpl. rewrite IH. f_equal. f_equal; lia.
Qed.

Lemma scatter_notin m addrs bs x : x ∉ addrs -> mem_get (scatter m addrs bs) x = mem_get m x.
Proof.
  revert m bs. induction addrs as [| a addrs IH]; intros m [| b bs] Hx; try done. simpl.
  apply not_elem_of_cons in Hx as [Hne Hx]. rewrite IH by done. unfold mem_get.
  by rewrite lookup_insert_ne.
Qed.

Lemma scatter_app m d1 d2 b1 b2 : length d1 = length b1 ->
  scatter m (d1 ++ d2) (b1 ++ b2) = scatter (scatter m d1 b1) d2 b2.
Proof.
  revert m b1. induction d1 as [| a d1 IH]; intros m [| b b1] Hl; try done. simpl. apply IH. by injection Hl.
Qed.

Lemma gather_scatter m d b (l : list Z) : (forall x, x ∈ l -> x ∉ d) ->
  mem_get (scatter m d b) <$> l = mem_get m <$> l.
Proof. intros Hd. apply list_fmap_ext. intros i x Hx. apply scatter_notin, Hd. by eapply list_elem_of_lookup_2. Qed.

Lemma mem_put_frame m a bs x :
  x < a \/ a + Z.of_nat (length bs) <= x -> mem_get (mem_put m a bs) x = mem_get m x.
Proof. intros Hx. rewrite mem_put_scatter. apply scatter_notin. rewrite elem_of_seqZ. lia. Qed.

Lemma length_mem_slice m a len : 0 <= len -> Z.of_nat (length (mem_slice m a len)) = len.
Proof. intros. unfold mem_slice. rewrite length_fmap, length_seqZ. lia. Qed.

(** ** Bounds of the transfer loops *)

(** A transfer of at most [len] bytes: a count or a negative [errno]; memory changes only in
    [[lo, lo + size)]. *)
Definition transfers (lo size len copied : Z) (s : St) (r : option (Z * St)) : Prop :=
  exists n s', r = Some (n, s') /\ (copied = 0 /\ n < 0 \/ copied <= n <= copied + len) /\
    forall x, x < lo \/ lo + size <= x -> mem_get s'.1 x = mem_get s.1 x.

Lemma transfers_here lo size len copied n m w w' :
  copied = 0 /\ n < 0 \/ copied <= n <= copied + len -> transfers lo size len copied (m, w) (Some (n, (m, w'))).
Proof. intros Hn. exists n, (m, w'). done. Qed.

Lemma transfers_error lo size len copied errno m w w' : 0 < errno -> 0 <= copied -> 0 <= len ->
  transfers lo size len copied (m, w) (Some (if copied =? 0 then - errno else copied, (m, w'))).
Proof. intros. apply transfers_here. destruct (Z.eqb_spec copied 0); lia. Qed.

Lemma fuse_buf_write_bounds lo size fuel dst dst_off src src_off len copied s :
  0 <= len <= Z.of_nat fuel -> 0 <= copied ->
  transfers lo size len copied s (fuse_buf_write_loop fuel dst dst_off src src_off len copied s).
Proof.
  revert dst_off src_off len copied s. induction fuel as [| fuel IH]; intros dst_off src_off len copied [m w] Hl Hc;
    simpl; (destruct (Z.eqb_spec len 0) as [-> | Hne]; [apply transfers_here; lia |]); [lia |].
  destruct (sys_write _ _ _ _) as [[errno | n] w'] eqn:E.
  - apply transfers_error; [by eapply sys_write_errno | lia | lia].
  - apply sys_write_le in E. rewrite length_mem_slice in E by lia.
    destruct (Z.eqb_spec n 0); [apply transfers_here; lia |].
    destruct (negb _); [apply transfers_here; lia |].
    destruct (IH (dst_off + n) (src_off + n) (len - n) (copied + n) (m, w')) as (r & s' & Hr & Hb & Hm);
      [lia | lia |].
    exists r, s'. split; [done |]. split; [lia | done].
Qed.

Lemma fuse_buf_read_bounds fuel dst dst_off src src_off len copied s :
  0 <= len <= Z.of_nat fuel -> 0 <= copied ->
  transfers (b_mem dst + dst_off) len len copied s
    (fuse_buf_read_loop fuel dst dst_off src src_off len copied s).
Proof.
  revert dst_off src_off len copied s. induction fuel as [| fuel IH]; intros dst_off src_off len copied [m w] Hl Hc;
    simpl; (destruct (Z.eqb_spec len 0) as [-> | Hne]; [apply transfers_here; lia |]); [lia |].
  destruct (sys_read _ _ _ _) as [[errno | bs] w'] eqn:E.
  - apply transfers_error; [by eapply sys_read_errno | lia | lia].
  - apply sys_read_le in E; [| lia]. set (n := Z.of_nat (length bs)) in *. assert (0 <= n) by lia.
    assert (Hput : forall x, x < b_mem dst + dst_off \/ b_mem dst + dst_off + len <= x ->
      mem_get (mem_put m (b_mem dst + dst_off) bs) x = mem_get m x).
    { intros x Hx. apply mem_put_frame. lia. }
    destruct (Z.eqb_spec n 0); [exists copied, (mem_put m (b_mem dst + dst_off) bs, w'); split; [done |]; split; [lia | done] |].
    destruct (negb _).
    { exists (copied + n), (mem_put m (b_mem dst + dst_off) bs, w'). split; [done |]. split; [lia | done]. }
    destruct (IH (dst_off + n) (src_off + n) (len - n) (copied + n)
      (mem_put m (b_mem dst + dst_off) bs, w')) as (r & s' & Hr & Hb & Hm); [lia | lia |].
    exists r, s'. split; [done |]. split; [lia |]. intros x Hx. rewrite Hm by lia. by apply Hput.
Qed.

Lemma fuse_buf_fd_to_fd_bounds fuel dst dst_off src src_off len copied s :
  0 <= len <= Z.of_nat fuel -> 0 <= copied ->
  transfers local_buf 4096 len copied s (fuse_buf_fd_to_fd_loop fuel dst dst_off src src_off len copied s).
Proof.
  revert dst_off src_off len copied s. induction fuel as [| fuel IH]; intros dst_off src_off len copied [m w] Hl Hc;
    simpl; (destruct (Z.eqb_spec len 0) as [-> | Hne]; [apply transfers_here; lia |]); [lia |].
  unfold min_size. cbn [b_size]. set (this_len := if 4096 <? len then 4096 else len).
  assert (Ht : 0 < this_len <= len /\ this_len <= 4096) by (unfold this_len; destruct (Z.ltb_spec 4096 len); lia).
  destruct (fuse_buf_read_bounds (Z.to_nat this_len) (Buf 4096 0 local_buf 0 0) 0 src src_off this_len 0 (m, w))
    as (r & s1 & Hr & Hb & Hm); [lia | lia |]. cbn [b_mem fst] in Hm.
  unfold bind at 1, fuse_buf_read. rewrite Hr.
  assert (Hm1 : forall x, x < local_buf \/ local_buf + 4096 <= x -> mem_get s1.1 x = mem_get m x).
  { intros x Hx. apply Hm. lia. }
  destruct (Z.ltb_spec r 0); [exists (if copied =? 0 then r else copied), s1; split; [done |]; split; [| done];
    destruct (Z.eqb_spec copied 0); lia |].
  destruct (Z.eqb_spec r 0); [exists copied, s1; split; [done |]; split; [lia | done] |].
  destruct (fuse_buf_write_bounds local_buf 4096 (Z.to_nat r) dst dst_off (Buf 4096 0 local_buf 0 0) 0 r 0 s1)
    as (r2 & s2 & Hr2 & Hb2 & Hm2); [lia | lia |].
  unfold bind, fuse_buf_write. rewrite Hr2.
  assert (Hm2' : forall x, x < local_buf \/ local_buf + 4096 <= x -> mem_get s2.1 x = mem_get m x).
  { intros x Hx. rewrite Hm2 by done. by apply Hm1. }
  destruct (Z.ltb_spec r2 0); [exists (if copied =? 0 then r2 else copied), s2; split; [done |]; split; [| done];
    destruct (Z.eqb_spec copied 0); lia |].
  destruct (Z.eqb_spec r2 0); [exists copied, s2; split; [done |]; split; [lia | done] |].
  destruct (Z.ltb_spec r2 this_len); [exists (copied + r2), s2; split; [done |]; split; [lia | done] |].
  destruct (IH (dst_off + r2) (src_off + r2) (len - r2) (copied + r2) s2) as (r3 & s3 & Hr3 & Hb3 & Hm3);
    [lia | lia |].
  exists r3, s3. split; [done |]. split; [lia |]. intros x Hx. rewrite Hm3 by done. by apply Hm2'.
Qed.


Lemma fuse_buf_splice_bounds fuel dst dst_off src src_off srcpos dstpos len copied flags s :
  0 <= len <= Z.of_nat fuel -> 0 <= copied ->
  transfers local_buf 4096 len copied s
    (fuse_buf_splice_loop fuel dst dst_off src src_off srcpos dstpos len copied flags s).
Proof.
  revert srcpos dstpos len copied s. induction fuel as [| fuel IH]; intros srcpos dstpos len copied [m w] Hl Hc;
    simpl; (destruct (Z.eqb_spec len 0) as [-> | Hne]; [apply transfers_here; lia |]); [lia |].
  destruct (sys_splice _ _ _ _ _ _) as [[errno | n] w'] eqn:E.
  - apply sys_splice_errno in E. destruct (Z.eqb_spec copied 0) as [-> | Hn]; simpl negb; cbv iota.
    + destruct (_ || _); [apply transfers_here; lia |].
      destruct (fuse_buf_fd_to_fd_bounds (Z.to_nat len) dst dst_off src src_off len 0 (m, w')) as (r & s' & Hr & Hb & Hm);
        [lia | lia |]. by exists r, s'.
    + apply transfers_here. lia.
  - apply sys_splice_le in E; [| lia]. destruct (Z.eqb_spec n 0); [apply transfers_here; lia |].
    destruct (negb _ && negb _); [apply transfers_here; lia |].
    destruct (IH ((fun p => p + n) <$> srcpos) ((fun p => p + n) <$> dstpos) (len - n) (copied + n) (m, w'))
      as (r & s' & Hr & Hb & Hm); [lia | lia |].
    exists r, s'. split; [done |]. split; [lia | done].
Qed.

(** Where a copy of [len] bytes to [dst] may write. *)
Definition writable (dst : fuse_buf) (dst_off len x : Z) : Prop :=
  flag (b_flags dst) FUSE_BUF_IS_FD = false /\ b_mem dst + dst_off <= x < b_mem dst + dst_off + len \/
  local_buf <= x < local_buf + 4096.

Lemma fuse_buf_copy_one_bounds dst dst_off src src_off len flags s : 0 <= len ->
  exists n s', fuse_buf_copy_one dst dst_off src src_off len flags s = Some (n, s') /\ n <= len /\
    forall x, ~ writable dst dst_off len x -> mem_get s'.1 x = mem_get s.1 x.
Proof.
  intros Hl. unfold fuse_buf_copy_one, writable. destruct s as [m w].
  assert (Hgen : forall lo size r, transfers lo size len 0 (m, w) r ->
    (forall x, lo <= x < lo + size -> writable dst dst_off len x) ->
    exists n s', r = Some (n, s') /\ n <= len /\ forall x, ~ writable dst dst_off len x -> mem_get s'.1 x = mem_get m x).
  { intros lo size r (n & s' & -> & Hn & Hm) Hw. exists n, s'. split; [done |]. split; [lia |].
    intros x Hx. apply Hm. destruct (Z.lt_ge_cases x lo); [by left | right].
    destruct (Z.le_gt_cases (lo + size) x); [done |]. exfalso. apply Hx, Hw. lia. }
  unfold writable in Hgen.
  destruct (flag (b_flags src) FUSE_BUF_IS_FD) eqn:Es, (flag (b_flags dst) FUSE_BUF_IS_FD) eqn:Ed; cbn [negb andb].
  - destruct (flag flags _).
    + apply (Hgen local_buf 4096); [apply fuse_buf_fd_to_fd_bounds; lia | by right].
    + unfold fuse_buf_splice. destruct have_splice; apply (Hgen local_buf 4096);
        [apply fuse_buf_splice_bounds; lia | by right | apply fuse_buf_fd_to_fd_bounds; lia | by right].
  - apply (Hgen (b_mem dst + dst_off) len); [apply fuse_buf_read_bounds; lia | by left].
  - apply (Hgen local_buf 0); [apply fuse_buf_write_bounds; lia | lia].
  - destruct (Z.eqb_spec (b_mem dst + dst_off) (b_mem src + src_off)); cbn [negb].
    + by exists len, (m, w).
    + unfold bind, mem_move, ret. do 2 eexists. split; [reflexivity |]. split; [lia |]. simpl.
      intros x Hx. apply mem_put_frame. rewrite length_mem_slice by lia.
      destruct (Z.lt_ge_cases x (b_mem dst + dst_off)); [by left | right].
      destruct (Z.le_gt_cases (b_mem dst + dst_off + len) x); [done |]. exfalso. apply Hx. left. lia.
Qed.

(** ** Buffer vectors *)

(** A vector whose current offset is inside its current buffer. *)
Record vec_ok (v : fuse_bufvec) : Prop := {
  vec_sizes : forall b, b ∈ v_buf v -> 0 <= b_size b;
  vec_off : forall b, fuse_bufvec_current v = Some b -> 0 <= v_off v <= b_size b }.

(** The buffers from the current position on. *)
Definition left_over (v : fuse_bufvec) : nat := length (v_buf v) - v_idx v.

(** The addresses of the bytes from the current position on. *)
Definition buf_addrs (b : fuse_buf) : list Z := seqZ (b_mem b) (b_size b).
Definition remaining (v : fuse_bufvec) : list Z :=
  match drop (v_idx v) (v_buf v) with
  | [] => []
  | b :: rest => seqZ (b_mem b + v_off v) (b_size b - v_off v) ++ mjoin (buf_addrs <$> rest)
  end.

Lemma drop_current v b : fuse_bufvec_current v = Some b ->
  drop (v_idx v) (v_buf v) = b :: drop (S (v_idx v)) (v_buf v) /\ (v_idx v < length (v_buf v))%nat.
Proof. intros Hb. split; [by apply drop_S | by eapply lookup_lt_Some]. Qed.

Lemma remaining_current v b : fuse_bufvec_current v = Some b ->
  remaining v = seqZ (b_mem b + v_off v) (b_size b - v_off v)
    ++ mjoin (buf_addrs <$> drop (S (v_idx v)) (v_buf v)).
Proof. intros Hb. unfold remaining. by rewrite (proj1 (drop_current _ _ Hb)). Qed.

Lemma drop_seqZ_app a n k (l : list Z) : 0 <= k <= n ->
  drop (Z.to_nat k) (seqZ a n ++ l) = seqZ (a + k) (n - k) ++ l.
Proof.
  intros Hk. rewrite drop_app_le by (rewrite length_seqZ; lia). f_equal.
  replace n with (k + (n - k)) at 1 by lia. rewrite seqZ_app by lia.
  rewrite drop_app_length'; [done | rewrite length_seqZ; lia].
Qed.

Lemma advance_ok v b len :
  vec_ok v -> fuse_bufvec_current v = Some b -> 0 <= len <= b_size b - v_off v ->
  exists more v', fuse_bufvec_advance v len = Some (more, v') /\ vec_ok v' /\ v_buf v' = v_buf v /\
    remaining v' = drop (Z.to_nat len) (remaining v) /\ (left_over v' <= left_over v)%nat /\
    (len = b_size b - v_off v -> (left_over v' < left_over v)%nat) /\
    (more = false -> remaining v' = []).
Proof.
  intros [Hsz Hoff] Hb Hl. pose proof (Hoff b Hb) as Ho. pose proof (drop_current v b Hb) as [Hd Hlt].
  unfold fuse_bufvec_advance. rewrite Hb, (proj2 (Z.ltb_ge _ _)) by lia.
  rewrite (remaining_current v b Hb). rewrite drop_seqZ_app by lia.
  destruct (Z.eqb_spec (v_off v + len) (b_size b)) as [He | He].
  - replace (b_size b - v_off v - len) with 0 by lia. change (seqZ _ 0 ++ ?l) with l.
    destruct (decide (S (v_idx v) = length (v_buf v))) as [Hend | Hend].
    + assert (Hnil : drop (S (v_idx v)) (v_buf v) = []) by (apply drop_ge; lia).
      do 2 eexists. split; [reflexivity |]. unfold left_over, remaining. simpl v_idx. simpl v_buf.
      rewrite Hnil. split; [| by repeat split; lia].
      constructor; [done |]. intros b'. unfold fuse_bufvec_current. simpl. intros Hb'%lookup_lt_Some. lia.
    + do 2 eexists. split; [reflexivity |]. unfold left_over. simpl v_idx. simpl v_buf.
      assert (exists b', v_buf v !! S (v_idx v) = Some b') as [b' Hb'] by (apply lookup_lt_is_Some; lia).
      split; [constructor; [done |]; intros b''; unfold fuse_bufvec_current; simpl; intros Hb'';
        pose proof (Hsz b'' (list_elem_of_lookup_2 _ _ _ Hb'')); lia |].
      split; [done |]. split; [| repeat split; try lia; done].
      unfold remaining. simpl. rewrite (drop_S _ _ _ Hb'). simpl. unfold buf_addrs. f_equal. f_equal; lia.
  - do 2 eexists. split; [reflexivity |]. unfold left_over. simpl v_idx. simpl v_buf. split.
    + constructor; [done |]. unfold fuse_bufvec_current in *. simpl. intros b' Hb'. simplify_eq. lia.
    + split; [done |]. split; [| repeat split; try lia; done]. unfold remaining. simpl. rewrite Hd.
      f_equal. f_equal; lia.
Qed.

Lemma min_size_min a b : min_size a b = Z.min a b.
Proof. unfold min_size. destruct (Z.ltb_spec a b); lia. Qed.

(** The bytes of a vector from the current position on, as a number. *)
Definition bytes_left (v : fuse_bufvec) : Z := Z.of_nat (length (remaining v)).

Lemma bytes_left_current v b : vec_ok v -> fuse_bufvec_current v = Some b ->
  0 <= v_off v <= b_size b /\ b_size b - v_off v <= bytes_left v.
Proof.
  intros Hv Hb. pose proof (vec_off _ Hv b Hb) as Ho. split; [done |]. unfold bytes_left.
  rewrite (remaining_current v b Hb), length_app, length_seqZ. lia.
Qed.

Lemma bytes_left_drop v v' n : remaining v' = drop (Z.to_nat n) (remaining v) -> 0 <= n <= bytes_left v ->
  bytes_left v' = bytes_left v - n.
Proof. unfold bytes_left. intros -> Hn. rewrite length_drop. lia. Qed.

(** The addresses a copy into a vector may write. *)
Definition vec_writable (bufs : list fuse_buf) (x : Z) : Prop :=
  (exists b, b ∈ bufs /\ flag (b_flags b) FUSE_BUF_IS_FD = false /\ b_mem b <= x < b_mem b + b_size b) \/
  local_buf <= x < local_buf + 4096.

Lemma copy_loop_safe fuel dstv srcv flags copied s :
  vec_ok dstv -> vec_ok srcv -> 0 <= copied -> (left_over dstv + left_over srcv <= fuel)%nat ->
  exists n dstv' srcv' s', copy_loop fuel dstv srcv flags copied s = Some ((n, dstv', srcv'), s') /\
    (copied = 0 /\ n < 0 \/ copied <= n <= copied + Z.min (bytes_left dstv) (bytes_left srcv)) /\
    vec_ok dstv' /\ vec_ok srcv' /\
    forall x, ~ vec_writable (v_buf dstv) x -> mem_get s'.1 x = mem_get s.1 x.
Proof.
  revert dstv srcv copied s. induction fuel as [| fuel IH]; intros dstv srcv copied s Hd Hs Hc Hf; simpl;
    (destruct (fuse_bufvec_current srcv) as [src |] eqn:Es;
      [| do 4 eexists; split; [reflexivity |]; unfold bytes_left; split; [lia | done]]);
    (destruct (fuse_bufvec_current dstv) as [dst |] eqn:Ed;
      [| do 4 eexists; split; [reflexivity |]; unfold bytes_left; split; [lia | done]]).
  { apply drop_current in Es as [_ Hlt]. unfold left_over in Hf. lia. }
  destruct (bytes_left_current srcv src Hs Es) as [Hso Hsl], (bytes_left_current dstv dst Hd Ed) as [Hdo Hdl].
  rewrite min_size_min. set (len := Z.min _ _). assert (Hlen : 0 <= len) by lia.
  destruct (fuse_buf_copy_one_bounds dst (v_off dstv) src (v_off srcv) len flags s Hlen) as (res & s1 & Hone & Hres & Hm).
  assert (Hm' : forall x, ~ vec_writable (v_buf dstv) x -> mem_get s1.1 x = mem_get s.1 x).
  { intros x Hx. apply Hm. intros [[Hfd Hx'] | Hx']; apply Hx; [left; exists dst | by right].
    split; [by eapply list_elem_of_lookup_2 |]. split; [done | lia]. }
  unfold bind. rewrite Hone. destruct (Z.ltb_spec res 0).
  { do 4 eexists. split; [reflexivity |]. split; [destruct (Z.eqb_spec copied 0); lia | done]. }
  destruct (advance_ok srcv src res Hs Es) as (more & srcv' & -> & Hs' & _ & Hrs & Hls & Hls' & _); [lia |].
  assert (Hbs : bytes_left srcv' = bytes_left srcv - res) by (apply bytes_left_drop; [done | lia]).
  destruct more; [| do 4 eexists; split; [reflexivity |]; split; [lia | done]].
  destruct (advance_ok dstv dst res Hd Ed) as (more & dstv' & -> & Hd' & Hbuf & Hrd & Hld & Hld' & _); [lia |].
  assert (Hbd : bytes_left dstv' = bytes_left dstv - res) by (apply bytes_left_drop; [done | lia]).
  destruct more; [| do 4 eexists; split; [reflexivity |]; split; [lia | done]].
  destruct (Z.ltb_spec res len); [do 4 eexists; split; [reflexivity |]; split; [lia | done] |].
  assert (res = len) by lia.
  destruct (IH dstv' srcv' (copied + res) s1) as (n & d2 & sv2 & s2 & Hcl & Hn & Hd2 & Hs2 & Hm2);
    [done | done | lia | destruct (Z.le_ge_cases (b_size src - v_off srcv) (b_size dst - v_off dstv));
      [specialize (Hls' ltac:(lia)) | specialize (Hld' ltac:(lia))]; lia |].
  exists n, d2, sv2, s2. split; [done |]. split; [lia |]. split; [done |]. split; [done |].
  rewrite Hbuf in Hm2. intros x Hx. rewrite Hm2 by done. by apply Hm'.
Qed.

Lemma remaining_none v : fuse_bufvec_current v = None -> remaining v = [].
Proof. intros Hv. unfold remaining. rewrite drop_ge; [done |]. by apply lookup_ge_None. Qed.

(** A copy between vectors of memory buffers is a copy of their bytes in order. *)
Definition in_memory (v : fuse_bufvec) : Prop :=
  forall b, b ∈ v_buf v -> flag (b_flags b) FUSE_BUF_IS_FD = false.

Lemma take_app_seq a n k (l : list Z) : 0 <= k <= n -> take (Z.to_nat k) (seqZ a n ++ l) = seqZ a k.
Proof.
  intros Hk. rewrite take_app_le by (rewrite length_seqZ; lia).
  replace n with (k + (n - k)) by lia. rewrite seqZ_app by lia.
  rewrite take_app_length'; [done | rewrite length_seqZ; lia].
Qed.

Lemma in_take (l : list Z) n x : x ∈ take n l -> x ∈ l.
Proof. intros Hx. rewrite <- (take_drop n l). apply elem_of_app. by left. Qed.
Lemma in_drop (l : list Z) n x : x ∈ drop n l -> x ∈ l.
Proof. intros Hx. rewrite <- (take_drop n l). apply elem_of_app. by right. Qed.

Lemma copy_one_memory dst dst_off src src_off len flags m w :
  flag (b_flags dst) FUSE_BUF_IS_FD = false -> flag (b_flags src) FUSE_BUF_IS_FD = false -> 0 <= len ->
  (forall x, x ∈ seqZ (b_mem dst + dst_off) len -> x ∉ seqZ (b_mem src + src_off) len) ->
  fuse_buf_copy_one dst dst_off src src_off len flags (m, w)
  = Some (len, (scatter m (seqZ (b_mem dst + dst_off) len) (mem_get m <$> seqZ (b_mem src + src_off) len), w)).
Proof.
  intros Hd Hs Hl Hdis. unfold fuse_buf_copy_one. rewrite Hd, Hs. cbn [negb andb].
  destruct (Z.eqb_spec (b_mem dst + dst_off) (b_mem src + src_off)) as [E | E]; cbn [negb].
  - assert (len = 0) as ->; [| by unfold ret].
    destruct (Z.eq_dec len 0); [done |]. exfalso.
    apply (Hdis (b_mem dst + dst_off)); rewrite elem_of_seqZ; lia.
  - unfold bind, mem_move, ret. cbn [fst snd]. rewrite mem_put_scatter, length_mem_slice by lia. done.
Qed.

Lemma copy_loop_memory fuel dstv srcv flags copied m w :
  vec_ok dstv -> vec_ok srcv -> in_memory dstv -> in_memory srcv ->
  (forall x, x ∈ remaining dstv -> x ∉ remaining srcv) -> (left_over dstv + left_over srcv <= fuel)%nat ->
  let n := Nat.min (length (remaining dstv)) (length (remaining srcv)) in
  exists dstv' srcv', copy_loop fuel dstv srcv flags copied (m, w)
    = Some ((copied + Z.of_nat n, dstv', srcv'),
            (scatter m (take n (remaining dstv)) (mem_get m <$> take n (remaining srcv)), w)) /\
    remaining srcv' = drop n (remaining srcv) /\ vec_ok srcv' /\ v_buf srcv' = v_buf srcv.
Proof.
  revert dstv srcv copied m. induction fuel as [| fuel IH]; intros dstv srcv copied m Hd Hs Hmd Hms Hdis Hf n; simpl.
  all: destruct (fuse_bufvec_current srcv) as [src |] eqn:Es;
    [| exists dstv, srcv; subst n; rewrite (remaining_none srcv Es); cbn [length];
       rewrite Nat.min_0_r, Z.add_0_r, !take_0; done].
  all: destruct (fuse_bufvec_current dstv) as [dst |] eqn:Ed;
    [| exists dstv, srcv; subst n; rewrite (remaining_none dstv Ed); cbn [length];
       rewrite Nat.min_0_l, Z.add_0_r, !take_0; done].
  { apply drop_current in Es as [_ Hlt]. unfold left_over in Hf. lia. }
  destruct (bytes_left_current srcv src Hs Es) as [Hso Hsl], (bytes_left_current dstv dst Hd Ed) as [Hdo Hdl].
  rewrite min_size_min. set (len := Z.min _ _). assert (Hlen : 0 <= len) by lia. set (L := Z.to_nat len).
  assert (HDt : take L (remaining dstv) = seqZ (b_mem dst + v_off dstv) len)
    by (rewrite (remaining_current _ _ Ed); apply take_app_seq; lia).
  assert (HSt : take L (remaining srcv) = seqZ (b_mem src + v_off srcv) len)
    by (rewrite (remaining_current _ _ Es); apply take_app_seq; lia).
  unfold bind. rewrite copy_one_memory; [| | | done |].
  2: { apply Hmd. by eapply list_elem_of_lookup_2. }
  2: { apply Hms. by eapply list_elem_of_lookup_2. }
  2: { rewrite <- HDt, <- HSt. intros x Hx%in_take Hx'%in_take. by apply (Hdis x). }
  rewrite <- HDt, <- HSt, (proj2 (Z.ltb_ge len 0)) by done. unfold bytes_left in *.
  destruct (advance_ok srcv src len Hs Es) as (more & srcv' & -> & Hs' & Hbs & Hrs & Hls & Hls' & Hends); [lia |].
  fold L in Hrs. destruct more.
  2: { specialize (Hends eq_refl). rewrite Hrs in Hends. apply (f_equal length) in Hends.
    rewrite length_drop in Hends. simpl in Hends. assert (n = L) as -> by lia.
    do 2 eexists. split; [| by rewrite Hrs]. unfold ret. do 4 f_equal. lia. }
  destruct (advance_ok dstv dst len Hd Ed) as (more & dstv' & -> & Hd' & Hbd & Hrd & Hld & Hld' & Hendd); [lia |].
  fold L in Hrd. destruct more.
  2: { specialize (Hendd eq_refl). rewrite Hrd in Hendd. apply (f_equal length) in Hendd.
    rewrite length_drop in Hendd. simpl in Hendd. assert (n = L) as -> by lia.
    do 2 eexists. split; [| by rewrite Hrs]. unfold ret. do 4 f_equal. lia. }
  rewrite Z.ltb_irrefl.
  destruct (IH dstv' srcv' (copied + len) (scatter m (take L (remaining dstv)) (mem_get m <$> take L (remaining srcv))))
    as (d2 & s2 & Hcl & Hr2 & Hs2 & Hb2); clear IH; try done.
  - intros b. rewrite Hbd. apply Hmd.
  - intros b. rewrite Hbs. apply Hms.
  - rewrite Hrd, Hrs. intros x Hx%in_drop Hx'%in_drop. by apply (Hdis x).
  - destruct (Z.le_ge_cases (b_size src - v_off srcv) (b_size dst - v_off dstv));
      [specialize (Hls' ltac:(lia)) | specialize (Hld' ltac:(lia))]; lia.
  - rewrite Hrd, Hrs, !length_drop in *. set (n' := Nat.min _ _) in Hcl, Hr2. assert (Hn : n = (L + n')%nat) by lia.
    exists d2, s2. rewrite Hcl. split; [| by rewrite Hr2, drop_drop, Hn, Hbs in *].
    replace (copied + Z.of_nat n) with (copied + len + Z.of_nat n') by lia. do 3 f_equal.
    rewrite Hn, <- !take_take_drop, fmap_app, scatter_app; [| rewrite length_fmap, !length_take; lia].
    rewrite gather_scatter; [done |].
    intros x Hx%in_take%in_drop Hx'%in_take. by apply (Hdis x).
Qed.

(** C30: [fuse_buf_copy_pmem] between vectors of memory buffers with disjoint bytes copies the
    source bytes, in order, to the destination addresses, in order, until one vector is
    exhausted; it returns their number, touches nothing else and leaves the source
    vector positioned behind the bytes it copied. *)
Theorem fuse_buf_copy_gather (dstv srcv : fuse_bufvec) (flags : Z) (m : memory) (w : W) :
  vec_ok dstv -> vec_ok srcv -> in_memory dstv -> in_memory srcv ->
  (forall x, x ∈ remaining dstv -> x ∉ remaining srcv) ->
  let n := Nat.min (length (remaining dstv)) (length (remaining srcv)) in
  exists dstv' srcv', fuse_buf_copy_pmem false dstv srcv flags (m, w)
    = Some ((Z.of_nat n, dstv', srcv'),
            (scatter m (take n (remaining dstv)) (mem_get m <$> take n (remaining srcv)), w)) /\
    remaining srcv' = drop n (remaining srcv) /\ vec_ok srcv' /\ v_buf srcv' = v_buf srcv.
Proof.
  intros Hd Hs Hmd Hms Hdis. apply (copy_loop_memory _ dstv srcv flags 0); try done.
  unfold left_over. lia.
Qed.

(** C31: Whatever the kernel answers and whatever mixture of memory and descriptors the
    vectors have, [fuse_buf_copy_pmem] terminates without failing an assertion; it returns
    a negative [errno] or a count that neither vector exceeds, both vectors keep their offset
    inside the current buffer, and only memory of the destination buffers and of the local
    transfer buffer changes. *)
Theorem fuse_buf_copy_safe (dstv srcv : fuse_bufvec) (flags : Z) (s : St) :
  vec_ok dstv -> vec_ok srcv ->
  exists n dstv' srcv' s', fuse_buf_copy_pmem false dstv srcv flags s = Some ((n, dstv', srcv'), s') /\
    (n < 0 \/ 0 <= n <= Z.min (bytes_left dstv) (bytes_left srcv)) /\ vec_ok dstv' /\ vec_ok srcv' /\
    forall x, ~ vec_writable (v_buf dstv) x -> mem_get s'.1 x = mem_get s.1 x.
Proof.
  intros Hd Hs. destruct (copy_loop_safe (length (v_buf dstv) + length (v_buf srcv)) dstv srcv flags 0 s)
    as (n & d' & s' & st & Hc & Hn & H1 & H2 & H3); try done; [unfold left_over; lia |].
  exists n, d', s', st. split; [done |]. split; [lia |]. done.
Qed.

End Copy.

(** ** A kernel that transfers one byte per call and then fails *)
#[export] Instance one_byte_kernel : Kernel nat.
Proof.
  refine {| sys_read w _ len _ := match w with
              | O => (Failed 5, O) | S w => (Done (if 0 <? len then [7] else []), w) end;
            sys_write w _ bs _ := match w with
              | O => (Failed 5, O) | S w => (Done (Z.min 1 (Z.of_nat (length bs))), w) end;
            sys_splice w _ _ _ _ len := match w with
              | O => (Failed EINVAL, O) | S w => (Done (Z.max 0 (Z.min 1 len)), w) end |};
    intros [| w]; intros; simplify_eq/=; try lia; try (unfold EINVAL; lia).
  destruct (Z.ltb_spec 0 len); simpl; lia.
Defined.

(** Two memory buffers into three, the first of them partly used. *)
Definition src_sample : fuse_bufvec := Bufvec 0 1 [Buf 3 0 100 0 0; Buf 0 0 0 0 0; Buf 4 0 200 0 0].
Definition dst_sample : fuse_bufvec := Bufvec 0 0 [Buf 4 (Z.lnot FUSE_BUF_IS_FD) 300 0 0].
Definition fd_sample : fuse_bufvec := Bufvec 0 0 [Buf 6 14 0 3 0].
Definition mem_sample : memory := mem_put (mem_put ∅ 100 [1; 2; 3]) 200 [4; 5; 6; 7].

Lemma vec_ok_of v : forallb (fun b => 0 <=? b_size b) (v_buf v) = true ->
  match fuse_bufvec_current v with Some b => (0 <=? v_off v) && (v_off v <=? b_size b) | None => true end = true ->
  vec_ok v.
Proof.
  intros Hs Ho. constructor.
  - intros b Hb. rewrite forallb_forall in Hs. apply Z.leb_le, Hs, list_elem_of_In, Hb.
  - intros b Hb. rewrite Hb in Ho. apply andb_true_iff in Ho as [?%Z.leb_le ?%Z.leb_le]. done.
Qed.

Lemma fuse_buf_copy_gather_witness :
  exists dstv' srcv', fuse_buf_copy_pmem 0 true false dst_sample src_sample 8 (mem_sample, 0%nat)
    = Some ((4, dstv', srcv'), (scatter mem_sample [300; 301; 302; 303] [2; 3; 4; 5], 0%nat)) /\
    remaining srcv' = [202; 203] /\ vec_ok srcv' /\ v_buf srcv' = v_buf src_sample.
Proof.
  apply (fuse_buf_copy_gather 0 true dst_sample src_sample 8 mem_sample 0%nat).
  - apply vec_ok_of; reflexivity.
  - apply vec_ok_of; reflexivity.
  - intros b ->%list_elem_of_singleton. reflexivity.
  - intros b Hb. repeat (apply elem_of_cons in Hb as [-> | Hb]; [reflexivity |]). by apply elem_of_nil in Hb.
  - vm_compute. set_solver.
Defined.

Lemma fuse_buf_copy_safe_witness :
  exists n dstv' srcv' s',
    fuse_buf_copy_pmem 1000 true false dst_sample fd_sample 0 (mem_sample, 2%nat) = Some ((n, dstv', srcv'), s') /\
    (n < 0 \/ 0 <= n <= Z.min (bytes_left dst_sample) (bytes_left fd_sample)) /\ vec_ok dstv' /\ vec_ok srcv' /\
    forall x, ~ vec_writable 1000 (v_buf dst_sample) x -> mem_get s'.1 x = mem_get mem_sample x.
Proof.
  apply (fuse_buf_copy_safe 1000 true dst_sample fd_sample 0 (mem_sample, 2%nat)); apply vec_ok_of; reflexivity.
Defined.

End FuseBuf.
