(* ===== verification/Segment.v ===== *)
(** * NVML segments: src/backends/nvram-nvml/segment.h and segment.cpp

    A segment is a range of a file that is either a gap or backed by a pool, a file mapped
    from persistent memory. Memory is the map of [FuseBuf]; the environment also keeps the
    live mappings, so that a new one can be disjoint from them. The calls to libpmem and to
    the file system are operations of the class [Pmem] with their documented behaviour: a
    mapping is new memory of the length reported, reads as zeros, and is not null.
    Files use pools through the class [Storage], whose laws, [StorageLaws], promise memory
    that no live mapping shares; the NVML pools are its first instance.
    A computation ends with a value, with an exception, or with a fault ([None]): a failed
    assertion, or a loop that has not ended within its fuel. *)
From S2P Require Import Prelude FuseBuf.
From stdpp Require Import base list numbers option gmap strings.
Local Open Scope string_scope.
Local Open Scope Z_scope.

Module Segment.
Import FuseBuf.

(** The exceptions of the backends: [std::runtime_error]s, and what a [std::bitset] throws. *)
Inductive exn := PoolRemoval | PmemCreation | SegmentSize | PoolSubdir | OpenFailed | OutOfRange | RamMapping.

(** The members of [struct stat] that the backend assigns. *)
Record stat := Stat { st_size : Z; st_blocks : Z; st_ctime : Z }.

(** libpmem and the file system. [pmem_map_file w maps path size] is given the live mappings. *)
Class Pmem (W : Type) := {
  gen_pool_path : W -> string * W;
  path_exists : W -> string -> bool;
  path_unlink : W -> string -> bool * W;
  path_remove_all : W -> string -> bool * W;
  path_mkdir : W -> string -> bool * W;
  pmem_map_file : W -> list (Z * Z) -> string -> Z -> option (Z * Z * bool) * W;
  pmem_map_fresh w maps path size a len p w' :
    pmem_map_file w maps path size = (Some (a, len, p), w') ->
    0 < a /\ 0 <= len /\ forall b n, (b, n) ∈ maps -> a + len <= b \/ b + n <= a }.

(** The files that are loaded: [open_stat w path] opens the file at [path]: the descriptor and
    its attributes. *)
Class Sources (W : Type) := { open_stat : W -> string -> option (Z * stat) * W }.

Definition EINTR : Z := 4.
Definition NVML_TRANSFER_SIZE : Z := 0x1000.

(** [struct pool]; [p_data] is zero for a null pointer. *)
Record pool := Pool { p_subdir : string; p_path : string; p_data : Z; p_length : Z; p_is_pmem : bool }.

(** [struct segment] *)
Record segment := Seg { m_offset : Z; m_size : Z; m_is_gap : bool; m_pool : pool; m_bytes : Z }.

Definition default_segment_size : Z := 128 * 1024 * 1024.

(** [segment::overlaps] *)
Definition overlaps (s : segment) (op_offset op_size : Z) : bool :=
  (op_offset <? s64 (m_offset s + m_size s)) && (m_offset s <? s64 (op_offset + op_size)).

(** Memory set to zero, and the bytes of a mapping. *)
Definition mem_zero (m : memory) (a len : Z) : memory :=
  filter (fun kv => ~ (a <= kv.1 < a + len)) m.

(** ** Computations of the backend *)

Section Env.
Context {W : Type}.

Record env := Env { e_mem : memory; e_maps : list (Z * Z); e_world : W }.

Definition M (X : Type) : Type := env -> option ((exn + X) * env).
Definition ret {X} (x : X) : M X := fun e => Some (inr x, e).
Definition throw {X} (x : exn) : M X := fun e => Some (inl x, e).
Definition fault {X} : M X := fun _ => None.
Definition assert (b : bool) : M unit := if b then ret tt else fault.
Definition bind {X Y} (c : M X) (k : X -> M Y) : M Y := fun e =>
  match c e with
  | Some (inr x, e') => k x e'
  | Some (inl x, e') => Some (inl x, e')
  | None => None
  end.
Definition on_world {X} (f : W -> X * W) : M X := fun e =>
  let '(x, w) := f (e_world e) in Some (inr x, Env (e_mem e) (e_maps e) w).
Definition on_mem (f : memory -> memory) : M unit := fun e =>
  Some (inr tt, Env (f (e_mem e)) (e_maps e) (e_world e)).
(** [pmem_unmap] *)
Definition unmap (a len : Z) : M unit := fun e =>
  Some (inr tt, Env (e_mem e) (filter (fun x => x <> (a, len)) (e_maps e)) (e_world e)).

End Env.
Arguments env : clear implicits.

(** ** The storage of segments

    The two backends for persistent memory have the same files and segments; what differs is
    where the memory of a segment comes from. [sto_new] is the constructor of [pool],
    [sto_allocate] is [pool::allocate], and [sto_prepare] what a file does with the directory of
    its pools before it uses it for the first time. *)
Class Storage (W : Type) := {
  sto_new : string -> M (W := W) pool;
  sto_allocate : pool -> Z -> M (W := W) pool;
  sto_prepare : string -> M (W := W) unit }.

(** What a file relies on. In an environment that is [sto_ok] and has room, a new block is
    memory that no live mapping had, and nothing else changes; it reads as zeros when the
    storage is [sto_zeroed]. The calls throw only when the storage is not [sto_reliable], and
    keep the properties [sto_kept] of the rest of the world. *)
Class StorageLaws (W : Type) `{Storage W} := {
  sto_ok : list (Z * Z) -> W -> Prop;
  sto_room : W -> Z -> Prop;
  sto_reliable : Prop;
  sto_zeroed : Prop;
  sto_kept : (W -> Prop) -> Prop;
  sto_room_le w n n' : sto_room w n -> 0 < n' <= n -> sto_room w n';
  sto_block d size m maps w : 0 < size -> sto_ok maps w -> sto_room w size -> exists r e',
    bind (sto_new d) (fun p => sto_allocate p size) (Env m maps w) = Some (r, e') /\
    match r with
    | inl _ => ~ sto_reliable
    | inr p => 0 < p_data p /\ e_maps e' = (p_data p, size) :: maps /\
        (forall b n, (b, n) ∈ maps -> p_data p + size <= b \/ b + n <= p_data p) /\
        (forall x, ~ p_data p <= x < p_data p + size -> mem_get (e_mem e') x = mem_get m x) /\
        (sto_zeroed -> forall x, p_data p <= x < p_data p + size -> mem_get (e_mem e') x = 0) /\
        sto_ok (e_maps e') (e_world e') /\ forall P, sto_kept P -> P w -> P (e_world e')
    end;
  sto_prepared d m maps w : exists r w', sto_prepare d (Env m maps w) = Some (r, Env m maps w') /\
    match r with
    | inl _ => ~ sto_reliable
    | inr _ => (sto_ok maps w -> sto_ok maps w') /\ (forall n, sto_room w n -> sto_room w' n) /\
        forall P, sto_kept P -> P w -> P w'
    end }.

(** ** The pools of the NVML backend *)

Section Pools.
Context {W : Type} `{PM : Pmem W}.

(** [pool::pool] *)
Definition pool_new (subdir : string) : pool := Pool subdir "" 0 0 false.

(** [pmem_map_file] *)
Definition map_file (path : string) (size : Z) : M (option (Z * Z * bool)) := fun e =>
  let '(r, w) := pmem_map_file (e_world e) (e_maps e) path size in
  match r with
  | None => Some (inr None, Env (e_mem e) (e_maps e) w)
  | Some (a, len, p) =>
      Some (inr (Some (a, len, p)), Env (mem_zero (e_mem e) a len) ((a, len) :: e_maps e) w)
  end.

(** The removal of a pool file that already exists. *)
Definition remove_stale (path : string) : M unit :=
  bind (on_world (fun w => (path_exists w path, w))) (fun ex =>
  if ex then bind (on_world (fun w => path_unlink w path)) (fun ok => if ok then ret tt else throw PoolRemoval)
  else ret tt).

(** [pool::allocate] *)
Definition pool_allocate (p : pool) (size : Z) : M pool :=
  bind (assert (p_data p =? 0)) (fun _ =>
  bind (on_world gen_pool_path) (fun path =>
  bind (remove_stale path) (fun _ =>
  bind (map_file path size) (fun r =>
  match r with
  | None => throw PmemCreation
  | Some (addr, len, is_pmem) =>
      if negb (len =? size) then bind (unmap addr len) (fun _ => throw SegmentSize)
      else ret (Pool (p_subdir p) path addr len is_pmem)
  end)))).

(** [pool::~pool]: the path it unlinks is a newly generated one. *)
Definition pool_destroy (p : pool) : M unit :=
  if negb (p_data p =? 0) then
    bind (unmap (p_data p) (p_length p)) (fun _ =>
    bind (on_world gen_pool_path) (fun path => remove_stale path))
  else ret tt.

(** The directory of the pools, made anew. *)
Definition prepare_subdir (subdir : string) : M unit :=
  bind (on_world (fun w => (path_exists w subdir, w))) (fun ex =>
  bind (if ex then bind (on_world (fun w => path_remove_all w subdir)) (fun ok =>
               if ok then ret tt else throw PoolSubdir)
        else ret tt) (fun _ =>
  bind (on_world (fun w => path_mkdir w subdir)) (fun ok =>
  if ok then ret tt else throw PoolSubdir))).

#[export] Instance nvml_storage : Storage W := {|
  sto_new d := ret (pool_new d); sto_allocate := pool_allocate; sto_prepare := prepare_subdir |}.

(** An environment in which the file system and libpmem calls succeed. *)
Definition reliable : Prop :=
  (forall w p, (path_unlink (W := W) w p).1 = true) /\ (forall w p, (path_remove_all (W := W) w p).1 = true) /\
  (forall w p, (path_mkdir (W := W) w p).1 = true) /\
  forall (w : W) maps p size, 0 < size -> exists a pm w', pmem_map_file w maps p size = (Some (a, size, pm), w').

(** A property of the environment that the calls of the backend to the file system and
    libpmem keep. *)
Definition kept (P : W -> Prop) : Prop :=
  (forall w p, P w -> P (path_unlink w p).2) /\ (forall w p, P w -> P (path_remove_all w p).2) /\
  (forall w p, P w -> P (path_mkdir w p).2) /\ (forall w, P w -> P (gen_pool_path w).2) /\
  (forall w maps p size, P w -> P (pmem_map_file w maps p size).2).

Lemma mem_get_zero m a len x :
  mem_get (mem_zero m a len) x = if decide (a <= x < a + len) then 0 else mem_get m x.
Proof.
  unfold mem_get, mem_zero. rewrite map_lookup_filter. destruct (m !! x) as [v |]; simpl.
  - case_guard; simpl; destruct (decide (a <= x < a + len)); try done; tauto.
  - by destruct (decide _).
Qed.

Lemma remove_stale_ok path m maps w : exists r w', remove_stale path (Env m maps w) = Some (r, Env m maps w') /\
  match r with inl _ => ~ reliable | inr _ => forall P, kept P -> P w -> P w' end.
Proof.
  unfold remove_stale, bind, on_world. cbn [e_world e_mem e_maps]. destruct (path_exists w path).
  - cbn [e_world e_mem e_maps]. destruct (path_unlink w path) as [[|] w'] eqn:Eu; do 2 eexists; (split; [reflexivity |]).
    + intros P HP Hp. pose proof (proj1 HP w path Hp) as Hu. by rewrite Eu in Hu.
    + intros (Hu & _). specialize (Hu w path). by rewrite Eu in Hu.
  - exists (inr tt), w. split; [reflexivity | by intros].
Qed.

Lemma pool_allocate_ok d size m maps w : 0 < size -> exists r e', pool_allocate (pool_new d) size (Env m maps w) = Some (r, e') /\
  match r with
  | inl _ => ~ reliable
  | inr p => 0 < p_data p /\ e' = Env (mem_zero m (p_data p) size) ((p_data p, size) :: maps) (e_world e') /\
      (forall b n, (b, n) ∈ maps -> p_data p + size <= b \/ b + n <= p_data p) /\ forall P, kept P -> P w -> P (e_world e')
  end.
Proof.
  intros Hsz. unfold pool_allocate, pool_new, bind at 1. cbn [p_data assert ret Z.eqb]. unfold bind at 1, on_world.
  cbn [e_world e_mem e_maps]. destruct (gen_pool_path w) as [path w1] eqn:Egen. unfold bind at 1.
  destruct (remove_stale_ok path m maps w1) as ([x | []] & w2 & -> & Hrel); [do 2 eexists; split; [reflexivity | done] |].
  unfold bind at 1, map_file. cbn [e_world e_mem e_maps].
  assert (Hmap : forall r w', pmem_map_file w2 maps path size = (r, w') -> reliable -> exists a pm, r = Some (a, size, pm)).
  { intros r w' E (_ & _ & _ & Hm). destruct (Hm w2 maps path size Hsz) as (a & pm & w'' & E').
    rewrite E in E'. injection E' as -> _. eauto. }
  destruct (pmem_map_file w2 maps path size) as [[[[a len] pm] |] w3] eqn:Emap;
    [| do 2 eexists; split; [reflexivity |]; intros Hr; by destruct (Hmap _ _ eq_refl Hr) as (? & ? & ?)].
  destruct (Z.eqb_spec len size) as [-> | Hne]; cbn [negb];
    [| do 2 eexists; split; [reflexivity |]; intros Hr; destruct (Hmap _ _ eq_refl Hr) as (? & ? & ?); simplify_eq].
  pose proof Emap as Emap'. apply pmem_map_fresh in Emap as (Ha & _ & Hdis).
  do 2 eexists. split; [reflexivity |]. cbn [p_data e_world]. split; [done |]. split; [done |]. split; [done |].
  intros P HP Hp. pose proof (proj1 (proj2 (proj2 (proj2 HP))) w Hp) as H1. rewrite Egen in H1. specialize (Hrel P HP H1).
  pose proof (proj2 (proj2 (proj2 (proj2 HP))) w2 maps path size Hrel) as H2. by rewrite Emap' in H2.
Qed.

Lemma prepare_subdir_ok d m maps w : exists r w', prepare_subdir d (Env m maps w) = Some (r, Env m maps w') /\
  match r with inl _ => ~ reliable | inr _ => forall P, kept P -> P w -> P w' end.
Proof.
  assert (Hmk : forall w p w', path_mkdir w p = (false, w') -> ~ reliable).
  { intros w1 p w' E (_ & _ & Hm & _). specialize (Hm w1 p). by rewrite E in Hm. }
  assert (Hkeep : forall w p b w', path_mkdir w p = (b, w') -> forall P, kept P -> P w -> P w').
  { intros w1 p b w' E P (_ & _ & Hm & _) Hp. specialize (Hm w1 p Hp). by rewrite E in Hm. }
  unfold prepare_subdir, bind, on_world. cbn [e_world e_mem e_maps].
  destruct (path_exists w d); cbn [e_world e_mem e_maps ret throw].
  - destruct (path_remove_all w d) as [[|] w1] eqn:Er; cbn [e_world e_mem e_maps ret throw].
    + destruct (path_mkdir w1 d) as [[|] w2] eqn:Em; do 2 eexists; (split; [reflexivity |]); [| by eapply Hmk].
      intros P HP Hp. apply (Hkeep _ _ _ _ Em P HP). pose proof (proj1 (proj2 HP) w d Hp) as Hrm. by rewrite Er in Hrm.
    + do 2 eexists. split; [reflexivity |]. intros (_ & Hm & _). specialize (Hm w d). by rewrite Er in Hm.
  - destruct (path_mkdir w d) as [[|] w2] eqn:Em; do 2 eexists; (split; [reflexivity |]);
      [exact (Hkeep _ _ _ _ Em) | by eapply Hmk].
Qed.

#[export] Instance nvml_laws : StorageLaws W.
Proof.
  refine {| sto_ok _ _ := True; sto_room _ _ := True; sto_reliable := reliable; sto_zeroed := True; sto_kept := kept |}.
  - done.
  - intros d size m maps w Hsz _ _. destruct (pool_allocate_ok d size m maps w Hsz) as (r & e' & E & Hr).
    exists r, e'. split; [exact E |]. destruct r as [x | p]; [done |]. destruct Hr as (Hp & He & Hdis & Hk).
    split; [done |]. rewrite He. cbn [e_mem e_maps e_world]. do 2 (split; [done |]).
    split; [intros x Hx; by rewrite mem_get_zero, decide_False |].
    split; [intros _ x Hx; by rewrite mem_get_zero, decide_True |]. done.
  - intros d m maps w. destruct (prepare_subdir_ok d m maps w) as (r & w' & E & Hr). exists r, w'. split; [exact E |].
    by destruct r.
Defined.

Lemma nvml_zeroed : sto_zeroed (W := W).
Proof. exact I. Qed.
End Pools.

(** ** Segments *)

Section Ops.
Context {W : Type} `{KN : Kernel W} `{ST : Storage W}.

(** [segment::segment] *)
Definition segment_new (subdir : string) (offset size : Z) (is_gap : bool) : M (W := W) segment :=
  bind (sto_new subdir) (fun p =>
  if is_gap then ret (Seg offset size true p 0)
  else bind (sto_allocate p size) (fun p => ret (Seg offset size false p 0))).

Definition is_pmem (s : segment) : bool := p_is_pmem (m_pool s).
Definition data (s : segment) : Z := p_data (m_pool s).

(** [segment::zero_fill]: the assertion adds an [off_t] and a [size_t]. *)
Definition zero_fill (s : segment) (offset size : Z) : M (W := W) unit :=
  if m_is_gap s then ret tt
  else bind (assert (u64 (offset + size) <=? m_size s)) (fun _ =>
       on_mem (fun m => mem_zero m (p_data (m_pool s) + offset) size)).

(** The loop of [copy_data_to_pmem] and [copy_data_to_non_pmem]: the number of bytes, or
    [-1]. The temporary buffer is taken to be allocated. *)
Fixpoint copy_data_loop (fuel : nat) (fd addr total : Z) : M (W := W) Z :=
  match fuel with
  | O => fault
  | S fuel =>
      bind (on_world (fun w => sys_read w fd NVML_TRANSFER_SIZE None)) (fun r =>
      match r with
      | Failed errno => if negb (errno =? EINTR) then ret (-1) else copy_data_loop fuel fd addr total
      | Done [] => ret total
      | Done bs => bind (on_mem (fun m => mem_put m addr bs)) (fun _ =>
          copy_data_loop fuel fd (addr + Z.of_nat (length bs)) (total + Z.of_nat (length bs)))
      end)
  end.
Definition copy_data_to_pmem (fuel : nat) (s : segment) (fd : Z) : M (W := W) Z :=
  copy_data_loop fuel fd (p_data (m_pool s)) 0.
Definition copy_data_to_non_pmem (fuel : nat) (s : segment) (fd : Z) : M (W := W) Z :=
  copy_data_loop fuel fd (p_data (m_pool s)) 0.

(** [segment::fill_from]: the count is stored in a [size_t], which [zero_fill] gets as an
    [off_t]; the result is the segment with its [m_bytes]. *)
Definition fill_from (fuel : nat) (s : segment) (fd : Z) : M (W := W) segment :=
  bind (if p_is_pmem (m_pool s) then copy_data_to_pmem fuel s fd else copy_data_to_non_pmem fuel s fd) (fun n =>
  let s := Seg (m_offset s) (m_size s) (m_is_gap s) (m_pool s) (u64 n) in
  bind (zero_fill s (s64 (m_bytes s)) (u64 (m_size s - m_bytes s))) (fun _ => ret s)).

(** ** Lemmas *)

(** The bytes a descriptor delivers up to its end: the calls [read(fd, buffer, 4096)] return
    them piecewise, and may be interrupted in between; [n] calls in all. *)
Inductive delivers (fd : Z) : W -> list Z -> W -> nat -> Prop :=
  | del_eof w w' : sys_read w fd NVML_TRANSFER_SIZE None = (Done [], w') -> delivers fd w [] w' 1
  | del_eintr w w1 w' bs n : sys_read w fd NVML_TRANSFER_SIZE None = (Failed EINTR, w1) ->
      delivers fd w1 bs w' n -> delivers fd w bs w' (S n)
  | del_data w w1 w' b bs rest n : sys_read w fd NVML_TRANSFER_SIZE None = (Done (b :: bs), w1) ->
      delivers fd w1 rest w' n -> delivers fd w ((b :: bs) ++ rest) w' (S n).

Lemma mem_put_app m a b1 b2 :
  mem_put m a (b1 ++ b2) = mem_put (mem_put m a b1) (a + Z.of_nat (length b1)) b2.
Proof.
  revert m a. induction b1 as [| x b1 IH]; intros m a; simpl; [by rewrite Z.add_0_r |].
  rewrite IH. f_equal. lia.
Qed.

Lemma copy_data_ok fd w bytes w' n fuel addr total m maps :
  delivers fd w bytes w' n -> (n <= fuel)%nat ->
  copy_data_loop fuel fd addr total (Env m maps w)
  = Some (inr (total + Z.of_nat (length bytes)), Env (mem_put m addr bytes) maps w').
Proof.
  intros Hd. revert fuel addr total m. induction Hd as [w w' Hr | w w1 w' bs n Hr Hd IH | w w1 w' b bs rest n Hr Hd IH];
    intros [| fuel] addr total m Hf; try lia; unfold copy_data_loop; fold copy_data_loop; unfold bind, on_world; simpl;
    rewrite Hr.
  - unfold ret. by rewrite Z.add_0_r.
  - apply IH. lia.
  - cbn [e_mem e_maps e_world]. rewrite IH by lia.
    change (mem_put (<[addr := b]> m) (addr + 1) (bs ++ rest)) with (mem_put m addr ((b :: bs) ++ rest)).
    rewrite mem_put_app, length_app. do 3 f_equal. simpl. lia.
Qed.

Lemma mem_put_get m a bs i : 0 <= i < Z.of_nat (length bs) ->
  mem_get (mem_put m a bs) (a + i) = default 0 (bs !! Z.to_nat i).
Proof.
  revert m a i. induction bs as [| b bs IH]; intros m a i Hi; simpl in *; [lia |].
  destruct (Z.eq_dec i 0) as [-> | Hne].
  - rewrite mem_put_frame by lia. unfold mem_get. by rewrite Z.add_0_r, lookup_insert_eq.
  - replace (a + i) with (a + 1 + (i - 1)) by lia. rewrite IH by lia.
    replace (Z.to_nat i) with (S (Z.to_nat (i - 1))) by lia. done.
Qed.

(** A segment filled from a descriptor holds its bytes, then zeros. *)
Lemma fill_from_ok fd w bytes w' n fuel s m maps :
  delivers fd w bytes w' n -> (n <= fuel)%nat -> m_is_gap s = false ->
  Z.of_nat (length bytes) <= m_size s < 2 ^ 63 ->
  exists m', fill_from fuel s fd (Env m maps w)
      = Some (inr (Seg (m_offset s) (m_size s) false (m_pool s) (Z.of_nat (length bytes))), Env m' maps w') /\
    (forall i, 0 <= i < m_size s -> mem_get m' (data s + i) = default 0 (bytes !! Z.to_nat i)) /\
    (forall x, x < data s \/ data s + m_size s <= x -> mem_get m' x = mem_get m x).
Proof.
  intros Hd Hf Hg Hlen. unfold fill_from, copy_data_to_pmem, copy_data_to_non_pmem.
  replace (if p_is_pmem (m_pool s) then _ else _) with (copy_data_loop fuel fd (p_data (m_pool s)) 0)
    by (by destruct (p_is_pmem (m_pool s))).
  unfold bind at 1. rewrite (copy_data_ok _ _ _ _ _ _ _ _ _ _ Hd Hf), Z.add_0_l.
  set (L := Z.of_nat (length bytes)) in *. rewrite (u64_small L) by lia. unfold zero_fill.
  cbn [m_is_gap m_offset m_size m_bytes m_pool]. rewrite Hg, (u64_small (m_size s - L)), s64_small by lia.
  unfold bind. rewrite u64_small by lia. unfold assert. rewrite (proj2 (Z.leb_le _ _)) by lia.
  eexists. split; [reflexivity |]. simpl. unfold data. split.
  - intros i Hi. rewrite mem_get_zero. destruct (decide _) as [Hz | Hz].
    + rewrite lookup_ge_None_2; [done |]. lia.
    + apply mem_put_get. lia.
  - intros x Hx. rewrite mem_get_zero, decide_False by lia. apply mem_put_frame. lia.
Qed.

(** A read error while a file is loaded corrupts memory: [copy_data_to_pmem] returns [-1],
    which [fill_from] stores in the [size_t] member [m_bytes]; [zero_fill] then gets the
    offset [-1], its assertion holds because the sum wraps around, and the byte before the
    mapping is overwritten together with the whole segment. *)
Theorem fill_from_read_error (fuel : nat) (s : segment) (fd errno : Z) (m : memory)
    (maps : list (Z * Z)) (w w' : W) :
  sys_read w fd NVML_TRANSFER_SIZE None = (Failed errno, w') -> errno <> EINTR ->
  m_is_gap s = false -> 0 < m_size s < 2 ^ 63 ->
  fill_from (S fuel) s fd (Env m maps w)
  = Some (inr (Seg (m_offset s) (m_size s) false (m_pool s) (2 ^ 64 - 1)),
          Env (mem_zero m (data s - 1) (m_size s + 1)) maps w').
Proof.
  intros Hr Hne Hg Hs. unfold fill_from, copy_data_to_pmem, copy_data_to_non_pmem.
  replace (if p_is_pmem (m_pool s) then _ else _) with (copy_data_loop (S fuel) fd (p_data (m_pool s)) 0)
    by (by destruct (p_is_pmem (m_pool s))).
  unfold bind at 1. cbn [copy_data_loop]. unfold bind at 1, on_world. cbn [e_world e_mem e_maps].
  rewrite Hr, (proj2 (Z.eqb_neq _ _)) by done. cbn [negb ret].
  unfold zero_fill. cbn [m_is_gap m_offset m_size m_bytes m_pool]. rewrite Hg.
  replace (u64 (m_size s - u64 (-1))) with (m_size s + 1).
  2: { unfold u64. change (-1 mod 2 ^ 64) with (2 ^ 64 - 1).
       replace (m_size s - (2 ^ 64 - 1)) with (m_size s + 1 + (-1) * 2 ^ 64) by lia.
       rewrite Z.mod_add, Z.mod_small by lia. done. }
  change (s64 (u64 (-1))) with (-1). change (u64 (-1)) with (2 ^ 64 - 1).
  replace (-1 + (m_size s + 1)) with (m_size s) by lia. rewrite u64_small, Z.leb_refl by lia.
  unfold bind. cbn [assert ret on_mem]. unfold data. done.
Qed.

End Ops.

(** ** A concrete environment

    Mappings are handed out one after the other, the descriptors deliver a script of results
    of [read], and [k_host] holds the host's directories ([None]) and regular files. *)
Record machine := Machine { k_next : Z; k_reads : list (io (list Z)); k_stat : stat;
  k_host : gmap (list string) (option (list Z)) }.

#[export] Instance machine_kernel : Kernel machine.
Proof.
  refine {| sys_read w _ len _ :=
              match k_reads w with
              | Done bs :: rs => (Done (take (Z.to_nat len) bs), Machine (k_next w) rs (k_stat w) (k_host w))
              | Failed e :: rs => (Failed (Z.max 1 e), Machine (k_next w) rs (k_stat w) (k_host w))
              | [] => (Done [], w)
              end;
            sys_write w _ bs _ := (Done (Z.of_nat (length bs)), w);
            sys_splice w _ _ _ _ len := (Done (Z.max 0 len), w) |};
    intros w; intros; simplify_eq/=; try lia.
  - destruct (k_reads w) as [| [] ?]; simplify_eq/=; rewrite ?length_take; lia.
  - destruct (k_reads w) as [| [] ?]; simplify_eq/=; lia.
Defined.

Definition fresh_base (n : Z) (maps : list (Z * Z)) : Z :=
  foldr (fun bl n => Z.max n (bl.1 + bl.2)) (Z.max 1 n) maps.

Lemma fresh_base_ok n maps :
  0 < fresh_base n maps /\ forall b l, (b, l) ∈ maps -> b + l <= fresh_base n maps.
Proof.
  induction maps as [| [b l] maps [IH1 IH2]]; simpl; [split; [lia | set_solver] |].
  split; [lia |]. intros b' l' [E | Hin]%elem_of_cons; [simplify_eq; lia |]. specialize (IH2 _ _ Hin). lia.
Qed.

#[export] Instance machine_pmem : Pmem machine.
Proof.
  refine {| gen_pool_path w := ("pool", w); path_exists _ _ := false; path_unlink w _ := (true, w);
            path_remove_all w _ := (true, w); path_mkdir w _ := (true, w);
            pmem_map_file w maps _ size := (Some (fresh_base (k_next w) maps, Z.max 0 size, true), w) |}.
  intros w maps path size a len p w' E. injection E as <- <- <- <-. destruct (fresh_base_ok (k_next w) maps) as [H1 H2].
  split; [done |]. split; [lia |]. intros b n Hb. right. by apply H2.
Defined.

#[export] Instance machine_sources : Sources machine := {| open_stat w _ := (Some (3, k_stat w), w) |}.

Lemma fill_from_read_error_witness :
  fill_from (W := machine) 3 (Seg 0 4096 false (Pool "d" "pool" 8192 4096 true) 0) 3
      (Env ∅ [] (Machine 1 [Failed 5] (Stat 0 0 0) ∅))
  = Some (inr (Seg 0 4096 false (Pool "d" "pool" 8192 4096 true) (2 ^ 64 - 1)),
          Env (mem_zero ∅ 8191 4097) [] (Machine 1 [] (Stat 0 0 0) ∅)).
Proof.
  apply (fill_from_read_error 2 (Seg 0 4096 false (Pool "d" "pool" 8192 4096 true) 0) 3 5);
    [reflexivity | discriminate | reflexivity | simpl; lia].
Defined.

End Segment.
