(* ===== verification/PosixFile.v ===== *)
(** * Descriptors of source files: src/backends/posix-file.cpp

    [posix::file] owns a file descriptor: the constructor opens it, the destructor closes it.
    The system calls are the class [Descriptors]; [opened] are the descriptors of the process
    that are open. On Linux [close] releases the descriptor also when it reports an error. *)
From S2P Require Import Prelude Segment.
From stdpp Require Import base list numbers option gmap sets strings.
Local Open Scope string_scope.
Local Open Scope Z_scope.
Local Open Scope list_scope.

Module PosixFile.

Class Descriptors (W : Type) := {
  opened : W -> gset Z;
  sys_open : W -> string -> Z -> option Z * W;
  sys_close : W -> Z -> bool * W;
  sys_fstat : W -> Z -> option Segment.stat;
  sys_open_new w path flags fd w' : sys_open w path flags = (Some fd, w') ->
    0 <= fd /\ (fd ∉ opened w) /\ opened w' = {[fd]} ∪ opened w;
  sys_open_failed w path flags w' : sys_open w path flags = (None, w') -> opened w' = opened w;
  sys_close_releases w fd ok w' : fd ∈ opened w -> sys_close w fd = (ok, w') -> opened w' = opened w ∖ {[fd]};
  sys_close_bad w fd : fd ∉ opened w -> sys_close w fd = (false, w) }.

(** [struct file] *)
Record posix_file := File { m_fd : Z; m_pathname : string }.

Section File.
Context {W : Type} `{DS : Descriptors W}.

(** [file::file(pathname, flags)]; [None] is the exception. *)
Definition posix_open (pathname : string) (flags : Z) (w : W) : option posix_file * W :=
  match sys_open w pathname flags with
  | (None, w) => (None, w)
  | (Some fd, w) => (Some (File fd pathname), w)
  end.
(** [file::~file] *)
Definition posix_destroy (f : posix_file) (w : W) : W := if m_fd f =? -1 then w else (sys_close w (m_fd f)).2.
(** [file::get_size] and [file::stat]; [None] is [-1]. *)
Definition posix_get_size (f : posix_file) (w : W) : Z := match sys_fstat w (m_fd f) with None => 0 | Some st => u64 (Segment.st_size st) end.
Definition posix_stat (f : posix_file) (w : W) : option Segment.stat := sys_fstat w (m_fd f).
(** [file::close]: the descriptor is kept when the call reports an error. *)
Definition posix_close (f : posix_file) (w : W) : posix_file * W :=
  if m_fd f =? -1 then (File (-1) (m_pathname f), w)
  else match sys_close w (m_fd f) with
       | (false, w) => (f, w)
       | (true, w) => (File (-1) (m_pathname f), w)
       end.

(** The calls of a client between the constructor and the destructor. *)
Inductive call := GetSize | Stat | Close.
Definition run_call (c : call) (fw : posix_file * W) : posix_file * W :=
  match c with GetSize | Stat => fw | Close => posix_close fw.1 fw.2 end.

(** What the object still has to release: its descriptor, unless it was released. *)
Definition holds (before : gset Z) (fw : posix_file * W) : Prop :=
  (m_fd fw.1 ∉ before) /\ (opened fw.2 = before \/ (m_fd fw.1 <> -1 /\ opened fw.2 = {[m_fd fw.1]} ∪ before)).
Lemma close_releases before fw : holds before fw -> -1 ∉ before -> holds before (posix_close fw.1 fw.2) /\ opened (posix_close fw.1 fw.2).2 = before.
Proof.
  destruct fw as [f w]. unfold holds, posix_close. cbn [fst snd]. intros [Hn Ho] Hm. destruct (Z.eqb_spec (m_fd f) (-1)) as [E | Hne].
  { destruct Ho as [Ho | []]; [| done]. split; [| done]. cbn. auto. }
  destruct Ho as [Ho | [_ Ho]].
  - rewrite sys_close_bad by set_solver. cbn. auto.
  - destruct (sys_close w (m_fd f)) as [ok w'] eqn:E. apply sys_close_releases in E; [| set_solver].
    assert (opened w' = before) by set_solver. destruct ok; cbn; auto.
Qed.

(** A file that is opened, used and destroyed leaves the descriptors of the process as they
    were: its own is closed, and no other one, also when calls of [close] fail. *)
Theorem posix_file_raii (pathname : string) (flags : Z) (calls : list call) (f : posix_file) (w w1 : W) :
  -1 ∉ opened w -> posix_open pathname flags w = (Some f, w1) ->
  let '(f', w2) := foldl (fun fw c => run_call c fw) (f, w1) calls in
  opened (posix_destroy f' w2) = opened w.
Proof.
  intros Hm E. assert (Hh : holds (opened w) (f, w1)).
  { unfold posix_open in E. destruct (sys_open w pathname flags) as [[fd |] w'] eqn:Eo; [| done]. injection E as <- <-.
    apply sys_open_new in Eo as (H0 & Hn & Ho). split; [done |]. cbn. right. split; [lia | done]. }
  generalize dependent (f, w1). clear E f w1. induction calls as [| c calls IH]; intros [f w1] Hh; cbn [foldl].
  - pose proof (close_releases _ _ Hh Hm) as [_ Hr]. cbn [fst snd] in Hr. unfold posix_close in Hr. unfold posix_destroy.
    destruct (Z.eqb_spec (m_fd f) (-1)); [done |]. by destruct (sys_close w1 (m_fd f)) as [[] w2].
  - apply IH. destruct c; [done | done |]. by apply close_releases.
Qed.

End File.

(** ** A table of descriptors in which calls of [close] report an error *)

Record table := Table { t_opened : gset Z; t_fails : bool }.
Definition next_fd (s : gset Z) : Z := 1 + foldr Z.max 2 (elements s).
Lemma next_fd_new s : 3 <= next_fd s /\ (next_fd s ∉ s).
Proof.
  assert (H : forall l, 2 <= foldr Z.max 2 l /\ forall x, x ∈ l -> x <= foldr Z.max 2 l).
  { induction l as [| y l [IH1 IH2]]; cbn; [set_solver by lia |]. split; [lia |].
    intros x [-> | Hx]%elem_of_cons; [lia |]. specialize (IH2 x Hx). lia. }
  destruct (H (elements s)) as [H1 H2]. unfold next_fd. split; [lia |]. intros Hin%elem_of_elements%H2. lia.
Qed.
#[export] Instance table_descriptors : Descriptors table.
Proof.
  refine {| opened := t_opened;
            sys_open w _ _ := (Some (next_fd (t_opened w)), Table ({[next_fd (t_opened w)]} ∪ t_opened w) (t_fails w));
            sys_close w fd := if decide (fd ∈ t_opened w) then (negb (t_fails w), Table (t_opened w ∖ {[fd]}) (t_fails w)) else (false, w);
            sys_fstat w fd := if decide (fd ∈ t_opened w) then Some (Segment.Stat 3 1 0) else None |}.
  - intros w _ _ fd w' [= <- <-]. destruct (next_fd_new (t_opened w)). split; [lia | done].
  - done.
  - intros w fd ok w' Hin. rewrite decide_True by done. by intros [= <- <-].
  - intros w fd Hin. by rewrite decide_False.
Defined.

Lemma posix_file_raii_witness : let '(f', w2) := foldl (fun fw c => run_call c fw) (File 3 "/data/y", Table {[3]} true) [GetSize; Close; Close] in
  opened (posix_destroy f' w2) = ∅.
Proof. exact (posix_file_raii "/data/y" 0 [GetSize; Close; Close] (File 3 "/data/y") (Table ∅ true) (Table {[3]} true) ltac:(set_solver) ltac:(by vm_compute)). Defined.

(** With other threads it is not so: [close] of the first file reports an error but releases
    the descriptor, a second file is opened and gets its number, and the destructor of the first
    closes the descriptor of the second. *)
Example close_error_closes_another :
  let '(a, w) := posix_open "/data/a" 0 (Table ∅ true) in
  let '(a, w) := match a with Some a => posix_close a w | None => (File (-1) "", w) end in
  let '(b, w) := posix_open "/data/b" 0 w in
  m_fd <$> b = Some 3 /\ posix_get_size (default a b) w = 3 /\ opened (posix_destroy a w) = ∅ /\ posix_get_size (default a b) (posix_destroy a w) = 0.
Proof. by vm_compute. Qed.

End PosixFile.
