(* ===== verification/Dram.v ===== *)
(** * The DRAM backend: src/backends/dram

    A [mapping] is an anonymous mapping of memory that is filled from a source file; it is
    released by the destructor, passed on by the move constructor, and shared by the copy
    constructor. [mmap] is the class [Anonymous]: a new mapping is memory that no live mapping
    has. Live mappings and the memory are those of [Segment.env]; [munmap] is called with whole
    mappings. The operations of the backend itself are stubs that report success. *)
From S2P Require Import Prelude Common FuseBuf Segment Errors.
From stdpp Require Import base list numbers option gmap sets strings.
Local Open Scope string_scope.
Local Open Scope Z_scope.
Local Open Scope list_scope.

Module Dram.
Import Segment.

Definition FUSE_BLOCK_SIZE : Z := 0x1000.
Definition DRAM_TRANSFER_SIZE : Z := 0x1000.
(** The pointer that [mmap] returns on failure. *)
Definition MAP_FAILED : Z := u64 (-1).

Class Anonymous (W : Type) := {
  mmap : W -> list (Z * Z) -> Z -> option Z * W;
  mmap_fresh w maps size a w' : mmap w maps size = (Some a, w') ->
    0 < size /\ 0 < a /\ a + size < MAP_FAILED /\ forall b n, (b, n) ∈ maps -> a + size <= b \/ b + n <= a }.

(** [struct data_copy]; an atomic that was not initialised has no value. *)
Record data_copy := DataCopy { c_offset : Z; c_data : Z; c_generation : option Z; c_refs : option Z }.
(** The copy constructor, which loads the atomics of the new object. *)
Definition data_copy_copy (orig : data_copy) : data_copy := DataCopy (c_offset orig) (c_data orig) None None.
(** [operator=]; [self] is [this == &orig]. *)
Definition data_copy_assign (self : bool) (this orig : data_copy) : data_copy :=
  if self then this else DataCopy (c_offset orig) (c_data orig) (c_generation this) (c_refs this).

(** [struct mapping]; [m_pmutex] tells whether the pointer to the mutex is not null. *)
Record mapping := Mapping { m_data : Z; m_offset : Z; m_size : Z; m_bytes : Z; m_copies : list data_copy; m_pmutex : bool }.
(** The copy constructor: the new object has the same memory. *)
Definition mapping_copy (mp : mapping) : mapping :=
  Mapping (m_data mp) (m_offset mp) (m_size mp) (m_bytes mp) (data_copy_copy <$> m_copies mp) true.
(** The move constructor: the new object, and what is left of the other one. *)
Definition mapping_move (other : mapping) : mapping * mapping := (other, Mapping 0 0 0 0 [] false).
Definition mapping_overlaps (mp : mapping) (op_offset op_size : Z) : bool :=
  (op_offset <? s64 (m_offset mp + m_size mp)) && (m_offset mp <? s64 (op_offset + op_size)).

(** [struct snapshot] *)
Record snapshot := Snapshot { s_data : Z; s_offset : Z; s_size : Z; s_bytes : Z; s_copies : list data_copy }.
Definition snapshot_new (mp : mapping) : snapshot :=
  Snapshot (m_data mp) (m_offset mp) (m_size mp) (m_bytes mp) (data_copy_copy <$> m_copies mp).

(** [struct file]: the mappings; the constructor moves its argument, [add] aborts. *)
Record dram_file := File { m_mappings : list mapping }.
Definition dram_file_new : dram_file := File [].
Definition file_of_mapping (mp : mapping) : dram_file * mapping := let '(m, rest) := mapping_move mp in (File [m], rest).

(** The operations of a file are stubs: nothing is read, written or reported. *)
Definition file_stat {A} (buf : A) (f : dram_file) : A := buf.
Definition file_save_attributes {A} (stbuf : A) (f : dram_file) : dram_file := f.
Definition file_get_data (offset size : Z) (f : dram_file) : Z * dram_file := (0, f).
Definition file_put_data (offset size : Z) (f : dram_file) : Z * dram_file := (0, f).
Definition file_append_data (offset size : Z) (f : dram_file) : Z * dram_file := (0, f).

Section Mappings.
Context {W : Type} `{KN : FuseBuf.Kernel W} `{AN : Anonymous W}.
Definition file_add (f : dram_file) (mp : mapping) : M (W := W) dram_file := fault.

(** [mmap(NULL, size, PROT_READ | PROT_WRITE, MAP_PRIVATE | MAP_ANONYMOUS, -1, 0)] *)
Definition mmap_anonymous (size : Z) : M (W := W) Z := fun e =>
  let '(r, w) := mmap (e_world e) (e_maps e) size in
  match r with
  | None => Some (inr MAP_FAILED, Env (e_mem e) (e_maps e) w)
  | Some a => Some (inr a, Env (mem_zero (e_mem e) a size) ((a, size) :: e_maps e) w)
  end.
(** [mapping::mapping(min_size)]: the result is compared with a null pointer. *)
Definition mapping_new (min_size : Z) : M (W := W) mapping :=
  let aligned_size := u64 (Common.xalign (s64 min_size) FUSE_BLOCK_SIZE) in
  bind (mmap_anonymous aligned_size) (fun mapping_addr =>
  if mapping_addr =? 0 then throw RamMapping else ret (Mapping mapping_addr 0 aligned_size 0 [] true)).
(** [mapping::~mapping] *)
Definition mapping_destroy (mp : mapping) : M (W := W) unit :=
  if negb (m_data mp =? 0) then unmap (m_data mp) (m_size mp) else ret tt.

(** [mapping::copy_data_to_ram]: the temporary buffer is taken to be allocated. *)
Fixpoint copy_data_to_ram (fuel : nat) (fd addr total : Z) : M (W := W) Z :=
  match fuel with
  | O => fault
  | S fuel =>
      bind (on_world (fun w => FuseBuf.sys_read w fd DRAM_TRANSFER_SIZE None)) (fun n =>
      match n with
      | FuseBuf.Failed errno => if negb (errno =? EINTR) then ret (-1) else copy_data_to_ram fuel fd addr total
      | FuseBuf.Done [] => ret total
      | FuseBuf.Done bs =>
          bind (on_mem (fun m => FuseBuf.mem_put m addr bs)) (fun _ =>
          copy_data_to_ram fuel fd (addr + Z.of_nat (length bs)) (total + Z.of_nat (length bs)))
      end)
  end.
(** [mapping::populate]: the count, or [-1], becomes a [size_t]. *)
Definition mapping_populate (fuel : nat) (mp : mapping) (fd : Z) : M (W := W) mapping :=
  bind (copy_data_to_ram fuel fd (m_data mp) 0) (fun n =>
  ret (Mapping (m_data mp) (m_offset mp) (m_size mp) (u64 n) (m_copies mp) (m_pmutex mp))).

(** ** Mappings as resources *)

(** Objects of a program that uses mappings, and what it does with them. *)
Abbreviation objects := (gmap positive mapping).
Inductive mapping_op := New (x : positive) (min_size : Z) | Move (y x : positive) | Populate (x : positive) (fuel : nat) (fd : Z)
  | Destroy (x : positive).
Definition exec_op (o : mapping_op) (s : objects * env W) : option (objects * env W) :=
  let '(os, e) := s in
  match o with
  | New x min_size =>
      if decide (is_Some (os !! x)) then None
      else match mapping_new min_size e with
           | Some (inr m, e) => Some (<[x := m]> os, e)
           | Some (inl _, e) => Some (os, e)
           | None => None
           end
  | Move y x =>
      match os !! y, os !! x with
      | None, Some m => Some (<[y := (mapping_move m).1]> (<[x := (mapping_move m).2]> os), e)
      | _, _ => None
      end
  | Populate x fuel fd =>
      match os !! x with
      | Some m => match mapping_populate fuel m fd e with Some (inr m, e) => Some (<[x := m]> os, e) | _ => None end
      | None => None
      end
  | Destroy x =>
      match os !! x with
      | Some m => match mapping_destroy m e with Some (inr _, e) => Some (delete x os, e) | _ => None end
      | None => None
      end
  end.
Fixpoint exec_all (l : list mapping_op) (s : objects * env W) : option (objects * env W) :=
  match l with [] => Some s | o :: l => match exec_op o s with Some s => exec_all l s | None => None end end.

(** The memory an object releases: none after a move, and none when [mmap] had failed. *)
Definition owned (m : mapping) : option (Z * Z) :=
  if (m_data m =? 0) || (m_data m =? MAP_FAILED) then None else Some (m_data m, m_size m).
Definition owned_by (os : objects) : list (Z * Z) := (map_to_list (omap owned os)).*2.
(** Every live mapping belongs to one object, or is one of [base]. *)
Record owns (base : list (Z * Z)) (os : objects) (e : env W) : Prop := {
  ow_maps : e_maps e ≡ₚ owned_by os ++ base;
  ow_nodup : NoDup (e_maps e);
  ow_valid : forall b n, (b, n) ∈ e_maps e -> 0 < b < MAP_FAILED }.

Lemma owned_insert os x m : owned_by (<[x := m]> os) ≡ₚ option_list (owned m) ++ owned_by (delete x os).
Proof.
  unfold owned_by. rewrite <- insert_delete_eq. destruct (owned m) as [r |] eqn:E.
  - rewrite (omap_insert_Some _ _ _ _ r E), map_to_list_insert; [done |]. by rewrite lookup_omap, lookup_delete_eq.
  - rewrite omap_insert_None by done. by rewrite delete_id by (by rewrite lookup_omap, lookup_delete_eq).
Qed.
Lemma owned_lookup os x m : os !! x = Some m -> owned_by os ≡ₚ option_list (owned m) ++ owned_by (delete x os).
Proof. intros H. rewrite <- (insert_id os x m H) at 1. apply owned_insert. Qed.

(** Unmapping takes exactly the mapping away. *)
Lemma unmap_one (maps l : list (Z * Z)) r : maps ≡ₚ r :: l -> NoDup maps -> filter (fun x => x <> r) maps ≡ₚ l.
Proof.
  intros -> [Hr Hn]%NoDup_cons. rewrite filter_cons_False by (intros H; by apply H).
  clear Hn. induction l as [| x l IH]; [done |]. apply not_elem_of_cons in Hr as [Hx Hr].
  rewrite filter_cons_True by done. by rewrite IH.
Qed.
Lemma unmap_none (maps : list (Z * Z)) r : (r ∉ maps) -> filter (fun x => x <> r) maps = maps.
Proof.
  induction maps as [| x l IH]; [done |]. intros [Hx Hr]%not_elem_of_cons. rewrite filter_cons_True by done. by rewrite IH.
Qed.

Lemma destroy_owns base os e x m : owns base os e -> os !! x = Some m ->
  exists e', mapping_destroy m e = Some (inr tt, e') /\ owns base (delete x os) e' /\ e_mem e' = e_mem e.
Proof.
  intros [Hm Hn Hv] Hx. pose proof Hm as Hm'. rewrite (owned_lookup _ _ _ Hx), <- app_assoc in Hm'.
  unfold mapping_destroy, owned in *. destruct (Z.eqb_spec (m_data m) 0) as [H0 | H0]; cbn [negb orb] in *.
  { exists e. split; [done |]. by split. }
  eexists. split; [reflexivity |]. split; [| done].
  assert (Hs : forall p, p ∈ filter (fun r => r <> (m_data m, m_size m)) (e_maps e) -> p ∈ e_maps e)
    by (intros p Hp; by apply list_elem_of_filter in Hp as [_ Hp]).
  constructor; cbn [e_maps]; [| by apply NoDup_filter | intros b n Hb; eapply Hv, Hs, Hb].
  destruct (Z.eqb_spec (m_data m) MAP_FAILED) as [H1 | H1]; cbn [option_list app] in Hm'; [| by apply unmap_one].
  rewrite unmap_none; [done |]. intros Hin%Hv. lia.
Qed.

Lemma new_owns base os e x min_size : owns base os e -> os !! x = None ->
  exists m e', mapping_new min_size e = Some (inr m, e') /\ owns base (<[x := m]> os) e' /\
    m_size m = u64 (Common.xalign (s64 min_size) FUSE_BLOCK_SIZE).
Proof.
  intros [Hm Hn Hv] Hx. unfold mapping_new, bind, mmap_anonymous. set (size := u64 _).
  destruct (mmap (e_world e) (e_maps e) size) as [[a |] w] eqn:E.
  - apply mmap_fresh in E as (Hs & Ha & Hb & Hd). rewrite (proj2 (Z.eqb_neq a 0)) by lia.
    do 2 eexists. split; [reflexivity |]. split; [| done]. constructor; cbn [e_maps].
    + rewrite owned_insert, delete_id by done. unfold owned. cbn [m_data m_size].
      rewrite (proj2 (Z.eqb_neq a 0)), (proj2 (Z.eqb_neq a MAP_FAILED)) by lia. cbn. by rewrite Hm.
    + apply NoDup_cons. split; [| done]. intros Hin%Hd. lia.
    + intros b n [[= -> ->] | Hin]%elem_of_cons; [lia | by eapply Hv].
  - change (MAP_FAILED =? 0) with false. do 2 eexists. split; [reflexivity |]. split; [| done]. constructor; cbn [e_maps]; [| done | done].
    rewrite owned_insert, delete_id by done. exact Hm.
Qed.

Lemma populate_owns base os e x m fuel fd m' e' : owns base os e -> os !! x = Some m ->
  mapping_populate fuel m fd e = Some (inr m', e') -> owns base (<[x := m']> os) e'.
Proof.
  assert (Hmaps : forall fuel addr total e r e', copy_data_to_ram fuel fd addr total e = Some (inr r, e') -> e_maps e' = e_maps e).
  { clear. induction fuel as [| fuel IH]; intros addr total e r e' E; [done |]. cbn [copy_data_to_ram] in E. unfold bind, on_world in E.
    destruct (FuseBuf.sys_read (e_world e) fd DRAM_TRANSFER_SIZE None) as [[errno | [| b bs]] w]; cbn in E.
    - destruct (negb (errno =? EINTR)); [by injection E as <- <- | by apply IH in E].
    - by injection E as <- <-.
    - apply IH in E. done. }
  intros [Hm Hn Hv] Hx E. unfold mapping_populate, bind in E. destruct (copy_data_to_ram fuel fd (m_data m) 0 e) as [[[r | r] e1] |] eqn:Ec; try done.
  injection E as <- <-. apply Hmaps in Ec. constructor; rewrite Ec; [| done | done].
  rewrite owned_insert. rewrite Hm, (owned_lookup _ _ _ Hx). done.
Qed.

Lemma exec_owns base o s s' : owns base s.1 s.2 -> exec_op o s = Some s' -> owns base s'.1 s'.2.
Proof.
  destruct s as [os e]. intros Ho E. destruct o as [x min_size | y x | x fuel fd | x]; cbn in E.
  - destruct (decide _) as [? | Hx]; [done |]. apply eq_None_not_Some in Hx.
    destruct (new_owns base os e x min_size Ho Hx) as (m & e' & En & Ho' & _). rewrite En in E. by injection E as <-.
  - destruct (os !! y) eqn:Hy; [done |]. destruct (os !! x) as [m |] eqn:Hx; [| done]. injection E as <-.
    destruct Ho as [Hm Hn Hv]. constructor; [| done | done]. cbn [fst snd].
    assert (Hxy : y <> x) by congruence.
    rewrite owned_insert, delete_insert_ne, (owned_insert (delete y os)) by done.
    rewrite (delete_id os y) by done. cbn [owned m_data option_list Z.eqb orb app].
    by rewrite Hm, (owned_lookup _ _ _ Hx).
  - destruct (os !! x) as [m |] eqn:Hx; [| done]. destruct (mapping_populate fuel m fd e) as [[[r | m'] e'] |] eqn:Ep; try done.
    injection E as <-. by eapply populate_owns.
  - destruct (os !! x) as [m |] eqn:Hx; [| done]. destruct (destroy_owns base os e x m Ho Hx) as (e' & Ed & Ho' & _).
    rewrite Ed in E. by injection E as <-.
Qed.

Lemma exec_all_owns base l s s' : owns base s.1 s.2 -> exec_all l s = Some s' -> owns base s'.1 s'.2.
Proof.
  revert s. induction l as [| o l IH]; intros s Ho E; cbn in E; [by injection E as <- |].
  destruct (exec_op o s) as [s1 |] eqn:E1; [| done]. eapply IH; [| exact E]. by eapply exec_owns.
Qed.

(** A program that makes, fills, moves and destroys mappings, in any order, releases the memory
    of every object exactly once and no other memory: at any time the mappings of the process
    are those of the objects that are left and those from before. *)
Theorem mappings_released (l : list mapping_op) (e : env W) (os : objects) (e' : env W) :
  NoDup (e_maps e) -> (forall b n, (b, n) ∈ e_maps e -> 0 < b < MAP_FAILED) ->
  exec_all l (∅, e) = Some (os, e') ->
  e_maps e' ≡ₚ owned_by os ++ e_maps e /\ NoDup (e_maps e').
Proof.
  intros Hn Hv E. assert (H : owns (e_maps e) os e'); [| by destruct H].
  apply (exec_all_owns (e_maps e) l _ _) in E; [exact E |]. constructor; [| done | done].
  unfold owned_by. cbn. by rewrite omap_empty, map_to_list_empty.
Qed.

(** ** Filling a mapping *)

(** The loop is the one of the segments. *)
Lemma copy_data_same fuel fd addr total e : copy_data_to_ram fuel fd addr total e = copy_data_loop fuel fd addr total e.
Proof.
  revert addr total e. induction fuel as [| fuel IH]; intros addr total e; [done |]. cbn [copy_data_to_ram copy_data_loop].
  unfold bind, on_world. change DRAM_TRANSFER_SIZE with NVML_TRANSFER_SIZE.
  destruct (FuseBuf.sys_read (e_world e) fd NVML_TRANSFER_SIZE None) as [[errno | [| b bs]] w]; [| done |].
  - destruct (negb _); [done | apply IH].
  - unfold on_mem. apply IH.
Qed.

(** A new mapping for [min_size] bytes that is filled from a file of at most this length holds
    the bytes of the file, then zeros; it counts them, and memory that was mapped before is
    unchanged. *)
Theorem dram_populate (min_size fd : Z) (bytes : list Z) (w w1 w' : W) (a : Z) (n fuel : nat) (m : FuseBuf.memory) (maps : list (Z * Z)) :
  0 <= min_size < 2 ^ 63 - FUSE_BLOCK_SIZE -> Z.of_nat (length bytes) <= min_size ->
  mmap w maps (Common.xalign min_size FUSE_BLOCK_SIZE) = (Some a, w1) -> delivers fd w1 bytes w' n -> (n <= fuel)%nat ->
  exists mp m', bind (mapping_new min_size) (fun mp => mapping_populate fuel mp fd) (Env m maps w) = Some (inr mp, Env m' ((a, m_size mp) :: maps) w') /\
    m_data mp = a /\ min_size < m_size mp /\ m_bytes mp = Z.of_nat (length bytes) /\
    (forall i, 0 <= i < m_size mp -> FuseBuf.mem_get m' (a + i) = default 0 (bytes !! Z.to_nat i)) /\
    (forall b k x, (b, k) ∈ maps -> b <= x < b + k -> FuseBuf.mem_get m' x = FuseBuf.mem_get m x).
Proof.
  intros Hs Hl Em Hd Hf. pose proof Em as (Hsz & Ha & Hb & Hdis)%mmap_fresh.
  unfold FUSE_BLOCK_SIZE in *. change 0x1000 with (2 ^ 12) in *.
  pose proof (Common.xalign_pow2 min_size 12 ltac:(lia) ltac:(lia) ltac:(lia)) as Hx.
  assert (Hgt : min_size < Common.xalign min_size (2 ^ 12)) by (rewrite Hx; pose proof (Z.mul_succ_div_gt min_size (2 ^ 12)); lia).
  set (A := Common.xalign min_size (2 ^ 12)) in *.
  unfold bind at 1, mapping_new, FUSE_BLOCK_SIZE. change 0x1000 with (2 ^ 12). rewrite s64_small by lia. fold A.
  rewrite u64_small by (unfold MAP_FAILED in Hb; change (u64 (-1)) with (2 ^ 64 - 1) in Hb; lia).
  unfold bind at 1, mmap_anonymous. cbn [e_world e_maps e_mem]. rewrite Em, (proj2 (Z.eqb_neq a 0)) by lia.
  unfold ret at 1. cbn beta iota. unfold mapping_populate, bind. cbn [m_data m_offset m_size m_bytes m_copies m_pmutex].
  rewrite copy_data_same, (copy_data_ok fd w1 bytes w' n fuel a 0 _ _ Hd Hf), Z.add_0_l, u64_small by lia.
  exists (Mapping a 0 A (Z.of_nat (length bytes)) [] true). eexists. split; [reflexivity |]. cbn [m_data m_size m_bytes].
  do 3 (split; [done |]). split.
  - intros i Hi. destruct (decide (i < Z.of_nat (length bytes))) as [Hlt | Hge]; [apply mem_put_get; lia |].
    rewrite FuseBuf.mem_put_frame, mem_get_zero, decide_True by lia. by rewrite lookup_ge_None_2 by lia.
  - intros b k x Hin Hxb. destruct (Hdis b k Hin); rewrite FuseBuf.mem_put_frame, mem_get_zero, decide_False by lia; done.
Qed.

End Mappings.

(** ** A concrete machine *)

#[export] Instance machine_anonymous : Anonymous machine.
Proof.
  refine {| mmap w maps size :=
    (if bool_decide (0 < size /\ fresh_base (k_next w) maps + size < 2 ^ 47) then Some (fresh_base (k_next w) maps) else None, w) |}.
  intros w maps size a w'. case_bool_decide as H; [| done]. intros [= <- _]. destruct (fresh_base_ok (k_next w) maps) as [H1 H2].
  assert (2 ^ 47 < MAP_FAILED) by (by vm_compute). do 3 (split; [lia |]). intros b n Hb. right. by apply H2.
Defined.
#[local] Existing Instance machine_kernel.
Definition scripted (reads : list (FuseBuf.io (list Z))) : env machine := Env ∅ [] (Machine 1 reads (Stat 3 1 0) ∅).

Definition releasing : list mapping_op := [New 1 100; Populate 1 3 3; Move 2 1; New 3 5000; Destroy 1; Destroy 2; Destroy 3]%positive.
Lemma mappings_released_witness : exists os e', exec_all releasing (∅, scripted [FuseBuf.Done [7; 8]; FuseBuf.Done []]) = Some (os, e') /\
  os = ∅ /\ e_maps e' ≡ₚ owned_by os ++ [].
Proof.
  do 2 eexists. split; [reflexivity |]. split; [reflexivity |].
  refine (proj1 (mappings_released releasing (scripted [FuseBuf.Done [7; 8]; FuseBuf.Done []]) _ _ _ _ eq_refl)); [constructor | by intros b n ?%elem_of_nil].
Defined.

Lemma dram_populate_witness : exists mp m',
  bind (mapping_new 100) (fun mp => mapping_populate 2 mp 3) (scripted [FuseBuf.Done [7; 8]]) = Some (inr mp, Env m' [(1, m_size mp)] (Machine 1 [] (Stat 3 1 0) ∅)) /\
  m_bytes mp = 2 /\ FuseBuf.mem_get m' 2 = 8.
Proof.
  destruct (dram_populate 100 3 [7; 8] (Machine 1 [FuseBuf.Done [7; 8]] (Stat 3 1 0) ∅) (Machine 1 [FuseBuf.Done [7; 8]] (Stat 3 1 0) ∅)
    (Machine 1 [] (Stat 3 1 0) ∅) 1 2 2 ∅ [] ltac:(split; by vm_compute) ltac:(by vm_compute) ltac:(by vm_compute)) as (mp & m' & E & _ & Hs & Hb & Hm & _).
  - eapply (del_data _ _ _ _ 7 [8] []); [by vm_compute |]. apply del_eof. by vm_compute.
  - lia.
  - exists mp, m'. split; [exact E |]. split; [exact Hb |]. apply (Hm 1). lia.
Defined.

(** The copy constructor shares the memory, so that it is released twice: the destructor of
    the copy unmaps the memory that another object has got in between. *)
Example copied_mapping_unmaps_another :
  match mapping_new 100 (scripted []) with
  | Some (inr a, e) =>
      let b := mapping_copy a in
      match bind (mapping_destroy a) (fun _ => mapping_new 100) e with
      | Some (inr c, e) => (m_data c, m_size c) ∈ e_maps e /\
          match mapping_destroy b e with Some (inr _, e) => (m_data c, m_size c) ∉ e_maps e | _ => False end
      | _ => False
      end
  | _ => False
  end.
Proof. vm_compute. split; [left | by intros ?%elem_of_nil]. Qed.

(** A file that is longer than its mapping, for it has grown since its size was taken, is
    written over the memory behind it. *)
Example populate_overruns :
  match bind (mapping_new 0) (fun a => bind (mapping_new 0) (fun b => ret (a, b))) (scripted [FuseBuf.Done (replicate 4096 1); FuseBuf.Done [2]]) with
  | Some (inr (a, b), e) =>
      match mapping_populate 3 a 3 e with Some (inr _, e) => FuseBuf.mem_get (e_mem e) (m_data b) = 2 | _ => False end
  | _ => False
  end.
Proof. by vm_compute. Qed.

(** A failure of [mmap] goes unnoticed: the pointer it returns is not null. *)
Example mmap_failure_unnoticed :
  exists e, mapping_new (2 ^ 63 - 1) (scripted []) = Some (inr (Mapping MAP_FAILED 0 (2 ^ 63) 0 [] true), e).
Proof. eexists. by vm_compute. Qed.

(** ** The backend *)

(** [class dram_backend]; the files are objects of the class [file]. *)
Record dram := Backend { m_capacity : Z; m_files : gmap string dram_file }.
Inductive dram_file_type := temporary | persistent.
Definition dram_backend (capacity : Z) : dram := Backend capacity ∅.
Definition dram_name : string := "DRAM".
Definition dram_load (pathname : string) (type : dram_file_type) (b : dram) : Errors.error_code * dram := (Errors.success, b).
Definition dram_unload (pathname mntpathname : string) (b : dram) : Errors.error_code * dram := (Errors.success, b).
Definition dram_exists (pathname : string) (b : dram) : bool := bool_decide (is_Some (m_files b !! pathname)).
Definition dram_do_readdir (path : string) (b : dram) : Z * list string := (0, []).
(** The attributes are left as they were. *)
Definition dram_do_stat {A} (path : string) (stbuf : A) (b : dram) : Z * A := (0, stbuf).
(** The pointer to the new file is left as it was. *)
Definition dram_do_create (pathname : string) (mode : Z) (f : option dram_file) (b : dram) : Z * option dram_file * dram := (0, f, b).
Definition dram_do_unlink (pathname : string) (b : dram) : Z * dram := (0, b).
Definition dram_do_rename (oldpath newpath : string) (b : dram) : Z * dram := (0, b).
Definition dram_do_mkdir (pathname : string) (mode : Z) (b : dram) : Z * dram := (0, b).
Definition dram_do_rmdir (pathname : string) (b : dram) : Z * dram := (0, b).
Definition dram_do_chmod (pathname : string) (mode : Z) (b : dram) : Z * dram := (0, b).
Definition dram_do_chown (pathname : string) (owner group : Z) (b : dram) : Z * dram := (0, b).
Definition dram_do_change_type (pathname : string) (type : dram_file_type) (b : dram) : dram := b.
Definition dram_find (path : string) (b : dram) : option dram_file := m_files b !! path.

(** A load and a creation are reported as done, but the file is not there, nor ever was. *)
Example dram_loads_nothing :
  let b := dram_backend (2 ^ 30) in
  let '(code, b) := dram_load "/data/y" persistent b in
  let '(rv, ptr, b) := dram_do_create "/z" 420 None b in
  code = Errors.success /\ rv = 0 /\ ptr = None /\ dram_exists "/data/y" b = false /\ dram_find "/z" b = None.
Proof. by vm_compute. Qed.

End Dram.
