(* ===== verification/NvmlFile.v ===== *)
(** * Files of the NVML backend: src/backends/nvram-nvml/file.h and file.cpp

    The memory of the segments comes from the class [Storage], which the pools of [Segment]
    implement; the device DAX backend has the same code over another storage.

    A file is a tree of segments that covers the offsets up to [m_alloc_offset]. The
    [shared_ptr<segment>]s of the tree are keys of a heap of segments, because an allocation
    in a gap changes the segment the tree shares. The state of an operation is the file and
    the environment of [Segment]; an operation runs while no other one does, so the
    [shared_mutex]es do not appear and [lock_range] is granted or the model has no result.
    [None] is a fault, as in [Segment]; exceptions are values. Offsets are [off_t] and sizes
    [size_t]; where a difference can be negative or a sum can wrap, the conversion is
    written out. *)
From S2P Require Import Prelude Common RangeLock RangeMutex Mdds FuseBuf Segment.
From stdpp Require Import base list numbers option gmap strings.
Local Open Scope string_scope.
Local Open Scope Z_scope.
Local Open Scope list_scope.

Module NvmlFile.
Import Common RangeMutex Mdds Segment.

(** [backend::file::type] *)
Inductive file_type := temporary | persistent.
(** [efsng::operation] *)
Inductive operation := op_read | op_write.

Definition ENOMEM : Z := 12.
Definition OFF_MAX : Z := 2 ^ 63 - 1.

(** [file_region]; a null address is zero. *)
Record file_region := Region { r_address : Z; r_size : Z; r_is_gap : bool; r_is_pmem : bool }.

(** [file_region_list::total_size] *)
Definition total_size (rs : list file_region) : Z := foldl (fun n r => u64 (n + r_size r)) 0 rs.

(** libfuse's [fuse_buf_copy], for vectors in memory: it copies bytes in order, as
    [fuse_buf_copy_pmem] does. *)
Class FuseLib (W : Type) := {
  fuse_buf_copy : FuseBuf.fuse_bufvec -> FuseBuf.fuse_bufvec -> Z ->
    FuseBuf.memory * W -> option ((Z * FuseBuf.fuse_bufvec * FuseBuf.fuse_bufvec) * (FuseBuf.memory * W));
  fuse_buf_copy_ok dstv srcv flags m w :
    FuseBuf.vec_ok dstv -> FuseBuf.vec_ok srcv -> FuseBuf.in_memory dstv -> FuseBuf.in_memory srcv ->
    (forall x, x ∈ FuseBuf.remaining dstv -> x ∉ FuseBuf.remaining srcv) ->
    let n := Nat.min (length (FuseBuf.remaining dstv)) (length (FuseBuf.remaining srcv)) in
    exists dstv' srcv', fuse_buf_copy dstv srcv flags (m, w)
      = Some ((Z.of_nat n, dstv', srcv'),
              (FuseBuf.scatter m (take n (FuseBuf.remaining dstv))
                 (FuseBuf.mem_get m <$> take n (FuseBuf.remaining srcv)), w)) /\
      FuseBuf.remaining srcv' = drop n (FuseBuf.remaining srcv) /\ FuseBuf.vec_ok srcv' /\
      FuseBuf.v_buf srcv' = FuseBuf.v_buf srcv }.

Section File.
Context {W L : Type} `{KN : FuseBuf.Kernel W} `{SR : Sources W} `{ST : Storage W} `{RM : RangeMutex L} `{FL : FuseLib W}.
(** [segment::s_segment_size], the local buffer and the build option of
    [fuse_buf_copy_pmem], the sizes for which [posix_memalign] succeeds, and the clock. *)
Variable s_segment_size : Z.
Variable local_buf : Z.
Variable have_splice : bool.
Variable memalign_ok : Z -> bool.
Variable now : Z.

(** [nvml::file] *)
Record file := File {
  m_pathname : string; m_type : file_type; m_pool_subdir : string;
  m_attributes : stat;
  m_alloc_offset : Z; m_used_offset : Z; m_segment_size : Z;
  m_segments : fst_tree (option positive); m_initialized : bool; m_range_mutex : L;
  f_heap : gmap positive segment; f_next : positive }.

Definition St : Type := file * env W.
Definition M (X : Type) : Type := St -> option ((exn + X) * St).
Definition ret {X} (x : X) : M X := fun s => Some (inr x, s).
Definition throw {X} (x : exn) : M X := fun s => Some (inl x, s).
Definition fault {X} : M X := fun _ => None.
Definition assert (b : bool) : M unit := if b then ret tt else fault.
Definition bind {X Y} (c : M X) (k : X -> M Y) : M Y := fun s =>
  match c s with
  | Some (inr x, s') => k x s'
  | Some (inl x, s') => Some (inl x, s')
  | None => None
  end.
Notation "x <-- c ;; k" := (bind c (fun x => k)) (at level 60, c at next level, right associativity).
Notation "c ;;; k" := (bind c (fun _ => k)) (at level 60, right associativity).

(** A segment operation inside a file operation, and reads and writes of the members. *)
Definition lift {X} (c : Segment.M X) : M X := fun s =>
  match c s.2 with Some (r, e) => Some (r, (s.1, e)) | None => None end.
Definition get : M file := fun s => Some (inr s.1, s).
Definition modify (g : file -> file) : M unit := fun s => Some (inr tt, (g s.1, s.2)).

Definition set_tree (t : fst_tree (option positive)) (f : file) : file :=
  File (m_pathname f) (m_type f) (m_pool_subdir f) (m_attributes f)
    (m_alloc_offset f) (m_used_offset f) (m_segment_size f) t (m_initialized f) (m_range_mutex f)
    (f_heap f) (f_next f).
Definition set_heap (h : gmap positive segment) (n : positive) (f : file) : file :=
  File (m_pathname f) (m_type f) (m_pool_subdir f) (m_attributes f)
    (m_alloc_offset f) (m_used_offset f) (m_segment_size f) (m_segments f) (m_initialized f)
    (m_range_mutex f) h n.
Definition set_alloc (alloc ss : Z) (f : file) : file :=
  File (m_pathname f) (m_type f) (m_pool_subdir f) (m_attributes f)
    alloc (m_used_offset f) ss (m_segments f) (m_initialized f) (m_range_mutex f) (f_heap f) (f_next f).
Definition set_size (size used : Z) (f : file) : file :=
  File (m_pathname f) (m_type f) (m_pool_subdir f)
    (Stat size (size / 512) (st_ctime (m_attributes f)))
    (m_alloc_offset f) used (m_segment_size f) (m_segments f) (m_initialized f) (m_range_mutex f)
    (f_heap f) (f_next f).
Definition set_ctime (t : Z) (f : file) : file :=
  File (m_pathname f) (m_type f) (m_pool_subdir f) (Stat (st_size (m_attributes f)) (st_blocks (m_attributes f)) t)
    (m_alloc_offset f) (m_used_offset f) (m_segment_size f) (m_segments f) (m_initialized f)
    (m_range_mutex f) (f_heap f) (f_next f).
Definition set_initialized (f : file) : file :=
  File (m_pathname f) (m_type f) (m_pool_subdir f) (m_attributes f)
    (m_alloc_offset f) (m_used_offset f) (m_segment_size f) (m_segments f) true
    (m_range_mutex f) (f_heap f) (f_next f).
Definition set_mutex (l : L) (f : file) : file :=
  File (m_pathname f) (m_type f) (m_pool_subdir f) (m_attributes f)
    (m_alloc_offset f) (m_used_offset f) (m_segment_size f) (m_segments f) (m_initialized f)
    l (f_heap f) (f_next f).

Definition set_used (used : Z) (f : file) : file :=
  File (m_pathname f) (m_type f) (m_pool_subdir f) (m_attributes f)
    (m_alloc_offset f) used (m_segment_size f) (m_segments f) (m_initialized f)
    (m_range_mutex f) (f_heap f) (f_next f).
(** [file::save_attributes] *)
Definition save_attributes (stbuf : stat) (f : file) : file :=
  File (m_pathname f) (m_type f) (m_pool_subdir f) stbuf
    (m_alloc_offset f) (m_used_offset f) (m_segment_size f) (m_segments f) (m_initialized f)
    (m_range_mutex f) (f_heap f) (f_next f).

(** [file::change_type] *)
Definition change_type (t : file_type) : M unit := modify (fun f =>
  File (m_pathname f) t (m_pool_subdir f) (m_attributes f)
    (m_alloc_offset f) (m_used_offset f) (m_segment_size f) (m_segments f) (m_initialized f)
    (m_range_mutex f) (f_heap f) (f_next f)).

(** [file::lock_range] and [file::unlock_range] *)
Definition lock_range (start e : Z) (op : operation) : M lk_handle := fun s =>
  let t := match op with op_read => RangeLock.reader | op_write => RangeLock.writer end in
  match lk_lock (m_range_mutex s.1) start e t with
  | Some (h, l) => Some (inr h, (set_mutex l s.1, s.2))
  | None => None
  end.
Definition unlock_range (h : lk_handle) : M unit := fun s =>
  match lk_unlock (m_range_mutex s.1) h with
  | Some l => Some (inr tt, (set_mutex l s.1, s.2))
  | None => None
  end.

(** [file::update_size] *)
Definition update_size (size : Z) : M unit := modify (fun f =>
  if st_size (m_attributes f) <? s64 size then set_size (s64 size) (s64 size) f else f).

(** The segment a [shared_ptr] points to. *)
Definition seg (id : positive) : M segment := fun s =>
  match f_heap s.1 !! id with Some x => Some (inr x, s) | None => None end.
Definition put_seg (id : positive) (x : segment) : M unit :=
  modify (fun f => set_heap (<[id := x]> (f_heap f)) (f_next f) f).

(** [file::create_segment] *)
Definition create_segment (base_offset size : Z) (is_gap : bool) : M positive :=
  f <-- get ;;
  x <-- lift (segment_new (m_pool_subdir f) base_offset size is_gap) ;;
  f <-- get ;;
  let id := f_next f in
  modify (set_heap (<[id := x]> (f_heap f)) (Pos.succ id)) ;;;
  ret id.

(** [segment::allocate] on a shared segment: its members are assigned before the pool is
    allocated. *)
Definition segment_allocate (id : positive) (offset size : Z) : M unit :=
  x <-- seg id ;;
  put_seg id (Seg offset size false (m_pool x) (m_bytes x)) ;;;
  p <-- lift (sto_allocate (m_pool x) size) ;;
  put_seg id (Seg offset size false p (m_bytes x)).

(** One insertion into the tree, from the back or from the front. *)
Definition insert_one (front : bool) (id : positive) : M unit :=
  x <-- seg id ;;
  f <-- get ;;
  let e := s64 (u64 (m_offset x + m_size x)) in
  match (if front then insert_front (m_segments f) (m_offset x) e (Some id)
         else insert_back (m_segments f) (m_offset x) e (Some id)) with
  | Some (t, _, _) => modify (set_tree t)
  | None => fault
  end.
Fixpoint insert_all (front : bool) (ids : list positive) : M unit :=
  match ids with
  | [] => ret tt
  | id :: ids => insert_one front id ;;; insert_all front ids
  end.
Definition rebuild : M unit :=
  f <-- get ;;
  match build_tree (m_segments f) with Some t => modify (set_tree t) | None => fault end.

(** [file::append_segments] and [file::insert_segments] *)
Definition append_segments (ids : list positive) : M unit := insert_all false ids ;;; rebuild.
Definition insert_segments (ids : list positive) : M unit := insert_all true ids ;;; rebuild.

(** The allocation inside a gap in [lookup_helper]; the result is the new [op_delta]. *)
Definition allocate_in_gap (id : positive) (range_start req_size s_start s_end : Z) : M Z :=
  x <-- seg id ;;
  let seg_offset := align range_start s_segment_size in
  let seg_size :=
    if u64 (range_start + req_size) <? u64 (m_offset x + m_size x)
    then u64 (xalign (s64 (u64 (range_start + req_size))) s_segment_size - seg_offset)
    else u64 (m_offset x + m_size x - seg_offset) in
  segment_allocate id seg_offset seg_size ;;;
  let start_gap_size := u64 (seg_offset - s_start) in
  sl1 <-- (if negb (start_gap_size =? 0)
           then g <-- create_segment s_start start_gap_size true ;; ret [g] else ret []) ;;
  let op_delta := s64 (u64 (range_start - u64 (s_start + start_gap_size))) in
  let end_gap_offset := s64 (u64 (seg_offset + seg_size)) in
  let end_gap_size := u64 (s_end - u64 (seg_offset + seg_size)) in
  sl2 <-- (if negb (end_gap_size =? 0)
           then g <-- create_segment end_gap_offset end_gap_size true ;; ret [g] else ret []) ;;
  insert_segments (sl1 ++ sl2) ;;;
  ret op_delta.

(** The loop of [lookup_helper]; the iterator is the address of a leaf. *)
Fixpoint lookup_loop (fuel : nat) (it : address) (range_start range_end req_size : Z)
    (alloc_gaps : bool) (regions : list file_region) : M (list file_region) :=
  match fuel with
  | O => fault
  | S fuel =>
      f <-- get ;;
      match leaf_at (m_leaves (m_segments f)) it with
      | None => fault
      | Some l =>
          match l_val l with
          | None => ret regions
          | Some id =>
              x <-- seg id ;;
              let s_start := m_offset x in
              let s_end := s64 (u64 (s_start + m_size x)) in
              let op_delta := s64 (range_start - s_start) in
              assert (negb (op_delta =? s64 (m_size x))) ;;;
              let op_size := Z.min (s64 req_size) (s64 (s64 (m_size x) - op_delta)) in
              op_delta <-- (if alloc_gaps && m_is_gap x
                            then allocate_in_gap id range_start req_size s_start s_end
                            else ret op_delta) ;;
              x <-- seg id ;;
              let s_addr := if m_is_gap x then 0 else data x + op_delta in
              let regions := regions ++ [Region s_addr (u64 op_size) (m_is_gap x) (is_pmem x)] in
              if range_end <=? s_end then ret regions
              else
                f <-- get ;;
                let it := match leaf_next (m_leaves (m_segments f)) it with
                          | Some n => l_addr n | None => it end in
                lookup_loop fuel it s_end range_end (u64 (req_size - op_size)) alloc_gaps regions
          end
      end
  end.

(** [file::lookup_helper]. Without an allocation the loop visits each leaf at most once;
    an allocation adds at most two. *)
Definition lookup_helper (range_start range_end : Z) (alloc_gaps : bool)
    (regions : list file_region) : M (list file_region) :=
  let req_size := u64 (range_end - range_start) in
  if req_size =? 0 then ret regions
  else
    f <-- get ;;
    match search_tree (m_segments f) range_start with
    | Some (Some (it, _)) =>
        lookup_loop (3 * length (m_leaves (m_segments f))) it range_start range_end req_size alloc_gaps regions
    | _ => fault
    end.

(** [file::lookup_segments] and [file::lookup_data] *)
Definition lookup_segments (range_start range_end : Z) (regions : list file_region)
    : M (list file_region) :=
  f <-- get ;;
  assert (0 <=? range_start) ;;; assert (range_start <=? range_end) ;;;
  assert (m_valid_tree (m_segments f)) ;;;
  lookup_helper range_start range_end true regions.
Definition lookup_data (range_start range_end : Z) (regions : list file_region)
    : M (list file_region) :=
  f <-- get ;;
  assert (0 <=? range_start) ;;; assert (range_start <=? range_end) ;;;
  assert (m_valid_tree (m_segments f)) ;;;
  lookup_helper range_start (if m_used_offset f <? range_end then m_used_offset f else range_end) false regions.

(** [file::fetch_storage] *)
Definition fetch_storage (offset size : Z) (regions : list file_region) : M (list file_region) :=
  f <-- get ;;
  if s64 (offset + s64 size) <=? m_alloc_offset f
  then lookup_segments offset (s64 (u64 (offset + size))) regions
  else
    assert (offset <=? s64 (u64 (offset + size))) ;;;
    assert (m_valid_tree (m_segments f)) ;;;
    regions <-- (if offset <? m_alloc_offset f
                 then lookup_segments offset (m_alloc_offset f) regions else ret regions) ;;
    f <-- get ;;
    match last (removelast (m_leaves (m_segments f))) with
    | None => fault
    | Some l =>
        assert (l_key l =? m_alloc_offset f) ;;;
        assert (bool_decide (l_val l = None)) ;;;
        let alloc := m_alloc_offset f in
        let ss := Z.min (u64 (m_segment_size f * 2)) s_segment_size in
        let new_segment_offset := if offset <=? alloc then alloc else align offset ss in
        let gap_size := u64 (new_segment_offset - alloc) in
        let new_segment_size := u64 (xalign (s64 (u64 (offset + size))) ss - new_segment_offset) in
        modify (set_alloc alloc ss) ;;;
        sl <-- (if negb (gap_size =? 0)
                then assert (alloc <? offset) ;;; g <-- create_segment alloc gap_size true ;; ret [g]
                else ret []) ;;
        id <-- create_segment new_segment_offset new_segment_size false ;;
        append_segments (sl ++ [id]) ;;;
        x <-- seg id ;;
        let op_delta := if offset <=? alloc then 0 else u64 (offset - new_segment_offset) in
        let s_addr := data x + op_delta in
        modify (set_alloc (s64 (u64 (new_segment_offset + new_segment_size))) ss) ;;;
        ret (regions ++ [Region s_addr (u64 (u64 (offset + size) - new_segment_offset)) false (is_pmem x)])
    end.

(** What the first operation on a file does before it uses the storage. *)
Definition init_subdir : M unit :=
  f <-- get ;;
  if m_initialized f then ret tt
  else lift (sto_prepare (m_pool_subdir f)) ;;; modify set_initialized.

(** The bytes [get_data] copies for a region. *)
Definition region_bytes (m : FuseBuf.memory) (r : file_region) : list Z :=
  if negb (r_address r =? 0) then FuseBuf.mem_slice m (r_address r) (r_size r)
  else replicate (Z.to_nat (r_size r)) 0.

(** [file::get_data]: the return value, and the buffer handed to FUSE. *)
Definition get_data (start_offset size : Z) : M (Z * list Z) :=
  let end_offset := s64 (u64 (start_offset + size)) in
  assert (start_offset <? end_offset) ;;;
  init_subdir ;;;
  rl <-- lock_range start_offset end_offset op_read ;;
  regions <-- lookup_data start_offset end_offset [] ;;
  r <-- (match regions with
         | [] => ret (0, [])
         | _ => if negb (memalign_ok (total_size regions)) then ret (- ENOMEM, [])
                else fun s => Some (inr (0, mjoin (region_bytes (e_mem s.2) <$> regions)), s)
         end) ;;
  unlock_range rl ;;; ret r.

(** The copy into one region in [put_data]. *)
Definition copy_region (r : file_region) (srcv : FuseBuf.fuse_bufvec) : M (Z * FuseBuf.fuse_bufvec) := fun s =>
  let dst := FuseBuf.Bufvec 0 0 [FuseBuf.Buf (r_size r) (Z.lnot FuseBuf.FUSE_BUF_IS_FD) (r_address r) (-1) 0] in
  let flags := 8 in
  match (if r_is_pmem r
         then FuseBuf.fuse_buf_copy_pmem local_buf have_splice false dst srcv flags (e_mem s.2, e_world s.2)
         else fuse_buf_copy dst srcv flags (e_mem s.2, e_world s.2)) with
  | Some ((n, _, srcv'), (m, w)) => Some (inr (n, srcv'), (s.1, Env m (e_maps s.2) w))
  | None => None
  end.
Fixpoint copy_regions (rs : list file_region) (srcv : FuseBuf.fuse_bufvec) (n : Z) : M Z :=
  match rs with
  | [] => ret n
  | r :: rs => x <-- copy_region r srcv ;; copy_regions rs x.2 (n + x.1)
  end.

(** [file::put_data] *)
Definition put_data (start_offset size : Z) (fuse_buffer : FuseBuf.fuse_bufvec) : M Z :=
  init_subdir ;;;
  let end_offset := s64 (u64 (start_offset + size)) in
  regions <-- fetch_storage start_offset size [] ;;
  rl <-- lock_range start_offset end_offset op_write ;;
  n <-- copy_regions regions fuse_buffer 0 ;;
  update_size (u64 end_offset) ;;;
  unlock_range rl ;;;
  ret n.

(** [file::append_data] *)
Definition append_data (start_offset size : Z) (fuse_buffer : FuseBuf.fuse_bufvec) : M Z := ret 0.

(** [file::allocate] *)
Definition allocate (start_offset size : Z) : M Z :=
  init_subdir ;;;
  fetch_storage start_offset size [] ;;;
  update_size (u64 (start_offset + size)) ;;;
  modify (set_ctime now) ;;;
  ret 0.

(** The loop of [file::truncate] over the leaves of the tree. *)
Fixpoint truncate_loop (ids : list (option positive)) (size end_offset : Z) (cut : bool) : M unit :=
  match ids with
  | [] => ret tt
  | None :: ids => truncate_loop ids size end_offset cut
  | Some id :: ids =>
      x <-- seg id ;;
      let size := s64 (size + (if negb (m_bytes x =? 0) then m_bytes x else m_size x)) in
      if end_offset <? size then
        if negb cut then
          put_seg id (Seg (m_offset x) (m_size x) (m_is_gap x) (m_pool x) (u64 (size - end_offset))) ;;;
          truncate_loop ids size end_offset true
        else
          lift (unmap (p_data (m_pool x)) (p_length (m_pool x))) ;;;
          put_seg id (Seg (m_offset x) (m_size x) true
            (Pool (p_subdir (m_pool x)) (p_path (m_pool x)) 0 (p_length (m_pool x)) (p_is_pmem (m_pool x)))
            (m_bytes x)) ;;;
          truncate_loop ids size end_offset true
      else truncate_loop ids size end_offset cut
  end.

(** [file::truncate]: the two sizes are compared as [unsigned]. *)
Definition truncate (end_offset : Z) : M unit :=
  f <-- get ;;
  if u32 (st_size (m_attributes f)) <? u32 end_offset then allocate 0 (u64 end_offset) ;;; ret tt
  else
    rl <-- lock_range end_offset (st_size (m_attributes f)) op_write ;;
    truncate_loop (l_val <$> m_leaves (m_segments f)) 0 end_offset false ;;;
    modify (fun f => set_ctime now (set_size end_offset end_offset f)) ;;;
    unlock_range rl.

(** [file::unload(name)]: the return value and the bytes written to the output file; a
    gap is written from a null pointer. *)
Fixpoint unload_regions (m : FuseBuf.memory) (rs : list file_region) : option (list Z) :=
  match rs with
  | [] => Some []
  | r :: rs =>
      if r_address r =? 0 then None
      else bs ← unload_regions m rs; Some (FuseBuf.mem_slice m (r_address r) (r_size r) ++ bs)
  end.
Definition unload : M (Z * list Z) :=
  f <-- get ;;
  match m_type f with
  | temporary => ret (-1, [])
  | persistent =>
      rl <-- lock_range 0 (st_size (m_attributes f)) op_read ;;
      regions <-- lookup_data 0 (st_size (m_attributes f)) [] ;;
      bs <-- (fun s => match unload_regions (e_mem s.2) regions with
                       | Some bs => Some (inr bs, s) | None => None end) ;;
      unlock_range rl ;;;
      ret (0, bs)
  end.

(** [file::file(pool_base, pathname, inode, type, populate)]: the members, then for
    [populate] the pool directory, one segment for the whole source file, and its bytes.
    [subdir] is the result of [generate_pool_subdir]. *)
Definition file_init (pathname subdir : string) (t : file_type) : file :=
  File pathname t subdir (Stat 0 0 0) 0 0 4096 (fst_new 0 OFF_MAX None) false lk_new ∅ 1%positive.
Definition populate (fuel : nat) : M unit :=
  init_subdir ;;;
  f <-- get ;;
  o <-- lift (on_world (fun w => open_stat w (m_pathname f))) ;;
  match o with
  | None => throw OpenFailed
  | Some (fd, stbuf) =>
      id <-- create_segment 0 (u64 (xalign (st_size stbuf) (m_segment_size f))) false ;;
      append_segments [id] ;;;
      x <-- seg id ;;
      modify (set_alloc (s64 (m_size x)) (m_segment_size f)) ;;;
      x <-- lift (fill_from fuel x fd) ;;
      put_seg id x ;;;
      modify (fun f => save_attributes stbuf (set_used (s64 (m_bytes x)) f))
  end.
Definition file_new (pathname subdir : string) (t : file_type) (pop : bool) (fuel : nat)
    (e : env W) : option ((exn + unit) * St) :=
  (if pop then populate fuel else rebuild) (file_init pathname subdir t, e).

End File.
Arguments file : clear implicits.

(** ** The concrete environment of [Segment], with the library's copy routine *)

#[export] Instance machine_fuse : FuseLib machine.
Proof.
  refine {| fuse_buf_copy dstv srcv flags := FuseBuf.fuse_buf_copy_pmem 0 false false dstv srcv flags |}.
  intros dstv srcv flags m w Hd Hs Hmd Hms Hdis. apply (FuseBuf.copy_loop_memory 0 false _ dstv srcv flags 0); try done.
  unfold FuseBuf.left_over. lia.
Defined.

End NvmlFile.
