(* ===== verification/NvmlSpec.v ===== *)
(** * The NVML file as a POSIX file

    The abstract contents of a file are its bytes up to the end of file; [get_data] and
    [put_data] are shown to be the POSIX read and write on them, for files without holes.
    [file_ok] is the invariant: the segments tile the offsets below [m_alloc_offset], each in
    memory of its own, and the bytes behind the end of file are zero where the storage promises
    zeros. The lemmas hold for every storage that has the laws of [Segment.StorageLaws]; the
    three claims at the end are stated for the pools of NVML. *)
From S2P Require Import Prelude Common RangeLock RangeMutex Mdds FuseBuf Segment NvmlFile.
From stdpp Require Import base list numbers option gmap strings sets sorting.
Local Open Scope string_scope.
Local Open Scope Z_scope.
Local Open Scope list_scope.

Module NvmlSpec.
Import Common RangeMutex Mdds Segment NvmlFile.

Section Spec.
Context {W L : Type} `{KN : FuseBuf.Kernel W} `{SR : Sources W} `{ST : Storage W} `{SL : !StorageLaws W} `{RM : RangeMutex L} `{FL : FuseLib W}.
Variable J : Z.
Variable local_buf : Z.
Variable have_splice : bool.
Variable memalign_ok : Z -> bool.
Hypothesis J_range : 12 <= J <= 60.
Abbreviation SS := (2 ^ J).

Abbreviation file := (NvmlFile.file L).
Abbreviation env := (Segment.env W).

(** The storage is as the files need it, and has room for blocks of [n] bytes. *)
Definition stored (e : env) : Prop := sto_ok (e_maps e) (e_world e).
Definition room (e : env) (n : Z) : Prop := sto_room (e_world e) n.

(** The address of the byte at offset [k], and the byte. *)
Definition addr_of (f : file) (k : Z) : Z :=
  match value_at (m_segments f) k with
  | Some id => match f_heap f !! id with Some x => data x + (k - m_offset x) | None => 0 end
  | None => 0
  end.
Definition byte_at (f : file) (e : env) (k : Z) : Z := FuseBuf.mem_get (e_mem e) (addr_of f k).
Definition contents (f : file) (e : env) : list Z := byte_at f e <$> seqZ 0 (m_used_offset f).

Record seg_ok (f : file) (e : env) (id : positive) (x : segment) : Prop := {
  sk_range : 0 <= m_offset x /\ 0 < m_size x /\ m_offset x + m_size x <= m_alloc_offset f;
  sk_gap : m_is_gap x = false;
  sk_data : 0 < data x;
  sk_map : (data x, m_size x) ∈ e_maps e;
  sk_tree : forall k, m_offset x <= k < m_offset x + m_size x -> value_at (m_segments f) k = Some id;
  sk_fresh : (id < f_next f)%positive }.

(** The shape of a file: what holds of it at any time, also while data is copied. *)
Record shaped (f : file) (e : env) : Prop := {
  fo_tree : wf (m_segments f);
  fo_min : min_key (m_segments f) = 0;
  fo_max : max_key (m_segments f) = OFF_MAX;
  fo_init : m_init_val (m_segments f) = None;
  fo_valid : m_valid_tree (m_segments f) = true;
  fo_alloc : 0 <= m_alloc_offset f < OFF_MAX;
  fo_used : 0 <= m_used_offset f <= m_alloc_offset f;
  fo_size : st_size (m_attributes f) = m_used_offset f;
  fo_free : forall k, m_alloc_offset f <= k < OFF_MAX -> value_at (m_segments f) k = None;
  fo_cover : forall k, 0 <= k < m_alloc_offset f -> exists id x,
    value_at (m_segments f) k = Some id /\ f_heap f !! id = Some x /\
    m_offset x <= k < m_offset x + m_size x;
  fo_seg : forall id x, f_heap f !! id = Some x -> seg_ok f e id x;
  fo_disjoint : forall id1 id2 x1 x2, f_heap f !! id1 = Some x1 -> f_heap f !! id2 = Some x2 -> id1 <> id2 ->
    data x1 + m_size x1 <= data x2 \/ data x2 + m_size x2 <= data x1;
  fo_ss : exists j, 12 <= j <= 61 /\ m_segment_size f = 2 ^ j }.

Record file_ok (f : file) (e : env) : Prop := {
  fo_shape :> shaped f e;
  fo_zero : sto_zeroed -> forall k, m_used_offset f <= k < m_alloc_offset f -> byte_at f e k = 0 }.

(** A file on which no operation is in progress. *)
Definition at_rest (f : file) (e : env) : Prop := file_ok f e /\ lk_idle (m_range_mutex f).

Lemma bind_ok {X Y} (c : M X) (k : X -> M Y) (s s' : St (W := W) (L := L)) x :
  c s = Some (inr x, s') -> bind c k s = k x s'.
Proof. unfold bind. by intros ->. Qed.

Lemma bind_get {Y} (k : file -> M Y) (f : file) (e : env) : bind get k (f, e) = k f (f, e).
Proof. done. Qed.

Lemma addr_of_seg f e id x k : shaped f e -> f_heap f !! id = Some x ->
  m_offset x <= k < m_offset x + m_size x -> addr_of f k = data x + (k - m_offset x).
Proof.
  intros Hf Hx Hk. unfold addr_of. rewrite (sk_tree _ _ _ _ (fo_seg _ _ Hf _ _ Hx) k Hk), Hx. done.
Qed.

Lemma addr_of_pos f e k : shaped f e -> 0 <= k < m_alloc_offset f -> 0 < addr_of f k.
Proof.
  intros Hf Hk. destruct (fo_cover _ _ Hf k Hk) as (id & x & _ & Hx & Hin).
  rewrite (addr_of_seg f e id x k Hf Hx Hin). pose proof (sk_data _ _ _ _ (fo_seg _ _ Hf _ _ Hx)). lia.
Qed.

(** Different offsets have different addresses. *)
Lemma addr_of_inj f e k1 k2 : shaped f e -> 0 <= k1 < m_alloc_offset f -> 0 <= k2 < m_alloc_offset f ->
  addr_of f k1 = addr_of f k2 -> k1 = k2.
Proof.
  intros Hf H1 H2. destruct (fo_cover _ _ Hf k1 H1) as (id1 & x1 & _ & Hx1 & Hin1).
  destruct (fo_cover _ _ Hf k2 H2) as (id2 & x2 & _ & Hx2 & Hin2).
  rewrite (addr_of_seg f e id1 x1 k1), (addr_of_seg f e id2 x2 k2) by done.
  destruct (decide (id1 = id2)) as [-> | Hne]; [simplify_eq; lia |].
  pose proof (fo_disjoint _ _ Hf _ _ _ _ Hx1 Hx2 Hne). lia.
Qed.

(** The segment of a leaf ends where the next leaf starts. *)
Lemma leaf_segment f e k l nx pre post :
  shaped f e -> m_leaves (m_segments f) = pre ++ l :: nx :: post ->
  l_key l <= k < l_key nx -> 0 <= k < m_alloc_offset f ->
  exists id x, l_val l = Some id /\ f_heap f !! id = Some x /\
    m_offset x <= k < m_offset x + m_size x /\ m_offset x + m_size x = l_key nx.
Proof.
  intros Hf Hls Hk Ha. pose proof (fo_tree _ _ Hf) as Hw. pose proof (lo_incr _ _ _ (wf_leaves _ Hw)) as Hi.
  assert (Hseg : forall k', l_key l <= k' < l_key nx -> value_at (m_segments f) k' = l_val l).
  { intros k' Hk'. unfold value_at. apply segment_look; [done |]. exists pre, nx, post. done. }
  destruct (fo_cover _ _ Hf k Ha) as (id & x & Hv & Hx & Hin).
  rewrite Hseg in Hv by done. exists id, x. split; [done |]. split; [done |]. split; [done |].
  pose proof (fo_seg _ _ Hf _ _ Hx) as Hsk. pose proof (sk_range _ _ _ _ Hsk) as (_ & _ & Hle).
  pose proof (fo_alloc _ _ Hf) as Hal.
  assert (Hnx : l_key nx <= OFF_MAX).
  { destruct (wf_ends _ Hw) as (l0 & r & _ & Hr & _ & Hmax & _). rewrite (fo_max _ _ Hf) in Hmax. rewrite Hmax.
    rewrite Hls in Hr. rewrite last_app_cons, last_cons_cons, last_cons in Hr.
    destruct (last post) as [r' |] eqn:El; injection Hr as <-; [| lia].
    rewrite Hls in Hi. apply incr_app in Hi as (_ & Hi & _). apply StronglySorted_inv in Hi as [Hi _].
    pose proof (incr_last _ _ _ Hi El). lia. }
  destruct (Z.lt_trichotomy (m_offset x + m_size x) (l_key nx)) as [Hlt | [Heq | Hgt]]; [| done |]; exfalso.
  - set (k' := m_offset x + m_size x) in *. specialize (Hseg k' ltac:(lia)).
    destruct (Z.lt_ge_cases k' (m_alloc_offset f)) as [Hk' | Hk'].
    + destruct (fo_cover _ _ Hf k' ltac:(lia)) as (id' & x' & Hv' & Hx' & Hin').
      rewrite Hseg, Hv in Hv'. simplify_eq. lia.
    + rewrite (fo_free _ _ Hf) in Hseg by lia. congruence.
  - assert (Hvn : value_at (m_segments f) (l_key nx) = Some id) by (apply (sk_tree _ _ _ _ Hsk); lia).
    destruct post as [| y post].
    + pose proof (lo_last _ _ _ (wf_leaves _ Hw)) as Hlast. destruct (wf_ends _ Hw) as (l0 & r & _ & Hr & _ & Hmax & _).
      rewrite (fo_max _ _ Hf) in Hmax. rewrite Hls, last_app_cons in Hr. simpl in Hr. injection Hr as <-. lia.
    + assert (Hs : segment_start (m_leaves (m_segments f)) (l_key nx) nx).
      { exists (pre ++ [l]), y, post. rewrite <- app_assoc. split; [done |]. rewrite Hls in Hi.
        apply incr_app in Hi as (_ & Hi & _). apply StronglySorted_inv in Hi as [Hi _].
        apply StronglySorted_inv in Hi as [_ Hi]. inversion Hi; subst. lia. }
      unfold value_at in Hvn. rewrite (segment_look _ _ nx _ Hi Hs) in Hvn.
      pose proof (lo_adj _ _ _ (wf_leaves _ Hw)) as Hadj. rewrite Hls in Hadj.
      rewrite removelast_app, fmap_app in Hadj by done. simpl in Hadj.
      apply adj_suffix in Hadj. simpl in Hadj. destruct Hadj as [Hne _]. congruence.
Qed.


(** ** Looking up the storage of a range *)

Definition region_addrs (r : file_region) : list Z := seqZ (r_address r) (r_size r).

(** Regions that are exactly the storage of the offsets [[rs, re)]. *)
Record regions_ok (f : file) (rs re : Z) (rg : list file_region) : Prop := {
  rg_ne : rg <> [];
  rg_each : Forall (fun r => 0 < r_address r /\ 0 <= r_size r) rg;
  rg_addrs : mjoin (region_addrs <$> rg) = addr_of f <$> seqZ rs (re - rs) }.

Lemma addr_seq f e id x k n : shaped f e -> f_heap f !! id = Some x ->
  m_offset x <= k -> k + n <= m_offset x + m_size x ->
  seqZ (data x + (k - m_offset x)) n = addr_of f <$> seqZ k n.
Proof.
  intros Hf Hx Hk Hn. apply list_eq. intros i. rewrite list_lookup_fmap.
  destruct (decide (i < Z.to_nat n)%nat).
  - rewrite !lookup_seqZ_lt by lia. simpl. f_equal. rewrite (addr_of_seg f e id x) by (first [done | lia]). lia.
  - rewrite !lookup_seqZ_ge by lia. done.
Qed.

Lemma regions_ok_cons f e id x rs re r rg :
  shaped f e -> f_heap f !! id = Some x -> m_offset x <= rs < m_offset x + m_size x ->
  r = Region (data x + (rs - m_offset x)) (Z.min (re - rs) (m_offset x + m_size x - rs)) false (is_pmem x) ->
  rs < re -> (re <= m_offset x + m_size x /\ rg = [] \/
   m_offset x + m_size x < re /\ regions_ok f (m_offset x + m_size x) re rg) ->
  regions_ok f rs re (r :: rg).
Proof.
  intros Hf Hx Hin -> Hlt Hcase. pose proof (sk_data _ _ _ _ (fo_seg _ _ Hf _ _ Hx)) as Hd.
  assert (Hr : region_addrs (Region (data x + (rs - m_offset x)) (Z.min (re - rs) (m_offset x + m_size x - rs))
    false (is_pmem x)) = addr_of f <$> seqZ rs (Z.min (re - rs) (m_offset x + m_size x - rs))).
  { unfold region_addrs. simpl. apply (addr_seq f e id); [done | done | lia | lia]. }
  constructor; [done | |].
  - constructor; [simpl; lia |]. destruct Hcase as [[_ ->] | [_ Hok]]; [constructor | apply Hok].
  - rewrite fmap_cons. simpl mjoin. rewrite Hr. destruct Hcase as [[Hle ->] | [Hlt' Hok]].
    + simpl. rewrite app_nil_r. do 2 f_equal. lia.
    + rewrite (rg_addrs _ _ _ _ Hok), <- fmap_app. f_equal.
      replace (Z.min (re - rs) (m_offset x + m_size x - rs)) with (m_offset x + m_size x - rs) by lia.
      replace (re - rs) with ((m_offset x + m_size x - rs) + (re - (m_offset x + m_size x))) by lia.
      rewrite seqZ_app by lia. do 2 f_equal. lia.
Qed.

Lemma lookup_loop_ok fuel f e rs re l nx pre post ag acc :
  shaped f e -> m_leaves (m_segments f) = pre ++ l :: nx :: post -> l_key l <= rs < l_key nx ->
  0 <= rs < re -> re <= m_alloc_offset f -> (length (nx :: post) < fuel)%nat ->
  exists rg, lookup_loop SS fuel (l_addr l) rs re (re - rs) ag acc (f, e) = Some (inr (acc ++ rg), (f, e)) /\
    regions_ok f rs re rg.
Proof.
  intros Hf. revert rs l nx pre post acc. induction fuel as [| fuel IH]; intros rs l nx pre post acc Hls Hk Hrs Hre Hfu;
    [lia |].
  pose proof (fo_alloc _ _ Hf) as Hal. unfold OFF_MAX in Hal.
  pose proof (lo_nodup _ _ _ (wf_leaves _ (fo_tree _ _ Hf))) as Hnd.
  destruct (leaf_segment f e rs l nx pre post Hf Hls Hk) as (id & x & Hv & Hx & Hin & Hend); [lia |].
  pose proof (fo_seg _ _ Hf _ _ Hx) as Hsk. pose proof (sk_range _ _ _ _ Hsk) as Hrg.
  cbn [lookup_loop]. unfold bind at 1, get. cbn [fst].
  assert (leaf_at (m_leaves (m_segments f)) (l_addr l) = Some l) as ->.
  { rewrite Hls in *. by apply leaf_at_app. }
  assert (Hnext : leaf_next (m_leaves (m_segments f)) (l_addr l) = Some nx).
  { rewrite Hls in *. by rewrite leaf_next_app. }
  rewrite Hv. assert (Hseg : seg id (f, e) = Some (inr x, (f, e))) by (unfold seg; simpl; by rewrite Hx).
  rewrite (bind_ok _ _ _ _ _ Hseg), (u64_small (m_offset x + m_size x)), !s64_small by lia.
  rewrite (proj2 (Z.eqb_neq (rs - m_offset x) (m_size x))) by lia. cbn [negb assert].
  unfold bind at 1. cbn [ret]. rewrite (sk_gap _ _ _ _ Hsk), andb_false_r. unfold bind at 1. cbn [ret].
  rewrite (bind_ok _ _ _ _ _ Hseg), (sk_gap _ _ _ _ Hsk).
  replace (m_size x - (rs - m_offset x)) with (m_offset x + m_size x - rs) by lia.
  rewrite (u64_small (Z.min _ _)) by lia.
  set (r := Region _ _ _ _). destruct (Z.leb_spec re (m_offset x + m_size x)) as [Hle | Hgt].
  - exists [r]. split; [done |]. eapply (regions_ok_cons f e id x); try done; [lia |]. by left.
  - unfold bind at 1, get. cbn [fst]. rewrite Hnext.
    assert (exists y post', post = y :: post') as (y & post' & ->).
    { destruct post as [| y post']; [exfalso | eauto].
      destruct (wf_ends _ (fo_tree _ _ Hf)) as (l0 & r0 & _ & Hr0 & _ & Hmax & _).
      rewrite Hls, last_app_cons in Hr0. simpl in Hr0. injection Hr0 as <-. rewrite (fo_max _ _ Hf) in Hmax.
      unfold OFF_MAX in Hmax. lia. }
    assert (Hy : l_key nx < l_key y).
    { pose proof (lo_incr _ _ _ (wf_leaves _ (fo_tree _ _ Hf))) as Hi. rewrite Hls in Hi.
      apply incr_app in Hi as (_ & Hi & _). apply StronglySorted_inv in Hi as [Hi _].
      apply StronglySorted_inv in Hi as [_ Hi]. by inversion Hi. }
    replace (u64 (re - rs - Z.min (re - rs) (m_offset x + m_size x - rs))) with (re - (m_offset x + m_size x))
      by (rewrite u64_small; lia).
    destruct (IH (m_offset x + m_size x) nx y (pre ++ [l]) post' (acc ++ [r])) as (rg & Hlk & Hok);
      [by rewrite <- app_assoc | lia | lia | done | simpl in *; lia |].
    exists (r :: rg). rewrite Hlk, <- app_assoc. split; [done |].
    eapply (regions_ok_cons f e id x); try done; [lia |]. right. split; [lia | done].
Qed.


Lemma lookup_helper_ok f e rs re ag acc :
  shaped f e -> 0 <= rs < re -> re <= m_alloc_offset f ->
  exists rg, lookup_helper SS rs re ag acc (f, e) = Some (inr (acc ++ rg), (f, e)) /\ regions_ok f rs re rg.
Proof.
  intros Hf Hrs Hre. pose proof (fo_alloc _ _ Hf) as Hal. unfold OFF_MAX in Hal.
  unfold lookup_helper. rewrite u64_small by lia. rewrite (proj2 (Z.eqb_neq _ _)) by lia.
  unfold bind, get. cbn [fst].
  destruct (search_tree_ok (m_segments f) rs (fo_tree _ _ Hf) (fo_valid _ _ Hf)) as (l & Hseg & ->).
  { rewrite (fo_min _ _ Hf), (fo_max _ _ Hf). unfold OFF_MAX. lia. }
  destruct Hseg as (pre & nx & post & Hls & Hk).
  apply (lookup_loop_ok _ f e rs re l nx pre post); try done.
  rewrite Hls, length_app. simpl. lia.
Qed.

Lemma asserts_ok {X} (k : M X) (f : file) (e : env) rs re :
  shaped f e -> 0 <= rs <= re ->
  bind (assert (0 <=? rs)) (fun _ => bind (assert (rs <=? re)) (fun _ =>
    bind (assert (m_valid_tree (m_segments f))) (fun _ => k))) (f, e) = k (f, e).
Proof.
  intros Hf Hr. rewrite (proj2 (Z.leb_le _ _)), (proj2 (Z.leb_le _ _)), (fo_valid _ _ Hf) by lia. done.
Qed.

Lemma lookup_segments_ok f e rs re acc :
  shaped f e -> 0 <= rs < re -> re <= m_alloc_offset f ->
  exists rg, lookup_segments SS rs re acc (f, e) = Some (inr (acc ++ rg), (f, e)) /\ regions_ok f rs re rg.
Proof.
  intros Hf Hrs Hre. unfold lookup_segments. rewrite bind_get.
  rewrite asserts_ok by (first [done | lia]). by apply lookup_helper_ok.
Qed.

Lemma lookup_data_ok f e rs re :
  shaped f e -> 0 <= rs < re -> rs <= m_used_offset f ->
  exists rg, lookup_data SS rs re [] (f, e) = Some (inr rg, (f, e)) /\
    (if rs <? m_used_offset f then regions_ok f rs (Z.min re (m_used_offset f)) rg else rg = []).
Proof.
  intros Hf Hrs Hu. pose proof (fo_used _ _ Hf). unfold lookup_data. rewrite bind_get.
  rewrite asserts_ok by (first [done | lia]).
  replace (if m_used_offset f <? re then _ else _) with (Z.min re (m_used_offset f))
    by (destruct (Z.ltb_spec (m_used_offset f) re); lia).
  destruct (Z.ltb_spec rs (m_used_offset f)).
  - apply lookup_helper_ok; [done | lia | lia].
  - exists []. split; [| done]. unfold lookup_helper. replace (Z.min re (m_used_offset f) - rs) with 0 by lia. done.
Qed.

(** ** Reading *)

(** POSIX [pread]: the bytes from [offset] on, at most [size]. *)
Definition posix_read (bytes : list Z) (offset size : Z) : list Z :=
  take (Z.to_nat size) (drop (Z.to_nat offset) bytes).

Lemma region_bytes_ok m rg : Forall (fun r => 0 < r_address r /\ 0 <= r_size r) rg ->
  mjoin (region_bytes m <$> rg) = FuseBuf.mem_get m <$> mjoin (region_addrs <$> rg).
Proof.
  induction 1 as [| r rg [Hr _] _ IH]; [done |]. rewrite !fmap_cons. simpl mjoin. rewrite fmap_app, IH. f_equal.
  unfold region_bytes, region_addrs, FuseBuf.mem_slice. by rewrite (proj2 (Z.eqb_neq _ _)) by lia.
Qed.

Lemma total_size_acc acc rg : Forall (fun r => 0 < r_address r /\ 0 <= r_size r) rg ->
  0 <= acc -> acc + Z.of_nat (length (mjoin (region_addrs <$> rg))) < 2 ^ 64 ->
  foldl (fun n r => u64 (n + r_size r)) acc rg = acc + Z.of_nat (length (mjoin (region_addrs <$> rg))).
Proof.
  intros Hrg. revert acc. induction Hrg as [| r rg [_ Hr] _ IH]; intros acc Ha Hb; [simpl; lia |].
  assert (Hl : length (mjoin (region_addrs <$> r :: rg))
    = (Z.to_nat (r_size r) + length (mjoin (region_addrs <$> rg)))%nat).
  { rewrite fmap_cons. simpl mjoin. by rewrite length_app; unfold region_addrs at 1; rewrite length_seqZ. }
  rewrite Hl in *. cbn [foldl]. rewrite u64_small by lia. rewrite IH by lia. lia.
Qed.

Lemma total_size_ok f e rs re rg : shaped f e -> 0 <= rs < re -> re <= m_alloc_offset f ->
  regions_ok f rs re rg -> total_size rg = re - rs.
Proof.
  intros Hf Hrs Hre [_ Heach Haddr]. pose proof (fo_alloc _ _ Hf) as Hal. unfold OFF_MAX in Hal. unfold total_size.
  assert (Hl : Z.of_nat (length (mjoin (region_addrs <$> rg))) = re - rs)
    by (rewrite Haddr, length_fmap, length_seqZ; lia).
  rewrite (total_size_acc 0); [lia | done | done | lia].
Qed.

Lemma contents_slice f e rs n : 0 <= rs -> 0 <= n -> rs + n <= m_used_offset f ->
  byte_at f e <$> seqZ rs n = take (Z.to_nat n) (drop (Z.to_nat rs) (contents f e)).
Proof.
  intros Hrs Hn Hu. unfold contents.
  replace (m_used_offset f) with (rs + (n + (m_used_offset f - rs - n))) by lia.
  rewrite (seqZ_app _ rs) by lia. rewrite fmap_app, drop_app_length' by (rewrite length_fmap, length_seqZ; lia).
  rewrite seqZ_app by lia. rewrite fmap_app, take_app_length' by (rewrite length_fmap, length_seqZ; lia). done.
Qed.


(** Files that differ only in members the storage does not depend on. *)
Record same_file (f f' : file) (e e' : env) : Prop := {
  sf_tree : m_segments f' = m_segments f;
  sf_alloc : m_alloc_offset f' = m_alloc_offset f;
  sf_used : m_used_offset f' = m_used_offset f;
  sf_size : st_size (m_attributes f') = st_size (m_attributes f);
  sf_ss : m_segment_size f' = m_segment_size f;
  sf_heap : f_heap f' = f_heap f;
  sf_next : f_next f' = f_next f;
  sf_mem : e_mem e' = e_mem e;
  sf_maps : e_maps e' = e_maps e }.

Lemma same_contents f f' e e' : same_file f f' e e' -> contents f' e' = contents f e.
Proof.
  intros [H1 H2 H3 H4 H5 H6 H7 H8 H9]. unfold contents, byte_at, addr_of. by rewrite H1, H3, H6, H8.
Qed.

Lemma same_shaped f f' e e' :
  same_file f f' e e' -> shaped f e -> shaped f' e'.
Proof.
  intros [H1 H2 H3 H4 H5 H6 H7 H8 H9] [F1 F2 F3 F4 F5 F6 F7 F8 F9 F10 F11 F12 F13].
  constructor; rewrite ?H1, ?H2, ?H3, ?H4, ?H5, ?H6; try done.
  intros id x Hx. destruct (F11 id x Hx) as [G1 G2 G3 G4 G5 G6].
  constructor; rewrite ?H1, ?H2, ?H7, ?H9; done.
Qed.
Lemma same_file_ok f f' e e' :
  same_file f f' e e' -> file_ok f e -> file_ok f' e'.
Proof.
  intros Hs [Hsh Hz]. split; [by eapply same_shaped |]. destruct Hs as [H1 H2 H3 H4 H5 H6 H7 H8 H9].
  intros Hzd k. rewrite H2, H3. unfold byte_at, addr_of. rewrite H1, H6, H8. by apply Hz.
Qed.

(** What an operation on [f] leaves alone: the storage of [f] stays where it is and new
    storage is in memory that no live mapping had; no mapping is given up; and memory that
    is mapped, but not the storage of [f], does not change. *)
Record frame (f f' : file) (e e' : env) : Prop := {
  fr_alloc : m_alloc_offset f <= m_alloc_offset f';
  fr_addr : forall k, 0 <= k < m_alloc_offset f -> addr_of f' k = addr_of f k;
  fr_new : forall k b n, m_alloc_offset f <= k < m_alloc_offset f' -> (b, n) ∈ e_maps e ->
    addr_of f' k < b \/ b + n <= addr_of f' k;
  fr_mem : forall x b n, (b, n) ∈ e_maps e -> b <= x < b + n ->
    (forall k, 0 <= k < m_alloc_offset f -> addr_of f k <> x) ->
    FuseBuf.mem_get (e_mem e') x = FuseBuf.mem_get (e_mem e) x;
  fr_maps : forall b n, (b, n) ∈ e_maps e -> (b, n) ∈ e_maps e' }.

Lemma frame_trans f1 f2 f3 e1 e2 e3 : 0 <= m_alloc_offset f1 ->
  frame f1 f2 e1 e2 -> frame f2 f3 e2 e3 -> frame f1 f3 e1 e3.
Proof.
  intros H0 [A1 A2 A3 A4 A5] [B1 B2 B3 B4 B5]. constructor.
  - lia.
  - intros k Hk. rewrite B2 by lia. by apply A2.
  - intros k b n Hk Hin. destruct (Z.lt_ge_cases k (m_alloc_offset f2)).
    + rewrite B2 by lia. apply A3; [lia | done].
    + apply B3; [lia | auto].
  - intros x b n Hin Hx Hno. rewrite (B4 x b n (A5 _ _ Hin) Hx); [by apply (A4 x b n) |].
    intros k Hk. destruct (Z.lt_ge_cases k (m_alloc_offset f1)).
    + rewrite A2 by lia. apply Hno. lia.
    + pose proof (A3 k b n ltac:(lia) Hin). lia.
  - auto.
Qed.

Lemma same_addr f f' e e' k : same_file f f' e e' -> addr_of f' k = addr_of f k.
Proof. intros [H1 _ _ _ _ H6 _ _ _]. unfold addr_of. by rewrite H1, H6. Qed.
Lemma same_frame f f' e e' : same_file f f' e e' -> frame f f' e e'.
Proof.
  intros Hs. pose proof (sf_alloc _ _ _ _ Hs) as Ha. constructor.
  - lia.
  - intros k _. by eapply same_addr.
  - intros. lia.
  - intros. by rewrite (sf_mem _ _ _ _ Hs).
  - by rewrite (sf_maps _ _ _ _ Hs).
Qed.

(** The same file with another state of its lock manager, and possibly initialized. *)
Lemma init_subdir_ok (f : file) (e : env) : exists r s', init_subdir (f, e) = Some (r, s') /\
  match r with
  | inl _ => m_initialized f = false /\ ~ sto_reliable
  | inr _ => same_file f s'.1 e s'.2 /\ m_range_mutex s'.1 = m_range_mutex f /\
      s'.1 = (if m_initialized f then f else set_initialized f) /\
      (stored e -> stored s'.2) /\ (forall n, room e n -> room s'.2 n) /\
      forall P, sto_kept P -> P (e_world e) -> P (e_world s'.2)
  end.
Proof.
  unfold init_subdir. rewrite bind_get. destruct (m_initialized f) eqn:Ei.
  { do 2 eexists. split; [reflexivity |]. split; [constructor; done | done]. }
  destruct e as [m maps w]. destruct (sto_prepared (m_pool_subdir f) m maps w) as (r & w' & E & Hr).
  unfold bind, lift, modify. cbn [fst snd]. rewrite E. destruct r as [x | []]; do 2 eexists; (split; [reflexivity |]); [done |].
  split; [by constructor |]. split; [done |]. split; [done | exact Hr].
Qed.

(** A lock taken and released around a computation that keeps the lock manager. *)
Lemma lock_range_ok (f : file) (e : env) s t op :
  lk_idle (m_range_mutex f) ->
  exists h l, lock_range s t op (f, e) = Some (inr h, (set_mutex l f, e)) /\
    forall (f' : file) (e' : env), m_range_mutex f' = l ->
      exists l', unlock_range h (f', e') = Some (inr tt, (set_mutex l' f', e')) /\ lk_idle l'.
Proof.
  intros Hi. unfold lock_range. simpl.
  destruct (lk_lock_idle (m_range_mutex f) s t (match op with op_read => RangeLock.reader | op_write => RangeLock.writer end)
    Hi) as (h & l & -> & l' & Hu & Hi').
  exists h, l. split; [done |]. intros f' e' Hl. exists l'. unfold unlock_range. simpl. by rewrite Hl, Hu.
Qed.

Lemma same_refl f e : same_file f f e e.
Proof. by constructor. Qed.
Lemma same_trans f1 f2 f3 e1 e2 e3 : same_file f1 f2 e1 e2 -> same_file f2 f3 e2 e3 -> same_file f1 f3 e1 e3.
Proof. intros [] []. constructor; congruence. Qed.
Lemma same_mutex f e l : same_file f (set_mutex l f) e e.
Proof. by constructor. Qed.

Lemma posix_read_slice f e start size : 0 <= start <= m_used_offset f -> 0 <= size ->
  posix_read (contents f e) start size
  = byte_at f e <$> seqZ start (Z.min (start + size) (m_used_offset f) - start).
Proof.
  intros Hst Hsz. rewrite contents_slice by lia. unfold posix_read.
  destruct (Z.le_ge_cases (start + size) (m_used_offset f)).
  - do 2 f_equal. lia.
  - assert (length (drop (Z.to_nat start) (contents f e)) = Z.to_nat (m_used_offset f - start)) as Hl.
    { rewrite length_drop. unfold contents. rewrite length_fmap, length_seqZ. lia. }
    rewrite !take_ge; [done | lia | lia].
Qed.

(** What [get_data] copies out of the regions it found. *)
Lemma read_out_ok f e start size rg :
  file_ok f e -> 0 <= start <= m_used_offset f -> 0 < size ->
  (if start <? m_used_offset f then regions_ok f start (Z.min (start + size) (m_used_offset f)) rg else rg = []) ->
  let bytes := posix_read (contents f e) start size in
  match rg with
  | [] => ret (0, [])
  | _ => if negb (memalign_ok (total_size rg)) then ret (- ENOMEM, [])
         else fun s => Some (inr (0, mjoin (region_bytes (e_mem s.2) <$> rg)), s)
  end (f, e)
  = Some (inr (if negb (memalign_ok (Z.of_nat (length bytes))) && negb (is_nil bytes)
               then (- ENOMEM, []) else (0, bytes)), (f, e)).
Proof.
  intros Hf Hst Hsz Hrg bytes. pose proof (fo_used _ _ Hf). subst bytes.
  rewrite posix_read_slice by lia. destruct (Z.ltb_spec start (m_used_offset f)) as [Hlt | Hge].
  - set (n := Z.min (start + size) (m_used_offset f) - start).
    rewrite (total_size_ok f e start (Z.min (start + size) (m_used_offset f)) rg Hf) by (first [done | lia]). fold n.
    rewrite length_fmap, length_seqZ. replace (Z.of_nat (Z.to_nat n)) with n by lia.
    assert (Hb : mjoin (region_bytes (e_mem e) <$> rg) = byte_at f e <$> seqZ start n).
    { rewrite region_bytes_ok by apply Hrg. rewrite (rg_addrs _ _ _ _ Hrg), <- list_fmap_compose. done. }
    assert (Hn : is_nil (byte_at f e <$> seqZ start n) = false) by (rewrite (seqZ_cons start) by lia; done).
    rewrite Hn. cbn [negb]. rewrite andb_true_r.
    destruct rg as [| r rg]; [by apply rg_ne in Hrg |]. destruct (memalign_ok n); cbn [negb]; [| done].
    cbn [fst snd]. by rewrite Hb.
  - subst rg. replace (Z.min (start + size) (m_used_offset f) - start) with 0 by lia.
    simpl. by rewrite andb_false_r.
Qed.

(** Reading, with what it leaves alone. *)
Lemma get_data_ok (f : file) (e : env) (start size : Z) :
  at_rest f e -> stored e -> 0 <= start <= m_used_offset f -> 0 < size -> start + size < 2 ^ 63 ->
  exists r s', get_data SS memalign_ok start size (f, e) = Some (r, s') /\
    match r with
    | inl _ => m_initialized f = false /\ ~ sto_reliable
    | inr out => stored s'.2 /\ frame f s'.1 e s'.2 /\ at_rest s'.1 s'.2 /\ contents s'.1 s'.2 = contents f e /\
        let bytes := posix_read (contents f e) start size in
        out = if negb (memalign_ok (Z.of_nat (length bytes))) && negb (is_nil bytes)
              then (- ENOMEM, []) else (0, bytes)
    end.
Proof.
  intros [Hf Hidle] Hstored Hst Hsz Hmax. unfold get_data. rewrite u64_small, s64_small by lia.
  rewrite (proj2 (Z.ltb_lt start _)) by lia. unfold bind at 1. cbn [assert ret].
  destruct (init_subdir_ok f e) as (r & [f1 e1] & Hinit & Hr).
  unfold bind at 1. rewrite Hinit. destruct r as [x |]; [do 2 eexists; split; [reflexivity | done] |].
  destruct Hr as (Hsame & Hmx & _ & Hkst & _). cbn [fst snd] in *.
  destruct (lock_range_ok f1 e1 start (start + size) op_read) as (h & l & Hlk & Hunlk); [by rewrite Hmx |].
  rewrite (bind_ok _ _ _ _ _ Hlk). set (f2 := set_mutex l f1).
  assert (Hsame2 : same_file f f2 e e1) by (eapply same_trans; [done | apply same_mutex]).
  assert (Hf2 : file_ok f2 e1) by by eapply same_file_ok.
  destruct (lookup_data_ok f2 e1 start (start + size) Hf2) as (rg & Hld & Hrg); [lia | rewrite (sf_used _ _ _ _ Hsame2); lia |].
  rewrite (bind_ok _ _ _ _ _ Hld). destruct (Hunlk f2 e1 eq_refl) as (l' & Hu & Hi').
  pose proof (read_out_ok f2 e1 start size rg Hf2 ltac:(rewrite (sf_used _ _ _ _ Hsame2); lia) Hsz Hrg) as Hout.
  rewrite (same_contents _ _ _ _ Hsame2) in Hout.
  rewrite (bind_ok _ _ _ _ _ Hout), (bind_ok _ _ _ _ _ Hu). do 2 eexists. split; [reflexivity |].
  cbn [fst snd]. assert (Hsame3 : same_file f (set_mutex l' f2) e e1) by (eapply same_trans; [done | apply same_mutex]).
  split; [by apply Hkst |]. split; [by apply same_frame |]. split; [split; [by eapply same_file_ok | done] |]. split; [by apply same_contents | done].
Qed.

(** ** Writing *)

Abbreviation src_bytes m srcv := (FuseBuf.mem_get m <$> FuseBuf.remaining srcv).

Lemma copy_region_ok r srcv (f : file) m maps w :
  0 <= r_size r -> FuseBuf.vec_ok srcv -> FuseBuf.in_memory srcv ->
  (Z.to_nat (r_size r) <= length (FuseBuf.remaining srcv))%nat ->
  (forall x, x ∈ region_addrs r -> x ∉ FuseBuf.remaining srcv) ->
  exists srcv', copy_region local_buf have_splice r srcv (f, Env m maps w)
    = Some (inr (r_size r, srcv'), (f, Env (FuseBuf.scatter m (region_addrs r)
        (take (Z.to_nat (r_size r)) (src_bytes m srcv))) maps w)) /\
    FuseBuf.remaining srcv' = drop (Z.to_nat (r_size r)) (FuseBuf.remaining srcv) /\
    FuseBuf.vec_ok srcv' /\ FuseBuf.v_buf srcv' = FuseBuf.v_buf srcv.
Proof.
  intros Hsz Hv Hm Hlen Hdis.
  set (dst := FuseBuf.Bufvec 0 0 [FuseBuf.Buf (r_size r) (Z.lnot FuseBuf.FUSE_BUF_IS_FD) (r_address r) (-1) 0]).
  assert (Hrem : FuseBuf.remaining dst = region_addrs r).
  { unfold FuseBuf.remaining, dst, region_addrs. simpl. rewrite app_nil_r. f_equal; lia. }
  assert (Hdv : FuseBuf.vec_ok dst).
  { constructor; [intros b ->%list_elem_of_singleton; done |].
    intros b Hb. unfold FuseBuf.fuse_bufvec_current, dst in *. simpl in *. injection Hb as <-. simpl. lia. }
  assert (Hdm : FuseBuf.in_memory dst) by (intros b ->%list_elem_of_singleton; done).
  assert (Hmin : Nat.min (length (FuseBuf.remaining dst)) (length (FuseBuf.remaining srcv)) = Z.to_nat (r_size r)).
  { rewrite Hrem. unfold region_addrs. rewrite length_seqZ. lia. }
  assert (Hall : take (Z.to_nat (r_size r)) (region_addrs r) = region_addrs r)
    by (apply take_ge; unfold region_addrs; rewrite length_seqZ; lia).
  assert (Hgen : exists d' s', (if r_is_pmem r
      then FuseBuf.fuse_buf_copy_pmem local_buf have_splice false dst srcv 8 (m, w)
      else fuse_buf_copy dst srcv 8 (m, w))
    = Some ((r_size r, d', s'), (FuseBuf.scatter m (region_addrs r) (take (Z.to_nat (r_size r)) (src_bytes m srcv)), w)) /\
    FuseBuf.remaining s' = drop (Z.to_nat (r_size r)) (FuseBuf.remaining srcv) /\
    FuseBuf.vec_ok s' /\ FuseBuf.v_buf s' = FuseBuf.v_buf srcv).
  { destruct (r_is_pmem r).
    - destruct (FuseBuf.copy_loop_memory local_buf have_splice
        (length (FuseBuf.v_buf dst) + length (FuseBuf.v_buf srcv)) dst srcv 8 0 m w) as (d' & s' & Hc & Hrest);
        try done; [by rewrite Hrem | unfold FuseBuf.left_over; lia |].
      rewrite Hmin, Hrem, Hall in Hc. rewrite Hmin in Hrest. exists d', s'. split; [| done].
      unfold FuseBuf.fuse_buf_copy_pmem. rewrite Hc, fmap_take. do 4 f_equal. lia.
    - destruct (fuse_buf_copy_ok dst srcv 8 m w) as (d' & s' & Hc & Hrest); try done; [by rewrite Hrem |].
      rewrite Hmin, Hrem, Hall in Hc. rewrite Hmin in Hrest. exists d', s'. split; [| done].
      rewrite Hc, fmap_take. do 4 f_equal. lia. }
  destruct Hgen as (d' & s' & Hc & Hrest). exists s'. split; [| done].
  unfold copy_region. cbn [fst snd e_mem e_maps e_world]. fold dst. by rewrite Hc.
Qed.

Lemma copy_regions_ok rg srcv (f : file) m maps w n :
  Forall (fun r => 0 < r_address r /\ 0 <= r_size r) rg -> FuseBuf.vec_ok srcv -> FuseBuf.in_memory srcv ->
  let A := mjoin (region_addrs <$> rg) in
  (length A <= length (FuseBuf.remaining srcv))%nat ->
  (forall x, x ∈ A -> x ∉ FuseBuf.remaining srcv) ->
  copy_regions local_buf have_splice rg srcv n (f, Env m maps w)
  = Some (inr (n + Z.of_nat (length A)), (f, Env (FuseBuf.scatter m A (take (length A) (src_bytes m srcv))) maps w)).
Proof.
  intros Hrg. revert srcv m n. induction Hrg as [| r rg [_ Hr] _ IH]; intros srcv m n Hv Hm A Hlen Hdis.
  - subst A. simpl. unfold ret. by rewrite Z.add_0_r.
  - assert (HA : A = region_addrs r ++ mjoin (region_addrs <$> rg)) by done.
    assert (Hlr : length (region_addrs r) = Z.to_nat (r_size r)) by (unfold region_addrs; by rewrite length_seqZ).
    rewrite HA, length_app, Hlr in *. clear HA A.
    destruct (copy_region_ok r srcv f m maps w) as (s' & Hc & Hrem & Hv' & Hb); try done; [lia | |].
    { intros x Hx. apply Hdis. apply elem_of_app. by left. }
    cbn [copy_regions]. rewrite (bind_ok _ _ _ _ _ Hc). cbn [fst snd].
    rewrite (IH s'); clear IH; try done.
    + rewrite Hrem, <- take_take_drop, FuseBuf.scatter_app.
      2: { rewrite length_take, length_fmap. lia. }
      rewrite fmap_drop, FuseBuf.gather_scatter.
      2: { intros x Hx Hx'. apply (Hdis x); [apply elem_of_app; by left | done]. }
      replace (n + r_size r + Z.of_nat (length (mjoin (region_addrs <$> rg))))
        with (n + Z.of_nat (Z.to_nat (r_size r) + length (mjoin (region_addrs <$> rg)))) by lia. done.
    + intros b. rewrite Hb. apply Hm.
    + rewrite Hrem, length_drop. lia.
    + rewrite Hrem. intros x Hx Hx'%FuseBuf.in_drop. apply (Hdis x); [apply elem_of_app; by right | done].
Qed.


(** The last leaf but one starts at [m_alloc_offset] and has no segment. *)
Lemma penultimate_ok f e : shaped f e ->
  exists l, last (removelast (m_leaves (m_segments f))) = Some l /\ l_key l = m_alloc_offset f /\ l_val l = None.
Proof.
  intros Hf. pose proof (fo_tree _ _ Hf) as Hw. destruct (wf_leaves _ Hw) as [Hi Hlen _ _ Hadj _].
  destruct (wf_ends _ Hw) as (l0 & r & Hl0 & Hr & Hmin & Hmax & _).
  rewrite (fo_min _ _ Hf) in Hmin. rewrite (fo_max _ _ Hf) in Hmax. pose proof (fo_alloc _ _ Hf) as Hal.
  destruct (m_leaves (m_segments f)) as [| r' ls' _] eqn:Els using rev_ind; [done |].
  rewrite last_snoc in Hr. injection Hr as ->.
  destruct ls' as [| l ls' _] using rev_ind; [simpl in Hlen; lia |].
  exists l. rewrite removelast_last, last_snoc. split; [done |].
  assert (Hlr : l_key l < l_key r).
  { rewrite <- app_assoc in Hi. apply incr_app in Hi as (_ & Hi & _). apply StronglySorted_inv in Hi as [_ Hi]. by inversion Hi. }
  assert (Hv : forall k, l_key l <= k < l_key r -> value_at (m_segments f) k = l_val l).
  { intros k Hk. unfold value_at. rewrite Els. apply segment_look; [done |]. exists ls', r, []. by rewrite <- app_assoc. }
  assert (Hl0' : 0 <= l_key l).
  { destruct ls' as [| x ls']; simpl in Hl0; injection Hl0 as ->; [lia |]. rewrite <- app_assoc in Hi.
    apply incr_app in Hi as (_ & _ & Hi). specialize (Hi l0 l ltac:(left) ltac:(left)). lia. }
  assert (Hnone : l_val l = None) by (rewrite <- (Hv (l_key r - 1)) by lia; apply (fo_free _ _ Hf); lia).
  split; [| done]. destruct (Z.lt_trichotomy (l_key l) (m_alloc_offset f)) as [Hlt | [Heq | Hgt]]; [| done |]; exfalso.
  - destruct (fo_cover _ _ Hf (l_key l) ltac:(lia)) as (id & x & Hc & _). rewrite Hv in Hc by lia. congruence.
  - destruct ls' as [| p ls' _] using rev_ind; [simpl in Hl0; injection Hl0 as ->; lia |].
    assert (Hpl : l_key p < l_key l).
    { rewrite <- !app_assoc in Hi. apply incr_app in Hi as (_ & Hi & _). apply StronglySorted_inv in Hi as [_ Hi]. by inversion Hi. }
    assert (Hp : value_at (m_segments f) (l_key l - 1) = l_val p).
    { unfold value_at. rewrite Els. apply segment_look; [done |]. exists ls', l, [r]. rewrite <- !app_assoc. split; [done | lia]. }
    rewrite (fo_free _ _ Hf) in Hp by lia. rewrite removelast_last, !fmap_app, <- app_assoc in Hadj.
    apply adj_suffix in Hadj. simpl in Hadj. destruct Hadj as [Hne _]. congruence.
Qed.

(** A new segment: an exception, or fresh memory of the size asked for. *)
Lemma create_segment_ok (f : file) (e : env) off size : 0 < size -> stored e -> room e size ->
  exists r s', create_segment off size false (f, e) = Some (r, s') /\
    match r with
    | inl _ => ~ sto_reliable
    | inr id => id = f_next f /\ exists p m w, 0 < p_data p /\
        s' = (set_heap (<[id := Seg off size false p 0]> (f_heap f)) (Pos.succ id) f,
              Env m ((p_data p, size) :: e_maps e) w) /\
        (forall b n, (b, n) ∈ e_maps e -> p_data p + size <= b \/ b + n <= p_data p) /\
        (forall x, ~ p_data p <= x < p_data p + size -> FuseBuf.mem_get m x = FuseBuf.mem_get (e_mem e) x) /\
        (sto_zeroed -> forall x, p_data p <= x < p_data p + size -> FuseBuf.mem_get m x = 0) /\
        stored s'.2 /\ forall P, sto_kept P -> P (e_world e) -> P w
    end.
Proof.
  intros Hsz Hst Hrm. destruct e as [m maps w]. destruct (sto_block (m_pool_subdir f) size m maps w Hsz Hst Hrm) as (r & e' & E & Hr).
  unfold create_segment. rewrite bind_get. unfold bind at 1, lift, segment_new, Segment.bind at 1. cbn [snd fst].
  unfold Segment.bind in E. destruct (sto_new (m_pool_subdir f) (Env m maps w)) as [[[x | p0] e0] |]; [| | done].
  - injection E as <- <-. do 2 eexists. split; [reflexivity | done].
  - unfold Segment.bind. rewrite E. destruct r as [x | p]; [do 2 eexists; split; [reflexivity | done] |].
    unfold bind, get, modify, ret, Segment.ret. cbn [fst snd]. do 2 eexists. split; [reflexivity |]. split; [done |].
    destruct Hr as (Hp & Hm & Hfr & Hmem & Hz & Hok & Hk). exists p, (e_mem e'), (e_world e').
    split; [done |]. split; [destruct e' as [m2 maps2 w2]; simpl in Hm |- *; by rewrite Hm |]. done.
Qed.

(** One segment appended to the tree. *)
Lemma append_one_ok (f : file) (e : env) id x :
  wf (m_segments f) -> min_key (m_segments f) = 0 -> max_key (m_segments f) = OFF_MAX ->
  m_init_val (m_segments f) = None ->
  f_heap f !! id = Some x -> 0 <= m_offset x -> 0 < m_size x -> m_offset x + m_size x < OFF_MAX ->
  exists t, append_segments [id] (f, e) = Some (inr tt, (set_tree t f, e)) /\
    wf t /\ min_key t = 0 /\ max_key t = OFF_MAX /\ m_init_val t = None /\ m_valid_tree t = true /\
    forall k, 0 <= k < OFF_MAX -> value_at t k =
      if (m_offset x <=? k) && (k <? m_offset x + m_size x) then Some id else value_at (m_segments f) k.
Proof.
  intros Hw Hmin Hmax Hinit Hx Hoff Hsz Hend. unfold OFF_MAX in *.
  destruct (insert_ok (m_segments f) (m_offset x) (m_offset x + m_size x) (Some id) false Hw)
    as (t1 & a & ch & Hins & Hw1 & Hinit1 & _ & [_ Hh Hlast Hlook _ _]); [lia | lia | lia |].
  destruct (build_tree_ok t1 Hw1) as (t2 & Hb & Hw2 & Hls & Hin2 & Hv2).
  exists t2. split.
  { unfold append_segments, insert_all, insert_one, rebuild, insert_back, seg, bind, get, modify, ret. cbn [fst snd].
    rewrite Hx. cbn [fst snd]. rewrite (u64_small (m_offset x + m_size x)), s64_small by lia.
    rewrite Hins. cbn [fst snd set_tree m_segments]. rewrite Hb. done. }
  split; [done |]. unfold min_key, max_key in *. rewrite Hls, Hh, Hlast, Hin2, Hinit1.
  split; [done |]. split; [done |]. split; [done |]. split; [done |].
  intros k Hk. unfold value_at. rewrite Hls, Hin2, Hinit1, Hlook, Hmin, Hmax.
  rewrite Z.max_l, Z.min_l by lia. done.
Qed.

(** How [fetch_storage] changes a file: storage may be added behind [m_alloc_offset], in
    memory that no live mapping had. *)
Record grown (f f' : file) (e e' : env) : Prop := {
  gr_used : m_used_offset f' = m_used_offset f;
  gr_attr : m_attributes f' = m_attributes f;
  gr_mutex : m_range_mutex f' = m_range_mutex f;
  gr_alloc : m_alloc_offset f <= m_alloc_offset f';
  gr_addr : forall k, 0 <= k < m_alloc_offset f -> addr_of f' k = addr_of f k;
  gr_new : forall k b n, m_alloc_offset f <= k < m_alloc_offset f' -> (b, n) ∈ e_maps e ->
    addr_of f' k < b \/ b + n <= addr_of f' k;
  gr_mem : forall x b n, (b, n) ∈ e_maps e -> b <= x < b + n ->
    FuseBuf.mem_get (e_mem e') x = FuseBuf.mem_get (e_mem e) x;
  gr_zero : sto_zeroed -> forall k, m_alloc_offset f <= k < m_alloc_offset f' -> byte_at f' e' k = 0;
  gr_maps : forall b n, (b, n) ∈ e_maps e -> (b, n) ∈ e_maps e' }.

Lemma grown_refl f e : grown f f e e.
Proof. constructor; try done; intros; lia. Qed.

Lemma grown_frame f f' e e' : grown f f' e e' -> frame f f' e e'.
Proof. intros [G1 G2 G3 G4 G5 G6 G7 G8 G9]. constructor; try done. intros x b n Hin Hx _. by apply (G7 x b n). Qed.

(** The file after a segment behind the last one was appended. *)
Lemma extend_ok (f : file) (e : env) p size mb t ss m w :
  shaped f e -> 0 < size -> m_alloc_offset f + size < OFF_MAX -> 0 < p_data p ->
  (forall b n, (b, n) ∈ e_maps e -> p_data p + size <= b \/ b + n <= p_data p) ->
  (forall x, ~ p_data p <= x < p_data p + size -> FuseBuf.mem_get m x = FuseBuf.mem_get (e_mem e) x) ->
  (sto_zeroed -> forall x, p_data p <= x < p_data p + size -> FuseBuf.mem_get m x = 0) ->
  (exists j, 12 <= j <= 61 /\ ss = 2 ^ j) ->
  wf t -> min_key t = 0 -> max_key t = OFF_MAX -> m_init_val t = None -> m_valid_tree t = true ->
  (forall k, 0 <= k < OFF_MAX -> value_at t k =
     if (m_alloc_offset f <=? k) && (k <? m_alloc_offset f + size) then Some (f_next f)
     else value_at (m_segments f) k) ->
  let x := Seg (m_alloc_offset f) size false p mb in
  let f' := set_alloc (m_alloc_offset f + size) ss
              (set_tree t (set_heap (<[f_next f := x]> (f_heap f)) (Pos.succ (f_next f)) f)) in
  let e' := Env m ((p_data p, size) :: e_maps e) w in
  shaped f' e' /\ grown f f' e e' /\
  forall k, m_alloc_offset f <= k < m_alloc_offset f + size -> addr_of f' k = p_data p + (k - m_alloc_offset f).
Proof.
  intros Hf Hsz Hend Hp Hfresh Hmout Hmz Hss Hw Hmin Hmax Hinit Hvalid Hval x f' e'.
  pose proof (fo_alloc _ _ Hf) as Hal. pose proof (fo_used _ _ Hf) as Hus. unfold OFF_MAX in *.
  assert (Hold : forall k, 0 <= k < m_alloc_offset f -> value_at t k = value_at (m_segments f) k).
  { intros k Hk. rewrite Hval, (proj2 (Z.leb_gt _ _)) by lia. done. }
  assert (Hnew : forall k, m_alloc_offset f <= k < m_alloc_offset f + size -> value_at t k = Some (f_next f)).
  { intros k Hk. rewrite Hval, (proj2 (Z.leb_le _ _)), (proj2 (Z.ltb_lt _ _)) by lia. done. }
  assert (Hheap : forall id y, f_heap f !! id = Some y -> <[f_next f := x]> (f_heap f) !! id = Some y).
  { intros id y Hy. rewrite lookup_insert_ne; [done |]. intros <-. pose proof (sk_fresh _ _ _ _ (fo_seg _ _ Hf _ _ Hy)). lia. }
  assert (Haold : forall k, 0 <= k < m_alloc_offset f -> addr_of f' k = addr_of f k).
  { intros k Hk. unfold addr_of. simpl. rewrite Hold by done.
    destruct (fo_cover _ _ Hf k Hk) as (id & y & -> & Hy & _). by rewrite (Hheap _ _ Hy), Hy. }
  assert (Hanew : forall k, m_alloc_offset f <= k < m_alloc_offset f + size ->
    addr_of f' k = p_data p + (k - m_alloc_offset f)).
  { intros k Hk. unfold addr_of. simpl. rewrite Hnew, lookup_insert_eq by done. done. }
  assert (Hmem : forall a b n, (b, n) ∈ e_maps e -> b <= a < b + n ->
    FuseBuf.mem_get (e_mem e') a = FuseBuf.mem_get (e_mem e) a).
  { intros a b n Hin Ha. apply Hmout. specialize (Hfresh b n Hin). lia. }
  assert (Hzero : sto_zeroed -> forall k, m_alloc_offset f <= k < m_alloc_offset f + size -> byte_at f' e' k = 0).
  { intros Hzd k Hk. unfold byte_at. rewrite Hanew by done. apply (Hmz Hzd). lia. }
  split; [| split; [| done]].
  - constructor; simpl; try done; try (unfold OFF_MAX; lia).
    + apply Hf.
    + intros k Hk. rewrite Hval, (proj2 (Z.ltb_ge _ _)), andb_false_r by (unfold OFF_MAX in *; lia). apply (fo_free _ _ Hf). lia.
    + intros k Hk. destruct (Z.lt_ge_cases k (m_alloc_offset f)).
      * destruct (fo_cover _ _ Hf k ltac:(lia)) as (id & y & Hv & Hy & Hin). exists id, y.
        rewrite Hold by lia. auto.
      * exists (f_next f), x. rewrite Hnew, lookup_insert_eq by lia. simpl. split; [done |]. split; [done | lia].
    + intros id y Hy. destruct (decide (id = f_next f)) as [-> | Hne].
      * rewrite lookup_insert_eq in Hy. injection Hy as <-. constructor; simpl; try done; [lia | by left | lia].
      * rewrite lookup_insert_ne in Hy by done. destruct (fo_seg _ _ Hf _ _ Hy) as [G1 G2 G3 G4 G5 G6].
        constructor; simpl; try done; [lia | by right | | lia]. intros k Hk. rewrite Hold by lia. by apply G5.
    + intros id1 id2 x1 x2 H1 H2 Hne.
      assert (Hone : forall id y, f_heap f !! id = Some y ->
        data y + m_size y <= p_data p \/ p_data p + size <= data y).
      { intros id y Hy. specialize (Hfresh _ _ (sk_map _ _ _ _ (fo_seg _ _ Hf _ _ Hy))). lia. }
      destruct (decide (id1 = f_next f)) as [-> | Hn1], (decide (id2 = f_next f)) as [-> | Hn2]; try done.
      * rewrite lookup_insert_eq in H1. rewrite lookup_insert_ne in H2 by done. injection H1 as <-.
        specialize (Hone _ _ H2). unfold data in *. simpl. lia.
      * rewrite lookup_insert_eq in H2. rewrite lookup_insert_ne in H1 by done. injection H2 as <-.
        specialize (Hone _ _ H1). unfold data in *. simpl. lia.
      * rewrite lookup_insert_ne in H1, H2 by done. by apply (fo_disjoint _ _ Hf id1 id2).
  - constructor; simpl; try done; try lia.
    + intros k b n Hk Hin. rewrite Hanew by done. specialize (Hfresh b n Hin). lia.
    + intros b n Hin. by right.
Qed.


Lemma next_segment_size ss : (exists j, 12 <= j <= 61 /\ ss = 2 ^ j) ->
  exists j, 12 <= j <= J /\ Z.min (u64 (ss * 2)) SS = 2 ^ j.
Proof.
  intros (j & Hj & ->). assert (2 ^ j * 2 = 2 ^ (j + 1)) as -> by (rewrite Z.pow_add_r by lia; lia).
  assert (Hp : 2 ^ (j + 1) < 2 ^ 63) by (apply Z.pow_lt_mono_r; lia).
  assert (0 < 2 ^ (j + 1)) by (apply Z.pow_pos_nonneg; lia). rewrite u64_small by lia.
  destruct (Z.le_ge_cases (j + 1) J).
  - exists (j + 1). split; [lia |]. apply Z.min_l. apply Z.pow_le_mono_r; lia.
  - exists J. split; [lia |]. apply Z.min_r. apply Z.pow_le_mono_r; lia.
Qed.

Lemma xalign_above n j : 0 <= n -> 12 <= j <= J -> n + SS < OFF_MAX ->
  n < xalign n (2 ^ j) <= n + SS.
Proof.
  intros Hn Hj Hb. unfold OFF_MAX in Hb. assert (Hp : 0 < 2 ^ j) by (apply Z.pow_pos_nonneg; lia).
  assert (2 ^ j <= SS) by (apply Z.pow_le_mono_r; lia).
  rewrite xalign_pow2 by lia. pose proof (Z.div_mod n (2 ^ j)). pose proof (Z.mod_pos_bound n _ Hp). lia.
Qed.

(** The regions of a range that starts in the old storage and ends in the new segment. *)
Lemma regions_extended f f' e e' off re rg a pm :
  shaped f e -> grown f f' e e' -> off <= m_alloc_offset f -> m_alloc_offset f < re -> 0 <= off -> 0 < a ->
  (forall k, m_alloc_offset f <= k < re -> addr_of f' k = a + (k - m_alloc_offset f)) ->
  (off < m_alloc_offset f /\ regions_ok f off (m_alloc_offset f) rg \/ off = m_alloc_offset f /\ rg = []) ->
  regions_ok f' off re (rg ++ [Region a (re - m_alloc_offset f) false pm]).
Proof.
  intros Hf Hg Hoff Hre H0 Ha Hnew Hcase.
  assert (Hlast : region_addrs (Region a (re - m_alloc_offset f) false pm)
    = addr_of f' <$> seqZ (m_alloc_offset f) (re - m_alloc_offset f)).
  { unfold region_addrs. simpl. apply list_eq. intros i. rewrite list_lookup_fmap.
    destruct (decide (i < Z.to_nat (re - m_alloc_offset f))%nat).
    - rewrite !lookup_seqZ_lt by lia. simpl. f_equal. rewrite Hnew by lia. lia.
    - rewrite !lookup_seqZ_ge by lia. done. }
  constructor.
  - by destruct rg.
  - apply Forall_app. split; [| repeat constructor; simpl; lia].
    destruct Hcase as [[_ Hok] | [_ ->]]; [apply Hok | constructor].
  - rewrite fmap_app, join_app. cbn [fmap list_fmap mjoin list_join]. rewrite Hlast, app_nil_r.
    destruct Hcase as [[Hlt Hok] | [-> ->]]; [| done].
    rewrite (rg_addrs _ _ _ _ Hok).
    replace (re - off) with ((m_alloc_offset f - off) + (re - m_alloc_offset f)) by lia.
    rewrite seqZ_app, fmap_app by lia. replace (off + (m_alloc_offset f - off)) with (m_alloc_offset f) by lia.
    f_equal. apply list_fmap_ext. intros i k Hk%lookup_seqZ. symmetry. apply (gr_addr _ _ _ _ Hg). lia.
Qed.


(** [fetch_storage] for a range that starts in or right behind the allocated part: an
    exception, or the storage of the range in a file that has grown to hold it. *)
Lemma fetch_storage_ok f e off size :
  shaped f e -> stored e -> room e (size + SS) -> 0 <= off <= m_alloc_offset f -> 0 < size -> off + size + SS < OFF_MAX ->
  exists r s', fetch_storage SS off size [] (f, e) = Some (r, s') /\
    match r with
    | inl _ => ~ sto_reliable
    | inr rg => shaped s'.1 s'.2 /\ stored s'.2 /\ grown f s'.1 e s'.2 /\ off + size <= m_alloc_offset s'.1 /\
        regions_ok s'.1 off (off + size) rg
    end.
Proof.
  intros Hf Hstored Hroom Hoff Hsz Hb. pose proof (fo_alloc _ _ Hf) as Hal.
  assert (0 < SS) by (apply Z.pow_pos_nonneg; lia). unfold OFF_MAX in Hal. unfold OFF_MAX in Hb.
  unfold fetch_storage. rewrite bind_get, (s64_small size), (s64_small (off + size)), (u64_small (off + size)),
    (s64_small (off + size)) by lia.
  destruct (Z.leb_spec (off + size) (m_alloc_offset f)) as [Hin | Hout].
  { destruct (lookup_segments_ok f e off (off + size) [] Hf) as (rg & -> & Hrg); [lia | lia |].
    do 2 eexists. split; [reflexivity |]. split; [done |]. split; [done |]. split; [apply grown_refl | done]. }
  rewrite (proj2 (Z.leb_le off (off + size))), (fo_valid _ _ Hf) by lia. unfold bind at 1 2. cbn [assert ret].
  assert (Hlk : exists rg, (if off <? m_alloc_offset f then lookup_segments SS off (m_alloc_offset f) [] else ret []) (f, e)
    = Some (inr rg, (f, e)) /\
    (off < m_alloc_offset f /\ regions_ok f off (m_alloc_offset f) rg \/ off = m_alloc_offset f /\ rg = [])).
  { destruct (Z.ltb_spec off (m_alloc_offset f)).
    - destruct (lookup_segments_ok f e off (m_alloc_offset f) [] Hf) as (rg & -> & Hrg); [lia | lia |].
      exists rg. split; [done |]. by left.
    - exists []. split; [done |]. right. split; [lia | done]. }
  destruct Hlk as (rg & Hlk & Hrg). rewrite (bind_ok _ _ _ _ _ Hlk), bind_get.
  destruct (penultimate_ok f e Hf) as (l & -> & Hlk' & Hlv). rewrite Hlk', Hlv, Z.eqb_refl.
  unfold bind at 1 2. cbn [assert ret]. rewrite bool_decide_true by done. cbn [assert ret].
  destruct (next_segment_size _ (fo_ss _ _ Hf)) as (j & Hj & Hss). rewrite Hss.
  rewrite (proj2 (Z.leb_le off (m_alloc_offset f))), Z.sub_diag by lia. change (u64 0 =? 0) with true. cbn [negb].
  pose proof (xalign_above (off + size) j ltac:(lia) Hj ltac:(unfold OFF_MAX; lia)) as Hx.
  set (X := xalign (off + size) (2 ^ j)) in *. rewrite (u64_small (X - m_alloc_offset f)) by lia.
  set (n := X - m_alloc_offset f) in *. unfold bind at 1, modify at 1. cbn [fst snd].
  set (f1 := set_alloc (m_alloc_offset f) (2 ^ j) f). unfold bind at 1. cbn [ret].
  destruct (create_segment_ok f1 e (m_alloc_offset f) n ltac:(lia) Hstored) as (r & s1 & Hcr & Hr);
    [by apply (sto_room_le _ (size + SS)); [| lia] |].
  unfold bind at 1. rewrite Hcr. destruct r as [x | id]; [do 2 eexists; split; [reflexivity | done] |].
  destruct Hr as (-> & p & m & w & Hp & -> & Hfresh & Hmout & Hmz & Hst2 & _). cbn [app].
  set (x := Seg (m_alloc_offset f) n false p 0).
  set (f2 := set_heap (<[f_next f1 := x]> (f_heap f1)) (Pos.succ (f_next f1)) f1).
  set (e2 := Env m ((p_data p, n) :: e_maps e) w).
  destruct (append_one_ok f2 e2 (f_next f1) x) as (t & Happ & Ht1 & Ht2 & Ht3 & Ht4 & Ht5 & Ht6);
    [apply Hf | apply Hf | apply Hf | apply Hf | apply lookup_insert_eq | simpl; lia | simpl; lia |
     simpl; unfold OFF_MAX; lia |].
  rewrite (bind_ok _ _ _ _ _ Happ).
  assert (Hseg : seg (f_next f1) (set_tree t f2, e2) = Some (inr x, (set_tree t f2, e2)))
    by (unfold seg; unfold f2; simpl; by rewrite lookup_insert_eq).
  rewrite (bind_ok _ _ _ _ _ Hseg). unfold bind, modify, ret. cbn [fst snd].
  do 2 eexists. split; [reflexivity |]. cbn [fst snd].
  destruct (extend_ok f e p n 0 t (2 ^ j) m w Hf) as (Hok & Hg & Hanew); try done; [lia | unfold OFF_MAX; lia | exists j; split; [lia | done] |].
  rewrite (u64_small (m_alloc_offset f + n)), s64_small, (u64_small (off + size - _)) by lia.
  split; [done |]. split; [done |]. split; [done |]. split; [simpl; lia |].
  rewrite Z.add_0_r.
  apply (regions_extended f _ e _ off (off + size) rg (p_data p) (is_pmem x) Hf Hg); try done; try lia.
  intros k Hk. apply Hanew. lia.
Qed.


(** POSIX [pwrite]: a hole between the end of file and [offset] reads as zeros. *)
Definition posix_write (bytes : list Z) (offset : Z) (d : list Z) : list Z :=
  let o := Z.to_nat offset in
  take o (bytes ++ replicate (o - length bytes) 0) ++ d ++ drop (o + length d) bytes.

Lemma posix_write_lookup bytes offset d i : 0 <= offset -> d <> [] ->
  posix_write bytes offset d !! i =
    if decide (Z.of_nat i < offset) then Some (default 0 (bytes !! i))
    else if decide (Z.of_nat i < offset + Z.of_nat (length d)) then d !! (i - Z.to_nat offset)%nat
    else bytes !! i.
Proof.
  intros Ho Hd. unfold posix_write. set (o := Z.to_nat offset).
  assert (Hl : length (take o (bytes ++ replicate (o - length bytes) 0)) = o).
  { rewrite length_take, length_app, length_replicate. lia. }
  destruct (decide (Z.of_nat i < offset)).
  - rewrite lookup_app_l by lia. rewrite lookup_take_lt by lia.
    destruct (decide (i < length bytes)%nat).
    + rewrite lookup_app_l by lia. destruct (lookup_lt_is_Some_2 bytes i) as [v ->]; [lia | done].
    + rewrite lookup_app_r, lookup_replicate_2 by lia. by rewrite lookup_ge_None_2 by lia.
  - rewrite lookup_app_r, Hl by lia. destruct (decide (Z.of_nat i < offset + Z.of_nat (length d))).
    + by rewrite lookup_app_l by lia.
    + rewrite lookup_app_r by lia. rewrite lookup_drop. f_equal. lia.
Qed.

Lemma contents_lookup f e i : contents f e !! i =
  if decide (Z.of_nat i < m_used_offset f) then Some (byte_at f e (Z.of_nat i)) else None.
Proof.
  unfold contents. rewrite list_lookup_fmap. destruct (decide _).
  - by rewrite lookup_seqZ_lt by lia.
  - rewrite lookup_seqZ_ge by lia. done.
Qed.

Lemma scatter_get m A B i a : NoDup A -> A !! i = Some a -> (i < length B)%nat ->
  FuseBuf.mem_get (FuseBuf.scatter m A B) a = default 0 (B !! i).
Proof.
  revert m B i. induction A as [| x A IH]; intros m [| b B] i Hnd Ha Hi; simpl in *; try done; try lia.
  apply NoDup_cons in Hnd as [Hx Hnd]. destruct i as [| i]; simpl in *.
  - injection Ha as ->. rewrite FuseBuf.scatter_notin by done. unfold FuseBuf.mem_get. by rewrite lookup_insert_eq.
  - apply IH; [done | done | lia].
Qed.

(** A buffer vector with the bytes to write: in memory that is allocated and not the file's. *)
Record src_ok (f : file) (e : env) (srcv : FuseBuf.fuse_bufvec) : Prop := {
  sr_vec : FuseBuf.vec_ok srcv;
  sr_mem : FuseBuf.in_memory srcv;
  sr_live : forall x, x ∈ FuseBuf.remaining srcv -> exists b n, (b, n) ∈ e_maps e /\ b <= x < b + n;
  sr_disjoint : forall x k, x ∈ FuseBuf.remaining srcv -> 0 <= k < m_alloc_offset f -> addr_of f k <> x }.

(** The bytes of a file that has grown. *)
Lemma grown_old f f' e e' k : shaped f e -> grown f f' e e' -> 0 <= k < m_alloc_offset f -> byte_at f' e' k = byte_at f e k.
Proof.
  intros Hf Hg Hk. unfold byte_at. rewrite (gr_addr _ _ _ _ Hg) by lia.
  destruct (fo_cover _ _ Hf k ltac:(lia)) as (id & y & _ & Hy & Hin). rewrite (addr_of_seg f e id y k Hf Hy Hin).
  apply (gr_mem _ _ _ _ Hg _ _ _ (sk_map _ _ _ _ (fo_seg _ _ Hf _ _ Hy))). lia.
Qed.
Lemma grown_byte f f' e e' k : sto_zeroed -> shaped f e -> grown f f' e e' -> 0 <= k < m_alloc_offset f' ->
  byte_at f' e' k = if decide (k < m_alloc_offset f) then byte_at f e k else 0.
Proof.
  intros Hz Hf Hg Hk. destruct (decide _); [apply (grown_old f f' e e' k Hf Hg); lia |]. apply (gr_zero _ _ _ _ Hg Hz). lia.
Qed.
Lemma grown_ok f f' e e' : file_ok f e -> shaped f' e' -> grown f f' e e' -> file_ok f' e'.
Proof.
  intros Hf Hs Hg. split; [done |]. intros Hz k Hk. rewrite (gr_used _ _ _ _ Hg) in Hk. pose proof (fo_used _ _ Hf).
  destruct (Z.lt_ge_cases k (m_alloc_offset f)).
  - rewrite (grown_old f f' e e' k Hf Hg) by lia. apply (fo_zero _ _ Hf Hz). lia.
  - apply (gr_zero _ _ _ _ Hg Hz). lia.
Qed.

(** A file whose memory and size change: only the zeros behind the end matter. *)
Lemma resized_shaped (f f' : file) (e e' : env) : shaped f e ->
  m_segments f' = m_segments f -> m_alloc_offset f' = m_alloc_offset f -> m_segment_size f' = m_segment_size f ->
  f_heap f' = f_heap f -> f_next f' = f_next f -> e_maps e' = e_maps e ->
  m_used_offset f <= m_used_offset f' <= m_alloc_offset f -> st_size (m_attributes f') = m_used_offset f' -> shaped f' e'.
Proof.
  intros [F1 F2 F3 F4 F5 F6 F7 F8 F9 F10 F11 F12 F13] H1 H2 H3 H4 H5 H6 Hu Hs.
  constructor; rewrite ?H1, ?H2, ?H3, ?H4; try done; try lia.
  intros id x Hx. destruct (F11 id x Hx) as [G1 G2 G3 G4 G5 G6].
  constructor; rewrite ?H1, ?H2, ?H5, ?H6; done.
Qed.
Lemma resized_ok (f f' : file) (e e' : env) : file_ok f e ->
  m_segments f' = m_segments f -> m_alloc_offset f' = m_alloc_offset f -> m_segment_size f' = m_segment_size f ->
  f_heap f' = f_heap f -> f_next f' = f_next f -> e_maps e' = e_maps e ->
  m_used_offset f <= m_used_offset f' <= m_alloc_offset f -> st_size (m_attributes f') = m_used_offset f' ->
  (sto_zeroed -> forall k, m_used_offset f' <= k < m_alloc_offset f -> byte_at f' e' k = 0) -> file_ok f' e'.
Proof.
  intros Hf H1 H2 H3 H4 H5 H6 Hu Hs Hz. split; [by eapply (resized_shaped f f' e e' Hf) | by rewrite H2].
Qed.


Lemma addrs_nodup f e off size : shaped f e -> 0 <= off -> off + size <= m_alloc_offset f ->
  NoDup (addr_of f <$> seqZ off size).
Proof.
  intros Hf Ho Hs. apply NoDup_fmap_2_strong; [| apply NoDup_seqZ].
  intros k1 k2 H1%elem_of_seqZ H2%elem_of_seqZ. apply (addr_of_inj f e); [done | lia | lia].
Qed.

(** The bytes after [size] bytes [d] were copied to the storage of [[off, off + size)]. *)
Lemma written_byte f e off size d k :
  shaped f e -> 0 <= off -> off + size <= m_alloc_offset f -> Z.of_nat (length d) = size ->
  0 <= k < m_alloc_offset f ->
  FuseBuf.mem_get (FuseBuf.scatter (e_mem e) (addr_of f <$> seqZ off size) d) (addr_of f k)
  = if decide (off <= k < off + size) then default 0 (d !! Z.to_nat (k - off)) else byte_at f e k.
Proof.
  intros Hf Ho Hs Hd Hk. destruct (decide (off <= k < off + size)).
  - apply scatter_get; [by eapply addrs_nodup | | lia].
    rewrite list_lookup_fmap, lookup_seqZ_lt by lia. simpl. do 2 f_equal. lia.
  - apply FuseBuf.scatter_notin. intros (k' & Ha & Hk'%elem_of_seqZ)%list_elem_of_fmap.
    apply (addr_of_inj f e k k' Hf) in Ha; [lia | done | lia].
Qed.

(** The source bytes are not in the storage of the file that has grown. *)
Lemma src_disjoint f f' e e' srcv k : grown f f' e e' -> src_ok f e srcv -> 0 <= k < m_alloc_offset f' ->
  addr_of f' k ∉ FuseBuf.remaining srcv.
Proof.
  intros Hg Hs Hk Hin. destruct (Z.lt_ge_cases k (m_alloc_offset f)) as [Hlt | Hge].
  - apply (sr_disjoint _ _ _ Hs _ k Hin); [lia |]. symmetry. apply (gr_addr _ _ _ _ Hg). lia.
  - destruct (sr_live _ _ _ Hs _ Hin) as (b & n & Hb & Hx).
    pose proof (gr_new _ _ _ _ Hg k b n ltac:(lia) Hb). lia.
Qed.

Lemma src_bytes_grown f f' e e' srcv : grown f f' e e' -> src_ok f e srcv ->
  src_bytes (e_mem e') srcv = src_bytes (e_mem e) srcv.
Proof.
  intros Hg Hs. apply list_fmap_ext. intros i x Hx%list_elem_of_lookup_2.
  destruct (sr_live _ _ _ Hs _ Hx) as (b & n & Hb & Hin). by apply (gr_mem _ _ _ _ Hg x b n).
Qed.

(** [update_size] after the copy, and the lock released. *)
Lemma update_size_ok (f : file) (e : env) en : 0 <= en < 2 ^ 63 -> st_size (m_attributes f) = m_used_offset f ->
  exists f', update_size en (f, e) = Some (inr tt, (f', e)) /\
    m_segments f' = m_segments f /\ m_alloc_offset f' = m_alloc_offset f /\ m_segment_size f' = m_segment_size f /\
    f_heap f' = f_heap f /\ f_next f' = f_next f /\ m_range_mutex f' = m_range_mutex f /\
    m_used_offset f' = Z.max (m_used_offset f) en /\ st_size (m_attributes f') = m_used_offset f'.
Proof.
  intros Hen Hs. unfold update_size, modify. cbn [fst snd]. rewrite s64_small by lia. rewrite Hs.
  destruct (Z.ltb_spec (m_used_offset f) en); eexists; (split; [reflexivity |]); simpl; repeat split; lia || done.
Qed.

(** The contents of a file [f'] whose bytes are those of [f] with [d] written at [off]. *)
Lemma write_contents f e f' e' off d :
  file_ok f e -> 0 <= off <= m_alloc_offset f -> sto_zeroed \/ off <= m_used_offset f -> d <> [] ->
  m_used_offset f' = Z.max (m_used_offset f) (off + Z.of_nat (length d)) ->
  (forall k, off <= k < off + Z.of_nat (length d) -> byte_at f' e' k = default 0 (d !! Z.to_nat (k - off))) ->
  (forall k, 0 <= k < m_alloc_offset f -> ~ off <= k < off + Z.of_nat (length d) -> byte_at f' e' k = byte_at f e k) ->
  contents f' e' = posix_write (contents f e) off d.
Proof.
  intros Hf Ho Hz Hd Hu Hnew Hold. pose proof (fo_used _ _ Hf) as Hus. apply list_eq. intros i.
  rewrite posix_write_lookup, !contents_lookup, Hu by (done || lia).
  destruct (decide (Z.of_nat i < off)) as [Hlo | Hlo].
  - rewrite decide_True by lia. rewrite Hold by lia.
    destruct (decide (Z.of_nat i < m_used_offset f)); [done |]. simpl. f_equal.
    destruct Hz as [Hz | Hz]; [apply (fo_zero _ _ Hf Hz); lia | lia].
  - destruct (decide (Z.of_nat i < off + Z.of_nat (length d))) as [Hhi | Hhi].
    + rewrite decide_True by lia. rewrite Hnew by lia.
      destruct (lookup_lt_is_Some_2 d (i - Z.to_nat off)%nat) as [v Hv]; [lia |].
      replace (Z.to_nat (Z.of_nat i - off)) with (i - Z.to_nat off)%nat by lia. by rewrite Hv.
    + destruct (decide (Z.of_nat i < m_used_offset f)).
      * rewrite decide_True by lia. rewrite Hold by lia. done.
      * by rewrite decide_False by lia.
Qed.

(** The second half of [put_data]: the copy under the range lock. *)
Lemma write_regions_ok f e off size rg srcv :
  file_ok f e -> lk_idle (m_range_mutex f) -> 0 <= off -> 0 < size -> off + size <= m_alloc_offset f ->
  regions_ok f off (off + size) rg -> FuseBuf.vec_ok srcv -> FuseBuf.in_memory srcv ->
  Z.of_nat (length (FuseBuf.remaining srcv)) = size ->
  (forall k, 0 <= k < m_alloc_offset f -> addr_of f k ∉ FuseBuf.remaining srcv) ->
  exists f' e',
    bind (lock_range off (off + size) op_write) (fun rl => bind (copy_regions local_buf have_splice rg srcv 0) (fun n =>
      bind (update_size (off + size)) (fun _ => bind (unlock_range rl) (fun _ => ret n)))) (f, e)
    = Some (inr size, (f', e')) /\ (stored e -> stored e') /\ at_rest f' e' /\ m_used_offset f' = Z.max (m_used_offset f) (off + size) /\
    frame f f' e e' /\ forall k, 0 <= k < m_alloc_offset f -> byte_at f' e' k =
      if decide (off <= k < off + size) then default 0 (src_bytes (e_mem e) srcv !! Z.to_nat (k - off))
      else byte_at f e k.
Proof.
  intros Hf Hidle Hoff Hsz Hal Hrg Hv Hm Hlen Hdis. pose proof (fo_alloc _ _ Hf) as Ha. unfold OFF_MAX in Ha.
  pose proof (fo_used _ _ Hf) as Hus.
  destruct (lock_range_ok f e off (off + size) op_write Hidle) as (h & l & Hlk & Hunlk).
  rewrite (bind_ok _ _ _ _ _ Hlk). set (f3 := set_mutex l f). destruct e as [m maps w].
  assert (HA : length (mjoin (region_addrs <$> rg)) = length (FuseBuf.remaining srcv)).
  { rewrite (rg_addrs _ _ _ _ Hrg), length_fmap, length_seqZ. lia. }
  assert (Hcopy : copy_regions local_buf have_splice rg srcv 0 (f3, Env m maps w)
    = Some (inr size, (f3, Env (FuseBuf.scatter m (addr_of f <$> seqZ off size) (src_bytes m srcv)) maps w))).
  { rewrite copy_regions_ok; [| apply Hrg | done | done | lia |].
    - rewrite HA, Hlen, (rg_addrs _ _ _ _ Hrg), take_ge by (rewrite length_fmap; lia).
      by replace (off + size - off) with size by lia.
    - rewrite (rg_addrs _ _ _ _ Hrg). intros x (k & -> & Hk%elem_of_seqZ)%list_elem_of_fmap. apply Hdis. lia. }
  rewrite (bind_ok _ _ _ _ _ Hcopy). set (e3 := Env (FuseBuf.scatter m _ _) maps w).
  destruct (update_size_ok f3 e3 (off + size)) as (f4 & Hup & U1 & U2 & U3 & U4 & U5 & U6 & U7 & U8);
    [lia | apply (fo_size _ _ Hf) |].
  rewrite (bind_ok _ _ _ _ _ Hup). destruct (Hunlk f4 e3) as (l' & Hu & Hi'); [by rewrite U6 |].
  rewrite (bind_ok _ _ _ _ _ Hu). exists (set_mutex l' f4), e3. split; [done |]. split; [done |].
  assert (Hbyte : forall k, 0 <= k < m_alloc_offset f -> byte_at (set_mutex l' f4) e3 k =
    if decide (off <= k < off + size) then default 0 (src_bytes m srcv !! Z.to_nat (k - off))
    else byte_at f (Env m maps w) k).
  { intros k Hk. unfold byte_at at 1, addr_of. simpl. rewrite U1, U4. fold (addr_of f3 k).
    apply (written_byte f (Env m maps w) off size _ k Hf); try done. rewrite length_fmap. lia. }
  assert (Haddr : forall k, addr_of (set_mutex l' f4) k = addr_of f k)
    by (intros k; unfold addr_of; simpl; by rewrite U1, U4).
  assert (Hfr : frame f (set_mutex l' f4) (Env m maps w) e3).
  { constructor; simpl; rewrite ?U2; try done; try (simpl; lia). intros x b n _ _ Hno. apply FuseBuf.scatter_notin.
    intros (k & -> & Hk%elem_of_seqZ)%list_elem_of_fmap. apply (Hno k); [lia | done]. }
  split; [split; [| done] | done].
  apply (resized_ok f _ (Env m maps w) e3 Hf); try done; try (simpl; rewrite ?U7; simpl; lia).
  intros Hz k Hk. simpl in Hk. rewrite U7 in Hk. simpl in Hk. rewrite Hbyte by lia. rewrite decide_False by lia.
  apply (fo_zero _ _ Hf Hz). lia.
Qed.

(** Writing, with what it leaves alone. *)
Lemma put_data_ok (f : file) (e : env) (off size : Z) (srcv : FuseBuf.fuse_bufvec) :
  at_rest f e -> stored e -> room e (size + SS) -> 0 <= off <= m_alloc_offset f ->
  sto_zeroed \/ off <= m_used_offset f -> 0 < size -> off + size + SS < OFF_MAX ->
  src_ok f e srcv -> Z.of_nat (length (FuseBuf.remaining srcv)) = size ->
  exists r s', put_data SS local_buf have_splice off size srcv (f, e) = Some (r, s') /\
    match r with
    | inl _ => ~ sto_reliable
    | inr n => n = size /\ stored s'.2 /\ frame f s'.1 e s'.2 /\ at_rest s'.1 s'.2 /\
        contents s'.1 s'.2 = posix_write (contents f e) off (src_bytes (e_mem e) srcv)
    end.
Proof.
  intros [Hf Hidle] Hstored Hroom Hoff Hzd Hsz Hb Hsrc Hlen. assert (0 < SS) by (apply Z.pow_pos_nonneg; lia). unfold put_data.
  destruct (init_subdir_ok f e) as (r0 & [f1 e1] & Hinit & Hr0). unfold bind at 1. rewrite Hinit.
  destruct r0 as [x |]; [do 2 eexists; split; [reflexivity | apply Hr0] |].
  destruct Hr0 as (Hsame & Hmx & _ & Hkst & Hkr & _). cbn [fst snd] in *. pose proof (same_file_ok _ _ _ _ Hsame Hf) as Hf1.
  assert (Hsrc1 : src_ok f1 e1 srcv).
  { destruct Hsrc as [V1 V2 V3 V4], Hsame as [S1 S2 S3 S4 S5 S6 S7 S8 S9]. constructor; try done.
    - by rewrite S9.
    - intros x k Hx Hk. unfold addr_of. rewrite S1, S6. rewrite S2 in Hk. by apply V4. }
  destruct (fetch_storage_ok f1 e1 off size Hf1 (Hkst Hstored) (Hkr _ Hroom)) as (r1 & [f2 e2] & Hfet & Hr1);
    [rewrite (sf_alloc _ _ _ _ Hsame); done | done | done |].
  unfold OFF_MAX in Hb. unfold bind at 1. rewrite Hfet. destruct r1 as [x | rg]; [do 2 eexists; split; [reflexivity | done] |].
  cbn [fst snd] in Hr1. destruct Hr1 as (Hsh2 & Hst2 & Hg & Hal & Hrg). pose proof (grown_ok _ _ _ _ Hf1 Hsh2 Hg) as Hf2.
  pose proof (fo_alloc _ _ Hf2) as Hal2.
  pose proof (fo_used _ _ Hf2) as Hu2.
  destruct (write_regions_ok f2 e2 off size rg srcv) as (f5 & e5 & Hw & Hst5 & Hrest & Hu5 & Hfr & Hbyte); try done; try lia.
  { rewrite (gr_mutex _ _ _ _ Hg), Hmx. done. }
  { apply Hsrc. }
  { apply Hsrc. }
  { intros k Hk. by apply (src_disjoint _ _ _ _ _ _ Hg Hsrc1). }
  rewrite (u64_small (off + size)), s64_small, (u64_small (off + size)) by lia. rewrite Hw.
  do 2 eexists. split; [reflexivity |]. split; [done |]. cbn [fst snd]. split; [by apply Hst5 |].
  split; [apply (frame_trans f f1 f5 e e1 e5); [apply (fo_alloc _ _ Hf) | by apply same_frame |];
    apply (frame_trans f1 f2 f5 e1 e2 e5); [apply (fo_alloc _ _ Hf1) | by apply grown_frame | done] |].
  split; [done |].
  assert (Hd : src_bytes (e_mem e2) srcv = src_bytes (e_mem e) srcv).
  { rewrite <- (sf_mem _ _ _ _ Hsame). by apply (src_bytes_grown _ _ _ _ _ Hg Hsrc1). }
  rewrite <- Hd. pose proof (gr_alloc _ _ _ _ Hg) as Hga. rewrite (sf_alloc _ _ _ _ Hsame) in Hga.
  assert (Hdl : Z.of_nat (length (src_bytes (e_mem e2) srcv)) = size) by (rewrite length_fmap; lia).
  apply (write_contents f e f5 e5); rewrite ?Hdl; try done.
  - intros Hn. rewrite Hn in Hdl. simpl in Hdl. lia.
  - by rewrite Hu5, (gr_used _ _ _ _ Hg), (sf_used _ _ _ _ Hsame).
  - intros k Hk. rewrite Hbyte, decide_True by lia. done.
  - intros k Hk Hno. rewrite Hbyte, decide_False by lia. rewrite (grown_old _ _ _ _ _ Hf1 Hg) by (rewrite (sf_alloc _ _ _ _ Hsame); lia).
    unfold byte_at, addr_of. by rewrite (sf_tree _ _ _ _ Hsame), (sf_heap _ _ _ _ Hsame), (sf_mem _ _ _ _ Hsame).
Qed.

(** ** New files *)

Lemma value_at_new k : value_at (fst_new 0 OFF_MAX (None : option positive)) k = None.
Proof. unfold value_at. simpl. by repeat destruct (_ <? _). Qed.

(** A file without storage whose tree is built. *)
Lemma init_file_ok path subdir t tb (e : env) :
  wf tb -> m_leaves tb = m_leaves (fst_new 0 OFF_MAX None) -> m_init_val tb = None -> m_valid_tree tb = true ->
  file_ok (set_tree tb (file_init path subdir t)) e.
Proof.
  intros Hw Hls Hin Hv. split; [constructor | simpl; lia]; simpl; try done; try lia.
  - unfold min_key. by rewrite Hls.
  - unfold max_key. by rewrite Hls.
  - intros k _. unfold value_at. rewrite Hls, Hin. apply value_at_new.
  - exists 12. split; [lia | done].
Qed.

Lemma init_tree : exists tb, build_tree (fst_new 0 OFF_MAX (None : option positive)) = Some tb /\ wf tb /\
  m_leaves tb = m_leaves (fst_new 0 OFF_MAX None) /\ m_init_val tb = None /\ m_valid_tree tb = true.
Proof. apply build_tree_ok. apply wf_new. unfold OFF_MAX. lia. Qed.

(** A new file that is not populated is empty. *)
Lemma nvml_create path subdir t fuel (e : env) :
  exists s', file_new (L := L) path subdir t false fuel e = Some (inr tt, s') /\
    frame (file_init path subdir t) s'.1 e s'.2 /\ at_rest s'.1 s'.2 /\ contents s'.1 s'.2 = [].
Proof.
  destruct init_tree as (tb & Hb & Hw & Hls & Hin & Hv). unfold file_new, rebuild. rewrite bind_get.
  change (m_segments (file_init path subdir t)) with (fst_new 0 OFF_MAX (None : option positive)).
  rewrite Hb. eexists. split; [reflexivity |]. cbn [fst snd].
  split; [constructor; simpl; intros; try done; lia |]. split; [| done].
  split; [by apply init_file_ok | apply lk_new_idle].
Qed.

(** The file to load: it can be opened, its size is that of its bytes, and reads deliver them,
    in an environment [P] that the other calls of the backend keep. *)
Record source_file (P : W -> Prop) (path : string) (fd : Z) (st : stat) (bytes : list Z) (fuel : nat) : Prop := {
  so_kept : sto_kept P;
  so_open w : P w -> exists w', open_stat w path = (Some (fd, st), w') /\ P w' /\
    (forall maps, sto_ok maps w -> sto_ok maps w') /\ forall n, sto_room w n -> sto_room w' n;
  so_size : st_size st = Z.of_nat (length bytes);
  so_read w : P w -> exists n w', delivers fd w bytes w' n /\ (n <= fuel)%nat /\
    forall maps, sto_ok maps w -> sto_ok maps w' }.

Lemma populate_ok (P : W -> Prop) (path subdir : string) (t : file_type) (fd : Z) (st : stat)
    (bytes : list Z) (fuel : nat) (e : env) :
  source_file P path fd st bytes fuel -> P (e_world e) -> stored e -> room e (Z.of_nat (length bytes) + SS) ->
  Z.of_nat (length bytes) + SS < OFF_MAX ->
  exists r s', file_new (L := L) path subdir t true fuel e = Some (r, s') /\
    match r with
    | inl _ => ~ sto_reliable
    | inr _ => stored s'.2 /\ frame (file_init path subdir t) s'.1 e s'.2 /\ at_rest s'.1 s'.2 /\
        contents s'.1 s'.2 = bytes
    end.
Proof.
  intros Hsrc HP Hstored Hroom Hlen. assert (HS : 4096 <= SS) by (change 4096 with (2 ^ 12); apply Z.pow_le_mono_r; lia).
  unfold OFF_MAX in Hlen. destruct init_tree as (tb & _ & Hwb & Hlsb & Hinb & Hvb).
  unfold file_new, populate. set (f0 := file_init path subdir t).
  destruct (init_subdir_ok f0 e) as (r0 & [f1 e1] & Hinit & Hr0). unfold bind at 1. rewrite Hinit.
  destruct r0 as [x |]; [do 2 eexists; split; [reflexivity | apply Hr0] |].
  destruct Hr0 as (Hsame & _ & Hf1 & Hkst & Hkr & Hk1). cbn [fst snd] in Hf1, Hk1. simpl in Hf1. subst f1.
  specialize (Hk1 P (so_kept _ _ _ _ _ _ Hsrc) HP). rewrite bind_get.
  destruct (so_open _ _ _ _ _ _ Hsrc _ Hk1) as (w1 & Hopen & Hw1 & Hok1 & Hrm1).
  unfold bind at 1, lift at 1, on_world. cbn [fst snd set_initialized m_pathname].
  change (m_pathname f0) with path. rewrite Hopen. rewrite (so_size _ _ _ _ _ _ Hsrc).
  set (n := Z.of_nat (length bytes)) in *. set (f1 := set_initialized f0).
  change (m_segment_size f1) with (2 ^ 12).
  pose proof (xalign_above n 12 ltac:(lia) ltac:(lia) ltac:(unfold OFF_MAX; lia)) as Hx.
  rewrite u64_small by lia. set (X := xalign n (2 ^ 12)) in *.
  destruct (create_segment_ok f1 (Env (e_mem e1) (e_maps e1) w1) 0 X ltac:(lia)) as (r2 & s2 & Hcr & Hr2);
    [by apply Hok1, Hkst | apply (sto_room_le _ (n + SS)); [by apply Hrm1, Hkr | lia] |].
  unfold bind at 1. rewrite Hcr. destruct r2 as [x | id]; [do 2 eexists; split; [reflexivity | done] |].
  destruct Hr2 as (-> & p & m2 & w2 & Hp & -> & Hfresh & Hmout & Hmz & Hst2 & Hk2). cbn [e_mem e_maps e_world] in *.
  specialize (Hk2 P (so_kept _ _ _ _ _ _ Hsrc) Hw1).
  set (f2 := set_heap _ _ f1). set (e2 := Env m2 _ w2) in *. set (x := Seg 0 X false p 0).
  destruct (append_one_ok f2 e2 (f_next f1) x) as (tr & Happ & Ht1 & Ht2 & Ht3 & Ht4 & Ht5 & Ht6);
    [apply wf_new; unfold OFF_MAX; lia | done | done | done | apply lookup_insert_eq | simpl; lia | simpl; lia |
     simpl; unfold OFF_MAX; lia |].
  rewrite (bind_ok _ _ _ _ _ Happ).
  assert (Hseg : seg (f_next f1) (set_tree tr f2, e2) = Some (inr x, (set_tree tr f2, e2)))
    by (unfold seg; unfold f2; simpl; by rewrite lookup_insert_eq).
  rewrite (bind_ok _ _ _ _ _ Hseg). unfold bind at 1, modify at 1. cbn [fst snd m_size x].
  rewrite (s64_small X) by lia.
  destruct (so_read _ _ _ _ _ _ Hsrc w2 Hk2) as (calls & w3 & Hdel & Hcalls & Hok3).
  destruct (fill_from_ok fd w2 bytes w3 calls fuel x (e_mem e2) (e_maps e2) Hdel Hcalls eq_refl) as (m3 & Hfill & Hget & Hout);
    [simpl; lia |].
  unfold bind at 1, lift. cbn [snd fst]. change e2 with (Env (e_mem e2) (e_maps e2) w2). rewrite Hfill.
  unfold bind, put_seg, modify. cbn [fst snd]. do 2 eexists. split; [reflexivity |]. cbn [fst snd m_bytes].
  rewrite s64_small by lia. cbn [m_offset m_size m_pool x].
  destruct (extend_ok (set_tree tb f0) (Env (e_mem e1) (e_maps e1) w1) p X n tr (2 ^ 12) m2 w3) as (Hsh & Hgr & Haddr);
    try done; [by apply init_file_ok | lia | simpl; unfold OFF_MAX; lia | exists 12; split; [lia | done] | |].
  { intros k Hk. rewrite Ht6 by done. simpl. unfold value_at at 2. by rewrite Hlsb, Hinb, <- (value_at_new k). }
  pose proof (grown_ok _ _ _ _ (init_file_ok path subdir t tb (Env (e_mem e1) (e_maps e1) w1) Hwb Hlsb Hinb Hvb) Hsh Hgr) as Hok.
  set (fX := set_alloc _ _ _) in Hok, Haddr. set (eX := Env _ _ w3) in Hok. set (e5 := Env m3 _ w3).
  set (f5 := save_attributes st _).
  assert (Hbyte : forall k, 0 <= k < X -> byte_at f5 e5 k = default 0 (bytes !! Z.to_nat k)).
  { intros k Hk. unfold byte_at. replace (addr_of f5 k) with (addr_of fX k).
    - rewrite Haddr by (simpl; lia). simpl. rewrite Z.sub_0_r. by apply Hget.
    - unfold addr_of, f5, f2. simpl. by rewrite insert_insert_eq. }
  split; [by apply Hok3 |]. split.
  { pose proof (sf_maps _ _ _ _ Hsame) as Hmaps. pose proof (sf_mem _ _ _ _ Hsame) as Hmem. simpl in Hmaps, Hmem.
    constructor; rewrite <- ?Hmaps.
    - simpl. lia.
    - simpl. intros. lia.
    - simpl. intros k b l Hk Hb. specialize (Hfresh b l Hb). replace (addr_of f5 k) with (addr_of fX k)
        by (unfold addr_of, f5, f2; simpl; by rewrite insert_insert_eq). rewrite Haddr by (simpl; lia). simpl. lia.
    - intros y b l Hb Hy _. specialize (Hfresh b l Hb). simpl. rewrite Hout by (unfold data; simpl; lia).
      simpl. rewrite Hmout by lia. by rewrite Hmem.
    - intros b l Hb. simpl. by right. }
  split; [split; [| apply lk_new_idle] |].
  - apply (resized_ok fX f5 eX e5 Hok); try done; [simpl; lia | by apply Hsrc |].
    intros _ k Hk. simpl in Hk. rewrite Hbyte by lia. rewrite lookup_ge_None_2 by lia. done.
  - apply list_eq. intros i. rewrite contents_lookup. change (m_used_offset f5) with n.
    destruct (decide (Z.of_nat i < n)).
    + rewrite Hbyte, Nat2Z.id by lia. destruct (lookup_lt_is_Some_2 bytes i) as [v ->]; [lia | done].
    + by rewrite lookup_ge_None_2 by lia.
Qed.

End Spec.

(** ** The files of the NVML backend *)

Section Nvml.
Context {W L : Type} `{KN : FuseBuf.Kernel W} `{SR : Sources W} `{PM : Pmem W} `{RM : RangeMutex L} `{FL : FuseLib W}.
Variable J : Z.
Variable local_buf : Z.
Variable have_splice : bool.
Variable memalign_ok : Z -> bool.
Hypothesis J_range : 12 <= J <= 60.
Abbreviation SS := (2 ^ J).

Abbreviation file := (NvmlFile.file L).
Abbreviation env := (Segment.env W).
Abbreviation src_bytes m srcv := (FuseBuf.mem_get m <$> FuseBuf.remaining srcv).

(** C8: Reading: [get_data] of a range that starts at or before the end of file returns
    exactly the bytes POSIX [pread] returns for the file's contents (or [-ENOMEM] when no
    buffer for them can be allocated), and changes neither the contents nor the invariant;
    it throws only when the pool directory cannot be created. *)
Theorem nvml_get_data (f : file) (e : env) (start size : Z) :
  at_rest f e -> 0 <= start <= m_used_offset f -> 0 < size -> start + size < 2 ^ 63 ->
  exists r s', get_data SS memalign_ok start size (f, e) = Some (r, s') /\
    match r with
    | inl _ => m_initialized f = false /\ ~ reliable
    | inr out => at_rest s'.1 s'.2 /\ contents s'.1 s'.2 = contents f e /\
        let bytes := posix_read (contents f e) start size in
        out = if negb (memalign_ok (Z.of_nat (length bytes))) && negb (is_nil bytes)
              then (- ENOMEM, []) else (0, bytes)
    end.
Proof.
  intros Hr Hst Hsz Hmax. destruct (get_data_ok J memalign_ok f e start size Hr I Hst Hsz Hmax) as (r & s' & Hg & Hs).
  exists r, s'. split; [done |]. destruct r; [done | apply Hs].
Qed.

(** C7: Writing: [put_data] of [size] bytes at an offset that is not behind the allocated
    part of the file writes all of them; afterwards the file's contents are what POSIX
    [pwrite] makes of them, a hole between the old end of file and the offset reading as
    zeros, and the invariant holds again. It throws only when the file system or libpmem
    refuses. *)
Theorem nvml_put_data (f : file) (e : env) (off size : Z) (srcv : FuseBuf.fuse_bufvec) :
  at_rest f e -> 0 <= off <= m_alloc_offset f -> 0 < size -> off + size + SS < OFF_MAX ->
  src_ok f e srcv -> Z.of_nat (length (FuseBuf.remaining srcv)) = size ->
  exists r s', put_data SS local_buf have_splice off size srcv (f, e) = Some (r, s') /\
    match r with
    | inl _ => ~ reliable
    | inr n => n = size /\ at_rest s'.1 s'.2 /\
        contents s'.1 s'.2 = posix_write (contents f e) off (src_bytes (e_mem e) srcv)
    end.
Proof.
  intros Hr Hoff Hsz Hb Hsrc Hlen. destruct (put_data_ok J local_buf have_splice J_range f e off size srcv Hr I I Hoff (or_introl I) Hsz Hb Hsrc Hlen)
    as (r & s' & Hp & Hs).
  exists r, s'. split; [done |]. destruct r; [done |]. destruct Hs as (-> & _ & _ & Hs). done.
Qed.


(** C32: Loading: a file constructed from an existing one that can be read has the bytes of
    that file as its contents and satisfies the invariant; the constructor throws only when
    the file system or libpmem refuses. *)
Theorem nvml_populate (P : W -> Prop) (path subdir : string) (t : file_type) (fd : Z) (st : stat)
    (bytes : list Z) (fuel : nat) (e : env) :
  source_file P path fd st bytes fuel -> P (e_world e) -> Z.of_nat (length bytes) + SS < OFF_MAX ->
  exists r s', file_new (L := L) path subdir t true fuel e = Some (r, s') /\
    match r with
    | inl _ => ~ reliable
    | inr _ => at_rest s'.1 s'.2 /\ contents s'.1 s'.2 = bytes
    end.
Proof.
  intros Hs HP Hl. destruct (populate_ok J J_range P path subdir t fd st bytes fuel e Hs HP I I Hl) as (r & s' & Hp & Hr).
  exists r, s'. split; [done |]. destruct r; [done | apply Hr].
Qed.

End Nvml.

(** ** Concrete files

    The machine of [NvmlFile], the lock manager of [RangeLock], and segments of at most
    128 MiB, the default of [segment::s_segment_size]. *)
Abbreviation loc := locker.
Definition J0 : Z := 27.
Definition can_alloc (n : Z) : bool := n <? 2 ^ 47.

Definition world0 : machine := Machine 4096 [FuseBuf.Done [7; 8; 9]] (Stat 3 1 0) ∅.
(** Four bytes to write, at address 1. *)
Definition user_mem : FuseBuf.memory := FuseBuf.mem_put ∅ 1 [11; 12; 13; 14].
Definition env0 : Segment.env machine := Env user_mem [(1, 4)] world0.
Definition user_buf (n : Z) : FuseBuf.fuse_bufvec := FuseBuf.Bufvec 0 0 [FuseBuf.Buf n 0 1 (-1) 0].

Definition final {X} (d : St (W := machine) (L := loc)) (r : option ((exn + X) * St (W := machine) (L := loc)))
    : St (W := machine) (L := loc) :=
  match r with Some (inr _, s) => s | _ => d end.
Definition blank : St (W := machine) (L := loc) := (file_init "f" "d" persistent, env0).
Definition empty_file : St (W := machine) (L := loc) := final blank (file_new "f" "d" persistent false 3 env0).
Definition loaded_file : St (W := machine) (L := loc) := final blank (file_new "f" "d" persistent true 3 env0).

Lemma machine_reliable : reliable (W := machine).
Proof.
  split; [done |]. split; [done |]. split; [done |]. intros w maps p size Hs. simpl.
  rewrite Z.max_r by lia. eauto.
Qed.

Lemma empty_at_rest : at_rest empty_file.1 empty_file.2.
Proof.
  destruct (nvml_create (L := loc) "f" "d" persistent 3 env0) as (s' & E & _ & Hr & _).
  unfold empty_file, final. by rewrite E.
Qed.

Definition reads_left (w : machine) : Prop := k_reads w = [FuseBuf.Done [7; 8; 9]] /\ k_stat w = Stat 3 1 0.

Lemma source0 path : source_file reads_left path 3 (Stat 3 1 0) [7; 8; 9] 3.
Proof.
  constructor.
  - refine (conj _ (conj _ (conj _ (conj _ _)))); intros; assumption.
  - intros w [H1 H2]. exists w. simpl. by rewrite H2.
  - done.
  - intros w [H1 H2]. exists 2%nat. eexists. split; [| split; [lia | done]].
    apply (del_data 3 w (Machine (k_next w) [] (k_stat w) (k_host w)) _ 7 [8; 9] []); [simpl; by rewrite H1 |].
    apply del_eof. done.
Qed.

Lemma loaded_ok : at_rest loaded_file.1 loaded_file.2 /\ contents loaded_file.1 loaded_file.2 = [7; 8; 9].
Proof.
  destruct (populate_ok (L := loc) 27 ltac:(lia) reads_left "f" "d" persistent 3 (Stat 3 1 0) [7; 8; 9] 3 env0)
    as (r & s' & E & Hr); [apply source0 | done | done | done | unfold OFF_MAX; simpl; lia |].
  unfold loaded_file, final. rewrite E. destruct r as [x | u]; [| apply Hr]. exfalso. apply Hr, machine_reliable.
Qed.

Lemma nvml_populate_witness :
  exists r s', file_new (W := machine) (L := loc) "f" "d" persistent true 3 env0 = Some (r, s') /\
    match r with
    | inl _ => ~ reliable (W := machine)
    | inr _ => at_rest s'.1 s'.2 /\ contents s'.1 s'.2 = [7; 8; 9]
    end.
Proof.
  apply (nvml_populate (L := loc) 27 ltac:(lia) reads_left "f" "d" persistent 3 (Stat 3 1 0) [7; 8; 9] 3 env0);
    [apply source0 | done | unfold OFF_MAX; simpl; lia].
Defined.

Lemma nvml_get_data_witness :
  exists r s', get_data (W := machine) (L := loc) (2 ^ 27) can_alloc 1 10 loaded_file = Some (r, s') /\
    match r with
    | inl _ => m_initialized loaded_file.1 = false /\ ~ reliable (W := machine)
    | inr out => at_rest s'.1 s'.2 /\ contents s'.1 s'.2 = contents loaded_file.1 loaded_file.2 /\
        let bytes := posix_read (contents loaded_file.1 loaded_file.2) 1 10 in
        out = if negb (can_alloc (Z.of_nat (length bytes))) && negb (is_nil bytes)
              then (- ENOMEM, []) else (0, bytes)
    end.
Proof.
  apply (nvml_get_data (L := loc) 27 can_alloc loaded_file.1 loaded_file.2 1 10);
    [apply loaded_ok | vm_compute; split; discriminate | lia | lia].
Defined.

Lemma nvml_put_data_witness :
  exists r s', put_data (W := machine) (L := loc) (2 ^ 27) 0 true 0 4 (user_buf 4) empty_file = Some (r, s') /\
    match r with
    | inl _ => ~ reliable (W := machine)
    | inr n => n = 4 /\ at_rest s'.1 s'.2 /\ contents s'.1 s'.2
        = posix_write (contents empty_file.1 empty_file.2) 0
            (FuseBuf.mem_get (e_mem empty_file.2) <$> FuseBuf.remaining (user_buf 4))
    end.
Proof.
  apply (nvml_put_data (L := loc) 27 0 true ltac:(lia) empty_file.1 empty_file.2 0 4 (user_buf 4)).
  - apply empty_at_rest.
  - vm_compute. split; discriminate.
  - lia.
  - unfold OFF_MAX. simpl. lia.
  - constructor.
    + apply FuseBuf.vec_ok_of; reflexivity.
    + intros b ->%list_elem_of_singleton. reflexivity.
    + change (FuseBuf.remaining (user_buf 4)) with (seqZ 1 4). intros x Hx%elem_of_seqZ. exists 1, 4. split; [vm_compute; left | lia].
    + intros x k _ Hk. change (m_alloc_offset empty_file.1) with 0 in Hk. lia.
  - reflexivity.
Defined.

(** ** Files with holes, reads behind the end of file, and truncation *)

Definition write4 (off : Z) : M Z := put_data (W := machine) (L := loc) (2 ^ J0) 0 true off 4 (user_buf 4).
Definition read4 (off : Z) : M (Z * list Z) := get_data (W := machine) (L := loc) (2 ^ J0) can_alloc off 4.
Definition result {X} (r : option ((exn + X) * St (W := machine) (L := loc))) : option X :=
  match r with Some (inr x, _) => Some x | _ => None end.
Definition after {X} (c : M X) (s : St (W := machine) (L := loc)) : St (W := machine) (L := loc) := final s (c s).

Definition written : St (W := machine) (L := loc) := after (write4 0) empty_file.

(** Writing behind the allocated part can destroy data. After four bytes are written at
    offset 0 of an empty file, they are read back; (1) four more at offset 8292, a hundred
    bytes behind the allocated 8192, place the new segment at offset 0, over the old one, and
    the first four bytes read as zeros. (2) Four bytes at 1 MiB leave a gap; a write into
    it at 64 KiB allocates a segment that reaches over the data behind the gap, and a read
    that starts before 1 MiB no longer finds them. (3) A write that starts in a gap and ends
    behind it fails an assertion. *)
Theorem nvml_sparse_write_loses_data :
  result (write4 0 empty_file) = Some 4 /\ result (read4 0 written) = Some (0, [11; 12; 13; 14]) /\
  (result (write4 8292 written) = Some 4 /\ result (read4 0 (after (write4 8292) written)) = Some (0, [0; 0; 0; 0])) /\
  (let s := after (write4 1048576) written in
   result (write4 1048576 written) = Some 4 /\ result (read4 1048574 s) = Some (0, [0; 0; 11; 12]) /\
   result (write4 65536 s) = Some 4 /\ result (read4 1048574 (after (write4 65536) s)) = Some (0, [0; 0; 0; 0])) /\
  (let s := after (write4 209715200) written in
   result (write4 209715200 written) = Some 4 /\ write4 209715198 s = None).
Proof. vm_compute. repeat split. Qed.

(** A read that starts behind the end of file but inside the allocated part is not
    empty: the length of the range, negative after the clipping, becomes a huge [size_t],
    and [get_data] returns [-ENOMEM]. *)
Theorem nvml_read_past_eof :
  m_used_offset written.1 = 4 /\ result (read4 4 written) = Some (0, []) /\
  result (read4 100 written) = Some (- ENOMEM, []).
Proof. vm_compute. repeat split. Qed.

(** Truncating a file does not clear the bytes it cuts off: after the file is truncated
    to two bytes and extended again to four, the last two are the old ones and not zeros. And
    because the two sizes are compared as 32-bit values, truncating to [2^32] a file of
    four bytes is taken for a reduction of its size and leaves a file of that size whose
    storage ends at 8192. *)
Theorem nvml_truncate_keeps_bytes :
  let cut := after (truncate (W := machine) (L := loc) (2 ^ J0) 0 2) written in
  let grown := after (truncate (W := machine) (L := loc) (2 ^ J0) 0 4) cut in
  contents cut.1 cut.2 = [11; 12] /\ result (read4 0 grown) = Some (0, [11; 12; 13; 14]) /\
  let big := after (truncate (W := machine) (L := loc) (2 ^ J0) 0 (2 ^ 32)) written in
  st_size (m_attributes big.1) = 2 ^ 32 /\ m_alloc_offset big.1 = 8192.
Proof. vm_compute. repeat split. Qed.

End NvmlSpec.
