(* ===== verification/NvmlStore.v ===== *)
(** * The files of the NVML backend share one memory

    The files of a backend live in one address space: their segments are mappings of one
    process, and every operation runs in the environment the others have left. The invariant
    [store_ok] says that every file is at rest and that no two of them share a byte; an
    operation whose effect is the [frame] of one file keeps it and changes the contents of
    that file only. Steps of the rest of the process, which do not touch the storage of the
    files, keep it too. *)
From S2P Require Import Prelude Common RangeLock RangeMutex Mdds FuseBuf Segment NvmlFile NvmlSpec.
From stdpp Require Import base list numbers option gmap strings sets.
Local Open Scope string_scope.
Local Open Scope Z_scope.
Local Open Scope list_scope.

Module NvmlStore.
Import Common RangeMutex Mdds Segment NvmlFile NvmlSpec.

Section Store.
Context {W L : Type} `{KN : FuseBuf.Kernel W} `{SR : Sources W} `{ST : Storage W} `{SL : !StorageLaws W} `{RM : RangeMutex L} `{FL : FuseLib W}.
Variable J : Z.
Variable now : Z.
Hypothesis J_range : 12 <= J <= 60.
Abbreviation SS := (2 ^ J).

Abbreviation file := (NvmlFile.file L).
Abbreviation env := (Segment.env W).
Implicit Types (f g : file) (e : env).

(** ** Allocation *)

(** POSIX [posix_fallocate]: the file is at least as long as the range, filled up with zeros. *)
Definition posix_allocate (bytes : list Z) (offset size : Z) : list Z :=
  bytes ++ replicate (Z.to_nat (offset + size) - length bytes) 0.

Lemma length_contents f e : length (contents f e) = Z.to_nat (m_used_offset f).
Proof. unfold contents. by rewrite length_fmap, length_seqZ. Qed.

(** A file that is longer now, the bytes behind its old end being zero. *)
Lemma longer_contents f f' e e' n : 0 <= m_used_offset f -> m_used_offset f' = Z.max (m_used_offset f) n ->
  (forall k, 0 <= k < m_used_offset f -> byte_at f' e' k = byte_at f e k) ->
  (forall k, m_used_offset f <= k < n -> byte_at f' e' k = 0) ->
  contents f' e' = contents f e ++ replicate (Z.to_nat n - length (contents f e)) 0.
Proof.
  intros H0 Hu Hold Hnew. apply list_eq. intros i. rewrite contents_lookup, Hu.
  destruct (decide (Z.of_nat i < m_used_offset f)).
  - rewrite decide_True, lookup_app_l, contents_lookup, decide_True by (rewrite ?length_contents; lia).
    f_equal. apply Hold. lia.
  - rewrite lookup_app_r, length_contents by (rewrite length_contents; lia). destruct (decide _).
    + rewrite Hnew, lookup_replicate_2 by lia. done.
    + rewrite lookup_ge_None_2; [done |]. rewrite length_replicate. lia.
Qed.

Lemma allocate_ok f e off size :
  sto_zeroed -> at_rest f e -> stored e -> room e (size + SS) -> 0 <= off <= m_alloc_offset f -> 0 < size -> off + size + SS < OFF_MAX ->
  exists r s', allocate SS now off size (f, e) = Some (r, s') /\
    match r with
    | inl _ => ~ sto_reliable
    | inr n => n = 0 /\ stored s'.2 /\ frame f s'.1 e s'.2 /\ at_rest s'.1 s'.2 /\
        contents s'.1 s'.2 = posix_allocate (contents f e) off size
    end.
Proof.
  intros Hzd [Hf Hidle] Hstored Hroom Hoff Hsz Hb. assert (0 < SS) by (apply Z.pow_pos_nonneg; lia). unfold allocate.
  destruct (init_subdir_ok f e) as (r0 & [f1 e1] & Hinit & Hr0). unfold bind at 1. rewrite Hinit.
  destruct r0 as [x |]; [do 2 eexists; split; [reflexivity | apply Hr0] |].
  destruct Hr0 as (Hsame & Hmx & _ & Hkst & Hkr & _). cbn [fst snd] in *. pose proof (same_file_ok _ _ _ _ Hsame Hf) as Hf1.
  destruct (fetch_storage_ok J J_range f1 e1 off size Hf1 (Hkst Hstored) (Hkr _ Hroom)) as (r1 & [f2 e2] & Hfet & Hr1);
    [rewrite (sf_alloc _ _ _ _ Hsame); done | done | done |].
  unfold OFF_MAX in Hb. unfold bind at 1. rewrite Hfet. destruct r1 as [x | rg]; [do 2 eexists; split; [reflexivity | done] |].
  cbn [fst snd] in Hr1. destruct Hr1 as (Hsh2 & Hst2 & Hg & Hal & _).
  pose proof (NvmlSpec.grown_ok _ _ _ _ Hf1 Hsh2 Hg) as Hf2. pose proof (fo_used _ _ Hf2) as Hu2.
  pose proof (fo_alloc _ _ Hf2) as Hal2. unfold OFF_MAX in Hal2.
  destruct (update_size_ok f2 e2 (off + size)) as (f3 & Hup & U1 & U2 & U3 & U4 & U5 & U6 & U7 & U8);
    [lia | apply (fo_size _ _ Hf2) |].
  rewrite (u64_small (off + size)) by lia. rewrite (bind_ok _ _ _ _ _ Hup).
  unfold bind, modify, ret. cbn [fst snd]. do 2 eexists. split; [reflexivity |]. cbn [fst snd]. split; [done |]. split; [done |].
  assert (Haddr : forall k, addr_of (set_ctime now f3) k = addr_of f2 k)
    by (intros k; unfold addr_of; simpl; by rewrite U1, U4).
  assert (Hfr : frame f2 (set_ctime now f3) e2 e2).
  { constructor; simpl; rewrite ?U2; try done; intros; lia. }
  split; [apply (frame_trans f f1 _ e e1 e2); [apply (fo_alloc _ _ Hf) | by apply same_frame |];
    apply (frame_trans f1 f2 _ e1 e2 e2); [apply (fo_alloc _ _ Hf1) | by apply grown_frame | done] |].
  assert (Hbyte : forall k, byte_at (set_ctime now f3) e2 k = byte_at f2 e2 k)
    by (intros k; unfold byte_at; by rewrite Haddr).
  pose proof (gr_used _ _ _ _ Hg) as Hgu. rewrite (sf_used _ _ _ _ Hsame) in Hgu.
  pose proof (fo_used _ _ Hf) as Hu. pose proof (gr_alloc _ _ _ _ Hg) as Hga. rewrite (sf_alloc _ _ _ _ Hsame) in Hga.
  split; [split; [| simpl; by rewrite U6, (gr_mutex _ _ _ _ Hg), Hmx] |].
  - apply (resized_ok f2 _ e2 e2 Hf2); simpl; try done; try lia.
    intros Hz k Hk. rewrite Hbyte. apply (fo_zero _ _ Hf2 Hz). lia.
  - apply longer_contents; simpl; [lia | lia | |]; intros k Hk; rewrite Hbyte.
    + rewrite (grown_old _ _ _ _ _ Hf1 Hg) by (rewrite (sf_alloc _ _ _ _ Hsame); lia).
      unfold byte_at. by rewrite (same_addr _ _ _ _ _ Hsame), (sf_mem _ _ _ _ Hsame).
    + apply (fo_zero _ _ Hf2 Hzd). lia.
Qed.

(** Growing by [truncate], for sizes that fit in 32 bits. *)
Lemma truncate_ok f e size :
  sto_zeroed -> at_rest f e -> stored e -> room e (size + SS) -> m_used_offset f < size < 2 ^ 32 -> size + SS < OFF_MAX ->
  exists r s', truncate SS now size (f, e) = Some (r, s') /\
    match r with
    | inl _ => ~ sto_reliable
    | inr _ => stored s'.2 /\ frame f s'.1 e s'.2 /\ at_rest s'.1 s'.2 /\ contents s'.1 s'.2 = posix_allocate (contents f e) 0 size
    end.
Proof.
  intros Hzd Hr Hstored Hroom Hs Hb. destruct Hr as [Hf Hi]. pose proof (fo_used _ _ Hf) as Hu. pose proof (fo_alloc _ _ Hf) as Ha.
  destruct (allocate_ok f e 0 size Hzd (conj Hf Hi) Hstored Hroom) as (r & s' & Hal & Hr'); [lia | lia | lia |].
  unfold truncate. rewrite bind_get, (fo_size _ _ Hf). unfold u32. rewrite !Z.mod_small by lia.
  rewrite (proj2 (Z.ltb_lt _ _)), u64_small by lia. unfold bind. rewrite Hal.
  destruct r as [x | n]; do 2 eexists; (split; [reflexivity | apply Hr']).
Qed.

(** ** Files in one memory *)

(** The part of the environment that [g] depends on is the same. *)
Record undisturbed (g : file) (e e' : env) : Prop := {
  un_byte : forall k, 0 <= k < m_alloc_offset g -> byte_at g e' k = byte_at g e k;
  un_map : forall id x, f_heap g !! id = Some x -> (data x, m_size x) ∈ e_maps e' }.

Lemma undisturbed_shaped g e e' : shaped g e -> undisturbed g e e' -> shaped g e'.
Proof.
  intros [F1 F2 F3 F4 F5 F6 F7 F8 F9 F10 F11 F12 F13] [U1 U2]. constructor; try done.
  intros id x Hx. destruct (F11 id x Hx) as [G1 G2 G3 G4 G5 G6]. constructor; try done. by eapply U2.
Qed.
Lemma undisturbed_rest g e e' : at_rest g e -> undisturbed g e e' -> at_rest g e'.
Proof.
  intros [[Hs Hz] Hi] Hu. split; [split; [by eapply undisturbed_shaped |] | done].
  intros Hzd k Hk. rewrite (un_byte _ _ _ Hu); [by apply Hz | pose proof (fo_used _ _ Hs); lia].
Qed.
Lemma undisturbed_contents g e e' : at_rest g e -> undisturbed g e e' -> contents g e' = contents g e.
Proof.
  intros [Hg _] [U1 _]. apply list_fmap_ext. intros i k Hk%lookup_seqZ. apply U1. pose proof (fo_used _ _ Hg). lia.
Qed.

(** Files that have no byte in common. *)
Definition apart (f g : file) : Prop := forall k l,
  0 <= k < m_alloc_offset f -> 0 <= l < m_alloc_offset g -> addr_of f k <> addr_of g l.

Lemma apart_sym f g : apart f g -> apart g f.
Proof. intros Hap k l Hk Hl E. by apply (Hap l k). Qed.

(** Every byte of a file is in a live mapping. *)
Lemma addr_live g e l : file_ok g e -> 0 <= l < m_alloc_offset g ->
  exists b n, (b, n) ∈ e_maps e /\ b <= addr_of g l < b + n.
Proof.
  intros Hg Hl. destruct (fo_cover _ _ Hg l Hl) as (id & x & _ & Hx & Hin).
  exists (data x), (m_size x). split; [apply (fo_seg _ _ Hg id x Hx) |]. rewrite (addr_of_seg g e id x l Hg Hx Hin). lia.
Qed.

(** An operation on [f] does not disturb a file apart from it, and leaves the two apart. *)
Lemma frame_undisturbed f f' g e e' : frame f f' e e' -> file_ok g e -> apart f g -> undisturbed g e e'.
Proof.
  intros Hfr Hg Hap. constructor.
  - intros k Hk. destruct (addr_live g e k Hg Hk) as (b & n & Hb & Hx). apply (fr_mem _ _ _ _ Hfr _ b n Hb Hx).
    intros k' Hk'. by apply Hap.
  - intros id x Hx. apply (fr_maps _ _ _ _ Hfr), (fo_seg _ _ Hg id x Hx).
Qed.
Lemma frame_apart f f' g e e' : frame f f' e e' -> file_ok g e -> apart f g -> apart f' g.
Proof.
  intros Hfr Hg Hap k l Hk Hl. destruct (Z.lt_ge_cases k (m_alloc_offset f)).
  - rewrite (fr_addr _ _ _ _ Hfr) by lia. apply Hap; [lia | done].
  - destruct (addr_live g e l Hg Hl) as (b & n & Hb & Hx). pose proof (fr_new _ _ _ _ Hfr k b n ltac:(lia) Hb). lia.
Qed.

(** ** The store *)

Abbreviation store := (gmap positive file).
Record store_ok (fs : store) (e : env) : Prop := {
  so_stored : stored e;
  so_rest : forall i f, fs !! i = Some f -> at_rest f e;
  so_apart : forall i j f g, fs !! i = Some f -> fs !! j = Some g -> i <> j -> apart f g }.
(** The contents of the files. *)
Definition bytes_of (fs : store) (e : env) : gmap positive (list Z) := (fun f => contents f e) <$> fs.

Lemma store_empty e : stored e -> store_ok ∅ e.
Proof. intros He. constructor; [done | |]; by intros *; rewrite lookup_empty. Qed.

(** Steps of the process outside of the files. *)
Lemma store_undisturbed (fs : store) e e' : store_ok fs e -> stored e' ->
  (forall i f, fs !! i = Some f -> undisturbed f e e') -> store_ok fs e' /\ bytes_of fs e' = bytes_of fs e.
Proof.
  intros [_ Hr Ha] Hst Hu. split; [constructor; [done | | done] |].
  - intros i f Hf. eapply undisturbed_rest; eauto.
  - apply map_fmap_ext. intros i f Hf. eapply undisturbed_contents; eauto.
Qed.

(** One file, new or not, gets the result of an operation whose effect is framed. *)
Lemma store_put (fs : store) e i f f' e' : store_ok fs e ->
  (forall j g, fs !! j = Some g -> i <> j -> apart f g) -> frame f f' e e' -> stored e' -> at_rest f' e' ->
  store_ok (<[i := f']> fs) e' /\ bytes_of (<[i := f']> fs) e' = <[i := contents f' e']> (bytes_of fs e).
Proof.
  intros [_ Hr Ha] Hap Hfr Hst Hr'.
  assert (Hun : forall j g, fs !! j = Some g -> i <> j -> undisturbed g e e').
  { intros j g Hg Hne. eapply frame_undisturbed; [done | apply (Hr j g Hg) | eauto]. }
  assert (Hap' : forall j g, fs !! j = Some g -> i <> j -> apart f' g).
  { intros j g Hg Hne. eapply frame_apart; [done | apply (Hr j g Hg) | eauto]. }
  split; [constructor; [done | |] |].
  - intros j g [[<- <-] | [Hne Hg]]%lookup_insert_Some; [done |]. eapply undisturbed_rest; eauto.
  - intros j j' g g' [[<- <-] | [Hne Hg]]%lookup_insert_Some [[<- <-] | [Hne' Hg']]%lookup_insert_Some Hjj; try done; eauto.
    apply apart_sym. eauto.
  - unfold bytes_of. rewrite fmap_insert. apply map_eq. intros j. destruct (decide (i = j)) as [-> | Hne].
    + by rewrite !lookup_insert_eq.
    + rewrite !lookup_insert_ne, !lookup_fmap by done. destruct (fs !! j) as [g |] eqn:Hg; [| done]. simpl.
      f_equal. eapply undisturbed_contents; eauto.
Qed.
Lemma store_update (fs : store) e i f f' e' : store_ok fs e -> fs !! i = Some f -> frame f f' e e' -> stored e' -> at_rest f' e' ->
  store_ok (<[i := f']> fs) e' /\ bytes_of (<[i := f']> fs) e' = <[i := contents f' e']> (bytes_of fs e).
Proof. intros Hok Hf. apply (store_put fs e i f f' e' Hok). intros j g Hg Hne. by apply (so_apart _ _ Hok i j). Qed.

(** A new file: the object it starts as has no storage. *)
Lemma store_add (fs : store) e i path subdir t f' e' : store_ok fs e -> frame (file_init path subdir t) f' e e' ->
  stored e' -> at_rest f' e' ->
  store_ok (<[i := f']> fs) e' /\ bytes_of (<[i := f']> fs) e' = <[i := contents f' e']> (bytes_of fs e).
Proof.
  intros Hok. apply (store_put fs e i _ f' e' Hok). intros j g _ _ k l Hk. simpl in Hk. lia.
Qed.

(** Without one of the files. *)
Lemma store_delete (fs : store) e i : store_ok fs e -> store_ok (delete i fs) e /\ bytes_of (delete i fs) e = delete i (bytes_of fs e).
Proof.
  intros [Hst Hr Ha]. split; [constructor; [done | |] | by unfold bytes_of; rewrite fmap_delete].
  - intros j f [_ Hf]%lookup_delete_Some. eauto.
  - intros j k f g [_ Hf]%lookup_delete_Some [_ Hg]%lookup_delete_Some. eauto.
Qed.

(** The files with other attributes. *)
Lemma store_same (fs fs' : store) e : store_ok fs e -> dom fs' = dom fs ->
  (forall i f, fs !! i = Some f -> exists f', fs' !! i = Some f' /\ same_file f f' e e /\
     m_range_mutex f' = m_range_mutex f) ->
  store_ok fs' e /\ bytes_of fs' e = bytes_of fs e.
Proof.
  intros [Hst Hr Ha] Hdom Hpt.
  assert (Hinv : forall i f', fs' !! i = Some f' -> exists f, fs !! i = Some f /\ same_file f f' e e /\
    m_range_mutex f' = m_range_mutex f).
  { intros i f' Hf'. assert (Hin : i ∈ dom fs) by (rewrite <- Hdom; apply elem_of_dom; eauto).
    apply elem_of_dom in Hin as [f Hf]. destruct (Hpt i f Hf) as (f1 & Hf1 & Hs). simplify_eq. eauto. }
  split; [constructor; [done | |] |].
  - intros i f' Hf'. destruct (Hinv i f' Hf') as (f & Hf & Hs & Hm). destruct (Hr i f Hf) as [Hok Hi].
    split; [by eapply same_file_ok | by rewrite Hm].
  - intros i j f' g' Hf' Hg' Hne k l Hk Hl. destruct (Hinv i f' Hf') as (f & Hf & Hs & _).
    destruct (Hinv j g' Hg') as (g & Hg & Hs' & _). rewrite (same_addr _ _ _ _ k Hs), (same_addr _ _ _ _ l Hs').
    rewrite (sf_alloc _ _ _ _ Hs) in Hk. rewrite (sf_alloc _ _ _ _ Hs') in Hl. by apply (Ha i j f g).
  - apply map_eq. intros i. unfold bytes_of. rewrite !lookup_fmap. destruct (fs !! i) as [f |] eqn:Hf; simpl.
    + destruct (Hpt i f Hf) as (f' & -> & Hs & _). simpl. f_equal. by eapply same_contents.
    + assert (fs' !! i = None) as ->; [| done]. apply not_elem_of_dom. rewrite Hdom. by apply not_elem_of_dom.
Qed.

End Store.
End NvmlStore.
