(* ===== verification/NvmlDestroy.v ===== *)
(** * The destructor of an NVML file: src/backends/nvram-nvml/file.cpp and segment.cpp

    When the last [shared_ptr] to a file is gone, [~file] removes the directory of its pools,
    then the tree of segments and with it every segment and its pool die: [~pool] unmaps the
    memory. An exception that leaves a destructor ends the program, so it is a fault here. The
    order in which the segments die is left open by the model: it takes that of their keys. *)
From S2P Require Import Prelude Common RangeLock RangeMutex Mdds FuseBuf Segment NvmlFile NvmlSpec NvmlStore.
From stdpp Require Import base list numbers option gmap strings sets.
Local Open Scope string_scope.
Local Open Scope Z_scope.
Local Open Scope list_scope.

Module NvmlDestroy.
Import Segment.
Import (coercions) NvmlSpec.

Section Destroy.
Context {W L : Type} `{PM : Pmem W} `{RM : RangeMutex.RangeMutex L}.
Abbreviation file := (NvmlFile.file L).
Implicit Types (e : env W) (f g : file).

(** Destructors are [noexcept]. *)
Definition noexcept (c : M (W := W) unit) : M (W := W) unit := fun e =>
  match c e with Some (inl _, _) => None | r => r end.
Fixpoint destroy_segments (xs : list segment) : M (W := W) unit :=
  match xs with
  | [] => ret tt
  | x :: xs => bind (noexcept (pool_destroy (m_pool x))) (fun _ => destroy_segments xs)
  end.
(** [file::~file] and the destructors of the members. *)
Definition file_destroy f : M (W := W) unit :=
  bind (on_world (fun w => (path_exists w (NvmlFile.m_pool_subdir f), w))) (fun ex =>
  bind (noexcept (if ex then bind (on_world (fun w => path_remove_all w (NvmlFile.m_pool_subdir f))) (fun ok =>
                    if ok then ret tt else throw PoolSubdir) else ret tt)) (fun _ =>
  destroy_segments (map_to_list (NvmlFile.f_heap f)).*2)).

(** The mappings of the pools are gone, and nothing else of the memory has changed. *)
Lemma pool_destroy_ok (p : pool) e : reliable (W := W) -> exists w,
  noexcept (pool_destroy p) e = Some (inr tt, Env (e_mem e)
    (if p_data p =? 0 then e_maps e else filter (fun m => m <> (p_data p, p_length p)) (e_maps e)) w).
Proof.
  intros (Hun & _). unfold noexcept, pool_destroy. destruct (p_data p =? 0); cbn [negb]; [by exists (e_world e); destruct e |].
  unfold bind, unmap, on_world, remove_stale, on_world, bind, ret. cbn.
  destruct (gen_pool_path (e_world e)) as [path w]. cbn. destruct (path_exists w path); cbn; [| by eexists]. specialize (Hun w path).
  destruct (path_unlink w path) as [ok w']. cbn in Hun. rewrite Hun. by eexists.
Qed.

(** The mappings that are left when the pools of [xs] are gone. *)
Definition without (xs : list segment) (maps : list (Z * Z)) : list (Z * Z) :=
  filter (fun m => Forall (fun x => data x = 0 \/ m <> (data x, p_length (m_pool x))) xs) maps.
Lemma destroy_segments_ok xs e : reliable (W := W) -> exists w,
  destroy_segments xs e = Some (inr tt, Env (e_mem e) (without xs (e_maps e)) w).
Proof.
  intros Hrel. revert e. induction xs as [| x xs IH]; intros e; cbn [destroy_segments].
  - exists (e_world e). unfold without, ret. destruct e as [m maps w]. do 3 f_equal. cbn [e_maps].
    induction maps as [| y maps IH]; [done |]. by rewrite filter_cons_True, <- IH by constructor.
  - destruct (pool_destroy_ok (m_pool x) e Hrel) as (w & E). unfold bind. rewrite E.
    destruct (IH (Env (e_mem e) (if p_data (m_pool x) =? 0 then e_maps e
      else filter (fun m => m <> (p_data (m_pool x), p_length (m_pool x))) (e_maps e)) w)) as (w' & E').
    rewrite E'. exists w'. cbn [e_mem e_maps]. do 3 f_equal. unfold without, data.
    destruct (Z.eqb_spec (p_data (m_pool x)) 0) as [Hz | Hz]; [| rewrite list_filter_filter]; apply list_filter_iff; intros m;
      rewrite Forall_cons; naive_solver.
Qed.
Lemma file_destroy_ok f e : reliable (W := W) -> exists w,
  file_destroy f e = Some (inr tt, Env (e_mem e) (without (map_to_list (NvmlFile.f_heap f)).*2 (e_maps e)) w).
Proof.
  intros Hrel. pose proof Hrel as (_ & Hrm & _). unfold file_destroy, bind at 1 2, on_world at 1. cbn [e_world e_mem e_maps].
  destruct (path_exists (e_world e) (NvmlFile.m_pool_subdir f)).
  - unfold noexcept, bind, on_world. cbn [e_world e_mem e_maps]. specialize (Hrm (e_world e) (NvmlFile.m_pool_subdir f)).
    destruct (path_remove_all (e_world e) (NvmlFile.m_pool_subdir f)) as [ok w]. cbn in Hrm. subst ok. unfold ret.
    apply (destroy_segments_ok _ (Env (e_mem e) (e_maps e) w) Hrel).
  - unfold noexcept, ret. apply (destroy_segments_ok _ (Env (e_mem e) (e_maps e) (e_world e)) Hrel).
Qed.

(** The first byte of a segment is a byte of its file. *)
Lemma segment_start f e i x : NvmlSpec.file_ok f e -> NvmlFile.f_heap f !! i = Some x ->
  0 <= m_offset x < NvmlFile.m_alloc_offset f /\ NvmlSpec.addr_of f (m_offset x) = data x.
Proof.
  intros Hf Hx. pose proof (NvmlSpec.fo_seg _ _ Hf i x Hx) as [Hr _ _ _ _ _]. split; [lia |].
  rewrite (NvmlSpec.addr_of_seg f e i x _ Hf Hx) by lia. lia.
Qed.

(** The destructor takes nothing away from the other files. *)
Lemma destroy_undisturbed f g e w : NvmlSpec.at_rest f e -> NvmlSpec.at_rest g e -> NvmlStore.apart f g ->
  NvmlStore.undisturbed g e (Env (e_mem e) (without (map_to_list (NvmlFile.f_heap f)).*2 (e_maps e)) w).
Proof.
  intros [Hf _] [Hg _] Hap. constructor; [done |]. intros i y Hy. cbn [e_maps]. apply list_elem_of_filter.
  split; [| apply (NvmlSpec.fo_seg _ _ Hg i y Hy)]. apply Forall_forall. intros x ([j x'] & -> & Hx%elem_of_map_to_list)%list_elem_of_fmap_1.
  right. cbn [snd]. intros [= E _]. destruct (segment_start f e j x' Hf Hx) as [Hk Ek].
  destruct (segment_start g e i y Hg Hy) as [Hl El]. apply (Hap _ _ Hk Hl). by rewrite Ek, El.
Qed.

End Destroy.
End NvmlDestroy.
