(* ===== verification/FileConc.v ===== *)
(** * Concurrent operations on one file: src/backends/nvram-nvml/file.cpp

    Any number of threads call [put_data], [get_data] and [allocate] on a file. The steps are
    those between which another thread can run: the critical sections of [m_alloc_mutex]
    ([fetch_storage], [lookup_data], [update_size]), the grant and the release of a range lock,
    and the copy of one byte from or to the memory of the file, in any order. The lock
    manager is used through the class [LockTable], which the system of [RangeLockSafe]
    implements. The specification is a POSIX file on which every call happens at one instant;
    the events of a run are these instants, and the values that reads return. [truncate] takes
    [m_dealloc_mutex] exclusively and does not run concurrently with writers; it is not part
    of these runs, nor is the creation of the pool directory. *)
From S2P Require Import Prelude Common Avl RangeLock RangeLockSafe RangeMutex Mdds FuseBuf Segment NvmlFile NvmlSpec NvmlStore.
From stdpp Require Import base list numbers option gmap strings sets sorting.
Local Open Scope Z_scope.
Local Open Scope list_scope.

Module FileConc.
Import Common RangeMutex Mdds Segment NvmlFile NvmlSpec NvmlStore.
Import RangeLock(lock_type, reader, writer, range_lock, Lock, h_start, h_end, h_type).

(** ** What the threads need of the lock manager *)

Class LockTable (Y : Type) := {
  lt_held : Y -> list range_lock;
  lt_ok : Y -> Prop;
  lt_step : Y -> Y -> Prop;
  lt_step_ok y y' : lt_ok y -> lt_step y y' -> lt_ok y';
  (* a thread that was woken finds the tree empty: the program crashes *)
  lt_faults : Y -> Prop;
  lt_faults_unheld y : lt_ok y -> lt_faults y -> lt_held y = [];
  lt_exclusive y i j a b : lt_ok y -> lt_held y !! i = Some a -> lt_held y !! j = Some b -> i <> j ->
    h_start a < h_end b -> h_start b < h_end a -> h_type a = reader /\ h_type b = reader }.

Section LockSteps.
Context {Y : Type} `{LockTable Y}.
(** A lock is granted, given back; other steps of the manager. *)
Definition acquires (y : Y) (s e : Z) (t : lock_type) (h : range_lock) (y' : Y) : Prop :=
  lt_step y y' /\ lt_held y' = h :: lt_held y /\ h_start h = s /\ h_end h = e /\ h_type h = t.
Definition releases (y : Y) (h : range_lock) (y' : Y) : Prop :=
  lt_step y y' /\ exists l1 l2, lt_held y = l1 ++ h :: l2 /\ lt_held y' = l1 ++ l2.
Definition proceeds (y y' : Y) : Prop := lt_step y y' /\ lt_held y' = lt_held y.
End LockSteps.

Section Conc.
Context {W L Y : Type} `{KN : FuseBuf.Kernel W} `{SR : Sources W} `{PM : Pmem W} `{RM : RangeMutex L} `{FL : FuseLib W} `{LT : LockTable Y}.
Variable J : Z.
Variable now : Z.
Hypothesis J_range : 12 <= J <= 60.
Abbreviation SS := (2 ^ J).
Abbreviation file := (NvmlFile.file L).
Abbreviation env := (Segment.env W).

Implicit Types (f : file) (e : env).

(** ** Threads *)

(** Where a thread is: in [put_data] before the storage is fetched, before the lock is held,
    copying with the bytes that are left, and with the size updated; in [get_data] before the
    lock is held, before the regions are looked up, and copying; in [allocate] before the
    storage is fetched, before the size and before the time is updated. *)
Inductive activity :=
  | Writing (off : Z) (d : list Z)
  | Stored (off : Z) (d : list Z) (rg : list file_region)
  | Copying (off : Z) (d : list Z) (todo : list (Z * Z)) (h : range_lock)
  | Sized (h : range_lock)
  | Reading (off size : Z)
  | Looking (off size : Z) (h : range_lock)
  | Loading (cells : list (option Z)) (todo : list Z) (got : gmap Z Z) (h : range_lock)
  | Allocating (off size : Z)
  | Allotted (off size : Z)
  | Stamping.

(** The byte of a gap is zero, the others are loaded. *)
Definition cells_of (rg : list file_region) : list (option Z) :=
  mjoin ((fun r => if r_address r =? 0 then replicate (Z.to_nat (r_size r)) None else Some <$> region_addrs r) <$> rg).
Definition loaded (cells : list (option Z)) (got : gmap Z Z) : list Z :=
  (fun c => match c with Some a => default 0 (got !! a) | None => 0 end) <$> cells.

Record cstate := CState { c_file : file; c_env : env; c_locks : Y; c_ops : gmap positive activity }.

(** The instants at which calls happen, and the results of reads. *)
Inductive event :=
  | EvWrite (t : positive) (off : Z) (d : list Z)
  | EvRead (t : positive) (off size : Z)
  | EvReturn (t : positive) (out : list Z)
  | EvAlloc (t : positive) (off size : Z).

Definition zlen {X} (l : list X) : Z := Z.of_nat (length l).
Definition store_byte (a b : Z) (e : env) : env := Env (<[a := b]> (e_mem e)) (e_maps e) (e_world e).

Inductive cstep : cstate -> list event -> cstate -> Prop :=
  (** calls *)
  | call_put t off d f e y ops : ops !! t = None -> m_initialized f = true ->
      0 <= off <= m_used_offset f -> d <> [] -> off + zlen d + SS < OFF_MAX ->
      cstep (CState f e y ops) [] (CState f e y (<[t := Writing off d]> ops))
  | call_get t off size f e y ops : ops !! t = None -> m_initialized f = true ->
      0 <= off <= m_used_offset f -> 0 < size -> off + size < 2 ^ 63 ->
      cstep (CState f e y ops) [] (CState f e y (<[t := Reading off size]> ops))
  | call_allocate t off size f e y ops : ops !! t = None -> m_initialized f = true ->
      0 <= off <= m_used_offset f -> 0 < size -> off + size + SS < OFF_MAX ->
      cstep (CState f e y ops) [] (CState f e y (<[t := Allocating off size]> ops))
  (** [put_data] *)
  | do_fetch t off d rg f e f' e' y ops : ops !! t = Some (Writing off d) ->
      fetch_storage SS off (zlen d) [] (f, e) = Some (inr rg, (f', e')) ->
      cstep (CState f e y ops) [] (CState f' e' y (<[t := Stored off d rg]> ops))
  | do_lock t off d rg h f e y y' ops : ops !! t = Some (Stored off d rg) ->
      acquires y off (off + zlen d) writer h y' ->
      cstep (CState f e y ops) []
        (CState f e y' (<[t := Copying off d (zip (mjoin (region_addrs <$> rg)) d) h]> ops))
  | do_copy t off d l1 a b l2 h f e y ops : ops !! t = Some (Copying off d (l1 ++ (a, b) :: l2) h) ->
      cstep (CState f e y ops) [] (CState f (store_byte a b e) y (<[t := Copying off d (l1 ++ l2) h]> ops))
  | do_size t off d h f e f' y ops : ops !! t = Some (Copying off d [] h) ->
      update_size (u64 (off + zlen d)) (f, e) = Some (inr tt, (f', e)) ->
      cstep (CState f e y ops) [EvWrite t off d] (CState f' e y (<[t := Sized h]> ops))
  | do_unlock t h f e y y' ops : ops !! t = Some (Sized h) -> releases y h y' ->
      cstep (CState f e y ops) [] (CState f e y' (delete t ops))
  (** [get_data] *)
  | do_rlock t off size h f e y y' ops : ops !! t = Some (Reading off size) ->
      acquires y off (off + size) reader h y' ->
      cstep (CState f e y ops) [] (CState f e y' (<[t := Looking off size h]> ops))
  | do_look t off size h rg f e f' e' y ops : ops !! t = Some (Looking off size h) ->
      lookup_data SS off (off + size) [] (f, e) = Some (inr rg, (f', e')) ->
      cstep (CState f e y ops) [EvRead t off size]
        (CState f' e' y (<[t := Loading (cells_of rg) (omap id (cells_of rg)) ∅ h]> ops))
  | do_load t cells l1 a l2 got h f e y ops : ops !! t = Some (Loading cells (l1 ++ a :: l2) got h) ->
      cstep (CState f e y ops) []
        (CState f e y (<[t := Loading cells (l1 ++ l2) (<[a := FuseBuf.mem_get (e_mem e) a]> got) h]> ops))
  | do_return t cells got h f e y y' ops : ops !! t = Some (Loading cells [] got h) -> releases y h y' ->
      cstep (CState f e y ops) [EvReturn t (loaded cells got)] (CState f e y' (delete t ops))
  (** [allocate] *)
  | do_afetch t off size rg f e f' e' y ops : ops !! t = Some (Allocating off size) ->
      fetch_storage SS off size [] (f, e) = Some (inr rg, (f', e')) ->
      cstep (CState f e y ops) [] (CState f' e' y (<[t := Allotted off size]> ops))
  | do_asize t off size f e f' y ops : ops !! t = Some (Allotted off size) ->
      update_size (u64 (off + size)) (f, e) = Some (inr tt, (f', e)) ->
      cstep (CState f e y ops) [EvAlloc t off size] (CState f' e y (<[t := Stamping]> ops))
  | do_stamp t f e y ops : ops !! t = Some Stamping ->
      cstep (CState f e y ops) [] (CState (set_ctime now f) e y (delete t ops))
  (** the lock manager, and the rest of the process *)
  | do_manager f e y y' ops : proceeds y y' -> cstep (CState f e y ops) [] (CState f e y' ops)
  | do_other f e e' y ops : undisturbed f e e' -> cstep (CState f e y ops) [] (CState f e' y ops).

Inductive csteps : cstate -> list event -> cstate -> Prop :=
  | csteps_nil s : csteps s [] s
  | csteps_snoc s l s1 ev s2 : csteps s l s1 -> cstep s1 ev s2 -> csteps s (l ++ ev) s2.

(** A run that goes on, or that ends with the crash of a reader that was woken. *)
Inductive crun : cstate -> list event -> option cstate -> Prop :=
  | crun_on s l s' : csteps s l s' -> crun s l (Some s')
  | crun_crash s l s' : csteps s l s' -> lt_faults (c_locks s') -> crun s l None.

(** ** The specification *)

(** The bytes of the file, and the results of the reads that have not returned yet. *)
Definition sstate : Type := list Z * gmap positive (list Z).
Definition spec_event (st : sstate) (ev : event) : option sstate :=
  match ev with
  | EvWrite _ off d => Some (posix_write st.1 off d, st.2)
  | EvAlloc _ off size => Some (posix_allocate st.1 off size, st.2)
  | EvRead t off size => Some (st.1, <[t := posix_read st.1 off size]> st.2)
  | EvReturn t out => if decide (st.2 !! t = Some out) then Some (st.1, delete t st.2) else None
  end.
Fixpoint replay (st : sstate) (l : list event) : option sstate :=
  match l with [] => Some st | ev :: l => st' ← spec_event st ev; replay st' l end.

(** ** The invariant *)

Definition holds (a : activity) : option range_lock :=
  match a with
  | Copying _ _ _ h | Sized h | Looking _ _ h | Loading _ _ _ h => Some h
  | _ => None
  end.
Definition holders (ops : gmap positive activity) : gmap positive range_lock := omap holds ops.

(** What is known of the call of a thread. *)
Definition act_ok (f : file) (e : env) (p : gmap positive (list Z)) (t : positive) (a : activity) : Prop :=
  match a with
  | Writing off d => 0 <= off <= m_used_offset f /\ d <> [] /\ off + zlen d + SS < OFF_MAX
  | Stored off d rg => 0 <= off <= m_used_offset f /\ d <> [] /\ off + zlen d <= m_alloc_offset f /\
      regions_ok f off (off + zlen d) rg
  | Copying off d todo h => 0 <= off <= m_used_offset f /\ d <> [] /\ off + zlen d <= m_alloc_offset f /\
      h_start h = off /\ h_end h = off + zlen d /\ h_type h = writer /\
      (forall a b, (a, b) ∈ todo -> exists i, d !! i = Some b /\ a = addr_of f (off + Z.of_nat i)) /\
      (forall i b, d !! i = Some b ->
         (addr_of f (off + Z.of_nat i), b) ∈ todo \/ byte_at f e (off + Z.of_nat i) = b)
  | Sized _ | Stamping => True
  | Reading off size => 0 <= off <= m_used_offset f /\ 0 < size /\ off + size < 2 ^ 63
  | Looking off size h => 0 <= off <= m_used_offset f /\ 0 < size /\ off + size < 2 ^ 63 /\
      h_start h = off /\ h_end h = off + size /\ h_type h = reader
  | Loading cells todo got h => exists off out, p !! t = Some out /\ 0 <= off /\ off + zlen out <= m_alloc_offset f /\
      h_start h = off /\ off + zlen out <= h_end h /\ h_type h = reader /\
      cells = (fun k => Some (addr_of f k)) <$> seqZ off (zlen out) /\
      (forall i v, out !! i = Some v -> byte_at f e (off + Z.of_nat i) = v /\
         (addr_of f (off + Z.of_nat i) ∈ todo \/ got !! addr_of f (off + Z.of_nat i) = Some v)) /\
      (forall a, a ∈ todo -> exists i, (i < length out)%nat /\ a = addr_of f (off + Z.of_nat i))
  | Allocating off size => 0 <= off <= m_used_offset f /\ 0 < size /\ off + size + SS < OFF_MAX
  | Allotted off size => 0 <= off <= m_used_offset f /\ 0 < size /\ off + size <= m_alloc_offset f
  end.

(** The bytes that a thread is about to replace. *)
Definition in_flux (ops : gmap positive activity) (k : Z) : Prop :=
  exists t off d todo h, ops !! t = Some (Copying off d todo h) /\ off <= k < off + zlen d.

Record cinv (s : cstate) (st : sstate) : Prop := {
  ci_shape : shaped (c_file s) (c_env s);
  ci_size : zlen st.1 = m_used_offset (c_file s);
  ci_locks : lt_ok (c_locks s);
  ci_held : lt_held (c_locks s) ≡ₚ (map_to_list (holders (c_ops s))).*2;
  ci_byte : forall k, 0 <= k < m_alloc_offset (c_file s) -> ~ in_flux (c_ops s) k ->
    byte_at (c_file s) (c_env s) k = default 0 (st.1 !! Z.to_nat k);
  ci_act : forall t a, c_ops s !! t = Some a -> act_ok (c_file s) (c_env s) st.2 t a }.

(** ** Locks *)

Lemma perm_two (l : list range_lock) (m : gmap positive range_lock) t1 t2 h1 h2 :
  l ≡ₚ (map_to_list m).*2 -> m !! t1 = Some h1 -> m !! t2 = Some h2 -> t1 <> t2 ->
  exists i j, l !! i = Some h1 /\ l !! j = Some h2 /\ i <> j.
Proof.
  intros Hp H1 H2 Hne.
  assert (Hm : (map_to_list m).*2 ≡ₚ h1 :: h2 :: (map_to_list (delete t2 (delete t1 m))).*2).
  { rewrite <- (map_to_list_delete m t1 h1 H1). simpl. rewrite <- (map_to_list_delete (delete t1 m) t2 h2); [done |].
    by rewrite lookup_delete_ne. }
  rewrite Hm in Hp. symmetry in Hp. apply Permutation_inj in Hp as (_ & g & Hg & Hl).
  exists (g 0%nat), (g 1%nat). rewrite <- (Hl 0%nat), <- (Hl 1%nat). split; [done |]. split; [done |].
  intros E. by apply (inj g) in E.
Qed.

(** Two threads with overlapping ranges are both readers. *)
Lemma two_holders s st t1 t2 a1 a2 h1 h2 : cinv s st ->
  c_ops s !! t1 = Some a1 -> c_ops s !! t2 = Some a2 -> t1 <> t2 -> holds a1 = Some h1 -> holds a2 = Some h2 ->
  h_start h1 < h_end h2 -> h_start h2 < h_end h1 -> h_type h1 = reader /\ h_type h2 = reader.
Proof.
  intros Hi H1 H2 Hne E1 E2 Ho1 Ho2.
  destruct (perm_two _ _ t1 t2 h1 h2 (ci_held _ _ Hi)) as (i & j & Hi1 & Hj1 & Hij); try done.
  - unfold holders. by rewrite lookup_omap, H1.
  - unfold holders. by rewrite lookup_omap, H2.
  - by apply (lt_exclusive (c_locks s) i j h1 h2 (ci_locks _ _ Hi)).
Qed.

Lemma holders_insert ops t a : holders (<[t := a]> ops) =
  match holds a with Some h => <[t := h]> (holders ops) | None => delete t (holders ops) end.
Proof. unfold holders. rewrite omap_insert. by destruct (holds a). Qed.

Lemma held_same y y' ops t a a0 : ops !! t = a0 -> (a0 ≫= holds) = holds a -> lt_held y' = lt_held y ->
  lt_held y ≡ₚ (map_to_list (holders ops)).*2 -> lt_held y' ≡ₚ (map_to_list (holders (<[t := a]> ops))).*2.
Proof.
  intros Ht Ha -> Hp. rewrite holders_insert.
  assert (Hl : holders ops !! t = holds a) by (unfold holders; by rewrite lookup_omap, Ht).
  destruct (holds a) as [h |]; [by rewrite insert_id | by rewrite delete_id].
Qed.
Lemma held_acquired y y' h ops t a a0 : ops !! t = Some a0 -> holds a0 = None -> holds a = Some h ->
  lt_held y' = h :: lt_held y -> lt_held y ≡ₚ (map_to_list (holders ops)).*2 ->
  lt_held y' ≡ₚ (map_to_list (holders (<[t := a]> ops))).*2.
Proof.
  intros Ht Hn Ha -> Hp. rewrite holders_insert, Ha, map_to_list_insert; [by rewrite Hp |].
  unfold holders. by rewrite lookup_omap, Ht.
Qed.
Lemma held_released y y' h ops t a : ops !! t = Some a -> holds a = Some h -> releases y h y' ->
  lt_held y ≡ₚ (map_to_list (holders ops)).*2 -> lt_held y' ≡ₚ (map_to_list (holders (delete t ops))).*2.
Proof.
  intros Ht Ha (_ & l1 & l2 & E & ->) Hp. unfold holders. rewrite omap_delete. fold (holders ops).
  rewrite E, <- Permutation_middle in Hp.
  rewrite <- (map_to_list_delete (holders ops) t h) in Hp by (unfold holders; by rewrite lookup_omap, Ht).
  by apply Permutation_cons_inv in Hp.
Qed.
Lemma held_none y ops t a : ops !! t = Some a -> holds a = None ->
  lt_held y ≡ₚ (map_to_list (holders ops)).*2 -> lt_held y ≡ₚ (map_to_list (holders (delete t ops))).*2.
Proof.
  intros Ht Ha Hp. unfold holders. rewrite omap_delete. fold (holders ops). rewrite delete_id; [done |].
  unfold holders. by rewrite lookup_omap, Ht.
Qed.

(** ** Steps of other threads *)

(** How the file changes under a thread: it may grow, and the bytes that the thread has locked
    stay. *)
Record evolves (f f' : file) (e e' : env) (a : activity) : Prop := {
  ev_alloc : m_alloc_offset f <= m_alloc_offset f';
  ev_used : m_used_offset f <= m_used_offset f';
  ev_addr : forall k, 0 <= k < m_alloc_offset f -> addr_of f' k = addr_of f k;
  ev_byte : forall k h, 0 <= k < m_alloc_offset f -> holds a = Some h -> h_start h <= k < h_end h ->
    byte_at f' e' k = byte_at f e k }.

Lemma regions_stable f f' s n rg : 0 <= s -> s + n <= m_alloc_offset f ->
  (forall k, 0 <= k < m_alloc_offset f -> addr_of f' k = addr_of f k) ->
  regions_ok f s (s + n) rg -> regions_ok f' s (s + n) rg.
Proof.
  intros Hs Hn Ha [R1 R2 R3]. constructor; [done | done |]. rewrite R3. apply list_fmap_ext.
  intros i k Hk%lookup_seqZ. symmetry. apply Ha. lia.
Qed.

Lemma act_stable f f' e e' (p p' : gmap positive (list Z)) t a :
  evolves f f' e e' a -> p' !! t = p !! t -> act_ok f e p t a -> act_ok f' e' p' t a.
Proof.
  intros [Ea Eu Eaddr Eb] Hp. destruct a as [off d | off d rg | off d todo h | | off size | off size h | cells todo got h | off size | off size |];
    cbn [act_ok holds] in *; try done.
  - intros (? & ? & ?). split_and!; done || lia.
  - intros (? & ? & ? & Hrg). split_and!; try done; try lia. apply (regions_stable f); done || lia.
  - intros (Ho & Hd & Hal & Hs & He & Ht & Hin & Hall).
    assert (Hk : forall i b, d !! i = Some b -> 0 <= off + Z.of_nat i < m_alloc_offset f /\ h_start h <= off + Z.of_nat i < h_end h).
    { intros i b Hi%lookup_lt_Some. unfold zlen in *. lia. }
    split_and!; try done; try lia.
    + intros x b Hx. destruct (Hin x b Hx) as (i & Hi & ->). exists i. split; [done |]. symmetry. apply Eaddr. by apply (Hk i b).
    + intros i b Hi. destruct (Hk i b Hi). rewrite Eaddr, (Eb _ h) by done. by apply Hall.
  - intros (? & ? & ?). split_and!; done || lia.
  - intros (? & ? & ? & ? & ? & ?). split_and!; done || lia.
  - intros (off & out & Ho & H0 & Hal & Hs & He & Ht & Hc & Hall & Hin). exists off, out.
    assert (Hk : forall i, (i < length out)%nat -> 0 <= off + Z.of_nat i < m_alloc_offset f /\ h_start h <= off + Z.of_nat i < h_end h).
    { intros i Hi. unfold zlen in *. lia. }
    split_and!; try done; try lia; [congruence | | |].
    + rewrite Hc. apply list_fmap_ext. intros i k Hk'%lookup_seqZ. f_equal. symmetry. apply Eaddr. lia.
    + intros i v Hi. destruct (Hk i (lookup_lt_Some _ _ _ Hi)). rewrite Eaddr, (Eb _ h) by done. by apply Hall.
    + intros x Hx. destruct (Hin x Hx) as (i & Hi & ->). exists i. split; [done |]. symmetry. apply Eaddr. by apply Hk.
  - intros (? & ? & ?). split_and!; done || lia.
  - intros (? & ? & ?). split_and!; done || lia.
Qed.

(** A step of the thread [t] that leaves the file to the others, from the invariant. *)
Lemma cinv_step f e y ops f' e' y' ops' st st' t : cinv (CState f e y ops) st -> shaped f' e' -> zlen st'.1 = m_used_offset f' ->
  lt_ok y' -> lt_held y' ≡ₚ (map_to_list (holders ops')).*2 ->
  (forall t' a, t' <> t -> ops' !! t' = Some a -> ops !! t' = Some a /\ evolves f f' e e' a /\ st'.2 !! t' = st.2 !! t') ->
  (forall a, ops' !! t = Some a -> act_ok f' e' st'.2 t a) ->
  (forall k, 0 <= k < m_alloc_offset f' -> ~ in_flux ops' k -> byte_at f' e' k = default 0 (st'.1 !! Z.to_nat k)) ->
  cinv (CState f' e' y' ops') st'.
Proof.
  intros Hi Hs Hz Hy Hp Hoth Hown Hb. constructor; cbn [c_file c_env c_locks c_ops]; try done.
  intros t' a Ha. destruct (decide (t' = t)) as [-> | Hne]; [by apply Hown |].
  destruct (Hoth t' a Hne Ha) as (Ho & Hev & Hpt). eapply act_stable; [exact Hev | exact Hpt |]. apply (ci_act _ _ Hi t' a Ho).
Qed.

(** The bytes in flux when a thread gets another activity. *)
Lemma flux_insert (ops : gmap positive activity) t a k :
  in_flux (<[t := a]> ops) k -> in_flux ops k \/ exists off d todo h, a = Copying off d todo h /\ off <= k < off + zlen d.
Proof.
  intros (t' & off & d & todo & h & Hl & Hk). apply lookup_insert_Some in Hl as [[-> ->] | [_ Hl]]; [right | left].
  - by exists off, d, todo, h.
  - by exists t', off, d, todo, h.
Qed.
Lemma flux_keep (ops ops' : gmap positive activity) t k : in_flux ops k ->
  (forall t', t' <> t -> ops' !! t' = ops !! t') ->
  (forall off d todo h, ops !! t = Some (Copying off d todo h) -> exists todo', ops' !! t = Some (Copying off d todo' h)) ->
  in_flux ops' k.
Proof.
  intros (t' & off & d & todo & h & Hl & Hk) Hne Ht. destruct (decide (t' = t)) as [-> | Hn].
  - destruct (Ht _ _ _ _ Hl) as [todo' Hl']. by exists t, off, d, todo', h.
  - exists t', off, d, todo, h. by rewrite Hne.
Qed.

Lemma evolves_refl f e a : evolves f f e e a.
Proof. by constructor. Qed.
Lemma flux_none (ops : gmap positive activity) t a k : (forall off d todo h, ops !! t <> Some (Copying off d todo h)) ->
  in_flux ops k -> in_flux (<[t := a]> ops) k.
Proof.
  intros Hno Hk. apply (flux_keep ops _ t k Hk); [intros t' Hne; by rewrite lookup_insert_ne |].
  intros off d todo h E. by apply Hno in E.
Qed.

(** A thread goes on and the file stays. *)
Lemma cinv_ops f e y y' ops st st' t a : cinv (CState f e y ops) st -> st'.1 = st.1 ->
  (forall t', t' <> t -> st'.2 !! t' = st.2 !! t') -> lt_ok y' ->
  lt_held y' ≡ₚ (map_to_list (holders (<[t := a]> ops))).*2 -> act_ok f e st'.2 t a ->
  (forall k, in_flux ops k -> in_flux (<[t := a]> ops) k) -> cinv (CState f e y' (<[t := a]> ops)) st'.
Proof.
  intros Hi Hst Hp Hy Hh Ha Hfl. apply (cinv_step f e y ops f e y' _ st st' t Hi); try done.
  - apply Hi.
  - rewrite Hst. apply Hi.
  - intros t' a' Hne Hl. rewrite lookup_insert_ne in Hl by done. split_and!; [done | apply evolves_refl | by apply Hp].
  - intros a' Hl. rewrite lookup_insert_eq in Hl. by injection Hl as <-.
  - intros k Hk Hno. rewrite Hst. apply (ci_byte _ _ Hi k Hk). intros Hf. by apply Hno, Hfl.
Qed.
(** A thread returns. *)
Lemma cinv_delete f e y y' ops st st' t : cinv (CState f e y ops) st -> st'.1 = st.1 ->
  (forall t', t' <> t -> st'.2 !! t' = st.2 !! t') -> lt_ok y' ->
  lt_held y' ≡ₚ (map_to_list (holders (delete t ops))).*2 ->
  (forall off d todo h, ops !! t <> Some (Copying off d todo h)) -> cinv (CState f e y' (delete t ops)) st'.
Proof.
  intros Hi Hst Hp Hy Hh Hno. apply (cinv_step f e y ops f e y' _ st st' t Hi); try done.
  - apply Hi.
  - rewrite Hst. apply Hi.
  - intros t' a' Hne Hl. rewrite lookup_delete_ne in Hl by done. split_and!; [done | apply evolves_refl | by apply Hp].
  - intros a' Hl. by rewrite lookup_delete_eq in Hl.
  - intros k Hk Hnf. rewrite Hst. apply (ci_byte _ _ Hi k Hk). intros Hf. apply Hnf.
    apply (flux_keep ops _ t k Hf); [intros t' Hne; by rewrite lookup_delete_ne |]. intros off d todo h E. by apply Hno in E.
Qed.

(** The file grows, in or before a step of the thread [t]. *)
Lemma cinv_grow f e y ops st t f' e' a a0 : cinv (CState f e y ops) st -> ops !! t = Some a0 -> shaped f' e' -> grown f f' e e' ->
  holds a0 = None -> holds a = None -> act_ok f' e' st.2 t a -> cinv (CState f' e' y (<[t := a]> ops)) st.
Proof.
  intros Hi Ht Hs Hg H0 H1 Ha. pose proof (ci_shape _ _ Hi) as Hsh. cbn in Hsh. pose proof (ci_size _ _ Hi) as Hz. cbn in Hz.
  pose proof (fo_used _ _ Hsh) as Hu.
  assert (Hbyte : forall k, 0 <= k < m_alloc_offset f -> byte_at f' e' k = byte_at f e k).
  { intros k Hk. pose proof (gr_alloc _ _ _ _ Hg). rewrite (grown_byte f f' e e' k nvml_zeroed Hsh Hg) by lia. by rewrite decide_True by lia. }
  apply (cinv_step f e y ops f' e' y _ st st t Hi); try done.
  - by rewrite (gr_used _ _ _ _ Hg).
  - apply Hi.
  - apply (held_same y y ops t a (Some a0)); [done | by cbn; rewrite H0, H1 | done | apply Hi].
  - intros t' a' Hne Hl. rewrite lookup_insert_ne in Hl by done. split_and!; [done | | done].
    constructor; [apply Hg | by rewrite (gr_used _ _ _ _ Hg) | apply Hg | intros; by apply Hbyte].
  - intros a' Hl. rewrite lookup_insert_eq in Hl. by injection Hl as <-.
  - intros k Hk Hno. rewrite (grown_byte f f' e e' k nvml_zeroed Hsh Hg) by lia. destruct (decide (k < m_alloc_offset f)).
    + apply (ci_byte _ _ Hi k ltac:(cbn; lia)). intros Hf. apply Hno. apply flux_none; [| done].
      intros off d todo h E. rewrite Ht in E. by injection E as ->.
    + rewrite lookup_ge_None_2; [done |]. unfold zlen in Hz. lia.
Qed.

(** *** Calls and locks *)

Lemma step_call f e y ops st t a : cinv (CState f e y ops) st -> ops !! t = None -> holds a = None ->
  act_ok f e st.2 t a -> cinv (CState f e y (<[t := a]> ops)) st.
Proof.
  intros Hi Ht Hh Ha. apply (cinv_ops f e y y ops st st t a Hi); try done; [apply Hi | |].
  - apply (held_same y y ops t a None); [done | by rewrite Hh | done | apply Hi].
  - intros k. apply flux_none. by rewrite Ht.
Qed.
Lemma zip_in {A B} (la : list A) (lb : list B) i a b : la !! i = Some a -> lb !! i = Some b -> (a, b) ∈ zip la lb.
Proof. intros Ha Hb. apply list_elem_of_lookup. exists i. apply lookup_zip_with_Some. eauto. Qed.

Lemma step_lock f e y y' ops st t off d rg h : cinv (CState f e y ops) st -> ops !! t = Some (Stored off d rg) ->
  acquires y off (off + zlen d) writer h y' ->
  cinv (CState f e y' (<[t := Copying off d (zip (mjoin (region_addrs <$> rg)) d) h]> ops)) st.
Proof.
  intros Hi Ht (Hy & Hheld & Hs & He & Hty). destruct (ci_act _ _ Hi t _ Ht) as (Ho & Hd & Hal & Hrg). cbn in Ho, Hal, Hrg.
  apply (cinv_ops f e y y' ops st st t _ Hi); try done.
  - eapply lt_step_ok; [apply Hi | done].
  - eapply (held_acquired y y' h ops t); [done | done | done | done | apply Hi].
  - assert (Haddr : mjoin (region_addrs <$> rg) = addr_of f <$> seqZ off (zlen d))
      by (rewrite (rg_addrs _ _ _ _ Hrg); do 2 f_equal; lia).
    cbn. split_and!; try done; try lia.
    + rewrite Haddr. intros a b (i & Hi')%list_elem_of_lookup. apply lookup_zip_with_Some in Hi' as (a' & b' & [= <- <-] & Ha & Hb).
      exists i. split; [done |]. rewrite list_lookup_fmap in Ha. apply lookup_lt_Some in Hb. unfold zlen in *.
      rewrite lookup_seqZ_lt in Ha by lia. by injection Ha as <-.
    + intros i b Hb. left. rewrite Haddr. eapply zip_in; [| done]. rewrite list_lookup_fmap.
      apply lookup_lt_Some in Hb. unfold zlen. by rewrite lookup_seqZ_lt by lia.
  - intros k. apply flux_none. by rewrite Ht.
Qed.
Lemma step_rlock f e y y' ops st t off size h : cinv (CState f e y ops) st -> ops !! t = Some (Reading off size) ->
  acquires y off (off + size) reader h y' -> cinv (CState f e y' (<[t := Looking off size h]> ops)) st.
Proof.
  intros Hi Ht (Hy & Hheld & Hs & He & Hty). destruct (ci_act _ _ Hi t _ Ht) as (Ho & Hsz & Hmax).
  apply (cinv_ops f e y y' ops st st t _ Hi); try done.
  - eapply lt_step_ok; [apply Hi | done].
  - eapply (held_acquired y y' h ops t); [done | done | done | done | apply Hi].
  - intros k. apply flux_none. by rewrite Ht.
Qed.
Lemma step_release f e y y' ops st st' t a h : cinv (CState f e y ops) st -> ops !! t = Some a -> holds a = Some h ->
  st'.1 = st.1 -> (forall t', t' <> t -> st'.2 !! t' = st.2 !! t') ->
  (forall off d todo, a <> Copying off d todo h) -> releases y h y' -> cinv (CState f e y' (delete t ops)) st'.
Proof.
  intros Hi Ht Hh Hst Hp Hno Hrel. apply (cinv_delete f e y y' ops st st' t Hi Hst Hp).
  - eapply lt_step_ok; [apply Hi | apply Hrel].
  - eapply held_released; [done | done | done | apply Hi].
  - intros off d todo h' E. rewrite Ht in E. injection E as ->. cbn in Hh. injection Hh as ->. by apply (Hno off d todo).
Qed.

(** *** Copies *)

Lemma store_byte_get f e a b k :
  byte_at f (store_byte a b e) k = if decide (addr_of f k = a) then b else byte_at f e k.
Proof.
  unfold byte_at, store_byte, FuseBuf.mem_get. simpl. destruct (decide (addr_of f k = a)) as [-> | Hne].
  - by rewrite lookup_insert_eq.
  - by rewrite lookup_insert_ne.
Qed.
Lemma store_byte_shaped f e a b : shaped f e -> shaped f (store_byte a b e).
Proof. intros Hs. pose proof (fo_used _ _ Hs). apply (resized_shaped f f e _ Hs); try done; [lia | apply (fo_size _ _ Hs)]. Qed.

(** A byte that a writer has locked is not locked by another thread. *)
Lemma writer_alone s st t t' off d todo h a' h' k : cinv s st -> c_ops s !! t = Some (Copying off d todo h) ->
  c_ops s !! t' = Some a' -> t' <> t -> holds a' = Some h' -> off <= k < off + zlen d -> ~ (h_start h' <= k < h_end h').
Proof.
  intros Hi Ht Ht' Hne Hh' Hk Hk'. destruct (ci_act _ _ Hi t _ Ht) as (_ & _ & _ & Hs & He & Hty & _).
  destruct (two_holders s st t t' _ _ h h' Hi Ht Ht') as [E _]; [done | done | done | lia | lia |]. congruence.
Qed.

Lemma step_copy f e y ops st t off d l1 a b l2 h : cinv (CState f e y ops) st ->
  ops !! t = Some (Copying off d (l1 ++ (a, b) :: l2) h) ->
  cinv (CState f (store_byte a b e) y (<[t := Copying off d (l1 ++ l2) h]> ops)) st.
Proof.
  intros Hi Ht. pose proof (ci_shape _ _ Hi) as Hsh. cbn in Hsh.
  destruct (ci_act _ _ Hi t _ Ht) as (Ho & Hd & Hal & Hs & He & Hty & Hin & Hall). cbn in Ho, Hal, Hin, Hall.
  destruct (Hin a b) as (i & Hib & Ha); [apply elem_of_app; right; left |].
  assert (Hir : 0 <= off + Z.of_nat i < m_alloc_offset f /\ off <= off + Z.of_nat i < off + zlen d).
  { pose proof (lookup_lt_Some _ _ _ Hib). unfold zlen in *. lia. }
  assert (Hget : forall k, 0 <= k < m_alloc_offset f -> byte_at f (store_byte a b e) k =
    if decide (k = off + Z.of_nat i) then b else byte_at f e k).
  { intros k Hk. rewrite store_byte_get. destruct (decide (k = off + Z.of_nat i)) as [-> | Hne]; [by rewrite decide_True |].
    rewrite decide_False; [done |]. intros E. apply Hne, (addr_of_inj f e k (off + Z.of_nat i) Hsh); [done | apply Hir | congruence]. }
  apply (cinv_step f e y ops f _ y _ st st t Hi); [by apply store_byte_shaped | apply Hi | apply Hi | | | |].
  - apply (held_same y y ops t _ _ Ht); [done | done | apply Hi].
  - intros t' a' Hne Hl. rewrite lookup_insert_ne in Hl by done. split_and!; [done | | done].
    constructor; try done. intros k h' Hk Hh' Hk'. rewrite Hget by done. destruct (decide _) as [-> |]; [exfalso | done].
    by apply (writer_alone _ _ t t' off d _ h a' h' (off + Z.of_nat i) Hi Ht Hl Hne Hh' (proj2 Hir)).
  - intros a' Hl. rewrite lookup_insert_eq in Hl. injection Hl as <-. split_and!; try done; try lia.
    + intros x v Hx. apply Hin. apply elem_of_app in Hx as [Hx | Hx]; apply elem_of_app; [by left | right; by right].
    + intros j v Hj. assert (Hjr : 0 <= off + Z.of_nat j < m_alloc_offset f) by (pose proof (lookup_lt_Some _ _ _ Hj); unfold zlen in *; lia).
      rewrite Hget by done. destruct (decide (off + Z.of_nat j = off + Z.of_nat i)) as [E |].
      * right. assert (j = i) as -> by lia. congruence.
      * destruct (Hall j v Hj) as [[Hx | [E | Hx]%elem_of_cons]%elem_of_app | Hb]; [left | | left | by right].
        -- apply elem_of_app. by left.
        -- injection E as E _. rewrite Ha in E. apply (addr_of_inj f e _ _ Hsh) in E; [lia | done | apply Hir].
        -- apply elem_of_app. by right.
  - intros k Hk Hno. rewrite Hget by done. destruct (decide _) as [-> |].
    + destruct Hno. exists t, off, d, (l1 ++ l2), h. rewrite lookup_insert_eq. split; [done | apply Hir].
    + apply (ci_byte _ _ Hi k Hk). intros Hf. apply Hno. apply (flux_keep ops _ t k Hf); [intros t' Hne; by rewrite lookup_insert_ne |].
      intros off' d' todo' h' E. rewrite Ht in E. injection E as <- <- _ <-. rewrite lookup_insert_eq. eauto.
Qed.

Lemma step_load f e y ops st t cells l1 a l2 got h : cinv (CState f e y ops) st ->
  ops !! t = Some (Loading cells (l1 ++ a :: l2) got h) ->
  cinv (CState f e y (<[t := Loading cells (l1 ++ l2) (<[a := FuseBuf.mem_get (e_mem e) a]> got) h]> ops)) st.
Proof.
  intros Hi Ht. apply (cinv_ops f e y y ops st st t _ Hi); try done; [apply Hi | | |].
  - apply (held_same y y ops t _ _ Ht); [done | done | apply Hi].
  - destruct (ci_act _ _ Hi t _ Ht) as (off & out & Hp & H0 & Hal & Hs & He & Hty & Hc & Hall & Hin). exists off, out.
    split_and!; try done.
    + intros i v Hv. destruct (Hall i v Hv) as [Hb Hcase]. split; [done |]. cbn in *.
      destruct (decide (a = addr_of f (off + Z.of_nat i))) as [-> | Hne].
      * right. rewrite lookup_insert_eq. by unfold byte_at in Hb; rewrite Hb.
      * rewrite lookup_insert_ne by done. rewrite elem_of_app in *. rewrite elem_of_cons in Hcase.
        destruct Hcase as [[Hx | [E | Hx]] | Hx]; [by left; left | congruence | by left; right | by right].
    + intros x Hx. apply Hin. rewrite elem_of_app in *. rewrite elem_of_cons. tauto.
  - intros k. apply flux_none. by rewrite Ht.
Qed.

(** *** The instants of the calls *)

Lemma zlen_write bytes off d : 0 <= off <= zlen bytes ->
  zlen (posix_write bytes off d) = Z.max (zlen bytes) (off + zlen d).
Proof.
  intros Ho. unfold zlen, posix_write in *. rewrite !length_app, length_take, length_app, length_replicate, length_drop. lia.
Qed.
Lemma zlen_allocate bytes off size : zlen (posix_allocate bytes off size) = Z.max (zlen bytes) (off + size).
Proof. unfold zlen, posix_allocate. rewrite length_app, length_replicate. lia. Qed.
Lemma allocate_lookup bytes off size i : default 0 (posix_allocate bytes off size !! i) = default 0 (bytes !! i).
Proof.
  unfold posix_allocate. destruct (decide (i < length bytes)%nat); [by rewrite lookup_app_l |].
  rewrite lookup_app_r, (lookup_ge_None_2 bytes) by lia. destruct (decide (i - length bytes < Z.to_nat (off + size) - length bytes)%nat).
  - by rewrite lookup_replicate_2.
  - rewrite lookup_ge_None_2; [done |]. rewrite length_replicate. lia.
Qed.
Lemma write_lookup bytes off d k : 0 <= off -> d <> [] -> 0 <= k ->
  default 0 (posix_write bytes off d !! Z.to_nat k) =
    if decide (off <= k < off + zlen d) then default 0 (d !! Z.to_nat (k - off)) else default 0 (bytes !! Z.to_nat k).
Proof.
  intros Ho Hd Hk. rewrite posix_write_lookup, Z2Nat.id by done. unfold zlen. destruct (decide (k < off)).
  - rewrite decide_False by lia. done.
  - destruct (decide (k < off + Z.of_nat (length d))).
    + rewrite decide_True by lia. do 2 f_equal. lia.
    + rewrite decide_False by lia. done.
Qed.
Lemma read_lookup bytes off size i : 0 <= off ->
  posix_read bytes off size !! i = if decide (Z.of_nat i < size) then bytes !! Z.to_nat (off + Z.of_nat i) else None.
Proof.
  intros Ho. unfold posix_read. destruct (decide (Z.of_nat i < size)).
  - rewrite lookup_take_lt, lookup_drop by lia. f_equal. lia.
  - by rewrite lookup_take_ge by lia.
Qed.
Lemma zlen_read bytes off size : 0 <= off <= zlen bytes -> 0 <= size ->
  zlen (posix_read bytes off size) = Z.min (off + size) (zlen bytes) - off.
Proof. intros Ho Hs. unfold zlen, posix_read in *. rewrite length_take, length_drop. lia. Qed.

(** [update_size] in a run: the end of file grows to the end of the range. *)
Lemma step_size_file f e f' n : shaped f e -> 0 <= n <= m_alloc_offset f ->
  update_size (u64 n) (f, e) = Some (inr tt, (f', e)) ->
  shaped f' e /\ m_used_offset f' = Z.max (m_used_offset f) n /\ m_alloc_offset f' = m_alloc_offset f /\
  (forall k, addr_of f' k = addr_of f k) /\ forall k, byte_at f' e k = byte_at f e k.
Proof.
  intros Hs Hn E. pose proof (fo_alloc _ _ Hs) as Ha. unfold OFF_MAX in Ha. pose proof (fo_used _ _ Hs) as Hu.
  rewrite u64_small in E by lia.
  destruct (update_size_ok f e n) as (f1 & E1 & U1 & U2 & U3 & U4 & U5 & U6 & U7 & U8); [lia | apply (fo_size _ _ Hs) |].
  rewrite E in E1. injection E1 as <-.
  assert (Haddr : forall k, addr_of f' k = addr_of f k) by (intros k; unfold addr_of; by rewrite U1, U4).
  split_and!; try done; [apply (resized_shaped f f' e e Hs); done || lia |].
  intros k. unfold byte_at. by rewrite Haddr.
Qed.

Lemma step_size f e y ops st t off d h f' : cinv (CState f e y ops) st -> ops !! t = Some (Copying off d [] h) ->
  update_size (u64 (off + zlen d)) (f, e) = Some (inr tt, (f', e)) ->
  cinv (CState f' e y (<[t := Sized h]> ops)) (posix_write st.1 off d, st.2).
Proof.
  intros Hi Ht E. pose proof (ci_shape _ _ Hi) as Hsh. pose proof (ci_size _ _ Hi) as Hz. cbn in Hsh, Hz.
  destruct (ci_act _ _ Hi t _ Ht) as (Ho & Hd & Hal & Hs & He & Hty & _ & Hall). cbn in Ho, Hal, Hall.
  destruct (step_size_file f e f' (off + zlen d) Hsh) as (Hsh' & Hu' & Ha' & Haddr & Hbyte); [unfold zlen in *; lia | done |].
  apply (cinv_step f e y ops f' e y _ st _ t Hi); try done.
  - cbn. rewrite zlen_write, Hu' by lia. lia.
  - apply Hi.
  - apply (held_same y y ops t _ _ Ht); [done | done | apply Hi].
  - intros t' a' Hne Hl. rewrite lookup_insert_ne in Hl by done. split_and!; [done | | done]. constructor; try (by intros); lia.
  - intros a' Hl. rewrite lookup_insert_eq in Hl. by injection Hl as <-.
  - intros k Hk Hno. rewrite Hbyte. cbn [fst]. rewrite write_lookup by (done || lia). destruct (decide (off <= k < off + zlen d)).
    + destruct (lookup_lt_is_Some_2 d (Z.to_nat (k - off))) as [v Hv]; [unfold zlen in *; lia |]. rewrite Hv. cbn.
      destruct (Hall _ v Hv) as [Hx%elem_of_nil | Hb]; [done |].
      by replace (off + Z.of_nat (Z.to_nat (k - off))) with k in Hb by lia.
    + apply (ci_byte _ _ Hi k ltac:(cbn; lia)). intros (t' & off' & d' & todo' & h' & Hl & Hk'). cbn in Hl.
      destruct (decide (t' = t)) as [-> | Hne]; [rewrite Ht in Hl; by simplify_eq |].
      apply Hno. exists t', off', d', todo', h'. by rewrite lookup_insert_ne.
Qed.

Lemma step_asize f e y ops st t off size f' : cinv (CState f e y ops) st -> ops !! t = Some (Allotted off size) ->
  update_size (u64 (off + size)) (f, e) = Some (inr tt, (f', e)) ->
  cinv (CState f' e y (<[t := Stamping]> ops)) (posix_allocate st.1 off size, st.2).
Proof.
  intros Hi Ht E. pose proof (ci_shape _ _ Hi) as Hsh. pose proof (ci_size _ _ Hi) as Hz. cbn in Hsh, Hz.
  destruct (ci_act _ _ Hi t _ Ht) as (Ho & Hsz & Hal). cbn in Ho, Hal.
  destruct (step_size_file f e f' (off + size) Hsh) as (Hsh' & Hu' & Ha' & Haddr & Hbyte); [lia | done |].
  apply (cinv_step f e y ops f' e y _ st _ t Hi); try done.
  - cbn. rewrite zlen_allocate, Hu'. lia.
  - apply Hi.
  - apply (held_same y y ops t _ _ Ht); [done | done | apply Hi].
  - intros t' a' Hne Hl. rewrite lookup_insert_ne in Hl by done. split_and!; [done | | done]. constructor; try (by intros); lia.
  - intros a' Hl. rewrite lookup_insert_eq in Hl. by injection Hl as <-.
  - intros k Hk Hno. rewrite Hbyte. cbn [fst]. rewrite allocate_lookup. apply (ci_byte _ _ Hi k ltac:(cbn; lia)).
    intros Hf. apply Hno. apply flux_none; [by rewrite Ht | done].
Qed.

(** The cells of regions in memory. *)
Lemma cells_of_ok rg : Forall (fun r => 0 < r_address r /\ 0 <= r_size r) rg ->
  cells_of rg = Some <$> mjoin (region_addrs <$> rg).
Proof.
  unfold cells_of. induction 1 as [| r rg [Hr _] _ IH]; [done |]. rewrite !fmap_cons. simpl mjoin.
  rewrite IH, fmap_app, (proj2 (Z.eqb_neq (r_address r) 0)) by lia. done.
Qed.
Lemma omap_cells (l : list Z) : omap id (Some <$> l) = l.
Proof. induction l as [| a l IH]; [done |]. by apply (f_equal (cons a)). Qed.

(** What [lookup_data] finds is the range, up to the end of file. *)
Lemma look_cells f e f' e' off size rg : shaped f e -> 0 <= off <= m_used_offset f -> 0 < size ->
  lookup_data SS off (off + size) [] (f, e) = Some (inr rg, (f', e')) ->
  f' = f /\ e' = e /\ cells_of rg = (fun k => Some (addr_of f k)) <$> seqZ off (Z.min (off + size) (m_used_offset f) - off).
Proof.
  intros Hs Ho Hsz E. destruct (lookup_data_ok J f e off (off + size) Hs) as (rg' & E' & Hrg); [lia | lia |].
  rewrite E in E'. injection E' as <- -> ->. split; [done |]. split; [done |]. destruct (Z.ltb_spec off (m_used_offset f)).
  - rewrite cells_of_ok by apply Hrg. rewrite (rg_addrs _ _ _ _ Hrg), <- list_fmap_compose. done.
  - subst rg. by replace (Z.min (off + size) (m_used_offset f) - off) with 0 by lia.
Qed.

Lemma step_look f e f' e' y ops st t off size h rg : cinv (CState f e y ops) st -> ops !! t = Some (Looking off size h) ->
  lookup_data SS off (off + size) [] (f, e) = Some (inr rg, (f', e')) ->
  cinv (CState f' e' y (<[t := Loading (cells_of rg) (omap id (cells_of rg)) ∅ h]> ops))
    (st.1, <[t := posix_read st.1 off size]> st.2).
Proof.
  intros Hi Ht E. pose proof (ci_shape _ _ Hi) as Hsh. pose proof (ci_size _ _ Hi) as Hz. cbn in Hsh, Hz.
  destruct (ci_act _ _ Hi t _ Ht) as (Ho & Hsz & Hmax & Hs & He & Hty). cbn in Ho. pose proof (fo_used _ _ Hsh) as Hu.
  destruct (look_cells f e f' e' off size rg Hsh Ho Hsz E) as (-> & -> & Hc).
  assert (Hlen : zlen (posix_read st.1 off size) = Z.min (off + size) (m_used_offset f) - off)
    by (rewrite zlen_read, Hz by lia; done).
  rewrite <- Hlen in Hc. apply (cinv_ops f e y y ops st _ t _ Hi); try done; [| apply Hi | | |].
  - intros t' Hne. cbn. by rewrite lookup_insert_ne.
  - apply (held_same y y ops t _ _ Ht); [done | done | apply Hi].
  - exists off, (posix_read st.1 off size). cbn [snd]. rewrite lookup_insert_eq. split_and!; try done; try lia.
    + intros i v Hv. assert (Hir : 0 <= off + Z.of_nat i < m_used_offset f /\ Z.of_nat i < size).
      { pose proof (lookup_lt_Some _ _ _ Hv). unfold zlen in Hlen. lia. }
      split.
      * rewrite read_lookup, decide_True in Hv by lia. etransitivity; [apply (ci_byte _ _ Hi); cbn; [lia |] | by rewrite Hv].
        intros (t' & off' & d' & todo' & h' & Hl & Hk').
        assert (Hne : t <> t') by (intros ->; cbn in Hl; rewrite Ht in Hl; discriminate).
        apply (writer_alone _ _ t' t off' d' todo' h' _ h (off + Z.of_nat i) Hi Hl Ht Hne eq_refl Hk'). lia.
      * left. rewrite Hc. rewrite (list_fmap_compose (addr_of f) Some), omap_cells. apply list_elem_of_fmap.
        exists (off + Z.of_nat i). split; [done |]. apply elem_of_seqZ. pose proof (lookup_lt_Some _ _ _ Hv). unfold zlen. lia.
    + intros x. rewrite Hc, (list_fmap_compose (addr_of f) Some), omap_cells. intros (k & -> & Hk%elem_of_seqZ)%list_elem_of_fmap.
      exists (Z.to_nat (k - off)). unfold zlen in Hk. split; [lia |]. f_equal. lia.
  - intros k. apply flux_none. by rewrite Ht.
Qed.

(** A read that has loaded its cells returns the bytes of its instant. *)
Lemma loaded_out f e p t cells got h : act_ok f e p t (Loading cells [] got h) -> p !! t = Some (loaded cells got).
Proof.
  intros (off & out & Hp & H0 & Hal & _ & _ & _ & -> & Hall & _). rewrite Hp. f_equal. unfold loaded.
  rewrite <- list_fmap_compose. apply list_eq. intros i. rewrite list_lookup_fmap.
  destruct (out !! i) as [v |] eqn:Hv.
  - rewrite lookup_seqZ_lt by (apply lookup_lt_Some in Hv; unfold zlen; lia). cbn.
    destruct (Hall i v Hv) as [_ [Hx%elem_of_nil | ->]]; done.
  - rewrite lookup_seqZ_ge by (apply lookup_ge_None_1 in Hv; unfold zlen; lia). done.
Qed.

(** *** Storage, time, and other steps *)

Lemma fetch_result f e off size : shaped f e -> 0 <= off <= m_used_offset f -> 0 < size -> off + size + SS < OFF_MAX ->
  exists r s', fetch_storage SS off size [] (f, e) = Some (r, s') /\
    match r with
    | inl _ => ~ reliable (W := W)
    | inr rg => shaped s'.1 s'.2 /\ grown f s'.1 e s'.2 /\ off + size <= m_alloc_offset s'.1 /\
        regions_ok s'.1 off (off + size) rg
    end.
Proof.
  intros Hs Ho Hsz Hm. pose proof (fo_used _ _ Hs).
  destruct (fetch_storage_ok J J_range f e off size Hs) as (r & s' & E & Hr); [done | done | lia | done | done |].
  exists r, s'. split; [done |]. destruct r; [done | tauto].
Qed.
Lemma step_fetch f e y ops st t off d rg f' e' : cinv (CState f e y ops) st -> ops !! t = Some (Writing off d) ->
  fetch_storage SS off (zlen d) [] (f, e) = Some (inr rg, (f', e')) ->
  cinv (CState f' e' y (<[t := Stored off d rg]> ops)) st.
Proof.
  intros Hi Ht E. destruct (ci_act _ _ Hi t _ Ht) as (Ho & Hd & Hm). cbn in Ho.
  assert (Hpos : 0 < zlen d) by (destruct d; [done | unfold zlen; simpl; lia]).
  destruct (fetch_result f e off (zlen d) (ci_shape _ _ Hi) Ho Hpos Hm) as (r & s' & E' & Hr). rewrite E in E'.
  injection E' as <- <-. destruct Hr as (Hs & Hg & Hal & Hrg). cbn in Hs, Hg, Hal, Hrg.
  apply (cinv_grow f e y ops st t f' e' _ _ Hi Ht); try done. split_and!; try done; [lia |].
  rewrite (gr_used _ _ _ _ Hg). lia.
Qed.
Lemma step_afetch f e y ops st t off size rg f' e' : cinv (CState f e y ops) st -> ops !! t = Some (Allocating off size) ->
  fetch_storage SS off size [] (f, e) = Some (inr rg, (f', e')) ->
  cinv (CState f' e' y (<[t := Allotted off size]> ops)) st.
Proof.
  intros Hi Ht E. destruct (ci_act _ _ Hi t _ Ht) as (Ho & Hsz & Hm). cbn in Ho.
  destruct (fetch_result f e off size (ci_shape _ _ Hi) Ho Hsz Hm) as (r & s' & E' & Hr). rewrite E in E'.
  injection E' as <- <-. destruct Hr as (Hs & Hg & Hal & Hrg). cbn in Hs, Hg, Hal, Hrg.
  apply (cinv_grow f e y ops st t f' e' _ _ Hi Ht); try done. split_and!; try done; [lia |].
  rewrite (gr_used _ _ _ _ Hg). lia.
Qed.
Lemma step_stamp f e y ops st t : cinv (CState f e y ops) st -> ops !! t = Some Stamping ->
  cinv (CState (set_ctime now f) e y (delete t ops)) st.
Proof.
  intros Hi Ht. assert (Hs : same_file f (set_ctime now f) e e) by (by constructor).
  assert (Hi' : cinv (CState (set_ctime now f) e y ops) st).
  { constructor; cbn; try apply Hi; [by apply (same_shaped f _ e e), Hi |].
    intros t' a Ha. apply (act_stable f _ e e st.2 st.2 t' a); [| done | by apply Hi]. by constructor. }
  apply (cinv_delete _ e y y ops st st t Hi'); try done; [apply Hi | eapply held_none; [done | done | apply Hi] |].
  by rewrite Ht.
Qed.
Lemma step_manager f e y y' ops st : cinv (CState f e y ops) st -> proceeds y y' -> cinv (CState f e y' ops) st.
Proof.
  intros Hi [Hy Hh]. constructor; cbn; try apply Hi; [eapply lt_step_ok; [apply Hi | done] |]. rewrite Hh. apply Hi.
Qed.
Lemma step_other f e e' y ops st : cinv (CState f e y ops) st -> undisturbed f e e' -> cinv (CState f e' y ops) st.
Proof.
  intros Hi Hu. constructor; cbn; try apply Hi; [by apply (undisturbed_shaped f e), Hu; apply Hi | |].
  - intros k Hk Hno. rewrite (un_byte _ _ _ Hu k Hk). by apply Hi.
  - intros t a Ha. apply (act_stable f f e e' st.2 st.2 t a); [| done | by apply Hi]. constructor; try done.
    intros k h Hk _ _. by apply Hu.
Qed.

(** ** Linearizability *)

Lemma replay_one st ev : replay st [ev] = spec_event st ev.
Proof. cbn. by destruct (spec_event st ev). Qed.
Lemma replay_app st l1 l2 : replay st (l1 ++ l2) = (st' ← replay st l1; replay st' l2).
Proof. revert st. induction l1 as [| ev l1 IH]; intros st; [done |]. cbn. destruct (spec_event st ev); [apply IH | done]. Qed.

Lemma cstep_simulates s ev s' st : cstep s ev s' -> cinv s st -> exists st', replay st ev = Some st' /\ cinv s' st'.
Proof.
  intros Hstep Hi. destruct Hstep; try (exists st; split; [done |]).
  - by apply step_call.
  - by apply step_call.
  - by apply step_call.
  - by eapply step_fetch.
  - by eapply step_lock.
  - by eapply step_copy.
  - eexists. rewrite replay_one. split; [reflexivity |]. by eapply step_size.
  - by eapply step_release.
  - by eapply step_rlock.
  - eexists. rewrite replay_one. split; [reflexivity |]. by eapply step_look.
  - by eapply step_load.
  - match goal with Hl : ops !! t = Some _ |- _ => pose proof (loaded_out _ _ _ _ _ _ _ (ci_act _ _ Hi t _ Hl)) as Hp end.
    eexists (st.1, delete t st.2). rewrite replay_one. cbn. rewrite decide_True by done. split; [done |].
    eapply step_release; try done. intros t' Hne. cbn. by rewrite lookup_delete_ne.
  - by eapply step_afetch.
  - eexists. rewrite replay_one. split; [reflexivity |]. by eapply step_asize.
  - by eapply step_stamp.
  - by eapply step_manager.
  - by eapply step_other.
Qed.

(** A file on which no call is in progress. *)
Definition quiescent (s : cstate) : Prop :=
  file_ok (c_file s) (c_env s) /\ lt_ok (c_locks s) /\ lt_held (c_locks s) = [] /\ c_ops s = ∅.

Lemma quiescent_inv s : quiescent s -> cinv s (contents (c_file s) (c_env s), ∅).
Proof.
  intros (Hf & Hy & Hh & Ho). pose proof (fo_used _ _ Hf) as Hu. constructor; try done.
  - apply Hf.
  - cbn. unfold zlen. rewrite length_contents. lia.
  - by rewrite Hh, Ho.
  - intros k Hk _. cbn [fst]. rewrite contents_lookup, Z2Nat.id by lia. destruct (decide _); [done |].
    cbn. apply (fo_zero _ _ Hf nvml_zeroed). lia.
  - rewrite Ho. by intros t a ?%lookup_empty_Some.
Qed.
Lemma csteps_simulate s l s' st : csteps s l s' -> cinv s st -> exists st', replay st l = Some st' /\ cinv s' st'.
Proof.
  intros Hr Hi. induction Hr as [| s l s1 ev s2 _ IH Hs]; [eauto |]. destruct (IH Hi) as (st1 & E1 & Hi1).
  destruct (cstep_simulates s1 ev s2 st1 Hs Hi1) as (st2 & E2 & Hi2). exists st2. rewrite replay_app, E1. done.
Qed.
(** Without a thread that holds a lock the bytes are those of the specification. *)
Lemma unlocked_bytes s st : cinv s st -> (forall t a, c_ops s !! t = Some a -> holds a = None) ->
  file_ok (c_file s) (c_env s) /\ contents (c_file s) (c_env s) = st.1.
Proof.
  intros Hi Ho. pose proof (ci_shape _ _ Hi) as Hsh. pose proof (ci_size _ _ Hi) as Hz. pose proof (fo_used _ _ Hsh) as Hu.
  assert (Hb : forall k, 0 <= k < m_alloc_offset (c_file s) -> byte_at (c_file s) (c_env s) k = default 0 (st.1 !! Z.to_nat k)).
  { intros k Hk. apply (ci_byte _ _ Hi k Hk). by intros (t & ? & ? & ? & ? & Ht%Ho & _). }
  split; [split; [done |] |].
  - intros _ k Hk. rewrite Hb by lia. rewrite lookup_ge_None_2; [done |]. unfold zlen in Hz. lia.
  - apply list_eq. intros i. rewrite contents_lookup. unfold zlen in Hz. destruct (decide _).
    + rewrite Hb, Nat2Z.id by lia. destruct (lookup_lt_is_Some_2 st.1 i) as [v ->]; [lia | done].
    + by rewrite lookup_ge_None_2 by lia.
Qed.
Lemma inv_quiescent s st : cinv s st -> c_ops s = ∅ -> quiescent s /\ contents (c_file s) (c_env s) = st.1.
Proof.
  intros Hi Ho. destruct (unlocked_bytes s st Hi) as [Hf Hc]; [intros t a; by rewrite Ho, lookup_empty |].
  split; [| done]. split_and!; [done | apply Hi | | done].
  pose proof (ci_held _ _ Hi) as Hp. rewrite Ho in Hp. by apply Permutation_nil_r in Hp.
Qed.
(** When a reader that was woken crashes, no thread holds a lock. *)
Lemma inv_crash s st : cinv s st -> lt_faults (c_locks s) -> forall t a, c_ops s !! t = Some a -> holds a = None.
Proof.
  intros Hi Hf t a Ht. pose proof (ci_held _ _ Hi) as Hp. rewrite (lt_faults_unheld _ (ci_locks _ _ Hi) Hf) in Hp.
  apply Permutation_nil_l in Hp. destruct (holds a) as [h |] eqn:Ha; [| done].
  assert (Hh : holders (c_ops s) !! t = Some h) by (unfold holders; by rewrite lookup_omap, Ht).
  apply elem_of_map_to_list in Hh. apply (list_elem_of_fmap_2 snd) in Hh. rewrite <- Hp in Hh. by apply elem_of_nil in Hh.
Qed.

(** The calls of the file's own code that a thread makes next do not fail an assertion. *)
Definition no_fault (f : file) (e : env) (a : activity) : Prop :=
  match a with
  | Writing off d => exists r s', fetch_storage SS off (zlen d) [] (f, e) = Some (r, s') /\
      if r is inl _ then ~ reliable (W := W) else True
  | Allocating off size => exists r s', fetch_storage SS off size [] (f, e) = Some (r, s') /\
      if r is inl _ then ~ reliable (W := W) else True
  | Looking off size _ => exists rg, lookup_data SS off (off + size) [] (f, e) = Some (inr rg, (f, e))
  | _ => True
  end.
Lemma inv_no_fault s st t a : cinv s st -> c_ops s !! t = Some a -> no_fault (c_file s) (c_env s) a.
Proof.
  intros Hi Ht. pose proof (ci_shape _ _ Hi) as Hsh. pose proof (ci_act _ _ Hi t a Ht) as Ha.
  destruct a as [off d | | | | | off size h | | off size | |]; cbn; try done.
  - destruct Ha as (Ho & Hd & Hm). assert (Hpos : 0 < zlen d) by (destruct d; [done | unfold zlen; simpl; lia]).
    destruct (fetch_result _ _ off (zlen d) Hsh Ho Hpos Hm) as (r & s' & E & Hr). exists r, s'. split; [done |]. by destruct r.
  - destruct Ha as (Ho & Hsz & _). destruct (lookup_data_ok J _ _ off (off + size) Hsh) as (rg & E & _); [lia | lia | eauto].
  - destruct Ha as (Ho & Hsz & Hm).
    destruct (fetch_result _ _ off size Hsh Ho Hsz Hm) as (r & s' & E & Hr). exists r, s'. split; [done |]. by destruct r.
Qed.

(** C3: Concurrent calls are linearizable. Let any number of threads call [put_data], [get_data]
    and [allocate] on one file that is initialised, at offsets up to its end and with at least
    one byte, their steps interleaved in any way, down to single bytes. The events of the run,
    each of which lies between the call and the return of its operation, are a run of the POSIX
    file on which every operation happens at once: every read returns exactly the bytes that
    [pread] returns at its instant. No thread fails an assertion of the file's code on the way,
    and when no call is in progress the contents of the file are what the writes and
    allocations, in the order of their instants, make of the first ones. A run may end with the
    crash of a reader that was woken and finds the tree of ranges empty; then no thread holds a
    lock, and the contents are those of the events as well. Truncation, and the destructor of
    a lock's handle, which can read a range that was deleted ([unlock_leaves_dangling]), are not
    part of the runs. *)
Theorem file_linearizable (s0 : cstate) (hist : list event) (o : option cstate) :
  quiescent s0 -> crun s0 hist o ->
  exists bytes pending, replay (contents (c_file s0) (c_env s0), ∅) hist = Some (bytes, pending) /\
    match o with
    | Some s =>
        (forall t a, c_ops s !! t = Some a -> no_fault (c_file s) (c_env s) a) /\
        (c_ops s = ∅ -> quiescent s /\ contents (c_file s) (c_env s) = bytes)
    | None => exists s, csteps s0 hist s /\ (forall t a, c_ops s !! t = Some a -> holds a = None) /\
        contents (c_file s) (c_env s) = bytes
    end.
Proof.
  intros Hq Hrun. destruct Hrun as [s1 l s Hr | s1 l s Hr Hf];
    destruct (csteps_simulate s1 l s _ Hr (quiescent_inv s1 Hq)) as ([bytes pending] & E & Hi); exists bytes, pending; split; try done.
  - split; [intros t a; by apply (inv_no_fault s (bytes, pending)) |]. by apply (inv_quiescent s (bytes, pending)).
  - pose proof (inv_crash s _ Hi Hf) as Hn. exists s. split; [done |]. split; [done |]. by apply (unlocked_bytes s (bytes, pending)).
Qed.

Lemma csteps_cons s ev s1 l s2 : cstep s ev s1 -> csteps s1 l s2 -> csteps s (ev ++ l) s2.
Proof.
  intros Hs Hr. induction Hr as [s1 | s1 l s2 ev2 s3 _ IH Hs2].
  - rewrite app_nil_r. change ev with ([] ++ ev). econstructor; [constructor | done].
  - rewrite app_assoc. econstructor; [by apply IH | done].
Qed.

End Conc.
Arguments cstate : clear implicits.

(** ** The lock manager of the file *)

Abbreviation manager_sys := (RangeLockSafe.sys (T := Avl.avltree RangeLock.range)).
#[export] Instance avl_lock_table : LockTable manager_sys.
Proof.
  refine {| lt_held := RangeLockSafe.s_held; lt_ok := RangeLockSafe.reachable; lt_step := RangeLockSafe.step;
    lt_faults y := RangeLockSafe.small y /\ exists q, q ∈ RangeLockSafe.s_ready y /\
      RangeLock.lock_range_wake (RangeLockSafe.q_start q) (RangeLockSafe.q_end q) (RangeLockSafe.q_type q) (RangeLockSafe.s_man y) = None |}.
  - intros y y' Hr Hs. eapply rtc_r; [exact Hr | exact Hs].
  - intros y Hr (Hs & q & Hq & Hn). by eapply RangeLockSafe.wake_fault_unheld.
  - intros y i j a b Hr Ha Hb Hne H1 H2. apply (RangeLockSafe.held_compatible y i j a b Hr Ha Hb Hne). by split.
Defined.

#[local] Instance lock_type_eq : EqDecision lock_type.
Proof. solve_decision. Defined.
#[local] Instance range_lock_eq : EqDecision range_lock.
Proof. solve_decision. Defined.

(** A lock granted at once, and the lock at a position given back. *)
Definition grant (y : manager_sys) (s e : Z) (t : lock_type) : option (range_lock * manager_sys) :=
  y' ← RangeLockSafe.run_action (RangeLockSafe.ALock s e t) y;
  match RangeLockSafe.s_held y' with
  | h :: l => if decide (l = RangeLockSafe.s_held y /\ h_start h = s /\ h_end h = e /\ h_type h = t) then Some (h, y') else None
  | [] => None
  end.
Definition give_back (y : manager_sys) (i : nat) (h : range_lock) : option manager_sys :=
  y' ← RangeLockSafe.run_action (RangeLockSafe.AUnlock i) y;
  if decide (RangeLockSafe.s_held y = take i (RangeLockSafe.s_held y') ++ h :: drop i (RangeLockSafe.s_held y')) then Some y' else None.
Lemma grant_acquires y s e t h y' : grant y s e t = Some (h, y') -> acquires y s e t h y'.
Proof.
  unfold grant. destruct (RangeLockSafe.run_action _ y) as [y1 |] eqn:E; [| done]. cbn.
  destruct (RangeLockSafe.s_held y1) as [| h1 l] eqn:Eh; [done |]. destruct (decide _) as [(Hl & Hs & He & Ht) |]; [| done].
  intros [= <- <-]. split; [by eapply RangeLockSafe.run_action_step |]. cbn. by rewrite Eh, Hl.
Qed.
Lemma give_back_releases y i h y' : give_back y i h = Some y' -> releases y h y'.
Proof.
  unfold give_back. destruct (RangeLockSafe.run_action _ y) as [y1 |] eqn:E; [| done]. cbn.
  destruct (decide _) as [Hl |]; [| done]. intros [= <-]. split; [by eapply RangeLockSafe.run_action_step |].
  eexists _, _. split; [exact Hl |]. cbn. by rewrite take_drop.
Qed.

(** ** Runs on a machine *)

Abbreviation cfile := (NvmlFile.file locker).
Abbreviation mstate := (cstate machine locker manager_sys).

(** The next step of a thread; [i] is the byte to copy or the position of its lock. *)
Definition next (t : positive) (i : nat) (s : mstate) : option (list event * mstate) :=
  let '(CState f e y ops) := s in
  a ← ops !! t;
  match a with
  | Writing off d =>
      match fetch_storage (2 ^ J0) off (zlen d) [] (f, e) with
      | Some (inr rg, (f', e')) => Some ([], CState f' e' y (<[t := Stored off d rg]> ops))
      | _ => None
      end
  | Stored off d rg =>
      '(h, y') ← grant y off (off + zlen d) writer;
      Some ([], CState f e y' (<[t := Copying off d (zip (mjoin (region_addrs <$> rg)) d) h]> ops))
  | Copying off d todo h =>
      match drop i todo, todo with
      | (a, b) :: l2, _ => Some ([], CState f (store_byte a b e) y (<[t := Copying off d (take i todo ++ l2) h]> ops))
      | [], [] =>
          match update_size (u64 (off + zlen d)) (f, e) with
          | Some (inr _, (f', e')) => Some ([EvWrite t off d], CState f' e y (<[t := Sized h]> ops))
          | _ => None
          end
      | [], _ => None
      end
  | Sized h => y' ← give_back y i h; Some ([], CState f e y' (delete t ops))
  | Reading off size =>
      '(h, y') ← grant y off (off + size) reader; Some ([], CState f e y' (<[t := Looking off size h]> ops))
  | Looking off size h =>
      match lookup_data (2 ^ J0) off (off + size) [] (f, e) with
      | Some (inr rg, (f', e')) =>
          Some ([EvRead t off size], CState f' e' y (<[t := Loading (cells_of rg) (omap id (cells_of rg)) ∅ h]> ops))
      | _ => None
      end
  | Loading cells todo got h =>
      match drop i todo, todo with
      | a :: l2, _ =>
          Some ([], CState f e y (<[t := Loading cells (take i todo ++ l2) (<[a := FuseBuf.mem_get (e_mem e) a]> got) h]> ops))
      | [], [] => y' ← give_back y i h; Some ([EvReturn t (loaded cells got)], CState f e y' (delete t ops))
      | [], _ => None
      end
  | Allocating off size =>
      match fetch_storage (2 ^ J0) off size [] (f, e) with
      | Some (inr _, (f', e')) => Some ([], CState f' e' y (<[t := Allotted off size]> ops))
      | _ => None
      end
  | Allotted off size =>
      match update_size (u64 (off + size)) (f, e) with
      | Some (inr _, (f', e')) => Some ([EvAlloc t off size], CState f' e y (<[t := Stamping]> ops))
      | _ => None
      end
  | Stamping => Some ([], CState (set_ctime 0 f) e y (delete t ops))
  end.
Abbreviation mstep := (cstep (W := machine) (L := locker) (Y := manager_sys) J0 0).
Abbreviation msteps := (csteps (W := machine) (L := locker) (Y := manager_sys) J0 0).

Lemma next_step t i s ev s' : next t i s = Some (ev, s') -> mstep s ev s'.
Proof.
  destruct s as [f e y ops]. unfold next. destruct (ops !! t) as [a |] eqn:Ht; [| done]. cbn [mbind option_bind].
  destruct a as [off d | off d rg | off d todo h | h | off size | off size h | cells todo got h | off size | off size |].
  - destruct (fetch_storage _ _ _ _ _) as [[[x | rg] [f' e']] |] eqn:E; [done | | done]. intros [= <- <-]. by apply do_fetch.
  - destruct (grant _ _ _ _) as [[h y'] |] eqn:E; [| done]. intros [= <- <-]. eapply do_lock; [done |]. by apply grant_acquires.
  - destruct (drop i todo) as [| [a b] l2] eqn:Ed.
    + destruct todo as [| x todo]; [| done]. unfold update_size, modify. cbn [fst snd]. intros [= <- <-]. by apply do_size.
    + intros [= <- <-]. apply drop_split in Ed. apply do_copy. by rewrite <- Ed.
  - destruct (give_back _ _ _) as [y' |] eqn:E; [| done]. intros [= <- <-]. eapply do_unlock; [done |]. by eapply give_back_releases.
  - destruct (grant _ _ _ _) as [[h y'] |] eqn:E; [| done]. intros [= <- <-]. eapply do_rlock; [done |]. by apply grant_acquires.
  - destruct (lookup_data _ _ _ _ _) as [[[x | rg] [f' e']] |] eqn:E; [done | | done]. intros [= <- <-]. by apply do_look.
  - destruct (drop i todo) as [| a l2] eqn:Ed.
    + destruct todo as [| x todo]; [| done]. destruct (give_back _ _ _) as [y' |] eqn:E; [| done]. intros [= <- <-].
      eapply do_return; [done |]. by eapply give_back_releases.
    + intros [= <- <-]. apply drop_split in Ed. apply do_load. by rewrite <- Ed.
  - destruct (fetch_storage _ _ _ _ _) as [[[x | rg] [f' e']] |] eqn:E; [done | | done]. intros [= <- <-]. by eapply do_afetch.
  - unfold update_size, modify. cbn [fst snd]. intros [= <- <-]. by apply do_asize.
  - intros [= <- <-]. by apply do_stamp.
Qed.

(** A schedule: whose turn it is, and which byte it copies. *)
Fixpoint schedule (l : list (positive * nat)) (s : mstate) : option (list event * mstate) :=
  match l with
  | [] => Some ([], s)
  | (t, i) :: l => '(ev, s1) ← next t i s; '(evs, s2) ← schedule l s1; Some (ev ++ evs, s2)
  end.
Lemma schedule_steps l s evs s' : schedule l s = Some (evs, s') -> msteps s evs s'.
Proof.
  revert s evs s'. induction l as [| [t i] l IH]; intros s evs s' E; cbn in E; [injection E as <- <-; constructor |].
  destruct (next t i s) as [[ev s1] |] eqn:E1; [| done]. cbn in E. destruct (schedule l s1) as [[evs' s2] |] eqn:E2; [| done].
  injection E as <- <-. eapply csteps_cons; [by eapply next_step | by apply IH].
Qed.

(** A file of four bytes. Thread 1 writes two bytes at its start, thread 2 two bytes behind
    them, and thread 3 reads the first three. *)
Definition four : mstate := CState written.1 written.2 RangeLockSafe.sys_init ∅.
Definition calls : gmap positive activity :=
  <[1%positive := Writing 0 [21; 22]]> (<[2%positive := Writing 2 [23; 24]]> {[3%positive := Reading 0 3]}).
Definition four_called : mstate := CState written.1 written.2 RangeLockSafe.sys_init calls.
(** The writers copy in turn, the second one from its end; it finishes last. *)
Definition turn (t : positive) (i : nat) : positive * nat := (t, i).
Definition turns : list (positive * nat) :=
  [turn 1 0; turn 2 0; turn 2 0; turn 1 0; turn 2 1; turn 1 0; turn 1 0; turn 1 0; turn 2 0; turn 2 0; turn 1 0; turn 2 0;
   turn 3 0; turn 3 0; turn 3 2; turn 3 0; turn 3 0; turn 3 0].
Definition four_run : list event * mstate := default ([], four_called) (schedule turns four_called).

Lemma written_rest : at_rest written.1 written.2.
Proof.
  destruct (put_data_ok (L := locker) J0 0 true ltac:(unfold J0; lia) empty_file.1 empty_file.2 0 4 (user_buf 4))
    as (r & s' & E & Hr); [apply empty_at_rest | done | done | vm_compute; split; discriminate | by left | lia | unfold OFF_MAX, J0; lia | | reflexivity |].
  - constructor.
    + apply FuseBuf.vec_ok_of; reflexivity.
    + intros b ->%list_elem_of_singleton. reflexivity.
    + change (FuseBuf.remaining (user_buf 4)) with (seqZ 1 4). intros x Hx%elem_of_seqZ. exists 1, 4. split; [vm_compute; left | lia].
    + intros x k _ Hk. change (m_alloc_offset empty_file.1) with 0 in Hk. lia.
  - destruct r as [x | n]; [destruct Hr; apply machine_reliable |]. destruct Hr as (_ & _ & _ & Hr & _).
    unfold written, after, write4, final. rewrite <- surjective_pairing in E. by rewrite E.
Qed.
Lemma four_quiescent : quiescent four.
Proof. split_and!; [exact (proj1 written_rest) | apply rtc_refl | done | done]. Qed.
Lemma four_calls l s' : msteps four_called l s' -> msteps four l s'.
Proof.
  intros Hs. change l with ([] ++ [] ++ [] ++ l).
  refine (csteps_cons J0 0 _ [] _ _ _ (call_get J0 0 3%positive 0 3 written.1 written.2 RangeLockSafe.sys_init ∅ _ _ _ _ _) _);
    [by vm_compute .. |].
  refine (csteps_cons J0 0 _ [] _ _ _ (call_put J0 0 2%positive 2 [23; 24] written.1 written.2 RangeLockSafe.sys_init _ _ _ _ _ _) _);
    [by vm_compute .. |].
  refine (csteps_cons J0 0 _ [] _ _ _ (call_put J0 0 1%positive 0 [21; 22] written.1 written.2 RangeLockSafe.sys_init _ _ _ _ _ _) Hs);
    by vm_compute.
Qed.
Lemma four_runs : msteps four four_run.1 four_run.2.
Proof.
  apply four_calls, (schedule_steps turns). rewrite <- surjective_pairing. vm_compute. reflexivity.
Qed.

Lemma file_linearizable_witness : exists bytes pending,
  replay (contents written.1 written.2, ∅) four_run.1 = Some (bytes, pending) /\
  (forall t a, c_ops four_run.2 !! t = Some a -> no_fault J0 (c_file four_run.2) (c_env four_run.2) a) /\
  (c_ops four_run.2 = ∅ -> quiescent four_run.2 /\ contents (c_file four_run.2) (c_env four_run.2) = bytes).
Proof.
  refine (file_linearizable J0 0 _ four four_run.1 (Some four_run.2) _ _);
    [unfold J0; lia | apply four_quiescent | apply crun_on, four_runs].
Defined.

End FileConc.
