(* ===== verification/Parsers.v ===== *)
(** * Values of the configuration file: src/settings/parsers.cpp

    The converters that turn the text of an option into a number, a size in bytes or a path.
    A computation ends with a value, with an exception, or with behaviour that the language
    leaves undefined. Text is a [string]; the loops work on its characters. *)
From S2P Require Import Prelude.
From Stdlib Require Import Ascii String.
From stdpp Require Import base list numbers option strings.
Local Open Scope string_scope.
Local Open Scope Z_scope.
Local Open Scope list_scope.

Module Parsers.

Inductive exn := InvalidArgument (what : string) | OutOfRange | BadAnyCast | YamlError | RuntimeError (what : string).
Inductive res (X : Type) := Ok (x : X) | Throw (e : exn) | Undef.
Arguments Ok {X} x.
Arguments Throw {X} e.
Arguments Undef {X}.
Definition bind {X Y} (c : res X) (k : X -> res Y) : res Y :=
  match c with Ok x => k x | Throw e => Throw e | Undef => Undef end.

Definition code (c : ascii) : Z := Z.of_N (N_of_ascii c).
Definition isspace (c : ascii) : bool := (code c =? 32) || ((9 <=? code c) && (code c <=? 13)).
Definition isdigit (c : ascii) : bool := (48 <=? code c) && (code c <=? 57).

(** The number that a sequence of decimal digits stands for. *)
Definition value_of (l : list ascii) : Z := fold_left (fun n c => n * 10 + (code c - 48)) l 0.

(** The longest prefix of characters with a property, and the rest. *)
Fixpoint span (p : ascii -> bool) (l : list ascii) : list ascii * list ascii :=
  match l with
  | c :: l' => if p c then let '(a, b) := span p l' in (c :: a, b) else ([], l)
  | [] => ([], [])
  end.

(** [std::stoi] in base 10: white space, a sign, digits; what follows is ignored. [None]
    stands for its two exceptions. *)
Definition stoi (l : list ascii) : option Z :=
  let l := (span isspace l).2 in
  let '(sign, l) := match l with
                    | "-"%char :: l => (-1, l)
                    | "+"%char :: l => (1, l)
                    | _ => (1, l)
                    end in
  let ds := (span isdigit l).1 in
  if decide (ds = []) then None
  else
    let n := sign * value_of ds in
    if (- 2 ^ 31 <=? n) && (n <? 2 ^ 31) then Some n else None.

(** [number_parser(name, value)] *)
Definition number_parser (name value : string) : res Z :=
  match stoi (list_ascii_of_string value) with
  | None => Throw (InvalidArgument ("Value provided for setting '" +:+ name +:+ "' is not a number"))
  | Some optval =>
      if optval <=? 0
      then Throw (InvalidArgument ("Value provided for setting '" +:+ name +:+ "' must be greater than zero"))
      else Ok (u32 optval)
  end.

(** The table of units, in the order in which they are tried. *)
Definition conversions : list (list ascii * Z) :=
  (fun c => (list_ascii_of_string c.1, c.2)) <$>
  [("GiB", 2 ^ 30); ("GB", 1000000000); ("G", 1000000000);
   ("MiB", 2 ^ 20); ("MB", 1000000); ("M", 1000000);
   ("KiB", 2 ^ 10); ("KB", 1000); ("K", 1000); ("B", 1)].

(** [std::string::find]: the first position at which a string occurs. *)
Fixpoint find (pat l : list ascii) : option nat :=
  if decide (take (length pat) l = pat) then Some O
  else match l with [] => None | _ :: l => S <$> find pat l end.

(** The loop over the units: [pos], where [None] is [npos], and the factor. *)
Fixpoint determine_units (l : list ascii) (cs : list (list ascii * Z)) : option nat * Z :=
  match cs with
  | [] => (None, 1)
  | (suffix, f) :: cs =>
      match find suffix l with
      | Some pos => if decide (suffix = drop pos l) then (Some pos, f) else determine_units l cs
      | None => determine_units l cs
      end
  end.

(** [std::stod] throws for a number that is rounded to infinity. *)
Definition DBL_OVERFLOW : Z := 2 ^ 1024 - 2 ^ 970.

(** [size_parser(name, value)]. The product is a [double]. Below [2 ^ 32] both factors and
    the product are integers that a [double] represents, so the result is exact; from [2 ^ 32]
    on the product is at least [2 ^ 32], and its conversion to [uint32_t] is undefined. *)
Definition size_parser (name value : string) : res Z :=
  let scopy := filter (fun c => isspace c = false) (list_ascii_of_string value) in
  let '(pos, factor) := determine_units scopy conversions in
  let number_str := match pos with Some p => take p scopy | None => scopy end in
  if bool_decide (number_str = []) || negb (forallb isdigit number_str)
  then Throw (InvalidArgument ("Value '" +:+ value +:+ "' provided in setting '" +:+ name +:+ "' is not a number"))
  else
    let parsed_value := value_of number_str in
    if DBL_OVERFLOW <=? parsed_value then Throw OutOfRange
    else if parsed_value * factor <? 2 ^ 32 then Ok (parsed_value * factor) else Undef.

(** [path_parser(name, value)] *)
Definition path_parser (name value : string) : res string := Ok value.

(** ** The grammar of sizes *)

(** A size is written as digits and a unit, with white space anywhere. *)
Definition denotes (value : string) (n f : Z) : Prop :=
  exists ds suffix, filter (fun c => isspace c = false) (list_ascii_of_string value) = ds ++ suffix /\
    ds <> [] /\ forallb isdigit ds = true /\ n = value_of ds /\ ((suffix, f) ∈ conversions \/ (suffix, f) = ([], 1)).

Lemma find_digits pat c ds s :
  pat = c :: tail pat -> isdigit c = false -> forallb isdigit ds = true ->
  find pat (ds ++ s) = Nat.add (length ds) <$> find pat s.
Proof.
  intros Hp Hc. induction ds as [| d ds IH]; simpl; [intros _; by destruct (find pat s) |].
  intros [Hd Hds]%andb_prop. rewrite decide_False.
  - rewrite IH by done. by destruct (find pat s).
  - rewrite Hp. simpl. intros E. injection E as <- _. congruence.
Qed.

Definition starts_with_letter (cs : list (list ascii * Z)) : Prop :=
  Forall (fun p => exists c, p.1 = c :: tail p.1 /\ isdigit c = false) cs.
Lemma conversions_letters : starts_with_letter conversions.
Proof. repeat constructor; simpl; eexists; split; reflexivity. Qed.

Lemma units_digits cs ds s :
  starts_with_letter cs -> forallb isdigit ds = true ->
  determine_units (ds ++ s) cs
  = (Nat.add (length ds) <$> (determine_units s cs).1, (determine_units s cs).2).
Proof.
  intros Hcs Hds. induction Hcs as [| [pat f] cs (c & Hp & Hc) _ IH]; simpl; [done |].
  rewrite (find_digits pat c) by done. destruct (find pat s) as [p |]; simpl; [| done].
  rewrite drop_app_add. destruct (decide _); [done | exact IH].
Qed.


Lemma units_suffix suffix f :
  (suffix, f) ∈ conversions -> determine_units suffix conversions = (Some O, f).
Proof.
  intros H. unfold conversions in H; cbn [fmap list_fmap fst snd] in H.
  repeat (apply elem_of_cons in H as [E | H]; [injection E as -> ->; vm_compute; reflexivity |]).
  by apply elem_of_nil in H.
Qed.

Lemma units_sound l cs pos f :
  determine_units l cs = (pos, f) ->
  match pos with Some p => (drop p l, f) ∈ cs | None => f = 1 end.
Proof.
  induction cs as [| [pat g] cs IH]; simpl; [intros E; by injection E as <- <- |].
  destruct (find pat l) as [p |]; [destruct (decide _) as [Hd |] |]; intros E.
  - injection E as <- <-. rewrite <- Hd. apply list_elem_of_here.
  - specialize (IH E). destruct pos; [by apply list_elem_of_further | done].
  - specialize (IH E). destruct pos; [by apply list_elem_of_further | done].
Qed.

Lemma units_denotes ds suffix f :
  forallb isdigit ds = true -> (suffix, f) ∈ conversions \/ (suffix, f) = ([], 1) ->
  determine_units (ds ++ suffix) conversions
  = (if decide (suffix = []) then None else Some (length ds), f).
Proof.
  intros Hds H. rewrite units_digits by (done || apply conversions_letters).
  destruct H as [H | E].
  - rewrite (units_suffix _ _ H). simpl. rewrite Nat.add_0_r, decide_False; [done |]. intros ->.
    pose proof conversions_letters as HL. unfold starts_with_letter in HL. rewrite Forall_forall in HL.
    by destruct (HL _ H) as (c & E & _).
  - injection E as -> ->. reflexivity.
Qed.

(** [size_parser] on every input: a text that is digits and a unit, white space anywhere,
    gives the number of bytes when it is below [2 ^ 32]; a larger one is undefined behaviour,
    or an exception when it is too large for a [double]; any other text is refused. *)
Theorem size_parser_spec (name value : string) :
  (forall n f, denotes value n f ->
     size_parser name value = if DBL_OVERFLOW <=? n then Throw OutOfRange
                              else if n * f <? 2 ^ 32 then Ok (n * f) else Undef) /\
  ((forall n f, ~ denotes value n f) -> exists what, size_parser name value = Throw (InvalidArgument what)).
Proof.
  unfold size_parser, denotes. set (l := filter _ _). split.
  - intros n f (ds & suffix & -> & Hne & Hds & -> & Hs). rewrite (units_denotes _ _ _ Hds Hs).
    replace (match _ with Some p => take p (ds ++ suffix) | None => ds ++ suffix end) with ds.
    2: { destruct (decide (suffix = [])) as [-> |]; [by rewrite app_nil_r | by rewrite take_app_length]. }
    rewrite bool_decide_false, Hds by done. reflexivity.
  - intros Hno. destruct (determine_units l conversions) as [pos f] eqn:E. apply units_sound in E.
    set (ds := match pos with Some p => take p l | None => l end).
    destruct (bool_decide_reflect (ds = [])) as [| Hne]; [by eexists |].
    destruct (forallb isdigit ds) eqn:Hds; [| by eexists]. exfalso.
    apply (Hno (value_of ds) f). exists ds, (match pos with Some p => drop p l | None => [] end).
    split; [| split; [done | split; [done | split; [done |]]]].
    + subst ds. destruct pos; [by rewrite take_drop | by rewrite app_nil_r].
    + destruct pos; [by left | right; by subst].
Qed.

Lemma size_parser_spec_witness :
  size_parser "capacity" "2 GiB" = Ok (2 ^ 31) /\ size_parser "capacity" "4GiB" = Undef /\
  exists what, size_parser "capacity" "2Gigs" = Throw (InvalidArgument what).
Proof.
  split; [| split].
  - apply (proj1 (size_parser_spec "capacity" "2 GiB") 2 (2 ^ 30)).
    exists ["2"%char], (list_ascii_of_string "GiB").
    repeat split; [discriminate | left; apply list_elem_of_here].
  - apply (proj1 (size_parser_spec "capacity" "4GiB") 4 (2 ^ 30)).
    exists ["4"%char], (list_ascii_of_string "GiB").
    repeat split; [discriminate | left; apply list_elem_of_here].
  - exists "Value '2Gigs' provided in setting 'capacity' is not a number". vm_compute. reflexivity.
Defined.

(** ** The grammar of numbers *)

(** The text does not go on with a character of the class. *)
Definition stops (p : ascii -> bool) (l : list ascii) : Prop :=
  match l with c :: _ => p c = false | [] => True end.

Lemma span_app p a b : forallb p a = true -> stops p b -> span p (a ++ b) = (a, b).
Proof.
  intros Ha Hb. induction a as [| c a IH]; simpl in *.
  - destruct b as [| c b]; [done |]. simpl in *. by rewrite Hb.
  - apply andb_prop in Ha as [-> Ha]. by rewrite (IH Ha).
Qed.
Lemma span_ok p l : l = (span p l).1 ++ (span p l).2 /\ forallb p (span p l).1 = true /\ stops p (span p l).2.
Proof.
  induction l as [| c l (E & Ha & Hb)]; simpl; [done |].
  destruct (p c) eqn:Hc; [| done]. destruct (span p l) as [a b]. simpl in *. rewrite Hc. split; [by rewrite E at 1 |]. done.
Qed.

Lemma value_of_nonneg l : forallb isdigit l = true -> 0 <= value_of l.
Proof.
  unfold value_of. cut (forall n, 0 <= n -> forallb isdigit l = true -> 0 <= fold_left (fun n c => n * 10 + (code c - 48)) l n).
  { intros H. by apply H. }
  induction l as [| c l IH]; simpl; [done |].
  intros n Hn [Hc Hl]%andb_prop. apply IH; [| done]. unfold isdigit in Hc. lia.
Qed.

(** [number_parser] accepts exactly white space, an optional plus sign, a positive number that
    fits an [int], and anything behind it. *)
Theorem number_parser_spec (name value : string) (n : Z) :
  number_parser name value = Ok n <->
  exists ws sign ds rest,
    list_ascii_of_string value = ws ++ sign ++ ds ++ rest /\ forallb isspace ws = true /\
    (sign = [] \/ sign = ["+"%char]) /\ ds <> [] /\ forallb isdigit ds = true /\ stops isdigit rest /\
    n = value_of ds /\ 0 < n < 2 ^ 31.
Proof.
  unfold number_parser, stoi. set (l := list_ascii_of_string value). split.
  - destruct (span_ok isspace l) as (El & Hws & Hst). destruct (span isspace l) as [ws l1]. simpl in *.
    destruct (match l1 with "-"%char :: _ => _ | _ => _ end) as [sg l2] eqn:E2.
    destruct (span_ok isdigit l2) as (E2' & Hds & Hr). destruct (span isdigit l2) as [ds rest]. simpl in *.
    destruct (decide (ds = [])) as [| Hne]; [done |].
    assert (Hv := value_of_nonneg ds Hds).
    destruct (_ && _) eqn:Hb; [| done]. destruct (sg * value_of ds <=? 0) eqn:Hp; [done |].
    intros E. injection E as <-. apply andb_prop in Hb as [Hb1 Hb2].
    assert (Hsg : sg = 1 /\ (l1 = l2 \/ l1 = "+"%char :: l2)).
    { destruct l1 as [| [[] [] [] [] [] [] [] []] l1]; simplify_eq/=; auto. lia. }
    destruct Hsg as [-> Hl1]. rewrite u32_small by lia.
    exists ws, (if decide (l1 = l2) then [] else ["+"%char]), ds, rest.
    split; [| repeat split; try done; try lia; destruct (decide _); auto].
    rewrite El. f_equal. rewrite <- E2'. destruct (decide (l1 = l2)) as [-> | ]; [done |]. by destruct Hl1.
  - intros (ws & sign & ds & rest & -> & Hws & Hs & Hne & Hds & Hr & -> & Hn).
    assert (Hd : exists c ds', ds = c :: ds' /\ isdigit c = true).
    { destruct ds as [| c ds']; [done |]. apply andb_prop in Hds as [? _]. eauto. }
    destruct Hd as (c & ds' & Ed & Hc).
    assert (Hsp : isspace c = false) by (unfold isdigit, isspace in *; lia).
    rewrite (span_app isspace ws) by (try done; destruct Hs as [-> | ->]; simpl; by rewrite ?Ed). simpl.
    replace (match sign ++ ds ++ rest with "-"%char :: _ => _ | _ => _ end) with (1, ds ++ rest).
    2: { destruct Hs as [-> | ->]; [| done]. rewrite Ed. simpl.
         destruct c as [[] [] [] [] [] [] [] []]; try done; by vm_compute in Hc. }
    rewrite (span_app isdigit ds) by done. cbv zeta. cbn [fst]. rewrite decide_False, Z.mul_1_l by done.
    rewrite (proj2 (Z.leb_le _ _)), (proj2 (Z.ltb_lt _ _)) by lia. cbn [andb].
    rewrite (proj2 (Z.leb_gt _ _)), u32_small by lia. done.
Qed.

End Parsers.
