(* ===== verification/Options.v ===== *)
(** * Configuration files: src/settings/file_options/ and src/settings/config-schema.h

    A schema describes the sections of a configuration file and the options of each; the
    visitor walks the YAML document along the schema and fills an options map. The YAML
    library is the class [Yaml]: its documents are an abstract type with the operations the
    visitor uses. A [std::map] that is iterated over is a list in the order of its keys, one
    that is only looked up is a finite map; [emplace] keeps what is already there. *)
From S2P Require Import Prelude Parsers.
From Stdlib Require Import Ascii String.
From stdpp Require Import base list numbers option strings gmap.
Local Open Scope string_scope.
Local Open Scope Z_scope.
Local Open Scope list_scope.

Module Options.
Import Parsers.

(** [YAML::LoadFile] and [as<std::string>] throw for [None]; [subnode] is [operator[]], with
    [None] for a node that is not defined; [items] and [fields] are the two views of an
    iteration over a node, as nodes and as pairs of nodes. *)
Class Yaml (node : Type) := {
  load_file : string -> option node;
  subnode : node -> string -> option node;
  items : node -> list node;
  fields : node -> list (node * node);
  as_string : node -> option string }.

(** [boost::any], for the types of the options. *)
Inductive any := AnyString (s : string) | AnyPath (p : string) | AnyU32 (n : Z).

(** ** file-schema.h *)

Definition match_any : string := ".*".

(** [typed_value<T>]: a default value and a converter, if there are. *)
Record typed_value := Typed { m_default_value : option any; m_converter : option (string -> string -> res any) }.
(** [option_schema] *)
Record option_schema := OptionSchema { m_mandatory : bool; m_typed_value : typed_value }.

(** [std::map]: lookup, insertion at the position of a key that is not there yet, and
    construction from an initializer list. *)
Fixpoint map_find {X} (k : string) (l : list (string * X)) : option X :=
  match l with
  | [] => None
  | (k', x) :: l => if decide (k' = k) then Some x else map_find k l
  end.
Fixpoint insert_ordered {X} (k : string) (x : X) (l : list (string * X)) : list (string * X) :=
  match l with
  | [] => [(k, x)]
  | (k', x') :: l' => if (k <? k')%string then (k, x) :: l else (k', x') :: insert_ordered k x l'
  end.
Definition map_insert {X} (k : string) (x : X) (l : list (string * X)) : list (string * X) :=
  match map_find k l with Some _ => l | None => insert_ordered k x l end.
Definition map_of {X} (l : list (string * X)) : list (string * X) :=
  fold_left (fun acc kx => map_insert kx.1 kx.2 acc) l [].

(** [section_schema], and the file as a map of sections. *)
Inductive schema_type := group_schema (g : list (string * option_schema)) | list_schema (g : list (string * option_schema)).
Record section_schema := SectionSchema { s_mandatory : bool; s_schema : schema_type }.
Definition file_schema : Type := list (string * section_schema).

Definition declare_option (name : string) (mandatory : bool) (default : option any)
    (parser : option (string -> string -> res any)) : string * option_schema :=
  (name, OptionSchema mandatory (Typed default parser)).
Definition declare_list (args : list (string * option_schema)) : schema_type := list_schema (map_of args).
Definition declare_group (args : list (string * option_schema)) : schema_type := group_schema (map_of args).
Definition declare_section (name : string) (mandatory : bool) (s : schema_type) : string * section_schema :=
  (name, SectionSchema mandatory s).
Definition declare_file (args : list (string * section_schema)) : file_schema := map_of args.

(** ** options-map.h *)

Abbreviation options_group := (gmap string any).
Abbreviation options_list := (list options_group).
(** The values of an [options_map]: what the two visitors store. *)
Inductive section_value := SectionGroup (g : options_group) | SectionList (l : options_list).
Abbreviation options_map := (gmap string section_value).

Definition emplace {X} (k : string) (x : X) (m : gmap string X) : gmap string X :=
  match m !! k with Some _ => m | None => <[k := x]> m end.

(** [option_value::get_as<T>] for the three types. *)
Definition any_string (v : any) : res string := match v with AnyString s => Ok s | _ => Throw BadAnyCast end.
Definition any_path (v : any) : res string := match v with AnyPath s => Ok s | _ => Throw BadAnyCast end.
Definition any_u32 (v : any) : res Z := match v with AnyU32 n => Ok n | _ => Throw BadAnyCast end.
(** [options_group::get_as<T>] and [options_map::get_as<T>] *)
Definition get_as {T} (cast : any -> res T) (opt_name : string) (g : options_group) : res T :=
  match g !! opt_name with
  | None => Throw (InvalidArgument ("option '" +:+ opt_name +:+ "' missing"))
  | Some v => cast v
  end.
Definition get_group (opt_name : string) (m : options_map) : res options_group :=
  match m !! opt_name with
  | None => Throw (InvalidArgument ("option '" +:+ opt_name +:+ "' missing"))
  | Some (SectionGroup g) => Ok g
  | Some _ => Throw BadAnyCast
  end.
Definition get_list (opt_name : string) (m : options_map) : res options_list :=
  match m !! opt_name with
  | None => Throw (InvalidArgument ("option '" +:+ opt_name +:+ "' missing"))
  | Some (SectionList l) => Ok l
  | Some _ => Throw BadAnyCast
  end.

(** ** yaml-parser.h *)

Fixpoint foldM {A X} (f : A -> X -> res A) (a : A) (l : list X) : res A :=
  match l with [] => Ok a | x :: l => bind (f a x) (fun a => foldM f a l) end.

Section Visitor.
Context {node : Type} `{Yaml node}.

Definition as_text (n : node) : res string := match as_string n with Some s => Ok s | None => Throw YamlError end.

(** The value of an option: converted, or the text as it is. *)
Definition option_text (s : option_schema) (key text : string) : res any :=
  match m_converter (m_typed_value s) with Some c => c key text | None => Ok (AnyString text) end.

(** The body of the inner loop of the visitor of a group. *)
Definition group_entry (name : string) (g : list (string * option_schema)) (parsed : options_group)
    (kv : node * node) : res options_group :=
  bind (as_text kv.1) (fun key => bind (as_text kv.2) (fun text =>
  match map_find key g with
  | None => Throw (InvalidArgument ("Invalid argument '" +:+ key +:+ "' in '" +:+ name +:+ "'"))
  | Some s => bind (option_text s key text) (fun v => Ok (emplace key v parsed))
  end)).

Fixpoint check_mandatory (parsed : options_group) (names : list string) : res unit :=
  match names with
  | [] => Ok tt
  | n :: names =>
      match parsed !! n with
      | None => Throw (InvalidArgument ("Missing mandatory option '" +:+ n +:+ "'"))
      | Some _ => check_mandatory parsed names
      end
  end.

Definition mandatory_options (g : list (string * option_schema)) : list string :=
  fst <$> filter (fun o => m_mandatory o.2 = true) g.
Definition default_values (g : list (string * option_schema)) : list (string * any) :=
  omap (fun o => pair o.1 <$> m_default_value (m_typed_value o.2)) g.

(** [yaml_visitor::operator()(group_schema&)] *)
Definition visit_group (name : string) (g : list (string * option_schema)) (config : node) (opts : options_map)
    : res options_map :=
  bind (foldM (fun parsed entry => foldM (group_entry name g) parsed (fields entry)) ∅ (items config)) (fun parsed =>
  bind (check_mandatory parsed (mandatory_options g)) (fun _ =>
  let parsed := fold_left (fun p v => emplace v.1 v.2 p) (default_values g) parsed in
  Ok (emplace name (SectionGroup parsed) opts))).

(** The body of the inner loop of the visitor of a list; the assertion cannot fail. *)
Definition list_entry (name : string) (g : list (string * option_schema)) (parsed : options_group)
    (kv : node * node) : res options_group :=
  bind (as_text kv.1) (fun key => bind (as_text kv.2) (fun text =>
  match (match map_find key g with Some s => Some s | None => map_find match_any g end) with
  | None => Throw (InvalidArgument ("Invalid argument '" +:+ key +:+ "' in '" +:+ name +:+ "'"))
  | Some s => bind (option_text s key text) (fun v => Ok (emplace key v parsed))
  end)).

(** [yaml_visitor::operator()(list_schema&)] *)
Definition visit_list (name : string) (g : list (string * option_schema)) (config : node) (opts : options_map)
    : res options_map :=
  bind (foldM (fun parsed entry =>
          bind (foldM (fun grp subentry => foldM (list_entry name g) grp (fields subentry)) ∅ (items entry))
            (fun grp => Ok (parsed ++ [grp]))) [] (items config)) (fun parsed =>
  Ok (emplace name (SectionList parsed) opts)).

(** [parse_yaml_file(yaml_file, schema, opt_map)] *)
Definition parse_section (config : node) (opts : options_map) (sec : string * section_schema) : res options_map :=
  match subnode config sec.1 with
  | None =>
      if s_mandatory sec.2
      then Throw (InvalidArgument ("Missing mandatory '" +:+ sec.1 +:+ "' block from configuration file"))
      else Ok opts
  | Some n =>
      match s_schema sec.2 with
      | group_schema g => visit_group sec.1 g n opts
      | list_schema g => visit_list sec.1 g n opts
      end
  end.
Definition parse_yaml_file (yaml_file : string) (schema : file_schema) (opts : options_map) : res options_map :=
  match load_file yaml_file with
  | None => Throw YamlError
  | Some config => foldM (parse_section config) opts schema
  end.

End Visitor.

(** ** config-schema.h *)

Definition to_any {T} (c : T -> any) (p : string -> string -> res T) (name value : string) : res any :=
  bind (p name value) (fun x => Ok (c x)).
Definition global_options : list (string * option_schema) := [
  declare_option "root-dir" true None (Some (to_any AnyPath path_parser));
  declare_option "mount-dir" true None (Some (to_any AnyPath path_parser));
  declare_option "results-dir" false None (Some (to_any AnyPath path_parser));
  declare_option "log-file" false None (Some (to_any AnyPath path_parser));
  declare_option "workers" false (Some (AnyU32 8)) (Some (to_any AnyU32 number_parser));
  declare_option "transfer-size" false (Some (AnyU32 (128 * 1024))) (Some (to_any AnyU32 size_parser))].
Definition backend_list : list (string * option_schema) := [
  declare_option "id" true None None;
  declare_option "type" true None None;
  declare_option "capacity" true None (Some (to_any AnyU32 size_parser));
  declare_option match_any false None None].
Definition resource_list : list (string * option_schema) := [
  declare_option "path" true None None;
  declare_option "backend" true None None;
  declare_option "flags" true None None].
Definition config_schema : file_schema := declare_file [
  declare_section "global-settings" true (declare_group global_options);
  declare_section "backends" true (declare_list backend_list);
  declare_section "resources" true (declare_list resource_list)].

(** ** The standard map *)

Lemma map_find_none {X} k (l : list (string * X)) : map_find k l = None <-> k ∉ l.*1.
Proof.
  induction l as [| [k' x] l IH]; simpl; [by split; [intros _; apply not_elem_of_nil |] |].
  rewrite not_elem_of_cons. destruct (decide (k' = k)) as [-> |]; [naive_solver |]. rewrite IH. naive_solver.
Qed.
Lemma map_find_elem {X} k (x : X) l : map_find k l = Some x -> (k, x) ∈ l.
Proof.
  induction l as [| [k' y] l IH]; simpl; [done |]. destruct (decide (k' = k)) as [-> |]; intros E.
  - simplify_eq. apply list_elem_of_here.
  - apply list_elem_of_further. by apply IH.
Qed.
Lemma map_find_nodup {X} k (x : X) l : NoDup l.*1 -> (k, x) ∈ l -> map_find k l = Some x.
Proof.
  induction l as [| [k' y] l IH]; simpl; [by intros _ ?%elem_of_nil |]. intros [Hk Hn]%NoDup_cons [E | Hin]%elem_of_cons.
  - simplify_eq. by rewrite decide_True.
  - rewrite decide_False; [by apply IH |]. intros ->. apply Hk, list_elem_of_fmap. by exists (k, x).
Qed.

Lemma insert_ordered_keys {X} k (x : X) l : (insert_ordered k x l).*1 ≡ₚ k :: l.*1.
Proof.
  induction l as [| [k' y] l IH]; simpl; [done |]. destruct (k <? k')%string; simpl; [done |]. rewrite IH. constructor.
Qed.
Lemma map_of_nodup {X} (l : list (string * X)) : NoDup (map_of l).*1.
Proof.
  unfold map_of. cut (forall acc, NoDup acc.*1 -> NoDup (fold_left (fun acc kx => map_insert kx.1 kx.2 acc) l acc).*1).
  { intros H. apply H. constructor. }
  induction l as [| [k x] l IH]; intros acc Ha; simpl; [done |]. apply IH. unfold map_insert.
  destruct (map_find k acc) eqn:E; [done |]. rewrite insert_ordered_keys. apply map_find_none in E. by constructor.
Qed.

Lemma lookup_emplace {X} k (x : X) m k' :
  emplace k x m !! k' = match m !! k' with Some y => Some y | None => if decide (k = k') then Some x else None end.
Proof.
  unfold emplace. destruct (m !! k) eqn:E.
  - destruct (m !! k') eqn:E'; [done |]. rewrite decide_False; [done | congruence].
  - destruct (decide (k = k')) as [<- | Hne]; [by rewrite lookup_insert_eq, E |].
    rewrite lookup_insert_ne by done. by destruct (m !! k').
Qed.

Lemma lookup_emplace_all {X} (l : list (string * X)) (m : gmap string X) k :
  fold_left (fun p v => emplace v.1 v.2 p) l m !! k
  = match m !! k with Some y => Some y | None => map_find k l end.
Proof.
  revert m. induction l as [| [k' x] l IH]; intros m; simpl; [by destruct (m !! k) |].
  rewrite IH, lookup_emplace. simpl. destruct (m !! k); [done |]. by destruct (decide (k' = k)).
Qed.

(** ** Sections that are groups *)

Lemma find_default_values g k :
  NoDup g.*1 -> map_find k (default_values g) = map_find k g ≫= fun s => m_default_value (m_typed_value s).
Proof.
  unfold default_values. induction g as [| [k' s] g IH]; simpl; [done |]. intros [Hk Hn]%NoDup_cons.
  destruct (m_default_value (m_typed_value s)) as [d |] eqn:Ed; simpl.
  - destruct (decide (k' = k)); [by subst; simpl | by apply IH].
  - destruct (decide (k' = k)) as [-> |]; [| by apply IH]. simpl. rewrite Ed. etransitivity; [exact (IH Hn) |].
    by rewrite (proj2 (map_find_none k g) Hk).
Qed.

Lemma mandatory_options_elem g k :
  NoDup g.*1 -> k ∈ mandatory_options g <-> exists s, map_find k g = Some s /\ m_mandatory s = true.
Proof.
  intros Hn. unfold mandatory_options. rewrite list_elem_of_fmap. split.
  - intros ([k' s] & -> & [Hm Hin]%list_elem_of_filter). exists s. split; [by apply map_find_nodup | done].
  - intros (s & Hf & Hm). exists (k, s). split; [done |]. apply list_elem_of_filter. split; [done |]. by apply map_find_elem.
Qed.

Lemma check_mandatory_ok p names : check_mandatory p names = Ok tt <-> forall n, n ∈ names -> is_Some (p !! n).
Proof.
  induction names as [| n names IH]; simpl.
  - split; [by intros _ n ?%elem_of_nil | done].
  - destruct (p !! n) as [v |] eqn:E.
    + rewrite IH. split; [intros Hall n' [-> | Hin]%elem_of_cons; [by rewrite E | by apply Hall] |].
      intros Hall n' Hin. by apply Hall, list_elem_of_further.
    + split; [done |]. intros Hall. destruct (Hall n (list_elem_of_here _ _)) as [v Hv]. congruence.
Qed.

Lemma bind_Ok {X Y} (c : res X) (k : X -> res Y) y : bind c k = Ok y <-> exists x, c = Ok x /\ k x = Ok y.
Proof. destruct c; simpl; split; naive_solver. Qed.

Lemma foldM_app {A X} (f : A -> X -> res A) a l1 l2 : foldM f a (l1 ++ l2) = bind (foldM f a l1) (fun a => foldM f a l2).
Proof. revert a. induction l1 as [| x l1 IH]; intros a; simpl; [done |]. destruct (f a x); simpl; [apply IH | done | done]. Qed.
Lemma foldM_nested {A X Y} (f : A -> Y -> res A) (g : X -> list Y) a l :
  foldM (fun a x => foldM f a (g x)) a l = foldM f a (mjoin (g <$> l)).
Proof. revert a. induction l as [| x l IH]; intros a; simpl; [done |]. rewrite foldM_app. destruct (foldM f a (g x)); simpl; [apply IH | done | done]. Qed.

Section Entries.
Context {node : Type} `{Yaml node}.

(** The keys and texts of a section in the order of the document, if all are scalars. *)
Definition text_of (kv : node * node) : option (string * string) :=
  k ← as_string kv.1; t ← as_string kv.2; Some (k, t).
Definition texts (l : list node) : option (list (string * string)) := mapM text_of (mjoin (fields <$> l)).

(** The value a schema gives to a text, if it accepts it. *)
Definition accepted (schema : string -> option option_schema) (k t : string) : option any :=
  s ← schema k; match option_text s k t with Ok v => Some v | _ => None end.
Definition group_option (g : list (string * option_schema)) (k : string) : option option_schema := map_find k g.
Definition list_option (g : list (string * option_schema)) (k : string) : option option_schema :=
  match map_find k g with Some s => Some s | None => map_find match_any g end.

Definition adds (schema : string -> option option_schema)
    (f : options_group -> node * node -> res options_group) : Prop :=
  forall p kv p', f p kv = Ok p' <->
    exists k t v, text_of kv = Some (k, t) /\ accepted schema k t = Some v /\ p' = emplace k v p.

Lemma entry_adds schema (err : string -> exn) :
  adds schema (fun p kv => bind (as_text kv.1) (fun key => bind (as_text kv.2) (fun text =>
    match schema key with
    | None => Throw (err key)
    | Some s => bind (option_text s key text) (fun v => Ok (emplace key v p))
    end))).
Proof.
  intros p kv p'. unfold as_text, text_of, accepted.
  destruct (as_string kv.1) as [k |]; simpl; [| split; [done | by intros (? & ? & ? & ? & _)]].
  destruct (as_string kv.2) as [t |]; simpl; [| split; [done | by intros (? & ? & ? & ? & _)]].
  split.
  - destruct (schema k) as [s |] eqn:Es; [| done]. destruct (option_text s k t) as [v | |] eqn:Ev; [| done | done].
    intros [= <-]. exists k, t, v. rewrite Es. simpl. by rewrite Ev.
  - intros (k' & t' & v & [= <- <-] & Hv & ->). destruct (schema k) as [s |]; [| done]. simpl in Hv.
    by destruct (option_text s k t); simplify_eq/=.
Qed.

Lemma entries_ok schema f p kvs p' :
  adds schema f ->
  foldM f p kvs = Ok p' <->
  exists l, mapM text_of kvs = Some l /\ (forall k t, (k, t) ∈ l -> is_Some (accepted schema k t)) /\
    forall k, p' !! k = match p !! k with Some v => Some v | None => map_find k l ≫= accepted schema k end.
Proof.
  intros Hf. revert p. induction kvs as [| kv kvs IH]; intros p; simpl.
  - split.
    + intros E. injection E as <-. exists []. split; [done |]. split; [by intros k t ?%elem_of_nil |].
      intros k. simpl. by destruct (p !! k).
    + intros (l & [= <-] & _ & Hp). f_equal. apply map_eq. intros k. rewrite Hp. simpl.
      by destruct (p !! k).
  - rewrite bind_Ok. split.
    + intros (p1 & (k & t & v & Ht & Hv & ->)%Hf & (l & Hl & Hacc & Hp')%IH). exists ((k, t) :: l).
      rewrite Ht. simpl. rewrite Hl. split; [done |]. split.
      { intros k1 t1 [E | Hin]%elem_of_cons; [simplify_eq; by eexists | by apply Hacc]. }
      intros k1. rewrite Hp', lookup_emplace. simpl. destruct (p !! k1); [done |].
      destruct (decide (k = k1)) as [-> |]; [done | done].
    + intros (l & Hl & Hacc & Hp'). destruct (text_of kv) as [[k t] |] eqn:Ht; [| done]. simpl in Hl.
      destruct (mapM text_of kvs) as [l' |] eqn:Hl'; [| done]. injection Hl as <-.
      destruct (Hacc k t) as [v Hv]; [apply list_elem_of_here |].
      exists (emplace k v p). split; [apply Hf; eauto 10 |]. apply IH. exists l'. split; [done |].
      split; [intros; by apply Hacc, list_elem_of_further |]. intros k1. rewrite Hp', lookup_emplace. simpl.
      destruct (p !! k1); [done |]. by destruct (decide (k = k1)) as [-> |].
Qed.

Lemma map_find_omap {X} (F : string -> string -> option X) l k :
  (forall k t, (k, t) ∈ l -> is_Some (F k t)) ->
  map_find k (omap (fun kt => pair kt.1 <$> F kt.1 kt.2) l) = map_find k l ≫= F k.
Proof.
  induction l as [| [k' t] l IH]; simpl; [done |]. intros Hall.
  destruct (Hall k' t (list_elem_of_here _ _)) as [v Hv]. rewrite Hv. simpl.
  destruct (decide (k' = k)) as [-> |]; [by rewrite <- Hv |].
  apply IH. intros k1 t1 Hin. by apply Hall, list_elem_of_further.
Qed.

(** The visitor of a group section accepts a document exactly when every key and value
    is a scalar, every key is an option of the group whose converter takes the text, and
    every mandatory option is there; an option then has the value of its first occurrence, or
    else its default value. *)
Theorem group_section_exact (name : string) (args : list (string * option_schema)) (config : node)
    (opts opts' : options_map) :
  visit_group name (map_of args) config opts = Ok opts' <->
  exists l grp, texts (items config) = Some l /\
    (forall k t, (k, t) ∈ l -> is_Some (accepted (group_option (map_of args)) k t)) /\
    (forall k s, map_find k (map_of args) = Some s -> m_mandatory s = true -> k ∈ l.*1) /\
    (forall k, grp !! k = match map_find k l with
                          | Some t => accepted (group_option (map_of args)) k t
                          | None => map_find k (map_of args) ≫= fun s => m_default_value (m_typed_value s)
                          end) /\
    opts' = emplace name (SectionGroup grp) opts.
Proof.
  set (g := map_of args). assert (Hn : NoDup g.*1) by apply map_of_nodup.
  unfold visit_group, texts. rewrite foldM_nested, bind_Ok.
  setoid_rewrite (entries_ok (group_option g)); [| apply (entry_adds (group_option g))].
  setoid_rewrite bind_Ok. split.
  - intros (p & (l & Hl & Hacc & Hp) & [] & Hm & [= <-]). exists l. eexists. split; [done |]. split; [done |].
    split; [| split; [| reflexivity]].
    + intros k s Hf Hs. rewrite check_mandatory_ok in Hm. destruct (Hm k) as [v Hv].
      { apply mandatory_options_elem; eauto. }
      rewrite Hp, lookup_empty in Hv. destruct (map_find k l) as [t |] eqn:Et; [| done].
      apply map_find_elem in Et. apply list_elem_of_fmap. by exists (k, t).
    + intros k. rewrite lookup_emplace_all, Hp, lookup_empty. rewrite find_default_values by done.
      destruct (map_find k l) as [t |] eqn:Et; [| done]. simpl. apply map_find_elem, Hacc in Et as [v Hv]. by rewrite Hv.
  - intros (l & grp & Hl & Hacc & Hm & Hg & ->).
    set (p := fold_left (fun p v => emplace v.1 v.2 p)
                (omap (fun kt => pair kt.1 <$> accepted (group_option g) kt.1 kt.2) l) (∅ : options_group)).
    assert (Hp : forall k, p !! k = map_find k l ≫= accepted (group_option g) k).
    { intros k. unfold p. rewrite lookup_emplace_all, lookup_empty. by apply map_find_omap. }
    exists p. split; [exists l; split; [done | split; [done |]]; intros k; by rewrite lookup_empty |].
    exists tt. split.
    + apply check_mandatory_ok. intros k (s & Hf & Hs)%mandatory_options_elem; [| done].
      specialize (Hm k s Hf Hs). rewrite Hp. destruct (map_find k l) as [t |] eqn:Et; [| by apply map_find_none in Et].
      by apply map_find_elem, Hacc in Et.
    + do 3 f_equal. apply map_eq. intros k. rewrite lookup_emplace_all, Hp, Hg, find_default_values by done.
      destruct (map_find k l) as [t |] eqn:Et; [| done]. simpl. apply map_find_elem, Hacc in Et as [v Hv]. by rewrite Hv.
Qed.

(** ** Sections that are lists *)

(** What one entry of a list section is parsed to. *)
Definition list_group (g : list (string * option_schema)) (entry : node) (grp : options_group) : Prop :=
  exists l, texts (items entry) = Some l /\
    (forall k t, (k, t) ∈ l -> is_Some (accepted (list_option g) k t)) /\
    forall k, grp !! k = map_find k l ≫= accepted (list_option g) k.

Lemma list_group_ok name g entry grp :
  foldM (fun grp subentry => foldM (list_entry name g) grp (fields subentry)) ∅ (items entry) = Ok grp
  <-> list_group g entry grp.
Proof.
  rewrite foldM_nested, (entries_ok (list_option g)); [| apply (entry_adds (list_option g))].
  unfold list_group, texts. setoid_rewrite lookup_empty. done.
Qed.

Lemma list_groups_ok name g parsed entries r :
  foldM (fun parsed entry =>
    bind (foldM (fun grp subentry => foldM (list_entry name g) grp (fields subentry)) ∅ (items entry))
      (fun grp => Ok (parsed ++ [grp]))) parsed entries = Ok r
  <-> exists gs, Forall2 (list_group g) entries gs /\ r = parsed ++ gs.
Proof.
  revert parsed. induction entries as [| e entries IH]; intros parsed; cbn [foldM].
  - split.
    + intros [= <-]. exists []. by rewrite app_nil_r.
    + intros (gs & HF & ->). inversion HF. by rewrite app_nil_r.
  - rewrite bind_Ok. split.
    + intros (p1 & (grp & Hg & [= <-])%bind_Ok & (gs & HF & ->)%IH). exists (grp :: gs). rewrite <- app_assoc.
      split; [| done]. constructor; [| done]. by apply (list_group_ok name).
    + intros (gs & HF & ->). inversion HF as [| ? grp ? gs' Hg HF']. subst. exists (parsed ++ [grp]). split.
      * apply bind_Ok. exists grp. split; [by apply list_group_ok | done].
      * apply IH. exists gs'. by rewrite <- app_assoc.
Qed.

(** The visitor of a list section accepts a document exactly when every key and value is
    a scalar and every key is an option of the list, or the list takes any option, and the
    converter takes the text; the result has one group per entry. Whether an option is
    mandatory, and its default value, do not matter. *)
Theorem list_section_exact (name : string) (g : list (string * option_schema)) (config : node)
    (opts opts' : options_map) :
  visit_list name g config opts = Ok opts' <->
  exists gs, Forall2 (list_group g) (items config) gs /\ opts' = emplace name (SectionList gs) opts.
Proof.
  unfold visit_list. rewrite bind_Ok. setoid_rewrite list_groups_ok. split.
  - intros (r & (gs & HF & ->) & [= <-]). by exists gs.
  - intros (gs & HF & ->). exists gs. split; [by exists gs | done].
Qed.

End Entries.

(** The sections are parsed in the order of their names. *)
Lemma config_schema_order : config_schema =
  [("backends", SectionSchema true (list_schema (map_of backend_list)));
   ("global-settings", SectionSchema true (group_schema (map_of global_options)));
   ("resources", SectionSchema true (list_schema (map_of resource_list)))].
Proof. reflexivity. Qed.

(** A document that is accepted has the three sections, parsed as above. *)
Lemma config_sections {node : Type} `{Yaml node} file opts :
  parse_yaml_file file config_schema ∅ = Ok opts ->
  exists doc nb sec nr l grp bs rs, load_file file = Some doc /\ subnode doc "backends" = Some nb /\
    subnode doc "global-settings" = Some sec /\ subnode doc "resources" = Some nr /\
    Forall2 (list_group (map_of backend_list)) (items nb) bs /\
    Forall2 (list_group (map_of resource_list)) (items nr) rs /\
    texts (items sec) = Some l /\
    (forall k t, (k, t) ∈ l -> is_Some (accepted (group_option (map_of global_options)) k t)) /\
    (forall k s, map_find k (map_of global_options) = Some s -> m_mandatory s = true -> k ∈ l.*1) /\
    (forall k, grp !! k = match map_find k l with
                          | Some t => accepted (group_option (map_of global_options)) k t
                          | None => map_find k (map_of global_options) ≫= fun s => m_default_value (m_typed_value s)
                          end) /\
    get_list "backends" opts = Ok bs /\ get_group "global-settings" opts = Ok grp /\ get_list "resources" opts = Ok rs.
Proof.
  unfold parse_yaml_file. rewrite config_schema_order. destruct (load_file file) as [doc |]; [| done].
  cbn [foldM]. rewrite !bind_Ok. unfold parse_section. cbn [fst snd s_mandatory s_schema].
  intros (o1 & H1 & H2). apply bind_Ok in H2 as (o2 & H2 & H3). apply bind_Ok in H3 as (o3 & H3 & [= <-]).
  destruct (subnode doc "backends") as [nb |] eqn:Eb; [| done]. destruct (subnode doc "global-settings") as [ng |] eqn:Eg; [| done].
  destruct (subnode doc "resources") as [nr |] eqn:Er; [| done].
  apply list_section_exact in H1 as (bs & Hbs & ->). apply list_section_exact in H3 as (rs & Hrs & ->).
  apply group_section_exact in H2 as (l & grp & Hl & Hacc & Hm & Hg & ->).
  exists doc, nb, ng, nr, l, grp, bs, rs. unfold get_list, get_group. rewrite !lookup_emplace, lookup_empty. by split_and!.
Qed.

End Options.
