(* ===== verification/Settings.v ===== *)
(** * Settings: src/settings/settings.h and settings.cpp

    The command line and the configuration file. An operation on the settings ends normally,
    with an exception, with the end of the process, with a failed assertion, or with undefined
    behaviour; the settings an exception leaves behind are part of its result. The results of
    [getopt_long] are the input of the model, the YAML library is the class of [Options], and
    the equality of paths is boost's. *)
From S2P Require Import Prelude Parsers Options.
From Stdlib Require Import Ascii String.
From stdpp Require Import base list numbers option strings gmap.
Local Open Scope string_scope.
Local Open Scope Z_scope.
Local Open Scope list_scope.

Module Settings.
Import Parsers Options.

(** A [const char*] of [m_fuse_argv]: null, a string of its own, or one that was freed. *)
Inductive cptr := Null | Str (s : string) | Freed.
#[export] Instance cptr_eq_dec : EqDecision cptr.
Proof. solve_decision. Defined.

Definition s_max_fuse_args : nat := 32.
(** The size of a pointer. *)
Definition pointer_size : nat := 8.

Record backend_options := BackendOptions {
  b_id : string; b_type : string; b_capacity : Z; b_root_dir : string; b_mount_dir : string;
  b_results_dir : string; b_extra_options : gmap string string }.

Record settings := Build {
  m_exec_name : string; m_daemonize : bool; m_debug : bool;
  m_root_dir : string; m_mount_dir : string; m_results_dir : string; m_config_file : string;
  m_log_file : string; m_workers : Z; m_transfer_size : Z; m_api_sockfile : string;
  m_backend_opts : gmap string backend_options; m_resources : list (gmap string string);
  m_fuse_argc : Z; m_fuse_argv : list cptr }.

Definition set_exec (x : string) (s : settings) : settings :=
  Build x (m_daemonize s) (m_debug s) (m_root_dir s) (m_mount_dir s) (m_results_dir s) (m_config_file s)
    (m_log_file s) (m_workers s) (m_transfer_size s) (m_api_sockfile s) (m_backend_opts s) (m_resources s)
    (m_fuse_argc s) (m_fuse_argv s).
Definition set_modes (daemonize debug : bool) (s : settings) : settings :=
  Build (m_exec_name s) daemonize debug (m_root_dir s) (m_mount_dir s) (m_results_dir s) (m_config_file s)
    (m_log_file s) (m_workers s) (m_transfer_size s) (m_api_sockfile s) (m_backend_opts s) (m_resources s)
    (m_fuse_argc s) (m_fuse_argv s).
Definition set_root (x : string) (s : settings) : settings :=
  Build (m_exec_name s) (m_daemonize s) (m_debug s) x (m_mount_dir s) (m_results_dir s) (m_config_file s)
    (m_log_file s) (m_workers s) (m_transfer_size s) (m_api_sockfile s) (m_backend_opts s) (m_resources s)
    (m_fuse_argc s) (m_fuse_argv s).
Definition set_mount (x : string) (s : settings) : settings :=
  Build (m_exec_name s) (m_daemonize s) (m_debug s) (m_root_dir s) x (m_results_dir s) (m_config_file s)
    (m_log_file s) (m_workers s) (m_transfer_size s) (m_api_sockfile s) (m_backend_opts s) (m_resources s)
    (m_fuse_argc s) (m_fuse_argv s).
Definition set_results (x : string) (s : settings) : settings :=
  Build (m_exec_name s) (m_daemonize s) (m_debug s) (m_root_dir s) (m_mount_dir s) x (m_config_file s)
    (m_log_file s) (m_workers s) (m_transfer_size s) (m_api_sockfile s) (m_backend_opts s) (m_resources s)
    (m_fuse_argc s) (m_fuse_argv s).
Definition set_config (x : string) (s : settings) : settings :=
  Build (m_exec_name s) (m_daemonize s) (m_debug s) (m_root_dir s) (m_mount_dir s) (m_results_dir s) x
    (m_log_file s) (m_workers s) (m_transfer_size s) (m_api_sockfile s) (m_backend_opts s) (m_resources s)
    (m_fuse_argc s) (m_fuse_argv s).
Definition set_log (x : string) (s : settings) : settings :=
  Build (m_exec_name s) (m_daemonize s) (m_debug s) (m_root_dir s) (m_mount_dir s) (m_results_dir s) (m_config_file s)
    x (m_workers s) (m_transfer_size s) (m_api_sockfile s) (m_backend_opts s) (m_resources s)
    (m_fuse_argc s) (m_fuse_argv s).
Definition set_pool (workers transfer : Z) (s : settings) : settings :=
  Build (m_exec_name s) (m_daemonize s) (m_debug s) (m_root_dir s) (m_mount_dir s) (m_results_dir s) (m_config_file s)
    (m_log_file s) workers transfer (m_api_sockfile s) (m_backend_opts s) (m_resources s)
    (m_fuse_argc s) (m_fuse_argv s).
Definition set_backends (b : gmap string backend_options) (s : settings) : settings :=
  Build (m_exec_name s) (m_daemonize s) (m_debug s) (m_root_dir s) (m_mount_dir s) (m_results_dir s) (m_config_file s)
    (m_log_file s) (m_workers s) (m_transfer_size s) (m_api_sockfile s) b (m_resources s)
    (m_fuse_argc s) (m_fuse_argv s).
Definition set_resources (r : list (gmap string string)) (s : settings) : settings :=
  Build (m_exec_name s) (m_daemonize s) (m_debug s) (m_root_dir s) (m_mount_dir s) (m_results_dir s) (m_config_file s)
    (m_log_file s) (m_workers s) (m_transfer_size s) (m_api_sockfile s) (m_backend_opts s) r
    (m_fuse_argc s) (m_fuse_argv s).
Definition set_fuse (argc : Z) (argv : list cptr) (s : settings) : settings :=
  Build (m_exec_name s) (m_daemonize s) (m_debug s) (m_root_dir s) (m_mount_dir s) (m_results_dir s) (m_config_file s)
    (m_log_file s) (m_workers s) (m_transfer_size s) (m_api_sockfile s) (m_backend_opts s) (m_resources s)
    argc argv.

(** ** Construction, copy, move and destruction *)

(** [settings::settings()]; [api_sockfile] is [defaults::api_sockfile]. *)
Definition settings_new (api_sockfile : string) : settings :=
  Build "none" false false "none" "none" "none" "none" "none" 0 0 api_sockfile ∅ [] 0
    (replicate s_max_fuse_args Null).

(** [strndup] of an argument, and [free] of one that is not null. *)
Definition dup_arg (p : cptr) : option cptr := match p with Freed => None | p => Some p end.
Definition free_arg (p : cptr) : option cptr :=
  match p with Null => Some Null | Str _ => Some Freed | Freed => None end.

(** [settings::settings(const settings&)] *)
Definition settings_copy (other : settings) : option settings :=
  argv ← mapM dup_arg (m_fuse_argv other); Some (set_fuse (m_fuse_argc other) argv other).

(** [memset(m_fuse_argv, 0, s_max_fuse_args)]: the third argument is a number of bytes. *)
Definition memset_argv (argv : list cptr) : list cptr :=
  let n := (s_max_fuse_args / pointer_size)%nat in replicate n Null ++ drop n argv.

(** [settings::reset()] *)
Definition settings_reset (s : settings) : option settings :=
  argv ← mapM free_arg (m_fuse_argv s);
  Some (Build "none" false false "none" "none" "none" "none" "none" 0 0 (m_api_sockfile s)
          (m_backend_opts s) (m_resources s) 0 (memset_argv argv)).

(** [settings::operator=(settings&& other)] for two objects; the arguments move over. *)
Definition settings_move (this other : settings) : option settings :=
  this ← settings_reset this;
  Some (Build (m_exec_name other) (m_daemonize other) (m_debug other) (m_root_dir other) (m_mount_dir other)
          (m_results_dir other) (m_config_file other) (m_log_file other) (m_workers other)
          (m_transfer_size other) (m_api_sockfile other) (m_backend_opts other) (m_resources other)
          (m_fuse_argc other) (m_fuse_argv other)).

(** [settings::~settings()] *)
Definition settings_destroy (s : settings) : option unit :=
  _ ← mapM free_arg (m_fuse_argv s); Some tt.

(** ** The effects of the parser *)

Inductive out (X : Type) :=
  | Done (x : X) (s : settings)
  | Raised (e : exn) (s : settings)
  | Exited
  | AssertFailed
  | Undefined.
Arguments Done {X} x s.
Arguments Raised {X} e s.
Arguments Exited {X}.
Arguments AssertFailed {X}.
Arguments Undefined {X}.

Definition M (X : Type) : Type := settings -> out X.
Definition ret {X} (x : X) : M X := fun s => Done x s.
Definition raise {X} (e : exn) : M X := fun s => Raised e s.
Definition mbind {X Y} (c : M X) (k : X -> M Y) : M Y := fun s =>
  match c s with
  | Done x s' => k x s'
  | Raised e s' => Raised e s'
  | Exited => Exited
  | AssertFailed => AssertFailed
  | Undefined => Undefined
  end.
Notation "x <-- c ;; k" := (mbind c (fun x => k)) (at level 60, c at next level, right associativity).
Notation "c ;;; k" := (mbind c (fun _ => k)) (at level 60, right associativity).
Definition get : M settings := fun s => Done s s.
Definition modify (f : settings -> settings) : M unit := fun s => Done tt (f s).
Definition lift {X} (r : res X) : M X := fun s =>
  match r with Ok x => Done x s | Throw e => Raised e s | Undef => Undefined end.
Definition when (b : bool) (c : M unit) : M unit := if b then c else ret tt.
Fixpoint for_each {X} (f : X -> M unit) (l : list X) : M unit :=
  match l with [] => ret tt | x :: l => f x ;;; for_each f l end.

Section Load.
Context {node : Type} `{Yaml node}.

(** The options of a group as a [kv_list]; [known] are ignored. *)
Definition kv_options (known : list string) (g : gmap string any) : res (gmap string string) :=
  foldM (fun acc kv => if decide (kv.1 ∈ known) then Ok acc
                       else bind (any_string kv.2) (fun v => Ok (emplace kv.1 v acc))) ∅ (map_to_list g).

(** The loop over the backends. *)
Definition load_backend (pb : gmap string any) : M unit :=
  id <-- lift (get_as any_string "id" pb) ;;
  type <-- lift (get_as any_string "type" pb) ;;
  capacity <-- lift (get_as any_u32 "capacity" pb) ;;
  extra <-- lift (kv_options ["id"; "type"; "capacity"] pb) ;;
  modify (fun s => set_backends
    (emplace id (BackendOptions id type capacity (m_root_dir s) (m_mount_dir s) (m_results_dir s) extra)
       (m_backend_opts s)) s).

(** The loop over the resources. *)
Definition load_resource (r : gmap string any) : M unit :=
  opts <-- lift (kv_options [] r) ;;
  modify (fun s => set_resources (m_resources s ++ [opts]) s).

(** The global settings: the command line has precedence. *)
Definition load_global (g : gmap string any) : M unit :=
  s <-- get ;;
  when (bool_decide (m_root_dir s = "none")) (p <-- lift (get_as any_path "root-dir" g) ;; modify (set_root p)) ;;;
  when (bool_decide (m_mount_dir s = "none")) (p <-- lift (get_as any_path "mount-dir" g) ;; modify (set_mount p)) ;;;
  when (bool_decide (m_results_dir s = "none") && bool_decide (is_Some (g !! "results-dir")))
    (p <-- lift (get_as any_path "results-dir" g) ;; modify (set_results p)) ;;;
  when (bool_decide (m_log_file s = "none") && bool_decide (is_Some (g !! "log-file")) && negb (m_debug s))
    (p <-- lift (get_as any_path "log-file" g) ;; modify (set_log p)) ;;;
  w <-- lift (get_as any_u32 "workers" g) ;;
  modify (fun s => set_pool w (m_transfer_size s) s) ;;;
  t <-- lift (get_as any_u32 "transfer-size" g) ;;
  modify (fun s => set_pool (m_workers s) t s).

(** [settings::load_from_yaml_file(config_file)] *)
Definition load_from_yaml_file (config_file : string) : M unit :=
  opts <-- lift (parse_yaml_file config_file config_schema ∅) ;;
  g <-- lift (get_group "global-settings" opts) ;;
  load_global g ;;;
  bs <-- lift (get_list "backends" opts) ;;
  for_each load_backend bs ;;;
  rs <-- lift (get_list "resources" opts) ;;
  for_each load_resource rs.

End Load.

Section Cmdline.
Context {node : Type} `{Yaml node}.

(** ** The command line *)

(** [push_arg(arg)] and [push_arg(arg, pos)]. *)
Definition push_arg (arg : cptr) : M unit := fun s =>
  if m_fuse_argc s <? Z.of_nat s_max_fuse_args
  then Done tt (set_fuse (m_fuse_argc s + 1) (<[Z.to_nat (m_fuse_argc s) := arg]> (m_fuse_argv s)) s)
  else AssertFailed.
Definition push_arg_at (arg : cptr) (pos : nat) : M unit := fun s =>
  if m_fuse_argc s <? Z.of_nat s_max_fuse_args
  then Done tt (if (s_max_fuse_args <=? pos)%nat then s
                else set_fuse (m_fuse_argc s) (<[pos := arg]> (m_fuse_argv s)) s)
  else AssertFailed.

(** A result of [getopt_long], with [optarg]; for an invalid option it is the text that the
    message quotes. *)
Record event := Event { e_rv : ascii; e_optarg : string }.

(** The [switch] over the options. *)
Definition process_option (e : event) : M unit :=
  match e_rv e with
  | "r"%char => modify (set_root (e_optarg e))
  | "m"%char => modify (set_mount (e_optarg e))
  | "c"%char => modify (set_config (e_optarg e))
  | "f"%char => modify (fun s => set_modes false (m_debug s) s) ;;; push_arg (Str "-f")
  | "d"%char => modify (set_modes false true) ;;; push_arg (Str "-f")
  | "l"%char => modify (set_log (e_optarg e))
  | "D"%char => push_arg (Str "-d")
  | "S"%char => push_arg (Str "-s")
  | "h"%char | "H"%char | "V"%char => fun _ => Exited
  | "o"%char => push_arg (Str "-o") ;;; push_arg (Str (e_optarg e))
  | "?"%char => raise (InvalidArgument ("Invalid option: " +:+ e_optarg e))
  | ":"%char => raise (InvalidArgument "Missing parameter")
  | _ => ret tt
  end.

(** The text of an exception: [other_what] for those of the libraries. *)
Context (other_what : exn -> string).
Definition what (e : exn) : string :=
  match e with InvalidArgument w | RuntimeError w => w | _ => other_what e end.

Definition newline : string := String (ascii_of_nat 10) "".
Definition config_error (e : exn) : exn :=
  InvalidArgument ("Errors detected in configuration file. Ignored." +:+ newline +:+ "    [" +:+ what e +:+ "]").

(** The configuration file is loaded on a backup, which is moved back after an exception. *)
Definition apply_config_file : M unit := fun s =>
  if decide (m_config_file s = "none") then Done tt s
  else
    match settings_copy s with
    | None => Undefined
    | Some backup =>
        match load_from_yaml_file (m_config_file s) s with
        | Raised e s' =>
            match settings_move s' backup with
            | Some s'' => Raised (config_error e) s''
            | None => Undefined
            end
        | r => r
        end
    end.

(** The backend of a start without a configuration file. *)
Definition default_backend (s : settings) : settings :=
  if decide (m_config_file s = "none")
  then set_backends (emplace "nvml://" (BackendOptions "nvml://" "NVRAM-NVML" 12000000 (m_root_dir s)
         (m_mount_dir s) (m_results_dir s) {["daxfs" := "/tmp"]}) (m_backend_opts s)) s
  else s.

Context (path_eq : string -> string -> bool) (fuse3 : bool).
Definition fuse_options : string := if fuse3 then "attr_timeout=0" else "nonempty,attr_timeout=0,big_writes".

(** [settings::from_cmdline(argc, argv)]: [exec_name] is the base name of [argv[0]], [events]
    the results of [getopt_long] and [rest] the arguments behind the options. The mount point
    is filled in at the end. *)
Definition cmdline_body (exec_name : string) (events : list event) (rest : list string) : M unit :=
  modify (set_exec exec_name) ;;;
  push_arg (Str exec_name) ;;;
  modify (fun s => set_modes true (m_debug s) s) ;;;
  push_arg Null ;;;
  for_each process_option events ;;;
  apply_config_file ;;;
  s <-- get ;;
  (if path_eq (m_root_dir s) (m_mount_dir s)
   then raise (InvalidArgument "The root directory and the mount point must be different.") else ret tt) ;;;
  modify default_backend ;;;
  push_arg (Str "-o") ;;;
  push_arg (Str fuse_options) ;;;
  match rest with a :: _ => push_arg (Str a) | [] => ret tt end.
Definition from_cmdline (exec_name : string) (events : list event) (rest : list string) : M unit :=
  cmdline_body exec_name events rest ;;;
  s <-- get ;;
  push_arg_at (Str (m_mount_dir s)) 1.

End Cmdline.

(** ** What the configuration file keeps and sets *)

(** What the configuration file cannot change. *)
Definition frame (s : settings) : string * bool * bool * string * string * Z * list cptr :=
  (m_exec_name s, m_daemonize s, m_debug s, m_config_file s, m_api_sockfile s, m_fuse_argc s, m_fuse_argv s).

(** A computation that keeps what [proj] shows, whether it ends normally or with an exception. *)
Definition keeps {X P} (proj : settings -> P) (c : M X) : Prop := forall s,
  match c s with
  | Done _ s' | Raised _ s' => proj s' = proj s
  | Undefined => True
  | _ => False
  end.

Section Keeps.
Context {P : Type} (proj : settings -> P).
Lemma keeps_bind {X Y} (c : M X) (k : X -> M Y) : keeps proj c -> (forall x, keeps proj (k x)) -> keeps proj (mbind c k).
Proof.
  intros Hc Hk s. unfold mbind. specialize (Hc s). destruct (c s) as [x s' | | | |]; try done.
  specialize (Hk x s'). rewrite <- Hc. done.
Qed.
Lemma keeps_ret {X} (x : X) : keeps proj (ret x).
Proof. done. Qed.
Lemma keeps_get : keeps proj get.
Proof. done. Qed.
Lemma keeps_lift {X} (r : res X) : keeps proj (lift r).
Proof. intros s. by destruct r. Qed.
Lemma keeps_modify f : (forall s, proj (f s) = proj s) -> keeps proj (modify f).
Proof. intros Hf s. apply Hf. Qed.
Lemma keeps_when b c : keeps proj c -> keeps proj (when b c).
Proof. by destruct b. Qed.
Lemma keeps_for_each {X} (f : X -> M unit) l : (forall x, keeps proj (f x)) -> keeps proj (for_each f l).
Proof. intros Hf. induction l as [| x l IH]; simpl; [apply keeps_ret |]. by apply keeps_bind. Qed.
End Keeps.

Ltac keeping :=
  repeat first
    [ apply keeps_ret | apply keeps_get | apply keeps_lift | apply keeps_when
    | apply keeps_modify; intros ?; reflexivity
    | apply keeps_for_each; intros ?
    | apply keeps_bind; [| intros ?] ].

Lemma load_keeps_frame {node : Type} `{Yaml node} file : keeps frame (load_from_yaml_file file).
Proof.
  unfold load_from_yaml_file, load_global. keeping; unfold load_backend, load_resource; keeping.
Qed.

Section Loaded.
Context {node : Type} `{Yaml node}.

Lemma mbind_Done {X Y} (c : M X) (k : X -> M Y) s y s' :
  mbind c k s = Done y s' -> exists x s1, c s = Done x s1 /\ k x s1 = Done y s'.
Proof. unfold mbind. destruct (c s) as [x s1 | | | |]; try done. eauto. Qed.
Lemma lift_Done {X} (r : res X) s x s' : lift r s = Done x s' -> r = Ok x /\ s' = s.
Proof. destruct r; simpl; naive_solver. Qed.
Lemma modify_Done f s x s' : modify f s = Done x s' -> s' = f s.
Proof. by intros [= <-]. Qed.
Ltac invert_done :=
  repeat match goal with
  | H : mbind _ _ _ = Done _ _ |- _ => apply mbind_Done in H as (? & ? & ? & ?)
  | H : lift _ _ = Done _ _ |- _ => apply lift_Done in H as [? ->]
  | H : modify _ _ = Done _ _ |- _ => apply modify_Done in H; subst
  | H : get _ = Done _ _ |- _ => injection H as <- <-
  | H : ret _ _ = Done _ _ |- _ => injection H as <- <-
  end.

(** An optional assignment: what is assigned, or nothing. *)
Lemma when_assign b (r : res string) (set : string -> settings -> settings) s x s' :
  when b (p <-- lift r ;; modify (set p)) s = Done x s' ->
  b = true /\ (exists p, r = Ok p /\ s' = set p s) \/ b = false /\ s' = s.
Proof. destruct b; simpl; intros E; invert_done; naive_solver. Qed.

Lemma load_global_ok g s x s' :
  load_global g s = Done x s' ->
  (if bool_decide (m_root_dir s = "none") then get_as any_path "root-dir" g = Ok (m_root_dir s')
   else m_root_dir s' = m_root_dir s) /\
  (if bool_decide (m_mount_dir s = "none") then get_as any_path "mount-dir" g = Ok (m_mount_dir s')
   else m_mount_dir s' = m_mount_dir s) /\
  (if bool_decide (m_results_dir s = "none") && bool_decide (is_Some (g !! "results-dir"))
   then get_as any_path "results-dir" g = Ok (m_results_dir s') else m_results_dir s' = m_results_dir s) /\
  (if bool_decide (m_log_file s = "none") && bool_decide (is_Some (g !! "log-file")) && negb (m_debug s)
   then get_as any_path "log-file" g = Ok (m_log_file s') else m_log_file s' = m_log_file s) /\
  get_as any_u32 "workers" g = Ok (m_workers s') /\ get_as any_u32 "transfer-size" g = Ok (m_transfer_size s') /\
  m_backend_opts s' = m_backend_opts s /\ m_resources s' = m_resources s /\ frame s' = frame s.
Proof.
  unfold load_global. intros E. apply mbind_Done in E as (s0 & s0' & [= <- <-] & E).
  apply mbind_Done in E as (? & s1 & E1 & E). apply mbind_Done in E as (? & s2 & E2 & E).
  apply mbind_Done in E as (? & s3 & E3 & E). apply mbind_Done in E as (? & s4 & E4 & E). invert_done.
  apply when_assign in E1, E2, E3, E4.
  destruct E1 as [[-> (? & ? & ->)] | [-> ->]], E2 as [[-> (? & ? & ->)] | [-> ->]],
    E3 as [[-> (? & ? & ->)] | [-> ->]], E4 as [[-> (? & ? & ->)] | [-> ->]]; by split_and!.
Qed.

(** *** The key-value lists of backends and resources *)

Definition any_text (v : any) : option string := match v with AnyString t => Some t | _ => None end.

Lemma kv_fold_ok (known : list string) l : forall acc m,
  foldM (fun acc kv => if decide (kv.1 ∈ known) then Ok acc
                       else bind (any_string kv.2) (fun v => Ok (emplace kv.1 v acc))) acc l = Ok m ->
  forall k, m !! k = match acc !! k with
                     | Some y => Some y
                     | None => if decide (k ∈ known) then None else map_find k l ≫= any_text
                     end.
Proof.
  induction l as [| [k' v] l IH]; intros acc m E k; cbn [foldM map_find fst snd] in *.
  - injection E as <-. destruct (acc !! k); [done |]. by destruct (decide _).
  - apply bind_Ok in E as (acc' & Ea & E). rewrite (IH _ _ E). destruct (decide (k' ∈ known)) as [Hk | Hk].
    + injection Ea as <-. destruct (acc !! k); [done |]. destruct (decide (k ∈ known)) as [| Hn]; [done |].
      by rewrite (decide_False (P := k' = k)) by congruence.
    + apply bind_Ok in Ea as (t & Et & [= <-]). destruct v as [t' | |]; simplify_eq/=. rewrite lookup_emplace.
      destruct (acc !! k); [done |]. destruct (decide (k' = k)) as [-> |]; [by rewrite decide_False | done].
Qed.

Lemma map_find_to_list (g : gmap string any) k : map_find k (map_to_list g) = g !! k.
Proof.
  destruct (g !! k) as [v |] eqn:E.
  - apply map_find_nodup; [apply NoDup_fst_map_to_list | by apply elem_of_map_to_list].
  - apply map_find_none. intros ([k' v] & -> & Hin)%list_elem_of_fmap. apply elem_of_map_to_list in Hin. simpl in E. congruence.
Qed.

Lemma kv_options_ok known g m : kv_options known g = Ok m ->
  forall k, m !! k = if decide (k ∈ known) then None else g !! k ≫= any_text.
Proof.
  intros E k. unfold kv_options in E. rewrite (kv_fold_ok _ _ _ _ E), lookup_empty. by rewrite map_find_to_list.
Qed.

(** What the schemas of the lists make of a text. *)
Lemma converted {T} (c : T -> any) (p : string -> string -> res T) k t v :
  match to_any c p k t with Ok v => Some v | _ => None end = Some v -> exists x, v = c x /\ p k t = Ok x.
Proof. unfold to_any. destruct (p k t) as [x | |]; simpl; naive_solver. Qed.
Lemma backend_accepts k t v : accepted (list_option (map_of backend_list)) k t = Some v ->
  if decide (k = "capacity") then exists n, v = AnyU32 n /\ size_parser k t = Ok n else v = AnyString t.
Proof.
  unfold accepted, list_option. change (map_of backend_list) with
    [declare_option match_any false None None; declare_option "capacity" true None (Some (to_any AnyU32 size_parser));
     declare_option "id" true None None; declare_option "type" true None None].
  unfold declare_option. cbn [map_find].
  destruct (decide (match_any = k)) as [<- |]; [by intros [= <-] |].
  destruct (decide ("capacity" = k)) as [<- |].
  { intros (z & -> & Hz)%converted. by exists z. }
  destruct (decide (k = "capacity")) as [-> |]; [done |].
  destruct (decide ("id" = k)); [by intros [= <-] |]. destruct (decide ("type" = k)); by intros [= <-].
Qed.
Lemma resource_accepts k t v : accepted (list_option (map_of resource_list)) k t = Some v -> v = AnyString t.
Proof.
  unfold accepted, list_option. change (map_of resource_list) with
    [declare_option "backend" true None None; declare_option "flags" true None None; declare_option "path" true None None].
  unfold declare_option. cbn [map_find].
  repeat (destruct (decide _); [by intros [= <-] |]). done.
Qed.

(** The backend that an entry of the file describes: its identifier, its type and its
    capacity are mandatory, the other options are kept as they are written, and the
    directories are those of the settings. *)
Definition backend_from (s : settings) (entry : node) (kb : string * backend_options) : Prop :=
  exists l, texts (items entry) = Some l /\
    map_find "id" l = Some kb.1 /\ b_id kb.2 = kb.1 /\ map_find "type" l = Some (b_type kb.2) /\
    (exists t, map_find "capacity" l = Some t /\ size_parser "capacity" t = Ok (b_capacity kb.2)) /\
    (forall k, b_extra_options kb.2 !! k = if decide (k ∈ ["id"; "type"; "capacity"]) then None else map_find k l) /\
    b_root_dir kb.2 = m_root_dir s /\ b_mount_dir kb.2 = m_mount_dir s /\ b_results_dir kb.2 = m_results_dir s.

(** The resource that an entry of the file describes: its options, as they are written. *)
Definition resource_from (entry : node) (opts : gmap string string) : Prop :=
  exists l, texts (items entry) = Some l /\ forall k, opts !! k = map_find k l.

Definition globals (s : settings) : string * string * string * string * Z * Z :=
  (m_root_dir s, m_mount_dir s, m_results_dir s, m_log_file s, m_workers s, m_transfer_size s).

Lemma get_string_ok k (g : gmap string any) t : get_as any_string k g = Ok t -> g !! k = Some (AnyString t).
Proof. unfold get_as. destruct (g !! k) as [[] |]; simpl; naive_solver. Qed.

Lemma load_backend_ok entry pb s x s' :
  list_group (map_of backend_list) entry pb -> load_backend pb s = Done x s' ->
  exists kb, backend_from s entry kb /\ s' = set_backends (emplace kb.1 kb.2 (m_backend_opts s)) s.
Proof.
  intros (l & Hl & Hacc & Hpb) E. unfold load_backend in E. invert_done.
  match goal with H : get_as any_string "id" pb = Ok ?i |- _ => rename i into id; rename H into Hid end.
  match goal with H : get_as any_string "type" pb = Ok ?i |- _ => rename i into type; rename H into Hty end.
  match goal with H : get_as any_u32 "capacity" pb = Ok ?i |- _ => rename i into cap; rename H into Hcap end.
  match goal with H : kv_options _ pb = Ok ?i |- _ => rename i into extra; rename H into Hex end.
  exists (id, BackendOptions id type cap (m_root_dir s) (m_mount_dir s) (m_results_dir s) extra).
  split; [| done]. exists l.
  assert (Hstr : forall k t, k <> "capacity" -> pb !! k = Some (AnyString t) -> map_find k l = Some t).
  { intros k t Hk Ht. rewrite Hpb in Ht. destruct (map_find k l) as [t' |]; [| done].
    apply backend_accepts in Ht. rewrite decide_False in Ht by done. by simplify_eq. }
  split_and!; try done.
  - by apply Hstr, get_string_ok.
  - by apply Hstr, get_string_ok.
  - unfold get_as in Hcap. rewrite Hpb in Hcap. destruct (map_find "capacity" l) as [t |]; [| done].
    exists t. split; [done |]. cbn [base.mbind option_bind] in Hcap.
    destruct (accepted (list_option (map_of backend_list)) "capacity" t) as [v |] eqn:Ea; [| done].
    apply backend_accepts in Ea. rewrite decide_True in Ea by done. destruct Ea as (n & -> & Hn). by simplify_eq/=.
  - intros k. cbn [b_extra_options snd]. rewrite (kv_options_ok _ _ _ Hex). destruct (decide _) as [| Hk]; [done |].
    rewrite Hpb. destruct (map_find k l) as [t |] eqn:Et; [| done]. simpl.
    destruct (Hacc k t) as [v Hv]; [by apply map_find_elem |]. rewrite Hv. simpl.
    apply backend_accepts in Hv. rewrite decide_False in Hv by set_solver. by subst v.
Qed.

Lemma load_backends_ok entries bs : forall s x s',
  Forall2 (list_group (map_of backend_list)) entries bs -> for_each load_backend bs s = Done x s' ->
  globals s' = globals s /\ frame s' = frame s /\ m_resources s' = m_resources s /\
  exists kbs, Forall2 (backend_from s') entries kbs /\
    forall id, m_backend_opts s' !! id = match m_backend_opts s !! id with Some b => Some b | None => map_find id kbs end.
Proof.
  revert entries. induction bs as [| pb bs IH]; intros entries s x s' HF E.
  - apply Forall2_nil_inv_r in HF as ->. simpl in E. invert_done. split_and!; try done. exists [].
    split; [constructor |]. intros id. by destruct (_ !! id).
  - apply Forall2_cons_inv_r in HF as (e & entries' & He & HF & ->). cbn [for_each] in E.
    apply mbind_Done in E as (? & s1 & E1 & E). destruct (load_backend_ok _ _ _ _ _ He E1) as ([i b] & Hb & ->).
    destruct (IH _ _ _ _ HF E) as (HG & HFr & HR & kbs & Hk & Hl). split_and!; [done | done | done |].
    exists ((i, b) :: kbs). split.
    + constructor; [| done]. injection HG as G1 G2 G3 _ _ _. destruct Hb as (l & ? & ? & ? & ? & ? & ? & R1 & R2 & R3).
      exists l. split_and!; first [done | congruence].
    + intros id. rewrite Hl. cbn [m_backend_opts set_backends map_find]. rewrite lookup_emplace. simpl.
      destruct (m_backend_opts s !! id); [done |]. by destruct (decide (i = id)).
Qed.

Lemma load_resources_ok entries rs : forall s x s',
  Forall2 (list_group (map_of resource_list)) entries rs -> for_each load_resource rs s = Done x s' ->
  exists added, Forall2 resource_from entries added /\ m_resources s' = m_resources s ++ added.
Proof.
  revert entries. induction rs as [| r rs IH]; intros entries s x s' HF E.
  - apply Forall2_nil_inv_r in HF as ->. simpl in E. invert_done. exists []. by rewrite app_nil_r.
  - apply Forall2_cons_inv_r in HF as (e & entries' & (l & Hl & Hacc & Hr) & HF & ->). cbn [for_each] in E.
    apply mbind_Done in E as (? & s1 & E1 & E). unfold load_resource in E1. invert_done.
    match goal with H : kv_options [] r = Ok ?i |- _ => rename i into opts; rename H into Ho end.
    destruct (IH _ _ _ _ HF E) as (added & Ha & ->). exists (opts :: added). split.
    + constructor; [| done]. exists l. split; [done |]. intros k. rewrite (kv_options_ok _ _ _ Ho).
      rewrite decide_False by apply not_elem_of_nil. rewrite Hr.
      destruct (map_find k l) as [t |] eqn:Et; [| done]. simpl.
      destruct (Hacc k t) as [v Hv]; [by apply map_find_elem |]. rewrite Hv. simpl.
      apply resource_accepts in Hv. by subst v.
    + cbn [m_resources set_resources]. by rewrite <- app_assoc.
Qed.

(** What an option of the command line leaves for the configuration file to set. *)
Definition override (cmdline file : string) : string := if decide (cmdline = "none") then file else cmdline.

(** The value of an option of the global settings. *)
Lemma global_value l (grp : gmap string any) k :
  (forall k t, (k, t) ∈ l -> is_Some (accepted (group_option (map_of global_options)) k t)) ->
  (forall k, grp !! k = match map_find k l with
                        | Some t => accepted (group_option (map_of global_options)) k t
                        | None => map_find k (map_of global_options) ≫= fun s => m_default_value (m_typed_value s)
                        end) ->
  match map_find k l with
  | Some t => exists v, grp !! k = Some v /\ accepted (group_option (map_of global_options)) k t = Some v
  | None => grp !! k = map_find k (map_of global_options) ≫= fun s => m_default_value (m_typed_value s)
  end.
Proof.
  intros Hacc Hg. rewrite Hg. destruct (map_find k l) as [t |] eqn:Et; [| done].
  apply map_find_elem, Hacc in Et as [v Hv]. eauto.
Qed.
Lemma optional_path l (grp : gmap string any) k :
  map_find k (map_of global_options) = Some (OptionSchema false (Typed None (Some (to_any AnyPath path_parser)))) \/
  map_find k (map_of global_options) = Some (OptionSchema true (Typed None (Some (to_any AnyPath path_parser)))) ->
  match map_find k l with
  | Some t => exists v, grp !! k = Some v /\ accepted (group_option (map_of global_options)) k t = Some v
  | None => grp !! k = map_find k (map_of global_options) ≫= fun s => m_default_value (m_typed_value s)
  end -> grp !! k = AnyPath <$> map_find k l.
Proof.
  intros Hk. destruct (map_find k l) as [t |].
  - intros (v & -> & Hv). unfold accepted, group_option in Hv. by destruct Hk as [E | E]; rewrite E in Hv; simplify_eq/=.
  - intros ->. by destruct Hk as [E | E]; rewrite E.
Qed.

Lemma path_override (grp : gmap string any) k o c r :
  grp !! k = AnyPath <$> o -> is_Some o ->
  (if bool_decide (c = "none") then get_as any_path k grp = Ok r else r = c) ->
  exists t, o = Some t /\ r = override c t.
Proof.
  intros Hk [t ->] Hr. unfold override, get_as in *. rewrite Hk in Hr. exists t. split; [done |].
  destruct (decide (c = "none")); [rewrite bool_decide_true in Hr by done | rewrite bool_decide_false in Hr by done]; naive_solver.
Qed.
Lemma path_override_opt (grp : gmap string any) k o c r b :
  grp !! k = AnyPath <$> o ->
  (if bool_decide (c = "none") && bool_decide (is_Some (grp !! k)) && b then get_as any_path k grp = Ok r else r = c) ->
  r = if b then override c (default "none" o) else c.
Proof.
  intros Hk. unfold override, get_as. rewrite Hk. destruct b; rewrite ?andb_true_r, ?andb_false_r; [| done].
  destruct (decide (c = "none")) as [-> | Hc]; [rewrite bool_decide_true by done | by rewrite bool_decide_false by done].
  destruct o as [t |]; simpl; [by intros [= <-] | done].
Qed.
Lemma number_override (grp : gmap string any) k o d (p : string -> string -> res Z) n :
  match o with
  | Some t => exists v, grp !! k = Some v /\ match to_any AnyU32 p k t with Ok v => Some v | _ => None end = Some v
  | None => grp !! k = Some (AnyU32 d)
  end -> get_as any_u32 k grp = Ok n -> match o with Some t => p k t = Ok n | None => n = d end.
Proof.
  unfold get_as. destruct o as [t |].
  - intros (v & -> & (x & -> & Hx)%converted). simpl. by intros [= ->].
  - intros ->. simpl. by intros [= ->].
Qed.

(** The settings [s'] that the configuration file makes of [s]: [l] are the texts of its
    global settings, [nb] and [nr] its lists of backends and of resources. *)
Definition loaded_from (file : string) (s s' : settings) : Prop :=
  exists doc nb sec nr l, load_file file = Some doc /\ subnode doc "backends" = Some nb /\
    subnode doc "global-settings" = Some sec /\ subnode doc "resources" = Some nr /\ texts (items sec) = Some l /\
    (exists t, map_find "root-dir" l = Some t /\ m_root_dir s' = override (m_root_dir s) t) /\
    (exists t, map_find "mount-dir" l = Some t /\ m_mount_dir s' = override (m_mount_dir s) t) /\
    m_results_dir s' = override (m_results_dir s) (default "none" (map_find "results-dir" l)) /\
    m_log_file s' = (if m_debug s then m_log_file s
                     else override (m_log_file s) (default "none" (map_find "log-file" l))) /\
    match map_find "workers" l with
    | Some t => number_parser "workers" t = Ok (m_workers s')
    | None => m_workers s' = 8
    end /\
    match map_find "transfer-size" l with
    | Some t => size_parser "transfer-size" t = Ok (m_transfer_size s')
    | None => m_transfer_size s' = 128 * 1024
    end /\
    (exists kbs, Forall2 (backend_from s') (items nb) kbs /\
      forall id, m_backend_opts s' !! id =
        match m_backend_opts s !! id with Some b => Some b | None => map_find id kbs end) /\
    (exists added, Forall2 resource_from (items nr) added /\ m_resources s' = m_resources s ++ added) /\
    frame s' = frame s.

(** C40: Settings loaded from a configuration file: an option of the command line has
    precedence over the file, the directories are mandatory in the file, the worker count and
    the transfer size are the first values given or the defaults. The backends are those there
    were and, for every other identifier, the first backend of the file with it: its type, its
    capacity, its further options as written and the final directories. The resources of
    the file are appended to those there were, and the other members do not change. *)
Theorem load_settings (file : string) (s s' : settings) :
  load_from_yaml_file file s = Done tt s' -> loaded_from file s s'.
Proof.
  unfold load_from_yaml_file. intros E.
  apply mbind_Done in E as (opts & ? & [Ho ->]%lift_Done & E).
  destruct (config_sections file opts Ho) as (doc & nb & sec & nr & l & grp & bs & rs & Hd & Hnb & Hs & Hnr & HFb & HFr & Hl & Hacc & Hm & Hg & Hbs & Hgrp & Hrs).
  apply mbind_Done in E as (g & ? & [Eg ->]%lift_Done & E). rewrite Hgrp in Eg. injection Eg as <-.
  apply mbind_Done in E as (? & s1 & E1 & E). apply mbind_Done in E as (bs' & ? & [Eb ->]%lift_Done & E).
  rewrite Hbs in Eb. injection Eb as <-.
  apply mbind_Done in E as (? & s2 & E2 & E). apply mbind_Done in E as (rs' & ? & [Er ->]%lift_Done & E).
  rewrite Hrs in Er. injection Er as <-.
  apply load_global_ok in E1 as (HR & HM & HRes & HLog & HW & HT & HB & HRs & HF).
  destruct (load_backends_ok _ _ _ _ _ HFb E2) as (G2 & F2 & R2 & kbs & K2 & B2).
  destruct (load_resources_ok _ _ _ _ _ HFr E) as (added & Ha & R3).
  pose proof (keeps_for_each (fun s => (globals s, frame s, m_backend_opts s)) load_resource rs
    ltac:(intros r; unfold load_resource; keeping) s2) as H3. rewrite E in H3.
  assert (F3 := f_equal (fun p => p.1.2) H3 : frame s' = frame s2).
  assert (B3 := f_equal snd H3 : m_backend_opts s' = m_backend_opts s2).
  assert (G3 := f_equal (fun p => p.1.1) H3 : globals s' = globals s2). injection G3 as G3a G3b G3c G3d G3e G3f.
  assert (HV := fun k => global_value l grp k Hacc Hg).
  assert (Hman : forall k s, map_find k (map_of global_options) = Some s -> m_mandatory s = true -> is_Some (map_find k l)).
  { intros k o Hk Hmo. destruct (map_find k l) eqn:En; [by eexists |]. apply map_find_none in En. by destruct (En (Hm k o Hk Hmo)). }
  injection G2 as G2a G2b G2c G2d G2e G2f.
  exists doc, nb, sec, nr, l. split_and!; try done.
  - rewrite G3a, G2a. apply (path_override grp "root-dir"); [apply optional_path; [by right | apply HV] | by eapply Hman | done].
  - rewrite G3b, G2b. apply (path_override grp "mount-dir"); [apply optional_path; [by right | apply HV] | by eapply Hman | done].
  - rewrite G3c, G2c. apply (path_override_opt grp "results-dir" _ _ _ true); [apply optional_path; [by left | apply HV] |].
    by rewrite andb_true_r.
  - rewrite G3d, G2d. rewrite (path_override_opt grp "log-file" (map_find "log-file" l) (m_log_file s) (m_log_file s1) (negb (m_debug s)));
      [by destruct (m_debug s) | apply optional_path; [by left | apply HV] | done].
  - rewrite G3e, G2e. exact (number_override grp "workers" _ 8 number_parser _ (HV "workers") HW).
  - rewrite G3f, G2f. exact (number_override grp "transfer-size" _ (128 * 1024) size_parser _ (HV "transfer-size") HT).
  - exists kbs. split; [| intros id; by rewrite B3, B2, HB].
    eapply Forall2_impl; [exact K2 |]. intros e kb (l' & ? & ? & ? & ? & ? & ? & Q1 & Q2 & Q3).
    exists l'. rewrite G3a, G3b, G3c. split_and!; done.
  - exists added. split; [done |]. by rewrite R3, R2, HRs.
  - by rewrite F3, F2.
Qed.

End Loaded.

Section Arguments.
Context {node : Type} `{Yaml node} (other_what : exn -> string) (path_eq : string -> string -> bool) (fuse3 : bool).

(** ** The arguments for FUSE *)

(** The arguments pushed so far, in front of null pointers. *)
Definition fuse_inv (args : list cptr) (s : settings) : Prop :=
  m_fuse_argc s = Z.of_nat (length args) /\ (length args <= s_max_fuse_args)%nat /\
  m_fuse_argv s = args ++ replicate (s_max_fuse_args - length args) Null.

(** A computation that pushes the arguments [l], or fails for lack of room. *)
Definition adds_args {X} (c : M X) (l : list cptr) : Prop := forall args s, fuse_inv args s ->
  match c s with
  | Done _ s' => fuse_inv (args ++ l) s'
  | AssertFailed => (s_max_fuse_args <= length (args ++ l))%nat
  | _ => True
  end.
Definition keeps_fuse (f : settings -> settings) : Prop := forall s,
  m_fuse_argc (f s) = m_fuse_argc s /\ m_fuse_argv (f s) = m_fuse_argv s.

Lemma adds_bind {X Y} (c : M X) (k : X -> M Y) l l' :
  adds_args c l -> (forall x, adds_args (k x) l') -> adds_args (mbind c k) (l ++ l').
Proof.
  intros Hc Hk args s Hs. specialize (Hc args s Hs). unfold mbind. destruct (c s) as [x s' | | | |]; try done.
  - specialize (Hk x _ _ Hc). by rewrite app_assoc.
  - rewrite !length_app in *. lia.
Qed.
Lemma adds_bind_nil {X Y} (c : M X) (k : X -> M Y) l :
  adds_args c [] -> (forall x, adds_args (k x) l) -> adds_args (mbind c k) l.
Proof. apply (adds_bind c k [] l). Qed.
Lemma adds_ret {X} (x : X) : adds_args (ret x) [].
Proof. intros args s Hs. simpl. by rewrite app_nil_r. Qed.
Lemma adds_get : adds_args get [].
Proof. intros args s Hs. simpl. by rewrite app_nil_r. Qed.
Lemma adds_raise {X} e : adds_args (raise (X := X) e) [].
Proof. done. Qed.
Lemma adds_lift {X} (r : res X) : adds_args (lift r) [].
Proof. intros args s Hs. unfold lift. destruct r; try done. by rewrite app_nil_r. Qed.
Lemma adds_modify f : keeps_fuse f -> adds_args (modify f) [].
Proof.
  intros Hf args s (H1 & H2 & H3). simpl. rewrite app_nil_r. destruct (Hf s) as [E1 E2]. split; [by rewrite E1 |]. by rewrite E2.
Qed.
Lemma adds_when b c : adds_args c [] -> adds_args (when b c) [].
Proof. intros Hc. destruct b; [done | apply adds_ret]. Qed.
Lemma adds_push a : adds_args (push_arg a) [a].
Proof.
  intros args s (H1 & H2 & H3). unfold push_arg. rewrite H1, Nat2Z.id.
  destruct (Z.ltb_spec (Z.of_nat (length args)) (Z.of_nat s_max_fuse_args)) as [Hlt | Hge].
  - split; [rewrite length_app; simpl; lia |]. split; [rewrite length_app; simpl; lia |].
    cbn [m_fuse_argv set_fuse]. rewrite H3, insert_app_r_alt, Nat.sub_diag by lia.
    replace (s_max_fuse_args - length args)%nat with (S (s_max_fuse_args - length (args ++ [a])))
      by (rewrite length_app; simpl; lia).
    simpl. by rewrite <- app_assoc.
  - rewrite length_app. simpl. lia.
Qed.

(** The computations that leave the arguments alone, step by step. *)
Ltac fuse_args :=
  repeat first
    [ apply adds_ret | apply adds_get | apply adds_raise | apply adds_lift | apply adds_push | apply adds_when
    | apply adds_modify; intros ?; done
    | apply adds_bind_nil; [| intros ?] ].

Lemma adds_for_each {X} (f : X -> M unit) (g : X -> list cptr) l :
  (forall x, adds_args (f x) (g x)) -> adds_args (for_each f l) (mjoin (g <$> l)).
Proof. intros Hf. induction l as [| x l IH]; simpl; [apply adds_ret |]. by apply adds_bind. Qed.
Lemma adds_for_each_nil {X} (f : X -> M unit) l :
  (forall x, adds_args (f x) []) -> adds_args (for_each f l) [].
Proof. intros Hf. induction l as [| x l IH]; simpl; fuse_args; auto. Qed.

(** What an option adds to the arguments for FUSE. *)
Definition event_args (e : event) : list cptr :=
  match e_rv e with
  | "f"%char | "d"%char => [Str "-f"]
  | "D"%char => [Str "-d"]
  | "S"%char => [Str "-s"]
  | "o"%char => [Str "-o"; Str (e_optarg e)]
  | _ => []
  end.

Lemma process_option_adds e : adds_args (process_option e) (event_args e).
Proof.
  unfold process_option, event_args. destruct e as [rv arg]. cbn [e_rv e_optarg].
  destruct rv as [[] [] [] [] [] [] [] []];
    first [ apply (adds_bind _ _ [Str "-o"] [Str arg]); intros; apply adds_push | solve [fuse_args] | done ].
Qed.

Lemma apply_config_file_adds : adds_args (apply_config_file other_what) [].
Proof.
  intros args s Hs. unfold apply_config_file. destruct (decide _); [by rewrite app_nil_r |].
  destruct (settings_copy s) as [b |]; [| done].
  pose proof (load_keeps_frame (m_config_file s) s) as HL.
  destruct (load_from_yaml_file (m_config_file s) s) as [? s' | e s' | | |]; try done.
  - injection HL as _ _ _ _ _ E1 E2. rewrite app_nil_r. unfold fuse_inv in *. by rewrite E1, E2.
  - by destruct (settings_move s' b).
Qed.

Lemma push_arg_at_1 a b c l s :
  fuse_inv (a :: b :: l) s ->
  match push_arg_at c 1 s with
  | Done _ s' => fuse_inv (a :: c :: l) s' /\ (length (a :: c :: l) < s_max_fuse_args)%nat /\ m_mount_dir s' = m_mount_dir s
  | AssertFailed => (s_max_fuse_args <= length (a :: c :: l))%nat
  | _ => False
  end.
Proof.
  intros (H1 & H2 & H3). unfold push_arg_at, fuse_inv. change (s_max_fuse_args <=? 1)%nat with false.
  change (length (a :: c :: l)) with (length (a :: b :: l)).
  destruct (Z.ltb_spec (m_fuse_argc s) (Z.of_nat s_max_fuse_args)) as [Hlt | Hge]; [| lia].
  cbn [m_fuse_argv m_fuse_argc m_mount_dir set_fuse]. rewrite H3. split; [done | split; [lia | done]].
Qed.

Lemma cmdline_body_adds exec_name events rest :
  adds_args (cmdline_body other_what path_eq fuse3 exec_name events rest)
    (Str exec_name :: Null :: mjoin (event_args <$> events) ++ [Str "-o"; Str (fuse_options fuse3)] ++ (Str <$> take 1 rest)).
Proof.
  unfold cmdline_body. apply adds_bind_nil; [apply adds_modify; by intros ? | intros _].
  apply (adds_bind _ _ [_]); [apply adds_push | intros _].
  apply adds_bind_nil; [apply adds_modify; by intros ? | intros _].
  apply (adds_bind _ _ [_]); [apply adds_push | intros _].
  apply adds_bind; [apply adds_for_each, process_option_adds | intros _].
  apply adds_bind_nil; [apply apply_config_file_adds | intros _].
  apply adds_bind_nil; [apply adds_get | intros s].
  apply adds_bind_nil; [destruct (path_eq _ _); fuse_args | intros _].
  apply adds_bind_nil; [apply adds_modify; intros s'; unfold default_backend; by destruct (decide _) | intros _].
  apply (adds_bind _ _ [_]); [apply adds_push | intros _].
  apply (adds_bind _ _ [_]); [apply adds_push | intros _].
  destruct rest; simpl; [apply adds_ret | apply adds_push].
Qed.

(** The arguments for FUSE: the program's name, the mount point, what the options add in
    their order, the options that are always set, and the first argument behind the options;
    an assertion fails only when they do not fit the array with one to spare. *)
Theorem cmdline_fuse_args (exec_name api_sockfile : string) (events : list event) (rest : list string) :
  let args mount := Str exec_name :: Str mount :: mjoin (event_args <$> events)
                      ++ [Str "-o"; Str (fuse_options fuse3)] ++ (Str <$> take 1 rest) in
  match from_cmdline other_what path_eq fuse3 exec_name events rest (settings_new api_sockfile) with
  | Done _ s => fuse_inv (args (m_mount_dir s)) s /\ (length (args (m_mount_dir s)) < s_max_fuse_args)%nat
  | AssertFailed => (s_max_fuse_args <= length (args ""))%nat
  | _ => True
  end.
Proof.
  intros args. unfold from_cmdline. set (body := cmdline_body other_what path_eq fuse3 exec_name events rest).
  assert (H0 : fuse_inv [] (settings_new api_sockfile)) by (split; [done | split; [unfold s_max_fuse_args; simpl; lia | done]]).
  pose proof (cmdline_body_adds exec_name events rest [] _ H0) as Hb. fold body in Hb.
  unfold mbind. destruct (body (settings_new api_sockfile)) as [? s | | | |]; try done.
  change (get s) with (Done s s). cbv iota beta. rewrite app_nil_l in Hb. pose proof (push_arg_at_1 _ _ (Str (m_mount_dir s)) _ _ Hb) as Hp.
  destruct (push_arg_at (Str (m_mount_dir s)) 1 s) as [? s' | | | |]; try done.
  destruct Hp as (H1 & H2 & E). subst args. cbv beta. rewrite E. by split.
Qed.

(** ** Errors in the configuration file *)

Lemma mapM_total {X Y} (f : X -> option Y) l : Forall (fun x => is_Some (f x)) l -> exists l', mapM f l = Some l'.
Proof. intros HF. induction HF as [| x l [y Hy] _ [l' Hl']]; [by exists [] |]. exists (y :: l'). simpl. by rewrite Hy, Hl'. Qed.

Lemma settings_copy_ok s : Forall (fun p => p <> Freed) (m_fuse_argv s) -> settings_copy s = Some s.
Proof.
  intros HF. unfold settings_copy. replace (mapM dup_arg (m_fuse_argv s)) with (Some (m_fuse_argv s)); [by destruct s |].
  symmetry. induction HF as [| p l Hp _ IH]; [done |]. simpl. rewrite IH. by destruct p.
Qed.

Lemma settings_move_ok this other :
  Forall (fun p => p <> Freed) (m_fuse_argv this) -> settings_move this other = Some other.
Proof.
  intros HF. unfold settings_move, settings_reset.
  destruct (mapM_total free_arg (m_fuse_argv this)) as [l ->]; [| by destruct other].
  eapply Forall_impl; [exact HF |]. intros [| ? |] Hp; [by eexists | by eexists | done].
Qed.

(** C39: When the configuration file is refused, the exception says why and the settings are
    what the command line made of them, although the file was loaded in part. *)
Theorem config_error_restores (s s1 : settings) (e : exn) :
  Forall (fun p => p <> Freed) (m_fuse_argv s) -> m_config_file s <> "none" ->
  load_from_yaml_file (m_config_file s) s = Raised e s1 ->
  apply_config_file other_what s = Raised (config_error other_what e) s.
Proof.
  intros HF Hc HL. unfold apply_config_file. rewrite decide_False, settings_copy_ok, HL by done.
  pose proof (load_keeps_frame (m_config_file s) s) as Hk. rewrite HL in Hk. injection Hk as _ _ _ _ _ _ E.
  by rewrite settings_move_ok by (by rewrite E).
Qed.

(** The destructor after [reset] frees an argument twice when there were more than four. *)
Theorem reset_destroy_double_free (s : settings) :
  Forall (fun p => p <> Freed) (m_fuse_argv s) ->
  exists s', settings_reset s = Some s' /\
    (settings_destroy s' = None <-> exists i a, (4 <= i)%nat /\ m_fuse_argv s !! i = Some (Str a)).
Proof.
  intros HF. unfold settings_reset.
  destruct (mapM_total free_arg (m_fuse_argv s)) as [l Hl].
  { eapply Forall_impl; [exact HF |]. intros [| ? |] Hp; [by eexists | by eexists | done]. }
  rewrite Hl. eexists. split; [reflexivity |]. unfold settings_destroy. cbn [m_fuse_argv].
  assert (Hn : forall l, mapM free_arg l = None <-> Freed ∈ l).
  { induction l0 as [| p l0 IH]; simpl; [split; [done | by intros ?%elem_of_nil] |]. rewrite elem_of_cons, <- IH.
    destruct p; simpl; destruct (mapM free_arg l0); naive_solver. }
  transitivity (mapM free_arg (memset_argv l) = None);
    [by destruct (mapM free_arg (memset_argv l)); simpl; split |]. rewrite Hn. unfold memset_argv. change (s_max_fuse_args / pointer_size)%nat with 4%nat.
  rewrite elem_of_app, (list_elem_of_lookup (drop 4 l)). setoid_rewrite lookup_drop. apply mapM_Some in Hl.
  split.
  - intros [Hin%elem_of_replicate | (i & Hi)]; [naive_solver |].
    destruct (Forall2_lookup_r _ _ _ _ _ Hl Hi) as (p & Hp & Ep). exists (4 + i)%nat. destruct p; simplify_eq/=. eexists. split; [lia | done].
  - intros (i & a & Hi & Ha). right. exists (i - 4)%nat. replace (4 + (i - 4))%nat with i by lia.
    destruct (Forall2_lookup_l _ _ _ _ _ Hl Ha) as (p & Hp & Ep). by simplify_eq/=.
Qed.


End Arguments.

(** ** A concrete document *)

#[warnings="-register-all"]
Inductive ynode := YScalar (s : string) | YSeq (l : list ynode) | YMap (l : list (ynode * ynode)).

Definition ymap (l : list (string * ynode)) : ynode := YMap ((fun kv => (YScalar kv.1, kv.2)) <$> l).
Definition yopts (l : list (string * string)) : ynode := YSeq ((fun kv => ymap [(kv.1, YScalar kv.2)]) <$> l).
Definition sample_document (workers : string) : ynode := ymap [
  ("global-settings", yopts [("root-dir", "/data"); ("mount-dir", "/mnt"); ("workers", workers)]);
  ("backends", YSeq [yopts [("id", "nvml://"); ("type", "NVRAM-NVML"); ("capacity", "1 GB"); ("daxfs", "/pmem")]]);
  ("resources", YSeq [yopts [("path", "input.dat"); ("backend", "nvml://"); ("flags", "preload")]])].

#[export] Instance sample_yaml : Yaml ynode := {|
  load_file f := if decide (f = "efs.conf") then Some (sample_document "4")
                 else if decide (f = "bad.conf") then Some (sample_document "many") else None;
  subnode n k := match n with
                 | YMap l => snd <$> List.find (fun kv => match kv.1 with YScalar s => bool_decide (s = k) | _ => false end) l
                 | _ => None
                 end;
  items n := match n with YSeq l => l | _ => [] end;
  fields n := match n with YMap l => l | _ => [] end;
  as_string n := match n with YScalar s => Some s | _ => None end |}.

Definition sample_settings : settings :=
  match load_from_yaml_file "efs.conf" (set_root "/cmdline" (settings_new "sock")) with
  | Done _ s => s
  | _ => settings_new ""
  end.
Example sample_settings_values :
  m_root_dir sample_settings = "/cmdline" /\ m_mount_dir sample_settings = "/mnt" /\ m_workers sample_settings = 4 /\
  m_transfer_size sample_settings = 131072 /\ b_capacity <$> (m_backend_opts sample_settings !! "nvml://") = Some 1000000000.
Proof. vm_compute. by repeat split. Qed.

Lemma load_settings_witness : loaded_from "efs.conf" (set_root "/cmdline" (settings_new "sock")) sample_settings.
Proof. apply (load_settings "efs.conf" (set_root "/cmdline" (settings_new "sock")) sample_settings). vm_compute. reflexivity. Defined.

Definition bad_settings : settings := set_config "bad.conf" (settings_new "sock").
Lemma config_error_restores_witness :
  apply_config_file (fun _ => "") bad_settings
  = Raised (config_error (fun _ => "") (InvalidArgument "Value provided for setting 'workers' is not a number")) bad_settings.
Proof.
  apply (config_error_restores (fun _ => "") bad_settings
           (match load_from_yaml_file "bad.conf" bad_settings with Raised _ s => s | _ => bad_settings end)).
  - unfold bad_settings. repeat constructor; discriminate.
  - discriminate.
  - vm_compute. reflexivity.
Defined.

End Settings.
