(* ===== verification/Namespace.v ===== *)
(** * The name space of a backend: src/backends/nvram-nvml/nvram-nvml.cpp, dir.cpp

    A backend keeps a table of files and a table of directories, both keyed by the whole path;
    a directory is keyed by its path with a slash at the end, and keeps the names of its
    entries and a link count. (src/backends/nvram-devdax has the same code for its own file
    class.) Files are objects behind shared pointers: [m_files] maps a path to an address of
    [b_heap], so that a file that was renamed or unlinked is still the object that open
    descriptors refer to. The file class is the class [BackendFile], the file system below and
    boost's path decomposition are the class [Host]. An iterator of an unordered map is the key
    it points to. An operation returns its result and the new state, throws, or faults: a
    failed assertion or the dereference of an invalid iterator. *)
From S2P Require Import Prelude Errors.
From Stdlib Require Import Ascii String.
From stdpp Require Import base list numbers option strings gmap sets.
Local Open Scope string_scope.
Local Open Scope Z_scope.
Local Open Scope list_scope.

Module Namespace.

(** ** Paths *)

Definition slash : ascii := "/"%char.

(** [s.substr(0, s.rfind('/') + 1)] and [s.substr(s.rfind('/') + 1)] *)
Fixpoint rsplit (s : string) : string * string :=
  match s with
  | "" => ("", "")
  | String c s =>
      let '(d, n) := rsplit s in
      match d with
      | "" => if decide (c = slash) then ("/", n) else ("", String c n)
      | _ => (String c d, n)
      end
  end.
(** [s.back() == '/'] *)
Fixpoint ends_slash (s : string) : bool :=
  match s with
  | "" => false
  | String c "" => bool_decide (c = slash)
  | String _ s => ends_slash s
  end.
(** [s.pop_back()] *)
Fixpoint pop_back (s : string) : string :=
  match s with
  | "" | String _ "" => ""
  | String c s => String c (pop_back s)
  end.
Definition push_slash (s : string) : string := s +:+ "/".
(** [if (s.size() == 0 or s.back() != '/') s.push_back('/')] *)
Definition with_slash (s : string) : string := if ends_slash s then s else push_slash s.
(** The key of the directory a path is in, and the last component. *)
Definition parent_key (path : string) : string := with_slash (rsplit path).1.
Definition base_name (path : string) : string := (rsplit path).2.
(** [if (s.length() > 1) s.push_back('/')] *)
Definition dir_key (path : string) : string := if (1 <? String.length path)%nat then push_slash path else path.

(** The name of an entry, and the path that names lead to from the root. *)
Fixpoint no_slash (s : string) : bool :=
  match s with "" => true | String c s => negb (bool_decide (c = slash)) && no_slash s end.
Definition name (n : string) : Prop := n <> "" /\ no_slash n = true.
Definition absolute (ns : list string) : string := foldr (fun n s => "/" +:+ n +:+ s) "" ns.

(** ** Directories: dir.cpp *)

(** The members of [struct stat] that are used. *)
Record attr := Attr {
  st_ino : Z; st_mode : Z; st_nlink : Z; st_uid : Z; st_gid : Z; st_size : Z; st_blocks : Z;
  st_atime : Z; st_mtime : Z; st_ctime : Z }.
Definition zero_attr : attr := Attr 0 0 0 0 0 0 0 0 0 0.
Definition set_ino (x : Z) (a : attr) : attr :=
  Attr x (st_mode a) (st_nlink a) (st_uid a) (st_gid a) (st_size a) (st_blocks a) (st_atime a) (st_mtime a) (st_ctime a).
Definition set_mode (x : Z) (a : attr) : attr :=
  Attr (st_ino a) x (st_nlink a) (st_uid a) (st_gid a) (st_size a) (st_blocks a) (st_atime a) (st_mtime a) (st_ctime a).
Definition set_nlink (x : Z) (a : attr) : attr :=
  Attr (st_ino a) (st_mode a) x (st_uid a) (st_gid a) (st_size a) (st_blocks a) (st_atime a) (st_mtime a) (st_ctime a).
Definition set_owner (u g : Z) (a : attr) : attr :=
  Attr (st_ino a) (st_mode a) (st_nlink a) u g (st_size a) (st_blocks a) (st_atime a) (st_mtime a) (st_ctime a).
Definition set_times (at_ mt ct : Z) (a : attr) : attr :=
  Attr (st_ino a) (st_mode a) (st_nlink a) (st_uid a) (st_gid a) (st_size a) (st_blocks a) at_ mt ct.

Inductive entry_type := temporary | persistent.

Record dir := Dir { d_pathname : string; d_type : entry_type; d_files : gset string; d_attr : attr }.

(** [dir::stat] and [dir::save_attributes] *)
Definition dir_stat (d : dir) : attr := d_attr d.
Definition dir_save (a : attr) (d : dir) : dir := Dir (d_pathname d) (d_type d) (d_files d) a.

(** [time(NULL)], [getuid()] and [getgid()] *)
Record clock := Clock { now : Z; uid : Z; gid : Z }.

(** [dir::add_file] and [dir::remove_file] *)
Definition add_file (k : clock) (file : string) (d : dir) : dir :=
  let a := d_attr d in
  Dir (d_pathname d) (d_type d) ({[file]} ∪ d_files d)
    (set_times (st_atime a) (now k) (now k) (set_nlink (u64 (st_nlink a + 1)) a)).
Definition remove_file (k : clock) (file : string) (d : dir) : dir :=
  let a := d_attr d in
  Dir (d_pathname d) (d_type d) (d_files d ∖ {[file]})
    (set_times (st_atime a) (now k) (now k) (set_nlink (u64 (st_nlink a - 1)) a)).
(** [dir::find] and [dir::num_links] *)
Definition dir_find (file : string) (d : dir) : bool := bool_decide (file ∈ d_files d).
Definition num_links (d : dir) : Z := Z.of_nat (size (d_files d)).

(** ** The backend *)

(** [backend::file]; [f_new] is the constructor, [None] when it throws, which it does not for
    an empty file. *)
Class BackendFile (F : Type) := {
  f_new : string -> Z -> entry_type -> bool -> option F;
  f_stat : F -> attr;
  f_save : attr -> F -> F;
  f_change_type : entry_type -> F -> F;
  f_new_empty p : is_Some (f_new p 0 temporary false);
  f_stat_save a f : f_stat (f_save a f) = a;
  f_stat_change_type t f : f_stat (f_change_type t f) = f_stat f }.

(** The file system below, [None] for an exception, and the components of a path. *)
Class Host := {
  h_exists : string -> bool;
  h_is_directory : string -> bool;
  h_entries : string -> list string;
  h_stat : string -> option attr;
  h_filename : string -> string;
  h_components : string -> list string;
  h_components_absolute (ns : list string) :
    ns <> [] -> Forall name ns -> h_components (absolute ns) = "/" :: ns }.

Definition ENOENT : Z := 2.
Definition EEXIST : Z := 17.
Definition ENOTEMPTY : Z := 39.
Definition S_IFDIR : Z := 0x4000.

Section Backend.
Context {F : Type} `{BackendFile F} `{Host}.

Record backend := Backend {
  m_root_dir : string; m_files : gmap string positive; m_dirs : gmap string dir; i_inode : Z;
  b_heap : gmap positive F; b_next : positive }.
Definition set_files (x : gmap string positive) (b : backend) : backend :=
  Backend (m_root_dir b) x (m_dirs b) (i_inode b) (b_heap b) (b_next b).
Definition set_dirs (x : gmap string dir) (b : backend) : backend :=
  Backend (m_root_dir b) (m_files b) x (i_inode b) (b_heap b) (b_next b).
Definition set_inode (x : Z) (b : backend) : backend :=
  Backend (m_root_dir b) (m_files b) (m_dirs b) x (b_heap b) (b_next b).
Definition set_heap (x : gmap positive F) (n : positive) (b : backend) : backend :=
  Backend (m_root_dir b) (m_files b) (m_dirs b) (i_inode b) x n.

Inductive outcome (X : Type) := Ret (x : X) (b : backend) | Throw (b : backend) | Fault.
Arguments Ret {X} x b.
Arguments Throw {X} b.
Arguments Fault {X}.

(** [new_inode()]; it returns an [int], which its callers convert back to an [ino_t]. *)
Definition new_inode (b : backend) : Z * backend := (u64 (s32 (i_inode b)), set_inode (u64 (i_inode b + 1)) b).

(** [dir::dir(pathname, inode, path_original, type, populate)] *)
Definition dir_new (pathname : string) (inode : Z) (path_original : string) (t : entry_type) (populate : bool)
    : option dir :=
  if populate
  then a ← h_stat path_original; Some (Dir pathname t ∅ (set_nlink 1 (set_ino inode a)))
  else Some (Dir pathname t ∅ (set_nlink 1 (set_ino inode zero_attr))).

(** [nvml_backend::nvml_backend]; [i_inode] is not initialized. *)
Definition nvml_backend (root_dir : string) (junk : Z) : option backend :=
  let '(ino, b) := new_inode (Backend root_dir ∅ ∅ junk ∅ 1%positive) in
  d ← dir_new "/" ino root_dir persistent true; Some (set_dirs {["/" := d]} b).

(** Updates of the directory with a key, if it is there. *)
Definition alter_dir (f : dir -> dir) (key : string) (b : backend) : backend := set_dirs (alter f key (m_dirs b)) b.

(** [nvml_backend::exists] *)
Definition exists_ (pathname : string) (b : backend) : bool := bool_decide (is_Some (m_files b !! pathname)).

(** [nvml_backend::do_stat] *)
Definition do_stat (path : string) (b : backend) : outcome (Z * option attr) :=
  match m_files b !! path with
  | Some id => match b_heap b !! id with Some f => Ret (0, Some (f_stat f)) b | None => Fault end
  | None =>
      match m_dirs b !! dir_key path with
      | Some d => Ret (0, Some (dir_stat d)) b
      | None => Ret (- ENOENT, None) b
      end
  end.

(** [nvml_backend::do_create]: the result and the new file. *)
Definition do_create (k : clock) (pathname : string) (mode : Z) (b : backend) : outcome (Z * option positive) :=
  match m_files b !! pathname with
  | Some _ => Ret (-1, None) b
  | None =>
      match m_dirs b !! parent_key pathname with
      | None => Ret (-1, None) b
      | Some _ =>
          let b := alter_dir (add_file k (base_name pathname)) (parent_key pathname) b in
          match f_new pathname 0 temporary false with
          | None => Throw b
          | Some f =>
              let id := b_next b in
              let b := set_files (<[pathname := id]> (m_files b)) b in
              let '(ino, b) := new_inode b in
              let stbuf := Attr ino mode 1 (uid k) (gid k) 0 0 (now k) (now k) (now k) in
              Ret (0, Some id) (set_heap (<[id := f_save stbuf f]> (b_heap b)) (Pos.succ id) b)
          end
      end
  end.

(** [nvml_backend::do_unlink] *)
Definition do_unlink (k : clock) (path : string) (b : backend) : outcome Z :=
  match m_files b !! path with
  | None => Ret (- ENOENT) b
  | Some _ =>
      let b := set_files (delete path (m_files b)) b in
      Ret 0 (alter_dir (remove_file k (base_name path)) (parent_key path) b)
  end.

(** [nvml_backend::do_renamedir] *)
Definition do_renamedir (k : clock) (opath npath : string) (b : backend) : outcome Z :=
  match m_dirs b !! npath, m_dirs b !! opath with
  | Some _, _ => Ret (- EEXIST) b
  | None, None => Ret (- ENOENT) b
  | None, Some d =>
      let d := dir_save (set_times (st_atime (dir_stat d)) (now k) (now k) (dir_stat d)) d in
      Ret 0 (set_dirs (delete opath (<[npath := d]> (m_dirs b))) b)
  end.

(** The removal of the file at the new path in [do_rename]. *)
Definition remove_target (k : clock) (path : string) (b : backend) : backend :=
  match m_files b !! path with
  | None => b
  | Some _ => alter_dir (remove_file k (base_name path)) (parent_key path) (set_files (delete path (m_files b)) b)
  end.

(** [nvml_backend::do_rename]; [m_files.emplace] leaves an entry that is there. *)
Definition do_rename (k : clock) (opath npath : string) (b : backend) : outcome Z :=
  match m_dirs b !! dir_key opath with
  | Some _ => do_renamedir k (dir_key opath) (dir_key npath) b
  | None =>
      match m_files b !! opath with
      | None => Ret (- ENOENT) b
      | Some _ =>
          let b := remove_target k npath b in
          match m_files b !! opath with
          | None => Fault
          | Some id =>
              match b_heap b !! id with
              | None => Fault
              | Some f =>
                  let f := f_save (set_times (st_atime (f_stat f)) (now k) (now k) (f_stat f)) f in
                  let b := set_heap (<[id := f]> (b_heap b)) (b_next b) b in
                  let files := match m_files b !! npath with Some _ => m_files b | None => <[npath := id]> (m_files b) end in
                  let b := set_files (delete opath files) b in
                  let b := alter_dir (remove_file k (base_name opath)) (parent_key opath) b in
                  Ret 0 (alter_dir (add_file k (base_name npath)) (parent_key npath) b)
              end
          end
      end
  end.

(** [nvml_backend::do_mkdir] *)
Definition do_mkdir (k : clock) (pathname : string) (mode : Z) (b : backend) : outcome Z :=
  let path := with_slash pathname in
  match m_dirs b !! path with
  | Some _ => Ret (-1) b
  | None =>
      let '(ino, b) := new_inode b in
      match dir_new path ino (m_root_dir b +:+ path) temporary false with
      | None => Throw b
      | Some d =>
          let stbuf := set_times (now k) (now k) (now k)
                         (set_mode (Z.lor mode S_IFDIR) (set_owner (uid k) (gid k) (dir_stat d))) in
          let b := set_dirs (<[path := dir_save stbuf d]> (m_dirs b)) b in
          let path := pop_back path in
          match m_dirs b !! (rsplit path).1 with
          | None => Fault
          | Some _ => Ret 0 (alter_dir (add_file k (base_name path)) (rsplit path).1 b)
          end
      end
  end.

(** [nvml_backend::do_rmdir] *)
Definition do_rmdir (k : clock) (pathname : string) (b : backend) : outcome Z :=
  let path := with_slash pathname in
  match m_dirs b !! path with
  | None => Ret (- ENOENT) b
  | Some d =>
      if negb (st_nlink (dir_stat d) =? 1) then Ret (- ENOTEMPTY) b
      else
        let b := set_dirs (delete path (m_dirs b)) b in
        let path := pop_back path in
        match m_dirs b !! (rsplit path).1 with
        | None => Fault
        | Some _ => Ret 0 (alter_dir (remove_file k (base_name path)) (rsplit path).1 b)
        end
  end.

(** [do_chmod] and [do_chown]: the directory or else the file gets the attributes that
    [change] makes of its own. [back()] of an empty string is undefined. *)
Definition change_attributes (change : attr -> attr) (pathname : string) (b : backend) : outcome Z :=
  if bool_decide (pathname = "") then Fault
  else
    match m_dirs b !! with_slash pathname with
    | Some d => Ret 0 (set_dirs (<[with_slash pathname := dir_save (change (dir_stat d)) d]> (m_dirs b)) b)
    | None =>
        match m_files b !! pathname with
        | None => Ret (- ENOENT) b
        | Some id =>
            match b_heap b !! id with
            | None => Fault
            | Some f => Ret 0 (set_heap (<[id := f_save (change (f_stat f)) f]> (b_heap b)) (b_next b) b)
            end
        end
    end.
Definition do_chmod (k : clock) (pathname : string) (mode : Z) (b : backend) : outcome Z :=
  change_attributes (fun a => set_times (st_atime a) (st_mtime a) (now k) (set_mode mode a)) pathname b.
Definition do_chown (k : clock) (pathname : string) (owner group : Z) (b : backend) : outcome Z :=
  change_attributes (fun a => set_times (st_atime a) (st_mtime a) (now k) (set_owner owner group a)) pathname b.

(** [find_s(path)] and the names [do_readdir] hands to the filler. *)
Definition find_s (path : string) (b : backend) : list string :=
  let tmp_path := if bool_decide (path = "") then path else with_slash path in
  match m_dirs b !! tmp_path with Some d => elements (d_files d) | None => [] end.
Definition do_readdir (path : string) (b : backend) : list string :=
  "." :: ".." :: ((fun f => if ends_slash f then pop_back f else f) <$> find_s path b).

(** [remove_root(pathname)]: [std::string::find] of the root directory; [None] when [substr]
    throws. *)
Fixpoint find_string (pat s : string) : option nat :=
  if String.prefix pat s then Some O
  else match s with "" => None | String _ s => S <$> find_string pat s end.
Definition remove_root (pathname : string) (b : backend) : option string :=
  match find_string (m_root_dir b) pathname with
  | None => Some ("/" +:+ h_filename pathname)
  | Some rdir =>
      match (rdir + String.length (m_root_dir b))%nat with
      | O => None
      | S pos => Some (String.substring pos (String.length pathname - pos) pathname)
      end
  end.

(** [do_change_type(path, type)] *)
Definition do_change_type (path : string) (t : entry_type) (b : backend) : outcome unit :=
  match remove_root path b with
  | None => Throw b
  | Some path =>
      match m_files b !! path with
      | None => Ret tt b
      | Some id =>
          match b_heap b !! id with
          | None => Fault
          | Some f => Ret tt (set_heap (<[id := f_change_type t f]> (b_heap b)) (b_next b) b)
          end
      end
  end.

(** ** Loading *)

(** [s.substr(0, s.rfind(pat))] *)
Fixpoint rfind_string (pat s : string) : option nat :=
  match s with
  | "" => if bool_decide (pat = "") then Some O else None
  | String c s' =>
      match rfind_string pat s' with
      | Some i => Some (S i)
      | None => if String.prefix pat s then Some O else None
      end
  end.
Definition before_last (pat s : string) : string :=
  match rfind_string pat s with Some i => String.substring 0 i s | None => s end.

(** The loop of [load] over the directories of a path; the result is [buildPath]. *)
Fixpoint load_dirs (k : clock) (buildPath : string) (parts : list string) (b : backend) : outcome string :=
  match parts with
  | [] => Ret buildPath b
  | n :: parts =>
      let buildPath := buildPath +:+ n +:+ "/" in
      match m_dirs b !! buildPath with
      | Some _ => load_dirs k buildPath parts b
      | None =>
          let '(ino, b) := new_inode b in
          match dir_new buildPath ino (m_root_dir b +:+ buildPath) persistent true with
          | None => Throw b
          | Some d =>
              let b := set_dirs (<[buildPath := d]> (m_dirs b)) b in
              match m_dirs b !! before_last n buildPath with
              | None => Fault
              | Some _ => load_dirs k buildPath parts (alter_dir (add_file k n) (before_last n buildPath) b)
              end
          end
      end
  end.

(** [nvml_backend::load] of a path that is not a directory. *)
Definition load_one (k : clock) (pathname : string) (t : entry_type) (b : backend) : outcome Errors.error_code :=
  if negb (h_exists pathname) then Ret Errors.no_such_path b
  else
    match remove_root pathname b with
    | None => Throw b
    | Some path =>
        match m_files b !! path with
        | Some _ => Ret Errors.path_already_imported b
        | None =>
            let '(ino, b) := new_inode b in
            match f_new pathname ino t true with
            | None => Throw b
            | Some f =>
                let id := b_next b in
                let b := set_heap (<[id := f]> (b_heap b)) (Pos.succ id) (set_files (<[path := id]> (m_files b)) b) in
                let parts := h_components path in
                match load_dirs k "/" (tail (removelast parts)) b with
                | Ret buildPath b =>
                    match m_dirs b !! buildPath, last parts with
                    | _, None => Fault
                    | Some _, Some name => Ret Errors.success (alter_dir (add_file k name) buildPath b)
                    | None, _ => Ret Errors.internal_error b
                    end
                | Throw b => Throw b
                | Fault => Fault
                end
            end
        end
    end.

(** [nvml_backend::load]: a directory is loaded file by file, up to the first error. *)
Fixpoint load_all (k : clock) (paths : list string) (t : entry_type) (b : backend) : outcome Errors.error_code :=
  match paths with
  | [] => Ret Errors.success b
  | p :: paths =>
      if h_is_directory p then load_all k paths t b
      else
        match load_one k p t b with
        | Ret Errors.success b => load_all k paths t b
        | r => r
        end
  end.
Definition load (k : clock) (pathname : string) (t : entry_type) (b : backend) : outcome Errors.error_code :=
  if negb (h_exists pathname) then Ret Errors.no_such_path b
  else if h_is_directory pathname
  then match remove_root pathname b with None => Throw b | Some _ => load_all k (h_entries pathname) t b end
  else load_one k pathname t b.

End Backend.
Arguments backend : clear implicits.
Arguments outcome : clear implicits.
Arguments Ret {F X}.
Arguments Throw {F X}.
Arguments Fault {F X}.
End Namespace.
