(* ===== verification/NamespaceSpec.v ===== *)
(** * The name space is a tree

    The invariant of the two tables of a backend, the abstract tree they stand for, and the
    theorem: every operation keeps the invariant and does to the tree what its name says;
    reading a directory gives exactly the entries of the tree. The operations are asked for
    what the kernel asks: valid paths, no creation on a path that exists, no rename onto a
    directory or onto itself. [NamespaceLoad] shows what the code does outside of that. *)
From S2P Require Import Prelude Errors Namespace.
From Stdlib Require Import Ascii String.
From stdpp Require Import base list numbers option strings gmap sets.
Local Open Scope string_scope.
Local Open Scope Z_scope.
Local Open Scope list_scope.

Module NamespaceSpec.
Import Namespace.

(** ** Names and paths *)

#[local] Arguments String.append : simpl nomatch.

Lemma app_assoc_string a b c : a +:+ (b +:+ c) = (a +:+ b) +:+ c.
Proof. induction a as [| x a IH]; simpl; [done |]. by rewrite IH. Qed.
Lemma length_app_string a b : String.length (a +:+ b) = (String.length a + String.length b)%nat.
Proof. induction a as [| x a IH]; simpl; [done |]. by rewrite IH. Qed.
Lemma app_nil_string a : a +:+ "" = a.
Proof. induction a as [| x a IH]; simpl; [done |]. by rewrite IH. Qed.

Lemma ends_slash_push s : ends_slash (s +:+ "/") = true.
Proof. induction s as [| c s IH]; [done |]. simpl. destruct (s +:+ "/") eqn:E; [| done]. by destruct s. Qed.
Lemma pop_back_push s : pop_back (s +:+ "/") = s.
Proof.
  induction s as [| c s IH]; [done |]. simpl. destruct (s +:+ "/") eqn:E; [by destruct s |]. simpl in *. by rewrite IH.
Qed.
Lemma push_inj s t : s +:+ "/" = t +:+ "/" -> s = t.
Proof. intros E. rewrite <- (pop_back_push s), <- (pop_back_push t). by f_equal. Qed.
Lemma ends_slash_app_name d n : name n -> ends_slash (d +:+ n) = false.
Proof.
  intros [Hne Hn]. induction d as [| c d IH]; simpl.
  - clear Hne. induction n as [| c n IHn]; [done |]. simpl in *. apply andb_prop in Hn as [Hc Hn].
    destruct n; [by destruct (bool_decide (c = slash)) | by apply IHn].
  - destruct (d +:+ n) eqn:E; [destruct d, n; done | exact IH].
Qed.

Lemma rsplit_name n : no_slash n = true -> rsplit n = ("", n).
Proof.
  induction n as [| c n IH]; simpl; [done |]. intros [Hc Hn]%andb_prop. rewrite (IH Hn).
  rewrite decide_False; [done |]. intros ->. by rewrite bool_decide_true in Hc.
Qed.
Lemma rsplit_app d n : ends_slash d = true -> no_slash n = true -> rsplit (d +:+ n) = (d, n).
Proof.
  intros Hd Hn. induction d as [| c d IH]; [done |]. destruct d as [| c' d].
  - change (String c "" +:+ n) with (String c n). cbn [rsplit]. rewrite (rsplit_name n Hn).
    apply bool_decide_eq_true in Hd as ->. by rewrite decide_True.
  - change (String c (String c' d) +:+ n) with (String c (String c' d +:+ n)). cbn [rsplit]. by rewrite IH.
Qed.
Lemma split_inj d1 n1 d2 n2 :
  ends_slash d1 = true -> ends_slash d2 = true -> name n1 -> name n2 -> d1 +:+ n1 = d2 +:+ n2 -> d1 = d2 /\ n1 = n2.
Proof.
  intros Hd1 Hd2 [_ Hn1] [_ Hn2] E. apply (f_equal rsplit) in E. rewrite !rsplit_app in E by done. by injection E.
Qed.

Lemma with_slash_name d n : name n -> with_slash (d +:+ n) = d +:+ n +:+ "/".
Proof. intros Hn. unfold with_slash. rewrite ends_slash_app_name by done. unfold push_slash. by rewrite app_assoc_string. Qed.
Lemma parent_key_app d n : ends_slash d = true -> name n -> parent_key (d +:+ n) = d.
Proof. intros Hd [_ Hn]. unfold parent_key, with_slash. rewrite rsplit_app by done. simpl. by rewrite Hd. Qed.
Lemma base_name_app d n : ends_slash d = true -> name n -> base_name (d +:+ n) = n.
Proof. intros Hd [_ Hn]. unfold base_name. by rewrite rsplit_app by done. Qed.
Lemma dir_key_app d n : ends_slash d = true -> name n -> dir_key (d +:+ n) = d +:+ n +:+ "/".
Proof.
  intros Hd [Hn _]. unfold dir_key, push_slash. rewrite length_app_string. destruct d; [done |]. destruct n; [done |].
  rewrite (proj2 (Nat.ltb_lt _ _)) by (simpl; lia). by rewrite app_assoc_string.
Qed.
Lemma child_longer d n : name n -> (String.length d + 2 <= String.length (d +:+ n +:+ "/"))%nat.
Proof. intros [Hn _]. rewrite !length_app_string. destruct n; [done |]. simpl. lia. Qed.
Lemma child_not_root d n : ends_slash d = true -> name n -> d +:+ n +:+ "/" <> "/".
Proof. intros Hd Hn E. pose proof (child_longer d n Hn) as HL. rewrite E in HL. simpl in HL. lia. Qed.
Lemma child_ne d n : name n -> d +:+ n +:+ "/" <> d.
Proof. intros Hn E. pose proof (child_longer d n Hn) as HL. rewrite E in HL. lia. Qed.

(** ** The shape of the tables

    [names] maps the key of a directory to the names of its entries. *)
Abbreviation listing := (gmap string (gset string)).

Record shape (files : gmap string positive) (names : listing) : Prop := {
  sh_root : is_Some (names !! "/");
  sh_dir k ns : names !! k = Some ns ->
    k = "/" \/ exists d n ns', k = d +:+ n +:+ "/" /\ name n /\ names !! d = Some ns' /\ n ∈ ns';
  sh_file p id : files !! p = Some id ->
    exists d n ns, p = d +:+ n /\ name n /\ names !! d = Some ns /\ n ∈ ns;
  sh_listed d ns n : names !! d = Some ns -> n ∈ ns ->
    name n /\ (is_Some (files !! (d +:+ n)) \/ is_Some (names !! (d +:+ n +:+ "/")));
  sh_excl p : is_Some (files !! p) -> names !! (p +:+ "/") = None }.

Section Shape.
Context {files : gmap string positive} {names : listing} (HS : shape files names).

Lemma sh_key k ns : names !! k = Some ns -> ends_slash k = true.
Proof.
  intros Hk. destruct (sh_dir _ _ HS k ns Hk) as [-> | (d & n & ? & -> & _)]; [done |].
  rewrite app_assoc_string. apply ends_slash_push.
Qed.

(** The directory of a file, and of a directory, is the one its path says. *)
Lemma sh_file_in d n id ns :
  files !! (d +:+ n) = Some id -> ends_slash d = true -> name n -> names !! d = Some ns -> n ∈ ns.
Proof.
  intros Hf Hd Hn Hns. destruct (sh_file _ _ HS _ _ Hf) as (d' & n' & ns' & E & Hn' & Hns' & Hin).
  apply split_inj in E as [-> ->]; eauto using sh_key. by simplify_eq.
Qed.
Lemma sh_file_parent d n id :
  files !! (d +:+ n) = Some id -> ends_slash d = true -> name n -> is_Some (names !! d).
Proof.
  intros Hf Hd Hn. destruct (sh_file _ _ HS _ _ Hf) as (d' & n' & ns' & E & Hn' & Hns' & Hin).
  apply split_inj in E as [-> ->]; eauto using sh_key.
Qed.
Lemma sh_dir_in d n ns ns' :
  names !! (d +:+ n +:+ "/") = Some ns -> ends_slash d = true -> name n -> names !! d = Some ns' -> n ∈ ns'.
Proof.
  intros Hk Hd Hn Hns. destruct (sh_dir _ _ HS _ _ Hk) as [E | (d1 & n1 & ns1 & E & Hn1 & Hns1 & Hin)].
  - by apply child_not_root in E.
  - rewrite !app_assoc_string in E. apply push_inj, split_inj in E as [-> ->]; eauto using sh_key. by simplify_eq.
Qed.
Lemma sh_dir_parent d n ns :
  names !! (d +:+ n +:+ "/") = Some ns -> ends_slash d = true -> name n -> is_Some (names !! d).
Proof.
  intros Hk Hd Hn. destruct (sh_dir _ _ HS _ _ Hk) as [E | (d1 & n1 & ns1 & E & Hn1 & Hns1 & Hin)].
  - by apply child_not_root in E.
  - rewrite !app_assoc_string in E. apply push_inj, split_inj in E as [-> ->]; eauto using sh_key.
Qed.
(** A name that no table has is not listed. *)
Lemma sh_fresh d n ns :
  names !! d = Some ns -> files !! (d +:+ n) = None -> names !! (d +:+ n +:+ "/") = None -> n ∉ ns.
Proof. intros Hd Hf Hk Hin. destruct (sh_listed _ _ HS d ns n Hd Hin) as [_ [[? ?] | [? ?]]]; congruence. Qed.

(** Entries after a directory got other names. *)
Lemma names_update d ns2 k ks :
  <[d := ns2]> names !! k = Some ks -> k = d /\ ks = ns2 \/ k <> d /\ names !! k = Some ks.
Proof. rewrite lookup_insert_Some. naive_solver. Qed.
Lemma names_update_some d ns ns2 k : names !! d = Some ns -> is_Some (names !! k) -> is_Some (<[d := ns2]> names !! k).
Proof. intros Hd Hk. destruct (decide (k = d)) as [-> |]; [rewrite lookup_insert_eq; eauto | by rewrite lookup_insert_ne]. Qed.
Lemma names_update_none d ns ns2 k : names !! d = Some ns -> names !! k = None -> <[d := ns2]> names !! k = None.
Proof. intros Hd Hk. rewrite lookup_insert_ne; [done | congruence]. Qed.

(** The parent in the updated table: [n'] is still listed when the names only lose [x]. *)
Lemma names_update_in d ns ns2 d' n' ns' :
  names !! d = Some ns -> names !! d' = Some ns' -> n' ∈ ns' -> (d' = d -> n' ∈ ns2) ->
  exists ns'', <[d := ns2]> names !! d' = Some ns'' /\ n' ∈ ns''.
Proof.
  intros Hd Hd' Hin H2. destruct (decide (d' = d)) as [-> | Hne].
  - exists ns2. rewrite lookup_insert_eq. auto.
  - exists ns'. rewrite lookup_insert_ne by done. auto.
Qed.

Lemma shape_link_file d n ns id :
  names !! d = Some ns -> name n -> names !! (d +:+ n +:+ "/") = None ->
  shape (<[d +:+ n := id]> files) (<[d := {[n]} ∪ ns]> names).
Proof.
  intros Hd Hn Hk. assert (Hs := sh_key _ _ Hd). split.
  - eapply names_update_some, HS. done.
  - intros k ks Hks. assert (Hk' : exists ks', names !! k = Some ks').
    { apply names_update in Hks as [[-> _] | [_ ?]]; eauto. }
    destruct Hk' as [ks' Hk']. destruct (sh_dir _ _ HS _ _ Hk') as [-> | (d' & n' & ns' & -> & Hn' & Hns' & Hin)]; [by left | right].
    destruct (names_update_in d ns ({[n]} ∪ ns) d' n' ns') as (ns2 & ? & ?); eauto 10. set_solver.
  - intros p id' [[<- _] | [Hne Hp]]%lookup_insert_Some.
    + exists d, n, ({[n]} ∪ ns). rewrite lookup_insert_eq. split_and!; try done; set_solver.
    + destruct (sh_file _ _ HS _ _ Hp) as (d' & n' & ns' & -> & Hn' & Hns' & Hin).
      destruct (names_update_in d ns ({[n]} ∪ ns) d' n' ns') as (ns2 & ? & ?); eauto 10. set_solver.
  - intros d' ns' n' Hns' Hin.
    assert (Hc : (d' = d /\ n' = n) \/ exists ns0, names !! d' = Some ns0 /\ n' ∈ ns0).
    { apply names_update in Hns' as [[-> ->] | [_ ?]]; [| eauto]. destruct (decide (n' = n)); [by left | right; exists ns; set_solver]. }
    destruct Hc as [[-> ->] | (ns0 & Hns0 & Hin0)]; [split; [done |]; left; rewrite lookup_insert_eq; eauto |].
    destruct (sh_listed _ _ HS _ _ _ Hns0 Hin0) as [Hn' [Hf | Hf]]; split; [done | left | done | right].
    + destruct (decide (d' +:+ n' = d +:+ n)) as [-> |]; [rewrite lookup_insert_eq; eauto | by rewrite lookup_insert_ne].
    + by eapply names_update_some.
  - intros p [id' [[<- _] | [Hne Hp]]%lookup_insert_Some].
    + eapply names_update_none; [done |]. by rewrite <- app_assoc_string.
    + eapply names_update_none, (sh_excl _ _ HS); eauto.
Qed.

Lemma shape_unlink_file d n ns :
  names !! d = Some ns -> name n -> names !! (d +:+ n +:+ "/") = None ->
  shape (delete (d +:+ n) files) (<[d := ns ∖ {[n]}]> names).
Proof.
  intros Hd Hn Hk. assert (Hs := sh_key _ _ Hd). split.
  - eapply names_update_some, HS. done.
  - intros k ks Hks. assert (Hk' : exists ks', names !! k = Some ks').
    { apply names_update in Hks as [[-> _] | [_ ?]]; eauto. }
    destruct Hk' as [ks' Hk']. destruct (sh_dir _ _ HS _ _ Hk') as [-> | (d' & n' & ns' & -> & Hn' & Hns' & Hin)]; [by left | right].
    destruct (names_update_in d ns (ns ∖ {[n]}) d' n' ns') as (ns2 & ? & ?); eauto 10.
    intros ->. simplify_eq. assert (n' <> n) by congruence. set_solver.
  - intros p id' [Hne Hp]%lookup_delete_Some. destruct (sh_file _ _ HS _ _ Hp) as (d' & n' & ns' & -> & Hn' & Hns' & Hin).
    destruct (names_update_in d ns (ns ∖ {[n]}) d' n' ns') as (ns2 & ? & ?); eauto 10.
    intros ->. simplify_eq. assert (n' <> n) by congruence. set_solver.
  - intros d' ns' n' Hns' Hin.
    assert (Hc : ~ (d' = d /\ n' = n) /\ exists ns0, names !! d' = Some ns0 /\ n' ∈ ns0).
    { apply names_update in Hns' as [[-> ->] | [? ?]]; [| naive_solver]. split; [set_solver |]. exists ns; set_solver. }
    destruct Hc as (Hne & ns0 & Hns0 & Hin0).
    destruct (sh_listed _ _ HS _ _ _ Hns0 Hin0) as [Hn' [Hf | Hf]]; split; [done | left | done | right].
    + rewrite lookup_delete_ne; [done |]. intros E. apply Hne. apply split_inj in E as [-> ->]; eauto using sh_key.
    + by eapply names_update_some.
  - intros p [id' [Hne Hp]%lookup_delete_Some]. eapply names_update_none, (sh_excl _ _ HS); eauto.
Qed.

Lemma shape_link_dir d n ns :
  names !! d = Some ns -> name n -> files !! (d +:+ n) = None -> names !! (d +:+ n +:+ "/") = None ->
  shape files (<[d := {[n]} ∪ ns]> (<[d +:+ n +:+ "/" := ∅]> names)).
Proof.
  intros Hd Hn Hf Hk. assert (Hs := sh_key _ _ Hd). set (key := d +:+ n +:+ "/") in *.
  assert (Hne : key <> d) by by apply child_ne.
  assert (Hup : forall k ks, names !! k = Some ks -> exists ks', <[d := {[n]} ∪ ns]> (<[key := ∅]> names) !! k = Some ks' /\ ks ⊆ ks').
  { intros k ks Hks. destruct (decide (k = d)) as [-> |]; [exists ({[n]} ∪ ns); rewrite lookup_insert_eq; set_solver |].
    exists ks. rewrite !lookup_insert_ne by congruence. done. }
  assert (Hinv : forall k ks, <[d := {[n]} ∪ ns]> (<[key := ∅]> names) !! k = Some ks ->
            k = key /\ ks = ∅ \/ exists ks', names !! k = Some ks' /\ (ks = ks' \/ k = d /\ ks = {[n]} ∪ ks')).
  { intros k ks [[-> ?] | [? [[-> ?] | [? ?]]%lookup_insert_Some]]%lookup_insert_Some; subst; eauto 10. }
  split.
  - destruct (sh_root _ _ HS) as [ks Hks]. destruct (Hup _ _ Hks) as (? & ? & _). eauto.
  - intros k ks [[-> ->] | (ks' & Hks' & _)]%Hinv.
    + right. exists d, n, ({[n]} ∪ ns). rewrite lookup_insert_eq. split_and!; try done; set_solver.
    + destruct (sh_dir _ _ HS _ _ Hks') as [-> | (d' & n' & ns' & -> & Hn' & Hns' & Hin)]; [by left | right].
      destruct (Hup _ _ Hns') as (ns2 & ? & ?). exists d', n', ns2. split_and!; try done; set_solver.
  - intros p id Hp. destruct (sh_file _ _ HS _ _ Hp) as (d' & n' & ns' & -> & Hn' & Hns' & Hin).
    destruct (Hup _ _ Hns') as (ns2 & ? & ?). exists d', n', ns2. split_and!; try done; set_solver.
  - intros d' ns' n' [[-> ->] | (ks' & Hks' & Hc)]%Hinv Hin; [set_solver |].
    destruct (decide (d' = d /\ n' = n)) as [[-> ->] | Hno].
    + split; [done |]. right. rewrite lookup_insert_ne by done. rewrite lookup_insert_eq. eauto.
    + assert (Hin' : n' ∈ ks') by set_solver.
      destruct (sh_listed _ _ HS _ _ _ Hks' Hin') as [Hn' [? | [k2 Hk2]]]; split; [done | by left | done | right].
      destruct (Hup _ _ Hk2) as (? & ? & _). eauto.
  - intros p [id Hp]. rewrite !lookup_insert_ne; [eapply (sh_excl _ _ HS); eauto | |].
    + intros E. unfold key in E. rewrite app_assoc_string in E. apply push_inj in E as <-. congruence.
    + intros E. pose proof (sh_excl _ _ HS p ltac:(eauto)). congruence.
Qed.

Lemma shape_unlink_dir d n ns :
  names !! d = Some ns -> name n -> names !! (d +:+ n +:+ "/") = Some ∅ ->
  shape files (<[d := ns ∖ {[n]}]> (delete (d +:+ n +:+ "/") names)).
Proof.
  intros Hd Hn Hk. assert (Hs := sh_key _ _ Hd). set (key := d +:+ n +:+ "/") in *.
  assert (Hne : key <> d) by by apply child_ne.
  assert (Hkey : forall d' n', name n' -> ends_slash d' = true -> d' +:+ n' +:+ "/" = key -> d' = d /\ n' = n).
  { intros d' n' Hn' Hd' E. unfold key in E. rewrite !app_assoc_string in E. by apply push_inj, split_inj in E. }
  assert (Hup : forall k ks x, names !! k = Some ks -> x ∈ ks -> ~ (k = d /\ x = n) ->
            exists ks', <[d := ns ∖ {[n]}]> (delete key names) !! k = Some ks' /\ x ∈ ks').
  { intros k ks x Hks Hx Hno. destruct (decide (k = d)) as [-> |]; [exists (ns ∖ {[n]}); rewrite lookup_insert_eq; set_solver |].
    exists ks. rewrite lookup_insert_ne, lookup_delete_ne by (congruence || intros <-; simplify_eq; set_solver). done. }
  assert (Hinv : forall k ks, <[d := ns ∖ {[n]}]> (delete key names) !! k = Some ks ->
            k <> key /\ exists ks', names !! k = Some ks' /\ (k <> d /\ ks = ks' \/ k = d /\ ks = ks' ∖ {[n]})).
  { intros k ks [[-> ?] | [? [? ?]%lookup_delete_Some]]%lookup_insert_Some; subst; eauto 10. }
  split.
  - destruct (decide (d = "/")) as [-> |]; [rewrite lookup_insert_eq; eauto |].
    rewrite lookup_insert_ne, lookup_delete_ne; [apply HS | | done]. unfold key. by apply child_not_root.
  - intros k ks (Hkk & ks' & Hks' & _)%Hinv.
    destruct (sh_dir _ _ HS _ _ Hks') as [-> | (d' & n' & ns' & -> & Hn' & Hns' & Hin)]; [by left | right].
    destruct (Hup d' ns' n') as (ns2 & ? & ?); try done; [intros [-> ->]; done |]. exists d', n', ns2. done.
  - intros p id Hp. destruct (sh_file _ _ HS _ _ Hp) as (d' & n' & ns' & -> & Hn' & Hns' & Hin).
    destruct (Hup d' ns' n') as (ns2 & ? & ?); try done; [| exists d', n', ns2; done].
    intros [-> ->]. assert (names !! ((d +:+ n) +:+ "/") = None) as E by (eapply (sh_excl _ _ HS); eauto).
    rewrite <- app_assoc_string in E. unfold key in Hk. congruence.
  - intros d' ns' n' (Hkk & ks' & Hks' & Hc)%Hinv Hin.
    assert (Hin' : n' ∈ ks' /\ ~ (d' = d /\ n' = n)) by (destruct Hc as [[? ->] | [-> ->]]; set_solver).
    destruct (sh_listed _ _ HS _ _ _ Hks' (proj1 Hin')) as [Hn' [? | [k2 Hk2]]]; split; [done | by left | done | right].
    destruct (decide (d' +:+ n' +:+ "/" = d)) as [<- |]; [rewrite lookup_insert_eq; eauto |].
    rewrite lookup_insert_ne, lookup_delete_ne; [eauto | | done].
    intros E. symmetry in E. apply Hkey in E; [tauto | done | eauto using sh_key].
  - intros p [id Hp]. assert (E : names !! (p +:+ "/") = None) by (eapply (sh_excl _ _ HS); eauto).
    rewrite lookup_insert_ne by congruence. apply lookup_delete_None. auto.
Qed.
End Shape.

(** ** The invariant *)

(** The link count of a directory is one more than its entries. *)
Definition links (dirs : gmap string dir) : Prop := forall k d, dirs !! k = Some d ->
  st_nlink (d_attr d) = u64 (1 + num_links d).

Lemma u64_add_l a b : u64 (u64 a + b) = u64 (a + b).
Proof. unfold u64. by rewrite Zplus_mod_idemp_l. Qed.

Lemma names_alter_add c (dirs : gmap string dir) d n D :
  dirs !! d = Some D -> d_files <$> alter (add_file c n) d dirs = <[d := {[n]} ∪ d_files D]> (d_files <$> dirs).
Proof.
  intros Hd. apply map_eq. intros k. rewrite lookup_fmap, lookup_alter, lookup_insert, lookup_fmap.
  destruct (decide (d = k)) as [-> |]; [by rewrite Hd | done].
Qed.
Lemma names_alter_remove c (dirs : gmap string dir) d n D :
  dirs !! d = Some D -> d_files <$> alter (remove_file c n) d dirs = <[d := d_files D ∖ {[n]}]> (d_files <$> dirs).
Proof.
  intros Hd. apply map_eq. intros k. rewrite lookup_fmap, lookup_alter, lookup_insert, lookup_fmap.
  destruct (decide (d = k)) as [-> |]; [by rewrite Hd | done].
Qed.

Lemma links_add c dirs d n D :
  links dirs -> dirs !! d = Some D -> n ∉ d_files D -> links (alter (add_file c n) d dirs).
Proof.
  intros HL Hd Hn k d' [(-> & D' & Hd' & ->) | [_ Hk]]%lookup_alter_Some; [| by eapply HL]. simplify_eq.
  unfold add_file, num_links. simpl. rewrite size_union, size_singleton by set_solver. rewrite (HL _ _ Hd), u64_add_l.
  unfold num_links. f_equal. lia.
Qed.
Lemma links_remove c dirs d n D :
  links dirs -> dirs !! d = Some D -> n ∈ d_files D -> links (alter (remove_file c n) d dirs).
Proof.
  intros HL Hd Hn k d' [(-> & D' & Hd' & ->) | [_ Hk]]%lookup_alter_Some; [| by eapply HL]. simplify_eq.
  unfold remove_file, num_links. simpl.
  assert (Hsz : size (d_files D) = S (size (d_files D ∖ {[n]}))).
  { rewrite size_difference, size_singleton by set_solver.
    assert (size (d_files D) <> 0%nat) by (intros E%size_empty_inv; set_solver). lia. }
  rewrite (HL _ _ Hd). unfold num_links. rewrite Hsz. unfold Z.sub. rewrite u64_add_l. f_equal. lia.
Qed.

Section Wf.
Context {F : Type} `{BackendFile F}.

Record wf (b : backend F) : Prop := {
  wf_shape : shape (m_files b) (d_files <$> m_dirs b);
  wf_links : links (m_dirs b);
  wf_heap p id : m_files b !! p = Some id -> is_Some (b_heap b !! id);
  wf_inj p q id : m_files b !! p = Some id -> m_files b !! q = Some id -> p = q;
  wf_next id : is_Some (b_heap b !! id) -> (id < b_next b)%positive }.

(** ** The tree *)

Inductive node := File (id : positive) | Directory.
#[export] Instance node_eq_dec : EqDecision node.
Proof. solve_decision. Defined.

(** A tree gives what is at a path; paths begin at the root and have no slash at the end,
    keys of directories have one. *)
Definition tree : Type := string -> option node.
Inductive dkey : string -> Prop :=
  | dk_root : dkey "/"
  | dk_in d n : dkey d -> name n -> dkey (d +:+ n +:+ "/").
Inductive path : string -> Prop :=
  | path_root : path "/"
  | path_in d n : dkey d -> name n -> path (d +:+ n).
Definition upd (t : tree) (p : string) (x : option node) : tree := fun q => if decide (q = p) then x else t q.
Definition parent_of (p : string) : string :=
  let d := (rsplit p).1 in if decide (d = "/") then d else pop_back d.
Definition child_of (p n : string) : string := with_slash p +:+ n.

Definition view (b : backend F) : tree := fun p =>
  match m_files b !! p with
  | Some id => Some (File id)
  | None => if m_dirs b !! dir_key p is Some _ then Some Directory else None
  end.

Lemma names_lookup (dirs : gmap string dir) k D : dirs !! k = Some D -> (d_files <$> dirs) !! k = Some (d_files D).
Proof. intros E. by rewrite lookup_fmap, E. Qed.
Lemma names_none (dirs : gmap string dir) k : (d_files <$> dirs) !! k = None <-> dirs !! k = None.
Proof. rewrite lookup_fmap. by destruct (dirs !! k). Qed.

Lemma dkey_slash d : dkey d -> ends_slash d = true.
Proof. intros [| d' n Hd Hn]; [done |]. rewrite app_assoc_string. apply ends_slash_push. Qed.

Section Views.
Context (b : backend F) (Hwf : wf b).

Lemma dir_key_slash k D : m_dirs b !! k = Some D -> ends_slash k = true.
Proof. intros Hk. eapply (sh_key (wf_shape b Hwf)). by apply names_lookup. Qed.

Lemma view_dir d n : ends_slash d = true -> name n ->
  view b (d +:+ n) = Some Directory <-> is_Some (m_dirs b !! (d +:+ n +:+ "/")).
Proof.
  intros Hd Hn. unfold view. rewrite dir_key_app by done. destruct (m_files b !! (d +:+ n)) as [id |] eqn:Ef.
  - split; [done |]. intros [D HD]. apply names_lookup in HD.
    pose proof (sh_excl _ _ (wf_shape b Hwf) (d +:+ n) ltac:(eauto)) as E. rewrite <- app_assoc_string in E. congruence.
  - destruct (m_dirs b !! (d +:+ n +:+ "/")); naive_solver.
Qed.
Lemma view_file p id : view b p = Some (File id) <-> m_files b !! p = Some id.
Proof. unfold view. destruct (m_files b !! p); [naive_solver |]. destruct (m_dirs b !! dir_key p); naive_solver. Qed.
Lemma view_none d n : ends_slash d = true -> name n ->
  view b (d +:+ n) = None <-> m_files b !! (d +:+ n) = None /\ m_dirs b !! (d +:+ n +:+ "/") = None.
Proof.
  intros Hd Hn. unfold view. rewrite dir_key_app by done.
  destruct (m_files b !! (d +:+ n)), (m_dirs b !! (d +:+ n +:+ "/")); naive_solver.
Qed.
Lemma view_root : view b "/" = Some Directory.
Proof.
  unfold view. change (dir_key "/") with "/". destruct (m_files b !! "/") as [id |] eqn:E.
  - destruct (sh_file _ _ (wf_shape b Hwf) _ _ E) as (d & n & ns & Ep & [Hn _] & Hns & _).
    apply (sh_key (wf_shape b Hwf)) in Hns. apply (f_equal String.length) in Ep. rewrite length_app_string in Ep.
    destruct d, n; try done. simpl in Ep. lia.
  - destruct (sh_root _ _ (wf_shape b Hwf)) as [ns Hns]. rewrite lookup_fmap in Hns. by destruct (m_dirs b !! "/").
Qed.
Lemma view_parent d n : dkey d -> name n -> view b (parent_of (d +:+ n)) = Some Directory <-> is_Some (m_dirs b !! d).
Proof.
  intros Hd Hn. unfold parent_of. rewrite rsplit_app by (by apply dkey_slash || apply Hn). simpl.
  destruct (decide (d = "/")) as [-> | Hne].
  - rewrite view_root. split; [intros _ | done]. destruct (sh_root _ _ (wf_shape b Hwf)) as [ns Hns].
    rewrite lookup_fmap in Hns. destruct (m_dirs b !! "/"); [eauto | done].
  - destruct Hd as [| d' n' Hd' Hn']; [done |]. rewrite app_assoc_string, pop_back_push, <- app_assoc_string.
    apply view_dir; [by apply dkey_slash | done].
Qed.
End Views.

(** ** The operations *)

Inductive op :=
  | Create (p : string) (mode : Z)
  | Unlink (p : string)
  | Rename (o n : string)
  | Mkdir (p : string) (mode : Z)
  | Rmdir (p : string)
  | Chmod (p : string) (mode : Z)
  | Chown (p : string) (owner group : Z).

Definition run `{Host} (c : clock) (o : op) (b : backend F) : outcome F Z :=
  match o with
  | Create p mode => match do_create c p mode b with Ret (r, _) b => Ret r b | Throw b => Throw b | Fault => Fault end
  | Unlink p => do_unlink c p b
  | Rename o n => do_rename c o n b
  | Mkdir p mode => do_mkdir c p mode b
  | Rmdir p => do_rmdir c p b
  | Chmod p mode => do_chmod c p mode b
  | Chown p u g => do_chown c p u g b
  end.

(** What the kernel asks for: it has looked up the paths before. *)
Definition allowed (t : tree) (o : op) : Prop :=
  match o with
  | Create p _ => path p /\ p <> "/" /\ t p <> Some Directory
  | Unlink p => path p
  | Rename o n => path o /\ path n /\ o <> n /\ t o <> Some Directory /\ t n <> Some Directory /\
                  t (parent_of n) = Some Directory
  | Mkdir p _ => path p /\ p <> "/" /\ match t p with
                                       | None => t (parent_of p) = Some Directory
                                       | Some x => x = Directory
                                       end
  | Rmdir p => path p /\ p <> "/"
  | Chmod p _ | Chown p _ _ => path p
  end.

(** What the operations do to the tree: the return value and the new tree. *)
Inductive spec (t : tree) : op -> Z -> tree -> Prop :=
  | sp_create p mode id : t p = None -> t (parent_of p) = Some Directory -> (forall q, t q <> Some (File id)) ->
      spec t (Create p mode) 0 (upd t p (Some (File id)))
  | sp_create_exists p mode : t p <> None -> spec t (Create p mode) (-1) t
  | sp_create_orphan p mode : t (parent_of p) <> Some Directory -> spec t (Create p mode) (-1) t
  | sp_unlink p id : t p = Some (File id) -> spec t (Unlink p) 0 (upd t p None)
  | sp_unlink_missing p : (forall id, t p <> Some (File id)) -> spec t (Unlink p) (- ENOENT) t
  | sp_rename o n id : t o = Some (File id) -> spec t (Rename o n) 0 (upd (upd t o None) n (Some (File id)))
  | sp_rename_missing o n : t o = None -> spec t (Rename o n) (- ENOENT) t
  | sp_mkdir p mode : t p = None -> spec t (Mkdir p mode) 0 (upd t p (Some Directory))
  | sp_mkdir_exists p mode : t p = Some Directory -> spec t (Mkdir p mode) (-1) t
  | sp_rmdir p : t p = Some Directory -> (forall n, name n -> t (child_of p n) = None) ->
      spec t (Rmdir p) 0 (upd t p None)
  | sp_rmdir_full p n : t p = Some Directory -> name n -> t (child_of p n) <> None -> spec t (Rmdir p) (- ENOTEMPTY) t
  | sp_rmdir_missing p : t p <> Some Directory -> spec t (Rmdir p) (- ENOENT) t
  | sp_chmod p mode : t p <> None -> spec t (Chmod p mode) 0 t
  | sp_chmod_missing p mode : t p = None -> spec t (Chmod p mode) (- ENOENT) t
  | sp_chown p u g : t p <> None -> spec t (Chown p u g) 0 t
  | sp_chown_missing p u g : t p = None -> spec t (Chown p u g) (- ENOENT) t.

(** An outcome that refines the specification. *)
Definition refines (b : backend F) (o : op) (r : outcome F Z) : Prop :=
  exists x b' t', r = Ret x b' /\ wf b' /\ spec (view b) o x t' /\ forall q, path q -> view b' q = t' q.

Lemma alter_dir_keys f key (b : backend F) k : is_Some (m_dirs (alter_dir f key b) !! k) <-> is_Some (m_dirs b !! k).
Proof. apply lookup_alter_is_Some. Qed.

(** The view of a state with the same directories. *)
Lemma view_same_dirs (b b' : backend F) q :
  (forall k, is_Some (m_dirs b' !! k) <-> is_Some (m_dirs b !! k)) ->
  view b' q = match m_files b' !! q with
              | Some id => Some (File id)
              | None => if m_dirs b !! dir_key q is Some _ then Some Directory else None
              end.
Proof.
  intros Hk. unfold view. destruct (m_files b' !! q); [done |]. specialize (Hk (dir_key q)).
  destruct (m_dirs b' !! dir_key q), (m_dirs b !! dir_key q); naive_solver.
Qed.
Lemma view_insert (b b' : backend F) p id q :
  (forall k, is_Some (m_dirs b' !! k) <-> is_Some (m_dirs b !! k)) -> m_files b' = <[p := id]> (m_files b) ->
  view b' q = upd (view b) p (Some (File id)) q.
Proof.
  intros Hk Hf. rewrite (view_same_dirs b b' q Hk), Hf. unfold upd, view.
  destruct (decide (q = p)) as [-> |]; [by rewrite lookup_insert_eq | by rewrite lookup_insert_ne].
Qed.
Lemma view_delete (b b' : backend F) p q :
  (forall k, is_Some (m_dirs b' !! k) <-> is_Some (m_dirs b !! k)) -> m_files b' = delete p (m_files b) ->
  m_dirs b !! dir_key p = None -> view b' q = upd (view b) p None q.
Proof.
  intros Hk Hf Hp. rewrite (view_same_dirs b b' q Hk), Hf. unfold upd, view.
  destruct (decide (q = p)) as [-> |]; [by rewrite lookup_delete_eq, Hp | by rewrite lookup_delete_ne].
Qed.

(** Adding and removing the file at a path. *)
Lemma wf_link_file c (b : backend F) d n id ino heap next D :
  wf b -> m_dirs b !! d = Some D -> name n -> m_files b !! (d +:+ n) = None -> m_dirs b !! (d +:+ n +:+ "/") = None ->
  is_Some (heap !! id) -> (forall q, m_files b !! q <> Some id) ->
  (forall i, is_Some (b_heap b !! i) -> is_Some (heap !! i)) -> (forall i, is_Some (heap !! i) -> (i < next)%positive) ->
  wf (Backend (m_root_dir b) (<[d +:+ n := id]> (m_files b)) (alter (add_file c n) d (m_dirs b)) ino heap next).
Proof.
  intros [HS HL HH HI HN] Hd Hn Hf Hk Hid Hfr Hh Hnx. split; cbn [m_files m_dirs b_heap b_next].
  - rewrite (names_alter_add _ _ _ _ D) by done. apply shape_link_file; [done | by apply names_lookup | done | by apply names_none].
  - apply (links_add _ _ _ _ D); [done | done |]. eapply (sh_fresh HS); [by apply names_lookup | done | by apply names_none].
  - intros p i [[_ <-] | [_ Hp]]%lookup_insert_Some; [done | eauto].
  - intros p q i [[<- <-] | [Hne Hp]]%lookup_insert_Some [[<- Ei] | [Hne' Hq]]%lookup_insert_Some; try done.
    + by destruct (Hfr q).
    + subst. by destruct (Hfr p).
    + eauto.
  - done.
Qed.
Lemma wf_unlink_file c (b : backend F) d n id D :
  wf b -> m_dirs b !! d = Some D -> name n -> m_files b !! (d +:+ n) = Some id ->
  wf (alter_dir (remove_file c n) d (set_files (delete (d +:+ n) (m_files b)) b)).
Proof.
  intros Hwf Hd Hn Hf. destruct (Hwf) as [HS HL HH HI HN].
  assert (Hs : ends_slash d = true) by eauto using dir_key_slash.
  assert (Hk : m_dirs b !! (d +:+ n +:+ "/") = None).
  { apply names_none. rewrite app_assoc_string. eapply (sh_excl _ _ HS). eauto. }
  split; cbn [alter_dir set_files set_dirs m_files m_dirs b_heap b_next].
  - rewrite (names_alter_remove _ _ _ _ D) by done. apply shape_unlink_file; [done | by apply names_lookup | done | by apply names_none].
  - apply (links_remove _ _ _ _ D); [done | done |]. eapply (sh_file_in HS); [done | done | done | by apply names_lookup].
  - intros p i [_ Hp]%lookup_delete_Some. eauto.
  - intros p q i [_ Hp]%lookup_delete_Some [_ Hq]%lookup_delete_Some. eauto.
  - done.
Qed.

Section Ops.
Context `{Host}.

Lemma create_refines c (b : backend F) p mode : wf b -> allowed (view b) (Create p mode) -> refines b (Create p mode) (run c (Create p mode) b).
Proof.
  intros Hwf (Hp & Hnr & Hnd). destruct Hp as [| d n Hd Hn]; [done |]. clear Hnr.
  assert (Hs := dkey_slash _ Hd). unfold run, do_create. rewrite parent_key_app, base_name_app by done.
  destruct (m_files b !! (d +:+ n)) as [id |] eqn:Ef.
  { exists (-1), b, (view b). split_and!; try done. apply sp_create_exists. apply view_file in Ef. by rewrite Ef. }
  destruct (m_dirs b !! d) as [D |] eqn:ED.
  2: { exists (-1), b, (view b). split_and!; try done. apply sp_create_orphan. rewrite view_parent by done. rewrite ED. by intros []. }
  destruct (f_new_empty (d +:+ n)) as [f ->]. cbn [alter_dir set_files set_dirs m_files b_next new_inode set_inode i_inode set_heap].
  assert (Hv : view b (d +:+ n) = None).
  { destruct (view b (d +:+ n)) as [[id |] |] eqn:Ev; try done. apply view_file in Ev. congruence. }
  apply view_none in Hv as [_ Hk]; [| done | done].
  assert (Hfr : forall q, m_files b !! q <> Some (b_next b)).
  { intros q Hq. destruct (wf_heap b Hwf q _ Hq) as [x Hx]. pose proof (wf_next b Hwf _ ltac:(eauto)). lia. }
  eexists 0, _, (upd (view b) (d +:+ n) (Some (File (b_next b)))). split; [reflexivity |]. split; [| split].
  - eapply (wf_link_file c b d n); try done.
    + rewrite lookup_insert_eq. eauto.
    + intros i Hi. rewrite lookup_insert. by destruct (decide (b_next b = i)).
    + intros i. cbn [b_heap]. rewrite lookup_insert_is_Some. intros [<- | [_ Hi]]; [lia |].
      pose proof (wf_next b Hwf _ Hi). lia.
  - apply sp_create.
    + apply view_none; done.
    + apply view_parent; [done | done | done |]. rewrite ED. eauto.
    + intros q Hq. apply view_file in Hq. by apply (Hfr q).
  - intros q _. apply view_insert; [| done]. intros k. apply lookup_alter_is_Some.
Qed.

(** The directory of a file is there and does not also have a directory of that name. *)
Lemma file_parent (b : backend F) d n id : wf b -> dkey d -> name n -> m_files b !! (d +:+ n) = Some id ->
  (exists D, m_dirs b !! d = Some D) /\ m_dirs b !! (d +:+ n +:+ "/") = None.
Proof.
  intros Hwf Hd Hn Hf. split.
  - destruct (sh_file_parent (wf_shape b Hwf) d n id Hf (dkey_slash _ Hd) Hn) as [ns Hns].
    rewrite lookup_fmap in Hns. destruct (m_dirs b !! d); [eauto | done].
  - apply names_none. rewrite app_assoc_string. eapply (sh_excl _ _ (wf_shape b Hwf)). eauto.
Qed.

Lemma unlink_state c (b : backend F) d n id : wf b -> dkey d -> name n -> m_files b !! (d +:+ n) = Some id ->
  let b' := alter_dir (remove_file c n) d (set_files (delete (d +:+ n) (m_files b)) b) in
  wf b' /\ forall q, view b' q = upd (view b) (d +:+ n) None q.
Proof.
  intros Hwf Hd Hn Hf b'. destruct (file_parent b d n id Hwf Hd Hn Hf) as [[D HD] Hk]. split; [by eapply wf_unlink_file |].
  intros q. apply view_delete; [intros k; apply lookup_alter_is_Some | done |]. by rewrite dir_key_app by eauto using dkey_slash.
Qed.

Lemma not_root_path p : path p -> p = "/" \/ exists d n, p = d +:+ n /\ dkey d /\ name n.
Proof. intros [| d n Hd Hn]; [by left | right; eauto]. Qed.

Lemma unlink_refines c (b : backend F) p : wf b -> allowed (view b) (Unlink p) -> refines b (Unlink p) (run c (Unlink p) b).
Proof.
  intros Hwf Hp. simpl in Hp |- *. unfold do_unlink. destruct (m_files b !! p) as [id |] eqn:Ef.
  - assert (Hv : view b p = Some (File id)) by by apply view_file.
    destruct (not_root_path p Hp) as [-> | (d & n & -> & Hd & Hn)]; [by rewrite view_root in Hv |].
    destruct (unlink_state c b d n id Hwf Hd Hn Ef) as [Hwf' Hview].
    rewrite parent_key_app, base_name_app by eauto using dkey_slash.
    eexists 0, _, (upd (view b) (d +:+ n) None). split; [reflexivity |]. split; [done |]. split; [by eapply sp_unlink | by intros q _].
  - exists (- ENOENT), b, (view b). split_and!; try done. apply sp_unlink_missing. intros id Hv. apply view_file in Hv. congruence.
Qed.

(** A file that gets new attributes. *)
Lemma wf_set_heap (b : backend F) id f : wf b -> is_Some (b_heap b !! id) -> wf (set_heap (<[id := f]> (b_heap b)) (b_next b) b).
Proof.
  intros [HS HL HH HI HN] Hid. split; cbn [set_heap m_files m_dirs b_heap b_next]; try done.
  - intros p i Hp. rewrite lookup_insert. destruct (decide (id = i)); eauto.
  - intros i. rewrite lookup_insert_is_Some. intros [<- | [_ Hi]]; eauto.
Qed.

Lemma remove_target_state c (b : backend F) d n : wf b -> dkey d -> name n -> m_dirs b !! (d +:+ n +:+ "/") = None ->
  let b' := remove_target c (d +:+ n) b in
  wf b' /\ (forall q, view b' q = upd (view b) (d +:+ n) None q) /\ m_files b' = delete (d +:+ n) (m_files b) /\
  b_heap b' = b_heap b /\ (forall k, is_Some (m_dirs b' !! k) <-> is_Some (m_dirs b !! k)).
Proof.
  intros Hwf Hd Hn Hk. unfold remove_target. rewrite parent_key_app, base_name_app by eauto using dkey_slash.
  destruct (m_files b !! (d +:+ n)) as [id |] eqn:Ef.
  - destruct (unlink_state c b d n id Hwf Hd Hn Ef) as [Hwf' Hview]. split_and!; try done. intros k. apply lookup_alter_is_Some.
  - split_and!; try done; [| by rewrite delete_id]. intros q. unfold upd. destruct (decide (q = d +:+ n)) as [-> |]; [| done].
    apply view_none; eauto using dkey_slash.
Qed.

Lemma rename_refines c (b : backend F) o n : wf b -> allowed (view b) (Rename o n) -> refines b (Rename o n) (run c (Rename o n) b).
Proof.
  intros Hwf (Ho & Hn & Hne & Hod & Hnd & Hpar). simpl. unfold do_rename.
  destruct (not_root_path o Ho) as [-> | (do_ & no_ & -> & Hdo & Hno)]; [by rewrite view_root in Hod |].
  destruct (not_root_path n Hn) as [-> | (dn & nn & -> & Hdn & Hnn)]; [by rewrite view_root in Hnd |].
  assert (Hso := dkey_slash _ Hdo). assert (Hsn := dkey_slash _ Hdn).
  rewrite dir_key_app by done. rewrite view_dir in Hod, Hnd by done. rewrite view_parent in Hpar by done.
  destruct (m_dirs b !! (do_ +:+ no_ +:+ "/")) eqn:Eod; [by destruct Hod |]. clear Hod.
  assert (Hkn : m_dirs b !! (dn +:+ nn +:+ "/") = None) by (destruct (m_dirs b !! (dn +:+ nn +:+ "/")); [by destruct Hnd | done]).
  destruct (m_files b !! (do_ +:+ no_)) as [id |] eqn:Efo.
  2: { exists (- ENOENT), b, (view b). split_and!; try done. apply sp_rename_missing. apply view_none; done. }
  destruct (remove_target_state c b dn nn Hwf Hdn Hnn Hkn) as (Hwf1 & Hv1 & Hf1 & Hh1 & Hk1).
  set (b1 := remove_target c (dn +:+ nn) b) in *.
  assert (Efo1 : m_files b1 !! (do_ +:+ no_) = Some id) by (rewrite Hf1, lookup_delete_ne by done; done).
  rewrite Efo1. destruct (wf_heap b1 Hwf1 _ _ Efo1) as [f Ef]. rewrite Ef. cbn [set_heap m_files].
  rewrite Hf1, lookup_delete_eq, <- Hf1.
  set (g := f_save _ f). assert (Hwf2 := wf_set_heap b1 id g Hwf1 ltac:(eauto)).
  set (b2 := set_heap (<[id := g]> (b_heap b1)) (b_next b1) b1) in *.
  destruct (unlink_state c b2 do_ no_ id Hwf2 Hdo Hno Efo1) as [Hwf3 Hv3].
  rewrite !parent_key_app, !base_name_app by done.
  set (b3 := alter_dir _ _ _) in Hwf3, Hv3.
  assert (Hk3 : forall k, is_Some (m_dirs b3 !! k) <-> is_Some (m_dirs b !! k)).
  { intros k. rewrite <- Hk1. apply lookup_alter_is_Some. }
  assert (HD3 : exists D, m_dirs b3 !! dn = Some D) by (apply Hk3; done).
  destruct HD3 as [D3 HD3].
  assert (Hkn3 : m_dirs b3 !! (dn +:+ nn +:+ "/") = None).
  { apply eq_None_not_Some. intros [x Hx]%Hk3. congruence. }
  assert (Hfn3 : m_files b3 !! (dn +:+ nn) = None).
  { cbn. rewrite Hf1. apply lookup_delete_None. right. apply lookup_delete_eq. }
  assert (Hfr3 : forall q, m_files b3 !! q <> Some id).
  { intros q. cbn. intros [Hq1 Hq]%lookup_delete_Some. apply Hq1. symmetry. by apply (wf_inj b1 Hwf1 _ _ id). }
  pose proof (wf_link_file c b3 dn nn id (i_inode b1) (b_heap b3) (b_next b3) D3 Hwf3 HD3 Hnn Hfn3 Hkn3) as Hwf4.
  eexists 0, _, (upd (upd (view b) (do_ +:+ no_) None) (dn +:+ nn) (Some (File id))).
  split; [reflexivity |]. rewrite delete_insert_ne by done. split; [| split].
  - apply Hwf4; [| done | done | by apply (wf_next b3)]. cbn. rewrite lookup_insert_eq. eauto.
  - apply sp_rename. by apply view_file.
  - intros q _. rewrite (view_insert b3 _ (dn +:+ nn) id q); [| intros k; apply lookup_alter_is_Some | done].
    unfold upd at 1 2. destruct (decide (q = dn +:+ nn)) as [-> | Hq]; [done |].
    rewrite Hv3. unfold upd. destruct (decide (q = do_ +:+ no_)); [done |].
    transitivity (view b1 q); [done |]. rewrite Hv1. unfold upd. by rewrite decide_False.
Qed.

(** A directory that gets new attributes but keeps its link count. *)
Lemma wf_set_dir (b : backend F) key D a : wf b -> m_dirs b !! key = Some D -> st_nlink a = st_nlink (dir_stat D) ->
  wf (set_dirs (<[key := dir_save a D]> (m_dirs b)) b).
Proof.
  intros [HS HL HH HI HN] HD Ha. split; cbn [set_dirs m_files m_dirs b_heap b_next]; try done.
  - rewrite fmap_insert. cbn. by rewrite insert_id by (by apply names_lookup).
  - intros k d [[<- <-] | [_ Hk]]%lookup_insert_Some; [| eauto]. cbn. rewrite Ha. apply (HL _ _ HD).
Qed.

Lemma with_slash_path p : path p -> with_slash p = dir_key p.
Proof. intros [| d n Hd Hn]; [done |]. by rewrite with_slash_name, dir_key_app by eauto using dkey_slash. Qed.
Lemma path_nonempty p : path p -> p <> "".
Proof. intros [| d n Hd [Hn _]] E; [done |]. destruct d, n; try done. Qed.

Lemma attributes_refine (b : backend F) p change : wf b -> path p -> (forall a, st_nlink (change a) = st_nlink a) ->
  exists x b', change_attributes change p b = Ret x b' /\ wf b' /\ (forall q, view b' q = view b q) /\
    (view b p <> None /\ x = 0 \/ view b p = None /\ x = - ENOENT).
Proof.
  intros Hwf Hp Hc. unfold change_attributes. rewrite bool_decide_false by (by apply path_nonempty).
  rewrite with_slash_path by done. destruct (m_dirs b !! dir_key p) as [D |] eqn:ED.
  - eexists 0, _. split; [reflexivity |]. split; [by apply wf_set_dir; [| | apply Hc] |]. split.
    + intros q. rewrite (view_same_dirs b); [done |]. intros k. cbn. rewrite lookup_insert. destruct (decide _) as [<- |]; [| done].
      rewrite ED. split; eauto.
    + left. split; [| done]. unfold view. rewrite ED. by destruct (m_files b !! p).
  - destruct (m_files b !! p) as [id |] eqn:Ef.
    + destruct (wf_heap b Hwf _ _ Ef) as [f Hf]. rewrite Hf. eexists 0, _. split; [reflexivity |].
      split; [apply wf_set_heap; eauto |]. split; [done |]. left. split; [| done]. unfold view. by rewrite Ef.
    + exists (- ENOENT), b. split_and!; try done. right. split; [| done]. unfold view. by rewrite Ef, ED.
Qed.

Lemma chmod_refines c (b : backend F) p mode : wf b -> path p -> refines b (Chmod p mode) (run c (Chmod p mode) b).
Proof.
  intros Hwf Hp. destruct (attributes_refine b p (fun a => set_times (st_atime a) (st_mtime a) (now c) (set_mode mode a)) Hwf Hp)
    as (x & b' & E & Hwf' & Hv & Hx); [done |]. exists x, b', (view b). split_and!; try done.
  destruct Hx as [[? ->] | [? ->]]; by constructor.
Qed.
Lemma chown_refines c (b : backend F) p u g : wf b -> path p -> refines b (Chown p u g) (run c (Chown p u g) b).
Proof.
  intros Hwf Hp. destruct (attributes_refine b p (fun a => set_times (st_atime a) (st_mtime a) (now c) (set_owner u g a)) Hwf Hp)
    as (x & b' & E & Hwf' & Hv & Hx); [done |]. exists x, b', (view b). split_and!; try done.
  destruct Hx as [[? ->] | [? ->]]; by constructor.
Qed.

(** The view after a directory was made or removed. *)
Lemma dir_key_inj d n q : dkey d -> name n -> path q -> dir_key q = d +:+ n +:+ "/" -> q = d +:+ n.
Proof.
  intros Hd Hn [| d' n' Hd' Hn'].
  - intros E. symmetry in E. by apply child_not_root in E; eauto using dkey_slash.
  - rewrite dir_key_app by eauto using dkey_slash. rewrite !app_assoc_string. apply push_inj.
Qed.

(** A new, empty directory. *)
Lemma link_dir_state c (b : backend F) d n ino D D1 :
  wf b -> dkey d -> name n -> m_dirs b !! d = Some D -> m_files b !! (d +:+ n) = None -> m_dirs b !! (d +:+ n +:+ "/") = None ->
  d_files D1 = ∅ -> st_nlink (d_attr D1) = 1 ->
  let b' := alter_dir (add_file c n) d (set_dirs (<[d +:+ n +:+ "/" := D1]> (m_dirs b)) (set_inode ino b)) in
  wf b' /\ (forall q, path q -> view b' q = upd (view b) (d +:+ n) (Some Directory) q) /\
  is_Some (m_dirs b' !! (d +:+ n +:+ "/")) /\ m_files b' = m_files b.
Proof.
  intros Hwf Hd Hn HD Hf Hk He Hl b'. assert (Hs := dkey_slash _ Hd). set (key := d +:+ n +:+ "/") in *.
  assert (Hne : key <> d) by by apply child_ne. split; [| split; [| split; [| done]]].
  - destruct (Hwf) as [HS HL HH HI HN]. split; cbn [b' alter_dir set_dirs set_inode m_files m_dirs b_heap b_next]; try done.
    + rewrite (names_alter_add _ _ _ _ D) by (by rewrite lookup_insert_ne). rewrite fmap_insert, He.
      apply shape_link_dir; [done | by apply names_lookup | done | done | by apply names_none].
    + apply (links_add _ _ _ _ D); [| by rewrite lookup_insert_ne |].
      * intros k e [[<- <-] | [_ Hk']]%lookup_insert_Some; [| eauto]. unfold num_links. by rewrite Hl, He.
      * eapply (sh_fresh HS); [by apply names_lookup | done | by apply names_none].
  - intros q Hq. unfold upd, view, b'. cbn [alter_dir set_dirs set_inode m_files m_dirs].
    destruct (decide (q = d +:+ n)) as [-> | Hqn].
    + rewrite Hf, dir_key_app by done. by rewrite lookup_alter_ne, lookup_insert_eq by done.
    + destruct (m_files b !! q); [done |].
      assert (dir_key q <> key) by (intros E; apply Hqn; by apply dir_key_inj).
      rewrite lookup_alter. destruct (decide (d = dir_key q)) as [<- |]; rewrite lookup_insert_ne by done; [by rewrite HD | done].
  - unfold b'. cbn [alter_dir set_dirs m_dirs]. rewrite lookup_alter_ne, lookup_insert_eq by done. eauto.
Qed.

Lemma mkdir_refines c (b : backend F) p mode : wf b -> allowed (view b) (Mkdir p mode) -> refines b (Mkdir p mode) (run c (Mkdir p mode) b).
Proof.
  intros Hwf (Hp & Hnr & Hpre). destruct Hp as [| d n Hd Hn]; [done |]. clear Hnr.
  assert (Hs := dkey_slash _ Hd). simpl. unfold do_mkdir. rewrite with_slash_name by done.
  destruct (m_dirs b !! (d +:+ n +:+ "/")) as [D0 |] eqn:EK.
  { exists (-1), b, (view b). split_and!; try done. apply sp_mkdir_exists. apply view_dir; [done | done | done |]. rewrite EK. eauto. }
  destruct (view b (d +:+ n)) as [x |] eqn:Ev.
  { subst x. apply view_dir in Ev as [? ?]; [congruence | done | done | done]. }
  apply view_parent in Hpre as [D HD]; [| done | done | done].
  assert (Hv := Ev). apply view_none in Ev as [Ef _]; [| done | done].
  cbn [new_inode dir_new set_inode m_root_dir m_dirs set_dirs i_inode].
  rewrite app_assoc_string, pop_back_push, <- app_assoc_string, base_name_app, rsplit_app by (done || apply Hn). cbn [fst].
  set (D1 := dir_save _ _).
  destruct (link_dir_state c b d n (u64 (i_inode b + 1)) D D1 Hwf Hd Hn HD Ef EK) as (Hwf' & Hview & _); [done | done |].
  rewrite lookup_insert_ne, HD by (by apply child_ne).
  eexists 0, _, (upd (view b) (d +:+ n) (Some Directory)). split; [reflexivity |]. split; [exact Hwf' |]. split; [by apply sp_mkdir | exact Hview].
Qed.

(** The tables have fewer entries than an integer can count. *)
Definition fits (b : backend F) : Prop := forall k D, m_dirs b !! k = Some D -> num_links D < 2 ^ 64 - 1.

Lemma rmdir_refines c (b : backend F) p : wf b -> fits b -> allowed (view b) (Rmdir p) -> refines b (Rmdir p) (run c (Rmdir p) b).
Proof.
  intros Hwf Hfits (Hp & Hnr). destruct Hp as [| d n Hd Hn]; [done |]. clear Hnr.
  assert (Hs := dkey_slash _ Hd). simpl. unfold do_rmdir. rewrite with_slash_name by done.
  destruct (m_dirs b !! (d +:+ n +:+ "/")) as [D0 |] eqn:EK.
  2: { exists (- ENOENT), b, (view b). split_and!; try done. apply sp_rmdir_missing. rewrite view_dir by done. rewrite EK. by intros []. }
  assert (Hv : view b (d +:+ n) = Some Directory) by (apply view_dir; [done | done | done | rewrite EK; eauto]).
  assert (Hchild : forall m, name m -> m ∈ d_files D0 <-> view b (child_of (d +:+ n) m) <> None).
  { intros m Hm. unfold child_of. rewrite with_slash_name by done. split.
    - intros Hin Hv0. apply view_none in Hv0 as [Hf0 Hk0]; [| rewrite app_assoc_string; apply ends_slash_push | done].
      eapply (sh_fresh (wf_shape b Hwf)); [by apply names_lookup | done | by apply names_none | done].
    - intros Hv0. assert (Hsk : ends_slash (d +:+ n +:+ "/") = true) by (rewrite app_assoc_string; apply ends_slash_push).
      destruct (view b ((d +:+ n +:+ "/") +:+ m)) as [[id |] |] eqn:E; [| | done].
      + apply view_file in E. eapply (sh_file_in (wf_shape b Hwf)); [done | done | done | by apply names_lookup].
      + apply view_dir in E as [D1 HD1]; [| done | done | done].
        eapply (sh_dir_in (wf_shape b Hwf)); [by apply names_lookup | done | done | by apply names_lookup]. }
  unfold dir_stat. rewrite (wf_links b Hwf _ _ EK), u64_small by (pose proof (Hfits _ _ EK); unfold num_links in *; lia).
  destruct (Z.eqb_spec (1 + num_links D0) 1) as [Hz | Hz]; cbn [negb].
  2: { exists (- ENOTEMPTY), b, (view b). split_and!; try done.
       destruct (set_choose_or_empty (d_files D0)) as [[m Hm] | He].
       - destruct (sh_listed _ _ (wf_shape b Hwf) _ _ m (names_lookup _ _ _ EK) Hm) as [Hnm _].
         apply (sp_rmdir_full _ _ m); [done | done | by apply Hchild].
       - unfold num_links in Hz. apply leibniz_equiv in He. rewrite He, size_empty in Hz. lia. }
  assert (He : d_files D0 = ∅) by (unfold num_links in Hz; apply leibniz_equiv, size_empty_inv; lia).
  destruct (sh_dir_parent (wf_shape b Hwf) d n _ (names_lookup _ _ _ EK) Hs Hn) as [ns Hns].
  rewrite lookup_fmap in Hns. destruct (m_dirs b !! d) as [D |] eqn:HD; [| done]. injection Hns as <-.
  cbn [m_dirs set_dirs]. rewrite app_assoc_string, pop_back_push, <- app_assoc_string, base_name_app, rsplit_app by (done || apply Hn).
  cbn [fst]. set (key := d +:+ n +:+ "/") in *. assert (Hne : key <> d) by by apply child_ne.
  rewrite lookup_delete_ne, HD by done.
  eexists 0, _, (upd (view b) (d +:+ n) None). split; [reflexivity |]. split; [| split].
  - destruct (Hwf) as [HS HL HH HI HN]. split; cbn [alter_dir set_dirs m_files m_dirs b_heap b_next]; try done.
    + rewrite (names_alter_remove _ _ _ _ D) by (by rewrite lookup_delete_ne). rewrite fmap_delete.
      apply shape_unlink_dir; [done | by apply names_lookup | done |]. rewrite <- He. by apply names_lookup.
    + apply (links_remove _ _ _ _ D); [| by rewrite lookup_delete_ne |].
      * intros k e [_ Hk]%lookup_delete_Some. eauto.
      * eapply (sh_dir_in HS); [by apply names_lookup | done | done | by apply names_lookup].
  - apply sp_rmdir; [done |]. intros m Hm. destruct (view b (child_of (d +:+ n) m)) eqn:E; [| done].
    assert (Hin : m ∈ d_files D0) by (apply Hchild; [done | by rewrite E]). rewrite He in Hin. set_solver.
  - intros q Hq. unfold upd, view. cbn [alter_dir set_dirs m_files m_dirs].
    assert (Ef : m_files b !! (d +:+ n) = None).
    { destruct (m_files b !! (d +:+ n)) eqn:E; [| done]. apply view_file in E. congruence. }
    destruct (decide (q = d +:+ n)) as [-> | Hqn].
    + rewrite Ef, dir_key_app by done. by rewrite lookup_alter_ne, lookup_delete_eq by done.
    + destruct (m_files b !! q); [done |].
      assert (dir_key q <> key) by (intros E; apply Hqn; by apply dir_key_inj).
      rewrite lookup_alter. destruct (decide (d = dir_key q)) as [<- |]; rewrite lookup_delete_ne by done; [by rewrite HD | done].
Qed.

Lemma op_refines (c : clock) (b : backend F) (o : op) :
  wf b -> fits b -> allowed (view b) o -> refines b o (run c o b).
Proof.
  intros Hwf Hfits Ha. destruct o; [by apply create_refines | by apply unlink_refines | by apply rename_refines
    | by apply mkdir_refines | by apply rmdir_refines | by apply chmod_refines | by apply chown_refines].
Qed.

(** The operations other than the creation of a file keep every object, up to its attributes. *)
Definition attributes_only (h h' : gmap positive F) : Prop :=
  dom h' = dom h /\ forall id f, h !! id = Some f ->
    exists f', h' !! id = Some f' /\ (f' = f \/ exists a, f' = f_save a f /\ st_size a = st_size (f_stat f)).
Definition creates (o : op) : bool := match o with Create _ _ => true | _ => false end.
Lemma attributes_only_refl h : attributes_only h h.
Proof. split; [done |]. intros id f Hf. eauto. Qed.
Lemma attributes_only_save h id f a : h !! id = Some f -> st_size a = st_size (f_stat f) ->
  attributes_only h (<[id := f_save a f]> h).
Proof.
  intros Hid Ha. split; [apply dom_insert_lookup_L; eauto |]. intros i g Hg. destruct (decide (id = i)) as [-> | Hne].
  - rewrite lookup_insert_eq. simplify_eq. eauto 6.
  - rewrite lookup_insert_ne by done. eauto.
Qed.
Lemma run_heap c o (b b' : backend F) x : creates o = false -> run c o b = Ret x b' -> attributes_only (b_heap b) (b_heap b').
Proof.
  intros Ho. destruct o; cbn in Ho; try done; cbn [run];
    unfold do_unlink, do_rename, do_renamedir, remove_target, do_mkdir, dir_new, do_rmdir, do_chmod, do_chown, change_attributes; cbn;
    intros E; repeat case_match; simplify_eq/=; eauto using attributes_only_refl, attributes_only_save.
Qed.

(** Reading a directory gives the two dots and exactly the names under which the tree has
    something below it, each of them once. *)
Lemma readdir_names (b : backend F) (p : string) :
  wf b -> path p -> view b p = Some Directory ->
  exists l, do_readdir p b = "." :: ".." :: l /\ NoDup l /\
    forall n, n ∈ l <-> name n /\ view b (child_of p n) <> None.
Proof.
  intros Hwf Hp Hv. unfold do_readdir, find_s. rewrite bool_decide_false by (by apply path_nonempty).
  rewrite with_slash_path by done. assert (HD : exists D, m_dirs b !! dir_key p = Some D).
  { unfold view in Hv. destruct (m_files b !! p); [done |]. destruct (m_dirs b !! dir_key p); [eauto | done]. }
  destruct HD as [D HD]. rewrite HD.
  assert (Hstrip : (fun f => if ends_slash f then pop_back f else f) <$> elements (d_files D) = elements (d_files D)).
  { rewrite <- list_fmap_id. apply list_fmap_ext. intros i x Hx%list_elem_of_lookup_2%elem_of_elements.
    destruct (sh_listed _ _ (wf_shape b Hwf) _ _ x (names_lookup _ _ _ HD) Hx) as [Hn _].
    assert (E := ends_slash_app_name "" x Hn). change ("" +:+ x) with x in E. by rewrite E. }
  rewrite Hstrip. eexists. split; [reflexivity |]. split; [apply NoDup_elements |].
  intros n. rewrite elem_of_elements. unfold child_of. rewrite with_slash_path by done.
  assert (Hk : ends_slash (dir_key p) = true) by eauto using dir_key_slash. split.
  - intros Hin. destruct (sh_listed _ _ (wf_shape b Hwf) _ _ n (names_lookup _ _ _ HD) Hin) as [Hn _]. split; [done |].
    intros [Hf0 Hk0]%view_none; [| done | done].
    eapply (sh_fresh (wf_shape b Hwf)); [by apply names_lookup | done | by apply names_none | done].
  - intros [Hn Hv0]. destruct (view b (dir_key p +:+ n)) as [[id |] |] eqn:E; [| | done].
    + apply view_file in E. eapply (sh_file_in (wf_shape b Hwf)); [done | done | done | by apply names_lookup].
    + apply view_dir in E as [D1 HD1]; [| done | done | done].
      eapply (sh_dir_in (wf_shape b Hwf)); [by apply names_lookup | done | done | by apply names_lookup].
Qed.

(** A new backend has the root directory and nothing else. *)
Lemma nvml_backend_wf root junk b : nvml_backend root junk = Some b -> wf b /\ forall q, view b q = if decide (dir_key q = "/") then Some Directory else None.
Proof.
  unfold nvml_backend, new_inode, dir_new. destruct (h_stat root) as [a |]; [| done]. intros [= <-]. cbn.
  split; [split; cbn; try done |].
  - rewrite map_fmap_singleton. cbn. split.
    + rewrite lookup_singleton_eq. eauto.
    + intros k ns [<- _]%lookup_singleton_Some. by left.
    + done.
    + intros d ns n [<- <-]%lookup_singleton_Some. set_solver.
    + intros q [? ?]. done.
  - intros k d [<- <-]%lookup_singleton_Some. done.
  - intros id [? ?]. done.
  - intros q. unfold view. cbn. rewrite lookup_empty, lookup_singleton. destruct (decide ("/" = dir_key q)), (decide (dir_key q = "/")); congruence.
Qed.

(** States reached by operations the kernel may ask for. *)
Inductive reachable : backend F -> Prop :=
  | reach_new root junk b : nvml_backend root junk = Some b -> reachable b
  | reach_op c o b x b' : reachable b -> fits b -> allowed (view b) o -> run c o b = Ret x b' -> reachable b'.

Lemma reachable_wf b : reachable b -> wf b.
Proof.
  induction 1 as [root junk b Hb | c o b x b' Hb IH Hf Ha Hr]; [by eapply nvml_backend_wf |].
  assert (HR := op_refines c b o IH Hf Ha).
  destruct HR as (x1 & b1 & t1 & E & Hwf & _). rewrite Hr in E. by injection E as _ ->.
Qed.

(** C6: The operations of the name space: in every state that can be reached by operations that
    [allowed] admits, such an operation returns without a fault or an exception, keeps the
    invariant of the tables, and changes the tree the way the specification says, with the
    code's return values. [allowed] leaves out the renaming of a directory, and of a file to
    itself or over a directory, [mkdir] over a file or without its parent directory, [create] over
    a directory, and the removal of the root. The return values are those of the code, -1 for
    [create] and [mkdir] of what is there and [-ENOENT] for [rmdir] of a file and [unlink] of a
    directory, where POSIX has others; the kernel does not ask for these. *)
Theorem namespace_refines (c : clock) (b : backend F) (o : op) :
  reachable b -> fits b -> allowed (view b) o ->
  exists x b' t', run c o b = Ret x b' /\ wf b' /\ spec (view b) o x t' /\ forall q, path q -> view b' q = t' q.
Proof. intros Hr Hf Ha. apply op_refines; [by eapply reachable_wf | done | done]. Qed.

End Ops.
End Wf.

(** ** A concrete backend

    Files that are their attributes, over a file system in which every path exists. *)
#[export] Instance attr_file : BackendFile attr.
Proof.
  refine {| f_new _ ino _ _ := Some (set_ino ino zero_attr); f_stat a := a; f_save a _ := a; f_change_type _ a := a |}; eauto.
Defined.

Fixpoint split_slashes (s : string) : list string :=
  match s with
  | "" => [""]
  | String c s =>
      if decide (c = slash) then "" :: split_slashes s
      else match split_slashes s with h :: t => String c h :: t | [] => [] end
  end.
Lemma split_slashes_name n h t s : no_slash n = true -> split_slashes s = h :: t -> split_slashes (n +:+ s) = (n +:+ h) :: t.
Proof.
  intros Hn Hs. induction n as [| c n IH]; [done |]. simpl in Hn. apply andb_prop in Hn as [Hc Hn].
  change (String c n +:+ s) with (String c (n +:+ s)). cbn [split_slashes].
  rewrite decide_False by (intros ->; by rewrite bool_decide_true in Hc). by rewrite (IH Hn).
Qed.
Lemma split_slashes_absolute ns : Forall name ns -> split_slashes (absolute ns) = "" :: ns.
Proof.
  induction 1 as [| n ns [_ Hn] _ IH]; [done |]. cbn [absolute foldr]. fold (absolute ns).
  change ("/" +:+ n +:+ absolute ns) with (String slash (n +:+ absolute ns)). cbn [split_slashes]. rewrite decide_True by done.
  rewrite (split_slashes_name n "" ns) by done. by rewrite app_nil_string.
Qed.

#[export] Instance sample_host : Host.
Proof.
  refine {| h_exists _ := true; h_is_directory _ := false; h_entries _ := []; h_stat _ := Some zero_attr;
            h_filename p := (rsplit p).2; h_components p := "/" :: tail (split_slashes p) |}.
  intros ns _ HF. by rewrite split_slashes_absolute.
Defined.

Definition clk : clock := Clock 100 1000 1000.
Definition state_of {X} (d : backend attr) (r : outcome attr X) : backend attr := match r with Ret _ b => b | _ => d end.
Definition new_b : backend attr := default (Backend "" ∅ ∅ 0 ∅ 1%positive) (nvml_backend "/data/" 7).
Definition dir_b : backend attr := state_of new_b (run clk (Mkdir "/a" 493) new_b).
Definition file_b : backend attr := state_of new_b (run clk (Create "/a/x" 420) dir_b).

Ltac concrete_fits :=
  match goal with |- fits ?b => change (map_Forall (fun _ D => num_links D < 2 ^ 64 - 1) (m_dirs b)) end;
  by_evaluation.
Lemma path_a : path "/a".
Proof. apply (path_in "/" "a"); [constructor | done]. Qed.
Lemma path_ax : path "/a/x".
Proof. apply (path_in "/a/" "x"); [apply (dk_in "/" "a"); [constructor | done] | done]. Qed.
Lemma dir_b_reachable : reachable dir_b.
Proof.
  apply (reach_op clk (Mkdir "/a" 493) new_b 0); [eapply reach_new; reflexivity | concrete_fits | | reflexivity].
  split; [apply path_a | split; [done | reflexivity]].
Qed.
Lemma file_b_reachable : reachable file_b.
Proof.
  apply (reach_op clk (Create "/a/x" 420) dir_b 0); [apply dir_b_reachable | concrete_fits | | reflexivity].
  split; [apply path_ax | split; done].
Qed.

Lemma namespace_refines_witness :
  exists x b' t', run clk (Rmdir "/a") file_b = Ret x b' /\ wf b' /\ spec (view file_b) (Rmdir "/a") x t' /\
    forall q, path q -> view b' q = t' q.
Proof.
  apply (namespace_refines clk file_b (Rmdir "/a")); [apply file_b_reachable | concrete_fits |].
  split; [apply path_a | done].
Defined.

End NamespaceSpec.
