(* ===== verification/NamespaceLoad.v ===== *)
(** * Loading into the name space, and what the code does outside of its contract

    Loading a file makes the directories on its path and adds the file. The second part shows
    the renaming of a directory and the renaming of a file onto itself, which the tree of
    [NamespaceSpec] does not survive. *)
From S2P Require Import Prelude Errors Namespace NamespaceSpec.
From Stdlib Require Import Ascii String.
From stdpp Require Import base list numbers option strings gmap sets.
Local Open Scope string_scope.
Local Open Scope Z_scope.
Local Open Scope list_scope.

Module NamespaceLoad.
Import Namespace NamespaceSpec.
#[local] Arguments String.append : simpl nomatch.

(** ** Paths of the loop *)

(** The key of the directory that names lead to. *)
Definition dir_of (ns : list string) : string := fold_left (fun d n => d +:+ n +:+ "/") ns "/".

Lemma dir_of_snoc ns n : dir_of (ns ++ [n]) = dir_of ns +:+ n +:+ "/".
Proof. unfold dir_of. by rewrite fold_left_app. Qed.
Lemma absolute_snoc ns n : absolute (ns ++ [n]) = absolute ns +:+ "/" +:+ n.
Proof.
  induction ns as [| m ns IH]; cbn [app absolute foldr].
  - by rewrite app_nil_string.
  - fold (absolute (ns ++ [n])) (absolute ns). rewrite IH. by rewrite !app_assoc_string.
Qed.
Lemma absolute_dir_of ns : absolute ns +:+ "/" = dir_of ns.
Proof.
  induction ns as [| n ns IH] using rev_ind; [done |]. rewrite dir_of_snoc, absolute_snoc, <- IH. by rewrite !app_assoc_string.
Qed.
Lemma absolute_app ns n : absolute (ns ++ [n]) = dir_of ns +:+ n.
Proof. by rewrite absolute_snoc, <- absolute_dir_of, app_assoc_string. Qed.
Lemma dir_of_dkey ns : Forall name ns -> dkey (dir_of ns).
Proof.
  induction ns as [| n ns IH] using rev_ind; intros HF; [constructor |]. rewrite dir_of_snoc.
  apply Forall_app in HF as [HF Hn]. inversion Hn. by constructor; [apply IH |].
Qed.

Lemma substring_all s : String.substring 0 (String.length s) s = s.
Proof. induction s as [| c s IH]; simpl; [done |]. by rewrite IH. Qed.
Lemma substring_app d r : String.substring 0 (String.length d) (d +:+ r) = d.
Proof. induction d as [| c d IH]; simpl; [by destruct r |]. by rewrite IH. Qed.
Lemma substring_length s n : (String.length (String.substring 0 n s) <= String.length s)%nat.
Proof. revert n. induction s as [| c s IH]; intros [| n]; simpl; try lia. specialize (IH n). lia. Qed.

Lemma rfind_short pat s : (String.length s < String.length pat)%nat -> rfind_string pat s = None.
Proof.
  induction s as [| c s IH]; intros Hl.
  - simpl. rewrite bool_decide_false; [done |]. intros ->. simpl in Hl. lia.
  - cbn [rfind_string]. simpl in Hl. rewrite IH by lia. destruct (String.prefix pat (String c s)) eqn:E; [| done].
    apply String.prefix_correct in E. pose proof (substring_length (String c s) (String.length pat)) as HL.
    rewrite E in HL. simpl in HL. lia.
Qed.

(** The last occurrence of a name in a key that ends with it is at the end. *)
Lemma rfind_name d n : name n -> rfind_string n (d +:+ n +:+ "/") = Some (String.length d).
Proof.
  intros [Hne Hns]. induction d as [| c d IH].
  - change ("" +:+ n +:+ "/") with (n +:+ "/"). destruct n as [| c n]; [done |].
    change (String c n +:+ "/") with (String c (n +:+ "/")). cbn [rfind_string].
    replace (rfind_string (String c n) (n +:+ "/")) with (@None nat).
    + replace (String.prefix (String c n) (String c (n +:+ "/"))) with true; [done |]. symmetry.
      apply String.prefix_correct. apply (substring_app (String c n) "/").
    + symmetry. destruct (n +:+ "/") as [| c2 r] eqn:Er; [by destruct n |]. cbn [rfind_string].
      assert (HL : String.length (n +:+ "/") = S (String.length n)) by (rewrite length_app_string; simpl; lia).
      rewrite Er in HL. simpl in HL. rewrite rfind_short by (simpl; lia).
      destruct (String.prefix (String c n) (String c2 r)) eqn:E; [| done]. apply String.prefix_correct in E.
      replace (String.length (String c n)) with (String.length (String c2 r)) in E by (simpl; lia).
      rewrite substring_all in E. rewrite <- Er in E. apply (f_equal ends_slash) in E. rewrite ends_slash_push in E.
      pose proof (ends_slash_app_name "" (String c n) (conj Hne Hns) : ends_slash (String c n) = false) as E2. congruence.
  - change (String c d +:+ n +:+ "/") with (String c (d +:+ n +:+ "/")). cbn [rfind_string]. by rewrite IH.
Qed.
Lemma before_last_name d n : name n -> before_last n (d +:+ n +:+ "/") = d.
Proof. intros Hn. unfold before_last. rewrite rfind_name by done. apply substring_app. Qed.

(** ** Loading a file *)

Section Load.
Context {F : Type} `{BackendFile F} `{Host}.

(** The state with other files; the loop over the directories does not look at them. *)
Definition with_files (files : gmap string positive) (heap : gmap positive F) (next : positive) (b : backend F) : backend F :=
  Backend (m_root_dir b) files (m_dirs b) (i_inode b) heap next.
Definition map_state {X} (f : backend F -> backend F) (r : outcome F X) : outcome F X :=
  match r with Ret x b => Ret x (f b) | Throw b => Throw (f b) | Fault => Fault end.

Lemma load_dirs_files c files heap next bp parts (b : backend F) :
  load_dirs c bp parts (with_files files heap next b) = map_state (with_files files heap next) (load_dirs c bp parts b).
Proof.
  revert bp b. induction parts as [| n parts IH]; intros bp b; [done |]. cbn [load_dirs].
  change (m_dirs (with_files files heap next b)) with (m_dirs b).
  destruct (m_dirs b !! (bp +:+ n +:+ "/")); [apply IH |]. cbn [new_inode with_files m_root_dir set_inode i_inode].
  destruct (dir_new _ _ _ _ _) as [D |]; [| done]. cbn [set_dirs m_dirs set_inode with_files].
  destruct (<[bp +:+ n +:+ "/" := D]> (m_dirs b) !! before_last n (bp +:+ n +:+ "/")); [| done].
  apply (IH _ (alter_dir _ _ (set_dirs _ (set_inode _ b)))).
Qed.

(** The paths of the directories on the way from [bp] along [parts]. *)
Fixpoint on_the_way (bp : string) (parts : list string) : list string :=
  match parts with [] => [] | n :: parts => (bp +:+ n) :: on_the_way (bp +:+ n +:+ "/") parts end.
Definition with_dirs (t : tree) (ps : list string) : tree := fun q => if decide (q ∈ ps) then Some Directory else t q.

Lemma on_the_way_path bp parts q : dkey bp -> Forall name parts -> q ∈ on_the_way bp parts -> path q.
Proof.
  revert bp. induction parts as [| n parts IH]; intros bp Hbp HF; simpl; [by intros ?%elem_of_nil |].
  inversion HF as [| ? ? Hn HF']. subst. intros [-> | Hin]%elem_of_cons; [by constructor |].
  eapply IH; [| done | exact Hin]. by constructor.
Qed.

(** The loop makes the directories on the way that are not there yet. *)
Lemma load_dirs_ok c bp parts (b : backend F) :
  wf b -> dkey bp -> is_Some (m_dirs b !! bp) -> Forall name parts ->
  (forall q, q ∈ on_the_way bp parts -> m_files b !! q = None) -> (forall p, is_Some (h_stat p)) ->
  exists b', load_dirs c bp parts b = Ret (fold_left (fun d n => d +:+ n +:+ "/") parts bp) b' /\ wf b' /\
    (forall q, path q -> view b' q = with_dirs (view b) (on_the_way bp parts) q) /\
    is_Some (m_dirs b' !! fold_left (fun d n => d +:+ n +:+ "/") parts bp) /\ m_files b' = m_files b /\
    b_heap b' = b_heap b /\ b_next b' = b_next b.
Proof.
  intros Hwf Hbp HD HF Hno Hst. revert bp b Hwf Hbp HD HF Hno.
  induction parts as [| n parts IH]; intros bp b Hwf Hbp [D HD] HF Hno; cbn [load_dirs fold_left on_the_way].
  - exists b. split_and!; try done.
  - inversion HF as [| ? ? Hn HF']. subst. assert (Hbp' : dkey (bp +:+ n +:+ "/")) by by constructor.
    assert (Hpath : path (bp +:+ n)) by by constructor.
    assert (Hfn : m_files b !! (bp +:+ n) = None) by (apply Hno, list_elem_of_here).
    assert (Hskip : forall b1 b2 : backend F, (forall q, path q -> view b1 q = upd (view b) (bp +:+ n) (Some Directory) q) ->
       (forall q, path q -> view b2 q = with_dirs (view b1) (on_the_way (bp +:+ n +:+ "/") parts) q) ->
       forall q, path q -> view b2 q = with_dirs (view b) ((bp +:+ n) :: on_the_way (bp +:+ n +:+ "/") parts) q).
    { intros b1 b2 H1 H2 q Hq. rewrite H2 by done. unfold with_dirs. rewrite H1 by done. unfold upd.
      repeat destruct (decide _); set_solver. }
    destruct (m_dirs b !! (bp +:+ n +:+ "/")) as [D' |] eqn:EK.
    + destruct (IH (bp +:+ n +:+ "/") b) as (b' & E & Hwf' & Hv & Hk & Hf & Hh & Hx); [done | done | eauto | done | |].
      { intros q Hq. by apply Hno, list_elem_of_further. }
      exists b'. split_and!; try done. apply (Hskip b b'); [| done]. intros q Hq. unfold upd. destruct (decide _) as [-> |]; [| done].
      apply view_dir; [done | by apply dkey_slash | done |]. rewrite EK. eauto.
    + cbn [new_inode dir_new]. destruct (Hst (m_root_dir (set_inode (u64 (i_inode b + 1)) b) +:+ bp +:+ n +:+ "/")) as [a Ea].
      rewrite Ea. cbn [mbind option_bind]. rewrite before_last_name by done. cbn [set_dirs m_dirs set_inode].
      rewrite lookup_insert_ne, HD by (by apply child_ne).
      destruct (link_dir_state c b bp n (u64 (i_inode b + 1)) D (Dir (bp +:+ n +:+ "/") persistent ∅ (set_nlink 1 (set_ino (u64 (s32 (i_inode b))) a)))
        Hwf Hbp Hn HD Hfn EK) as (Hwf1 & Hv1 & Hk1 & Hf1); [done | done |].
      edestruct (IH (bp +:+ n +:+ "/")) as (b' & E & Hwf' & Hv & Hk & Hf & Hh & Hx); [exact Hwf1 | done | exact Hk1 | done | |].
      { intros q Hq. rewrite Hf1. by apply Hno, list_elem_of_further. }
      exists b'. split_and!; [exact E | done | by eapply Hskip | done | by rewrite Hf, Hf1 | by rewrite Hh | by rewrite Hx].
Qed.

Lemma fold_dir_longer parts bp : (String.length bp <= String.length (fold_left (fun d n => d +:+ n +:+ "/") parts bp))%nat.
Proof.
  revert bp. induction parts as [| n parts IH]; intros bp; simpl; [lia |]. etransitivity; [| apply IH].
  rewrite length_app_string. lia.
Qed.
Lemma on_the_way_shorter bp parts q :
  q ∈ on_the_way bp parts -> (String.length q < String.length (fold_left (fun d n => d +:+ n +:+ "/") parts bp))%nat.
Proof.
  revert bp. induction parts as [| n parts IH]; intros bp; cbn [on_the_way fold_left]; [by intros ?%elem_of_nil |].
  intros [-> | Hin]%elem_of_cons; [| by apply IH]. eapply Nat.lt_le_trans; [| apply fold_dir_longer].
  rewrite !length_app_string. simpl. lia.
Qed.
Lemma removelast_parts {X} (l : list X) x : removelast (l ++ [x]) = l.
Proof. rewrite removelast_app by done. simpl. by rewrite app_nil_r. Qed.

Lemma wf_set_inode (b : backend F) i : wf b -> wf (set_inode i b).
Proof. intros [HS HL HH HI HN]. by split. Qed.

(** What a load of a file that is not there yet does to the tables. *)
Lemma load_ok (c : clock) (pathname n : string) (ns : list string) (t : entry_type) (b : backend F) :
  wf b -> h_exists pathname = true -> h_is_directory pathname = false ->
  remove_root pathname b = Some (absolute (ns ++ [n])) -> Forall name (ns ++ [n]) ->
  view b (absolute (ns ++ [n])) = None -> (forall q, q ∈ on_the_way "/" ns -> m_files b !! q = None) ->
  (forall p, is_Some (h_stat p)) -> (forall ino, is_Some (f_new pathname ino t true)) ->
  exists b' f, load c pathname t b = Ret Errors.success b' /\ wf b' /\
    f_new pathname (u64 (s32 (i_inode b))) t true = Some f /\ b_heap b' = <[b_next b := f]> (b_heap b) /\
    m_files b' = <[absolute (ns ++ [n]) := b_next b]> (m_files b) /\
    forall q, path q -> view b' q
      = upd (with_dirs (view b) (on_the_way "/" ns)) (absolute (ns ++ [n])) (Some (File (b_next b))) q.
Proof.
  intros Hwf Hex Hnd Hrr HF Hv Hno Hst Hnew. unfold load, load_one. rewrite Hex, Hnd, Hrr. cbn [negb].
  assert (Hcomp := h_components_absolute (ns ++ [n]) ltac:(by destruct ns) HF).
  apply Forall_app in HF as [HFs HFn]. inversion HFn as [| ? ? Hn _]. subst. rewrite absolute_app in *.
  assert (Hdk := dir_of_dkey ns HFs). assert (Hs := dkey_slash _ Hdk).
  apply view_none in Hv as [Hf Hk]; [| done | done]. rewrite Hf. cbn [new_inode].
  destruct (Hnew (u64 (s32 (i_inode b)))) as [f Ef]. rewrite Ef. cbn [set_inode b_next m_files set_files].
  rewrite Hcomp. replace (removelast ("/" :: ns ++ [n])) with ("/" :: ns) by (by rewrite app_comm_cons, removelast_parts).
  cbn [tail]. replace (last ("/" :: ns ++ [n])) with (Some n) by (by rewrite app_comm_cons, last_snoc).
  set (b0 := set_inode (u64 (i_inode b + 1)) b). set (id := b_next b).
  set (files := <[dir_of ns +:+ n := id]> (m_files b)). set (heap := <[id := f]> (b_heap b)).
  change (set_heap _ _ _) with (with_files files heap (Pos.succ id) b0).
  assert (HD0 : is_Some (m_dirs b !! "/")).
  { destruct (sh_root _ _ (wf_shape b Hwf)) as [x Hx]. rewrite lookup_fmap in Hx. destruct (m_dirs b !! "/"); [eauto | done]. }
  destruct (load_dirs_ok c "/" ns b0) as (b1 & E & Hwf1 & Hv1 & Hk1 & Hf1 & Hh1 & Hx1);
    [by apply wf_set_inode | constructor | done | done | done | done |].
  rewrite load_dirs_files, E. cbn [map_state]. fold (dir_of ns) in *. destruct Hk1 as [D1 HD1].
  change (m_dirs (with_files files heap (Pos.succ id) b1)) with (m_dirs b1). rewrite HD1.
  assert (Hnotin : dir_of ns +:+ n ∉ on_the_way "/" ns).
  { intros Hin%on_the_way_shorter. fold (dir_of ns) in Hin. rewrite length_app_string in Hin. lia. }
  assert (Hv1p : view b1 (dir_of ns +:+ n) = None).
  { rewrite Hv1 by (by constructor). unfold with_dirs. rewrite decide_False by done. apply view_none; done. }
  apply view_none in Hv1p as [Hf1p Hk1p]; [| done | done].
  eexists _, f. split; [reflexivity |]. split; [| split; [done | split; [done | split; [done |]]]].
  - pose proof (wf_link_file c b1 (dir_of ns) n id (i_inode b1) heap (Pos.succ id) D1 Hwf1 HD1 Hn Hf1p Hk1p) as HW.
    rewrite Hf1 in HW. apply HW.
    + unfold heap. rewrite lookup_insert_eq. eauto.
    + intros q Hq. destruct (wf_heap b Hwf q id Hq) as [x Hx]. pose proof (wf_next b Hwf id ltac:(eauto)). unfold id in *. lia.
    + intros i. rewrite Hh1. unfold heap. rewrite lookup_insert_is_Some'. auto.
    + intros i. unfold heap. rewrite lookup_insert_is_Some'. intros [<- | Hi]; [lia |]. pose proof (wf_next b Hwf i Hi). unfold id. lia.
  - intros q Hq. rewrite (view_insert b1 _ (dir_of ns +:+ n) id q).
    + unfold upd. destruct (decide _); [done |]. by apply Hv1.
    + intros k. apply lookup_alter_is_Some.
    + by rewrite Hf1.
Qed.

(** Loading a file that is not there yet: it succeeds, keeps the invariant, and the tree
    gets the file and the missing directories on its path, and nothing else. *)
Theorem load_refines (c : clock) (pathname n : string) (ns : list string) (t : entry_type) (b : backend F) :
  wf b -> h_exists pathname = true -> h_is_directory pathname = false ->
  remove_root pathname b = Some (absolute (ns ++ [n])) -> Forall name (ns ++ [n]) ->
  view b (absolute (ns ++ [n])) = None -> (forall q, q ∈ on_the_way "/" ns -> m_files b !! q = None) ->
  (forall p, is_Some (h_stat p)) -> (forall ino, is_Some (f_new pathname ino t true)) ->
  exists b', load c pathname t b = Ret Errors.success b' /\ wf b' /\
    forall q, path q -> view b' q
      = upd (with_dirs (view b) (on_the_way "/" ns)) (absolute (ns ++ [n])) (Some (File (b_next b))) q.
Proof.
  intros Hwf Hex Hnd Hrr HF Hv Hno Hst Hnew.
  destruct (load_ok c pathname n ns t b Hwf Hex Hnd Hrr HF Hv Hno Hst Hnew) as (b' & _ & E & Hwf' & _ & _ & _ & Hv'). eauto.
Qed.

(** A file that is renamed onto itself: the code removes the file at the new path first, and
    then dereferences the iterator of the old one, which is at the end of the table. (POSIX
    asks for success and no change.) *)
Theorem rename_onto_itself (c : clock) (b : backend F) (p : string) (id : positive) :
  wf b -> path p -> view b p = Some (File id) -> do_rename c p p b = Fault.
Proof.
  intros Hwf Hp Hv. destruct (not_root_path p Hp) as [-> | (d & n & -> & Hd & Hn)]; [by rewrite view_root in Hv |].
  apply view_file in Hv. destruct (file_parent b d n id Hwf Hd Hn Hv) as [_ Hk].
  unfold do_rename. rewrite dir_key_app, Hk, Hv by eauto using dkey_slash.
  destruct (remove_target_state c b d n Hwf Hd Hn Hk) as (_ & _ & Hf & _). by rewrite Hf, lookup_delete_eq.
Qed.

End Load.

Lemma load_refines_witness :
  exists b', load clk "/data/a/y" persistent file_b = Ret Errors.success b' /\ wf b' /\
    forall q, path q -> view b' q
      = upd (with_dirs (view file_b) (on_the_way "/" ["a"])) (absolute (["a"] ++ ["y"])) (Some (File (b_next file_b))) q.
Proof.
  apply (load_refines clk "/data/a/y" "y" ["a"] persistent file_b);
    [apply reachable_wf, file_b_reachable | reflexivity | reflexivity | reflexivity | by repeat constructor | reflexivity | | |].
  - intros q [-> | ?%elem_of_nil]%elem_of_cons; [reflexivity | done].
  - eauto.
  - eauto.
Defined.

Lemma rename_onto_itself_witness : do_rename clk "/a/x" "/a/x" file_b = Fault.
Proof.
  apply (rename_onto_itself clk file_b "/a/x" 1%positive); [apply reachable_wf, file_b_reachable | apply path_ax | reflexivity].
Defined.

(** The renaming of a directory with an entry: it returns success, but the parent goes on
    listing the old name and does not list the new one, the old path is gone, and the file
    below it keeps its old path and is not found under the new one. *)
Theorem rename_directory_breaks_tree :
  exists b', do_rename clk "/a" "/b" file_b = Ret 0 b' /\
    do_readdir "/" b' = ["."; ".."; "a"] /\ do_readdir "/b" b' = ["."; ".."; "x"] /\
    do_stat "/a" b' = Ret (- ENOENT, None) b' /\ do_stat "/b/x" b' = Ret (- ENOENT, None) b' /\
    view b' "/a/x" = Some (File 1) /\ ~ wf b'.
Proof.
  eexists. split; [reflexivity |]. do 5 (split; [reflexivity |]). intros Hwf.
  destruct (sh_listed _ _ (wf_shape _ Hwf) "/" {["a"]} "a") as [_ [[? ?] | [? ?]]]; [reflexivity | set_solver | done | done].
Qed.

End NamespaceLoad.
