(* ===== verification/NamespaceLocks.v ===== *)
(** * The mutexes of a backend: nvram-nvml.cpp, nvram-nvml.h

    A backend has a mutex for each of its two tables. Every operation takes and releases them in
    a fixed order; the threads are a list of the actions that each has still to perform. The
    operations that take the files first cannot block each other; the two that take the
    directories first can. *)
From S2P Require Import Prelude.
From stdpp Require Import base list option relations.

Module NamespaceLocks.

Inductive mutex := m_files_mutex | m_dirs_mutex.
#[export] Instance mutex_eq_dec : EqDecision mutex.
Proof. solve_decision. Defined.
Inductive action := Lock (m : mutex) | Unlock (m : mutex).
#[export] Instance action_eq_dec : EqDecision action.
Proof. solve_decision. Defined.

Definition both : list action := [Lock m_files_mutex; Lock m_dirs_mutex; Unlock m_dirs_mutex; Unlock m_files_mutex].
Definition files_only : list action := [Lock m_files_mutex; Unlock m_files_mutex].
Definition dirs_only : list action := [Lock m_dirs_mutex; Unlock m_dirs_mutex].
Definition dirs_first : list action := [Lock m_dirs_mutex; Lock m_files_mutex; Unlock m_files_mutex; Unlock m_dirs_mutex].

Inductive operation := op_load | op_exists | op_readdir | op_stat | op_create | op_unlink | op_rename
  | op_mkdir | op_rmdir | op_chmod | op_chown.

(** The sequences an operation may go through. [load] of one file, [do_create] and [do_stat] may
    return before they take the second mutex, [do_chmod] and [do_chown] take it only for a path
    that is not a directory. [load] of a directory, which loads its files one after the other
    and holds no mutex in between, is left out. *)
Definition load_locks : list (list action) := [both; files_only].
Definition exists_locks : list (list action) := [files_only].
Definition readdir_locks : list (list action) := [dirs_only].
Definition stat_locks : list (list action) := [both; files_only].
Definition create_locks : list (list action) := [both; files_only].
Definition unlink_locks : list (list action) := [both].
Definition rename_locks : list (list action) := [both].
Definition mkdir_locks : list (list action) := [dirs_only].
Definition rmdir_locks : list (list action) := [dirs_only].
Definition chmod_locks : list (list action) := [dirs_first; dirs_only].
Definition chown_locks : list (list action) := [dirs_first; dirs_only].
Definition locking (o : operation) : list (list action) :=
  match o with
  | op_load => load_locks
  | op_exists => exists_locks
  | op_readdir => readdir_locks
  | op_stat => stat_locks
  | op_create => create_locks
  | op_unlink => unlink_locks
  | op_rename => rename_locks
  | op_mkdir => mkdir_locks
  | op_rmdir => rmdir_locks
  | op_chmod => chmod_locks
  | op_chown => chown_locks
  end.

(** A thread holds a mutex when the next thing it does with it is to release it. *)
Fixpoint holds (m : mutex) (t : list action) : bool :=
  match t with
  | [] => false
  | Lock m' :: t => if decide (m = m') then false else holds m t
  | Unlock m' :: t => if decide (m = m') then true else holds m t
  end.

Inductive step : list (list action) -> list (list action) -> Prop :=
  | step_lock ts i m t : ts !! i = Some (Lock m :: t) -> (forall u, u ∈ ts -> holds m u = false) -> step ts (<[i := t]> ts)
  | step_unlock ts i m t : ts !! i = Some (Unlock m :: t) -> step ts (<[i := t]> ts).

Definition starts (ts : list (list action)) (os : list operation) : Prop :=
  Forall2 (fun t o => t ∈ locking o) ts os.

(** What is left of the sequences that take the files first. *)
Definition ordered : list (list action) :=
  [[]; both; tail both; tail (tail both); tail (tail (tail both)); files_only; dirs_only; tail dirs_only].

Ltac ordered_cases H :=
  unfold ordered in H; rewrite !elem_of_cons, elem_of_nil in H;
  repeat match type of H with _ \/ _ => destruct H as [H | H] end.

Lemma ordered_tail a t : a :: t ∈ ordered -> t ∈ ordered.
Proof.
  intros Hin. ordered_cases Hin; try done; injection Hin as _ ->; by_evaluation.
Qed.
Lemma ordered_step ts ts' : Forall (fun t => t ∈ ordered) ts -> step ts ts' -> Forall (fun t => t ∈ ordered) ts'.
Proof.
  intros HF Hs. destruct Hs as [ts i m t Hi _ | ts i m t Hi]; apply Forall_insert; try done;
    eapply ordered_tail, (Forall_lookup_1 _ _ _ _ HF Hi).
Qed.

(** A thread that holds the directories is about to release them; a thread that holds the files
    is about to take the directories or to release something. *)
Lemma ordered_holds_dirs t : t ∈ ordered -> holds m_dirs_mutex t = true -> exists m, head t = Some (Unlock m).
Proof. intros Hin Hh. ordered_cases Hin; subst; vm_compute in Hh; try done; eexists; reflexivity. Qed.
Lemma ordered_holds_files t : t ∈ ordered -> holds m_files_mutex t = true ->
  head t = Some (Lock m_dirs_mutex) \/ exists m, head t = Some (Unlock m).
Proof. intros Hin Hh. ordered_cases Hin; subst; vm_compute in Hh; try done; eauto. Qed.

(** Whether some thread has an action at its head. *)
Definition next (a : action) (ts : list (list action)) : bool :=
  existsb (fun t => bool_decide (head t = Some a)) ts.
Lemma next_lookup a ts : next a ts = true -> exists i t, ts !! i = Some (a :: t).
Proof.
  unfold next. intros (t & Hin & Ht)%existsb_exists. apply bool_decide_eq_true in Ht.
  apply list_elem_of_In, list_elem_of_lookup in Hin as [i Hi]. destruct t as [| b t]; simplify_eq/=. eauto.
Qed.
Lemma next_false a ts t : next a ts = false -> t ∈ ts -> head t <> Some a.
Proof.
  intros Hn Hin Hh. assert (next a ts = true); [| congruence].
  apply existsb_exists. exists t. split; [by apply list_elem_of_In | by apply bool_decide_eq_true].
Qed.

Lemma ordered_progress ts :
  Forall (fun t => t ∈ ordered) ts -> Exists (fun t => t <> []) ts -> exists ts', step ts ts'.
Proof.
  intros HF HE. rewrite list.Forall_forall in HF.
  destruct (next (Unlock m_files_mutex) ts) eqn:U1.
  { apply next_lookup in U1 as (i & t & Hi). eexists. by eapply step_unlock. }
  destruct (next (Unlock m_dirs_mutex) ts) eqn:U2.
  { apply next_lookup in U2 as (i & t & Hi). eexists. by eapply step_unlock. }
  assert (HnU : forall t, t ∈ ts -> forall m, head t <> Some (Unlock m)).
  { intros t Ht m. destruct m; by eapply next_false. }
  destruct (next (Lock m_dirs_mutex) ts) eqn:L2.
  { apply next_lookup in L2 as (i & t & Hi). eexists. eapply step_lock; [exact Hi |].
    intros u Hu. apply not_true_is_false. intros Hh.
    destruct (ordered_holds_dirs u (HF u Hu) Hh) as (m & Hm). by apply (HnU u Hu m). }
  apply list.Exists_exists in HE as (t & Ht & Hne). destruct t as [| [m | m] t]; [done | | by destruct (HnU _ Ht m)].
  destruct m; [| by destruct (next_false _ _ _ L2 Ht)].
  apply list_elem_of_lookup in Ht as [i Hi]. eexists. eapply step_lock; [exact Hi |].
  intros u Hu. apply not_true_is_false. intros Hh.
  destruct (ordered_holds_files u (HF u Hu) Hh) as [Hm | (m & Hm)].
  - by apply (next_false _ _ _ L2 Hu).
  - by apply (HnU u Hu m).
Qed.

Definition files_first (o : operation) : bool :=
  match o with op_chmod | op_chown => false | _ => true end.

Lemma starts_ordered ts os : starts ts os -> Forall (fun o => files_first o = true) os -> Forall (fun t => t ∈ ordered) ts.
Proof.
  intros HS. induction HS as [| t o ts os Ht HS IH]; intros HF; [constructor |].
  inversion HF as [| ? ? Ho HF']; subst. constructor; [| by apply IH].
  destruct o; try done; cbv [locking load_locks exists_locks readdir_locks stat_locks create_locks unlink_locks rename_locks mkdir_locks rmdir_locks] in Ht; rewrite ?elem_of_cons, elem_of_nil in Ht;
    destruct Ht as [-> | Ht]; try destruct Ht as [-> | Ht]; try done;
    by_evaluation.
Qed.
Lemma ordered_steps ts ts' : rtc step ts ts' -> Forall (fun t => t ∈ ordered) ts -> Forall (fun t => t ∈ ordered) ts'.
Proof. induction 1 as [| ts ts1 ts2 Hs _ IH]; [done |]. intros HF. by eapply IH, ordered_step. Qed.

(** Every step performs one of the actions that are left, so a run is never longer than them. *)
Definition remaining (ts : list (list action)) : nat := sum_list (length <$> ts).
Lemma remaining_insert ts i a t : ts !! i = Some (a :: t) -> remaining ts = S (remaining (<[i := t]> ts)).
Proof.
  revert i. induction ts as [| u ts IH]; intros [| i] Hi; simplify_eq/=; [done |].
  unfold remaining in *. cbn. rewrite (IH i Hi). lia.
Qed.
Lemma step_remaining ts ts' : step ts ts' -> remaining ts = S (remaining ts').
Proof. destruct 1 as [ts i m t Hi _ | ts i m t Hi]; by eapply remaining_insert. Qed.
Lemma remaining_zero ts : remaining ts = 0%nat -> Forall (fun t => t = []) ts.
Proof.
  unfold remaining. induction ts as [| u ts IH]; cbn; intros H; constructor.
  - destruct u; [done | cbn in H; lia].
  - apply IH. lia.
Qed.

Lemma ordered_completes n ts : remaining ts = n -> Forall (fun t => t ∈ ordered) ts ->
  exists ts', nsteps step n ts ts' /\ Forall (fun t => t = []) ts'.
Proof.
  revert ts. induction n as [| n IH]; intros ts Hn HF.
  - exists ts. split; [constructor | by apply remaining_zero].
  - destruct (ordered_progress ts HF) as (ts1 & Hs).
    { destruct (decide (Exists (fun t => t <> []) ts)) as [| HnE]; [done |].
      assert (remaining ts = 0%nat); [| lia]. clear -HnE. unfold remaining.
      induction ts as [| u ts IH]; [done |]. rewrite Exists_cons in HnE. cbn.
      rewrite IH by tauto. destruct u; [done |]. exfalso. apply HnE. by left. }
    pose proof (step_remaining _ _ Hs) as Hr. destruct (IH ts1) as (ts2 & Hss & HE); [lia | by eapply ordered_step |].
    exists ts2. split; [by eapply nsteps_l | done].
Qed.

(** C33: Threads that run operations of a backend other than chmod and chown, each with any of the
    lock sequences of its operation, never block each other: whatever the schedule has done so
    far, it can be continued until every thread has finished, in exactly as many steps as there
    are actions left. *)
Theorem files_first_never_deadlocks os ts ts' :
  starts ts os -> Forall (fun o => files_first o = true) os -> rtc step ts ts' ->
  exists ts'', nsteps step (remaining ts') ts' ts'' /\ Forall (fun t => t = []) ts''.
Proof.
  intros HS HF Hr. apply ordered_completes; [done |]. eapply ordered_steps; [exact Hr |]. by eapply starts_ordered.
Qed.
Lemma files_first_never_deadlocks_witness :
  exists ts'', nsteps step 5 [tail both; files_only] ts'' /\ Forall (fun t => t = []) ts''.
Proof.
  apply (files_first_never_deadlocks [op_create; op_exists] [both; files_only] [tail both; files_only]).
  - repeat constructor; by_evaluation.
  - repeat constructor.
  - apply rtc_once. apply (step_lock [both; files_only] 0 m_files_mutex (tail both)); [reflexivity |].
    intros u Hu. rewrite !elem_of_cons, elem_of_nil in Hu. destruct Hu as [-> | [-> | []]]; reflexivity.
Defined.

(** A chmod of a path that is not a directory takes the two mutexes in the other order than
    create, unlink and rename: of two such threads each can take its first mutex, and then neither
    can ever take a step. *)
Theorem chmod_create_deadlock :
  exists ts, starts [dirs_first; both] [op_chmod; op_create] /\ rtc step [dirs_first; both] ts /\
    Forall (fun t => t <> []) ts /\ forall ts', ~ step ts ts'.
Proof.
  exists [tail dirs_first; tail both]. split; [| split; [| split]].
  - repeat constructor; by_evaluation.
  - eapply rtc_l; [| apply rtc_once].
    + apply (step_lock _ 0 m_dirs_mutex (tail dirs_first)); [reflexivity |].
      intros u Hu. rewrite !elem_of_cons, elem_of_nil in Hu. destruct Hu as [-> | [-> | []]]; reflexivity.
    + apply (step_lock [tail dirs_first; both] 1 m_files_mutex (tail both)); [reflexivity |].
      intros u Hu. rewrite !elem_of_cons, elem_of_nil in Hu. destruct Hu as [-> | [-> | []]]; reflexivity.
  - repeat constructor; done.
  - intros ts' Hs. inversion Hs as [? i m t Hi Hfree | ? i m t Hi]; subst.
    + destruct i as [| [| i]]; simplify_eq/=.
      * by specialize (Hfree (tail both) ltac:(by apply list_elem_of_further, list_elem_of_here)).
      * by specialize (Hfree (tail dirs_first) ltac:(by apply list_elem_of_here)).
    + destruct i as [| [| i]]; simplify_eq/=.
Qed.

End NamespaceLocks.
