(* ===== verification/DevdaxPool.v ===== *)
(** * The allocator of the device DAX backend: src/backends/nvram-devdax/segment.cpp, segment.h

    The backend maps one device and hands out pieces of the mapping: [big_pool] keeps a bit for
    each piece of [m_size_of_segment] bytes and the offset behind the last allocation, and the
    [pool] of every segment holds one block. The operations are whole critical sections of
    [m_allocate_mutex]. A [std::bitset] throws when it is indexed out of range; a division by
    zero and a failed assertion are [Fault], a loop whose counter cannot reach its bound is
    [Spin]. *)
From S2P Require Import Prelude.
From stdpp Require Import base list numbers option gmap sets relations.
Local Open Scope Z_scope.

Module DevdaxPool.

Definition NVML_MAPPINGS : Z := 0x1000000.

Record big_pool := BigPool {
  m_bitset : gset Z; m_offset : Z; m_address : Z; m_init : bool; m_length : Z;
  m_size_of_segment : Z; m_mappings : Z }.
Definition set_bitset (x : gset Z) (p : big_pool) : big_pool :=
  BigPool x (m_offset p) (m_address p) (m_init p) (m_length p) (m_size_of_segment p) (m_mappings p).
Definition set_offset (x : Z) (p : big_pool) : big_pool :=
  BigPool (m_bitset p) x (m_address p) (m_init p) (m_length p) (m_size_of_segment p) (m_mappings p).

Inductive result (A : Type) := Ret (x : A) (p : big_pool) | Throw (p : big_pool) | Fault | Spin.
Arguments Ret {A}.
Arguments Throw {A}.
Arguments Fault {A}.
Arguments Spin {A}.

(** [big_pool::init(subdir, length)]; [mapping] is what [mmap] returns, which is not tested. *)
Definition init (s_segment_size length mapping : Z) (p : big_pool) : result Z :=
  if s_segment_size =? 0 then Fault
  else Ret 0 (BigPool (m_bitset p) 0 mapping true length s_segment_size (length / s_segment_size)).

(** The loops of [allocate] over the bits of a block: the first index from [i] on whose bit is
    set; [None] when the bit set throws. *)
Fixpoint first_set (k : nat) (i start_offset : Z) (bits : gset Z) : option (option Z) :=
  match k with
  | O => Some None
  | S k =>
      let pos := u64 (i + start_offset) in
      if NVML_MAPPINGS <=? pos then None
      else if bool_decide (pos ∈ bits) then Some (Some i)
      else first_set k (i + 1) start_offset bits
  end.

(** The loop over [j]; [last] are [found] and [start_offset] as the loop finds them. *)
Fixpoint search (fuel : nat) (n_segments j : Z) (last : option Z) (p : big_pool) : result (option Z) :=
  if negb (j <? m_mappings p) then Ret last p
  else
    match fuel with
    | O => Spin
    | S fuel =>
        if u64 (n_segments + j) <? m_mappings p then
          match first_set (Z.to_nat n_segments) 0 j (m_bitset p) with
          | None => Throw p
          | Some None => Ret (Some j) p
          | Some (Some i) => search fuel n_segments (u32 (u32 (j + i + 1) + 1)) None p
          end
        else Ret None p
    end.

(** The loop that reserves the segments of a block. *)
Fixpoint set_bits (k : nat) (i start_offset : Z) (p : big_pool) : result unit :=
  match k with
  | O => Ret tt p
  | S k =>
      let pos := u64 (i + start_offset) in
      if NVML_MAPPINGS <=? pos then Throw p
      else set_bits k (i + 1) start_offset (set_bitset ({[pos]} ∪ m_bitset p) p)
  end.

(** The last test of [allocate]. *)
Definition start_over (p : big_pool) : big_pool :=
  if m_length p <=? u64 (u64 (m_offset p - 1) * m_size_of_segment p) then set_offset 0 p else p.

Definition fuel_of (p : big_pool) : nat := S (Z.to_nat (m_mappings p)).

(** [big_pool::allocate(size)] *)
Definition allocate (size : Z) (p : big_pool) : result Z :=
  if m_size_of_segment p =? 0 then Fault
  else
    let n_segments := u32 (size / m_size_of_segment p) in
    let start_offset := m_offset p in
    let first :=
      if u64 (n_segments + start_offset) <? m_mappings p then
        match first_set (Z.to_nat n_segments) 0 start_offset (m_bitset p) with
        | None => Throw p
        | Some None => Ret (Some start_offset) p
        | Some (Some _) => Ret None p
        end
      else Ret None p in
    let found :=
      match first with
      | Ret None p => search (fuel_of p) n_segments 0 (Some 0) p
      | r => r
      end in
    match found with
    | Ret (Some start_offset) p =>
        match set_bits (Z.to_nat n_segments) 0 start_offset p with
        | Ret _ p =>
            Ret (u64 (m_address p + u64 (start_offset * m_size_of_segment p)))
              (start_over (set_offset (u64 (n_segments + start_offset + 1)) p))
        | Throw p => Throw p
        | Fault => Fault
        | Spin => Spin
        end
    | Ret None p => Ret 0 (start_over p)
    | Throw p => Throw p
    | Fault => Fault
    | Spin => Spin
    end.

(** [big_pool::deallocate(address, length)]; the counter is a 32-bit integer. *)
Fixpoint reset_bits (k : nat) (i address : Z) (p : big_pool) : result unit :=
  match k with
  | O => Ret tt p
  | S k =>
      let pos := u64 (u64 (address - m_address p) + u64 (i * m_size_of_segment p)) / m_size_of_segment p in
      if NVML_MAPPINGS <=? pos then Throw p
      else reset_bits k (i + 1) address (set_bitset (m_bitset p ∖ {[pos]}) p)
  end.
Definition deallocate (address length : Z) (p : big_pool) : result unit :=
  if m_size_of_segment p =? 0 then Fault
  else if 2 ^ 32 <=? length / m_size_of_segment p then Spin
  else reset_bits (Z.to_nat (length / m_size_of_segment p)) 0 address p.

(** [pool]: the block of a segment. [m_bpool] is shared by all of them. *)
Record pool := Pool { p_data : Z; p_length : Z }.

(** [pool::pool(subdir)]: the first one maps the device. *)
Definition pool_new (s_segment_size mapping junk : Z) (bp : big_pool) : result pool :=
  if m_init bp then Ret (Pool 0 junk) bp
  else
    match init s_segment_size (u64 (u64 (1024 * 1024 * 1024) * 600)) mapping bp with
    | Ret _ bp => Ret (Pool 0 junk) bp
    | Throw bp => Throw bp
    | Fault => Fault
    | Spin => Spin
    end.

(** [pool::allocate(size)] *)
Definition pool_allocate (size : Z) (pl : pool) (bp : big_pool) : result pool :=
  if negb (p_data pl =? 0) then Fault
  else
    match allocate size bp with
    | Ret addr bp => Ret (Pool addr size) bp
    | Throw bp => Throw bp
    | Fault => Fault
    | Spin => Spin
    end.

(** [pool::deallocate()], which the destructor does as well *)
Definition pool_deallocate (pl : pool) (bp : big_pool) : result pool :=
  if p_data pl =? 0 then Ret pl bp
  else
    match deallocate (p_data pl) (p_length pl) bp with
    | Ret _ bp => Ret (Pool 0 (p_length pl)) bp
    | Throw bp => Throw bp
    | Fault => Fault
    | Spin => Spin
    end.

(** ** Blocks of segments *)

(** The segments from [s] on, [n] of them, and that none of them is taken. *)
Definition in_block (s n x : Z) : Prop := s <= x < s + n.
Definition free_block (s n : Z) (bits : gset Z) : Prop := forall x, in_block s n x -> x ∉ bits.

(** The configuration the allocator is written for: there is a bit for every segment of the
    mapping, and the mapping does not wrap around. *)
Record configured (p : big_pool) : Prop := {
  cf_segment : 0 < m_size_of_segment p;
  cf_mappings : m_mappings p = m_length p / m_size_of_segment p;
  cf_bits : m_mappings p <= NVML_MAPPINGS;
  cf_address : 0 < m_address p;
  cf_length : 0 <= m_length p;
  cf_end : m_address p + m_length p < 2 ^ 64;
  cf_offset : 0 <= m_offset p <= m_mappings p;
  cf_init : m_init p = true }.

Lemma mappings_length p : configured p -> 0 <= m_mappings p /\ m_mappings p * m_size_of_segment p <= m_length p.
Proof.
  intros H. destruct H. rewrite cf_mappings0. split; [apply Z.div_pos; lia |].
  rewrite Z.mul_comm. by apply Z.mul_div_le.
Qed.

Ltac small := unfold NVML_MAPPINGS in *; lia.

Lemma first_set_spec k i s bits : 0 <= i -> 0 <= s -> s + i + Z.of_nat k <= NVML_MAPPINGS ->
  match first_set k i s bits with
  | None => False
  | Some None => free_block (s + i) (Z.of_nat k) bits
  | Some (Some c) => i <= c < i + Z.of_nat k /\ s + c ∈ bits
  end.
Proof.
  revert i. induction k as [| k IH]; intros i Hi Hs Hle; cbn [first_set].
  - intros x [? ?]. lia.
  - rewrite u64_small by small. destruct (Z.leb_spec NVML_MAPPINGS (i + s)); [small |].
    case_bool_decide as Hb; [split; [lia |]; by rewrite (Z.add_comm s i) |].
    specialize (IH (i + 1) ltac:(lia) Hs ltac:(lia)). destruct (first_set k (i + 1) s bits) as [[c |] |].
    + split; [lia | tauto].
    + intros x Hx. destruct (decide (x = i + s)) as [-> | Hne]; [done |]. apply IH. unfold in_block in *. lia.
    + done.
Qed.

(** The search from [j] on returns a free block that ends before the last segment, or there is
    no free block of one segment more. *)
Lemma search_spec p n : configured p -> 0 <= n < 2 ^ 32 -> forall fuel j last,
  0 <= j < 2 ^ 32 -> (Z.to_nat (m_mappings p - j) < fuel)%nat ->
  (last = None \/ 0 < m_mappings p /\ j = 0) ->
  match search fuel n j last p with
  | Ret (Some s) p' => p' = p /\ 0 <= s /\ s + n < m_mappings p /\ free_block s n (m_bitset p)
  | Ret None p' => p' = p /\ forall s, 0 <= s -> j - 1 <= s -> s + n + 1 < m_mappings p -> ~ free_block s (n + 1) (m_bitset p)
  | _ => False
  end.
Proof.
  intros Hc Hn. assert (Hm := cf_bits p Hc). induction fuel as [| fuel IH]; intros j last Hj Hf Hlast; [lia |].
  cbn [search]. destruct (Z.ltb_spec j (m_mappings p)) as [Hlt | Hge]; cbn [negb].
  2:{ destruct Hlast as [-> | ?]; [split; [done | intros; lia] | lia]. }
  rewrite u64_small by small. destruct (Z.ltb_spec (n + j) (m_mappings p)) as [Hfit | Hfull]; [| split; [done | intros; lia]].
  pose proof (first_set_spec (Z.to_nat n) 0 j (m_bitset p) ltac:(lia) ltac:(lia) ltac:(lia)) as HF.
  destruct (first_set _ _ _ _) as [[c |] |]; [| | done].
  - destruct HF as [Hc1 Hc2]. assert (Hj' : u32 (u32 (j + c + 1) + 1) = j + c + 2).
    { rewrite (u32_small (j + c + 1)) by small. rewrite u32_small by small. lia. }
    rewrite Hj'. specialize (IH (j + c + 2) None ltac:(small) ltac:(lia) ltac:(by left)).
    destruct (search fuel n (j + c + 2) None p) as [[s |] p' | | |]; [exact IH | | done | done | done].
    destruct IH as [-> IH]. split; [done |]. intros s Hs0 Hs Hlast' Hfree.
    destruct (decide (s <= j + c)).
    + apply (Hfree (j + c)); [unfold in_block; lia | done].
    + apply (IH s); try lia. done.
  - rewrite Z.add_0_r, Z2Nat.id in HF by lia. repeat split; try lia. done.
Qed.

Lemma set_bits_spec k i s p : 0 <= i -> 0 <= s -> s + i + Z.of_nat k <= NVML_MAPPINGS ->
  exists bits, set_bits k i s p = Ret tt (set_bitset bits p) /\
    forall x, x ∈ bits <-> x ∈ m_bitset p \/ in_block (s + i) (Z.of_nat k) x.
Proof.
  revert i p. induction k as [| k IH]; intros i p Hi Hs Hle; cbn [set_bits].
  - exists (m_bitset p). split; [by destruct p |]. unfold in_block. intros x. split; [auto | intros [? | ?]; [done | lia]].
  - rewrite u64_small by small. destruct (Z.leb_spec NVML_MAPPINGS (i + s)); [small |].
    destruct (IH (i + 1) (set_bitset ({[i + s]} ∪ m_bitset p) p) ltac:(lia) Hs ltac:(lia)) as (bits & E & Hb).
    exists bits. split; [exact E |]. intros x. rewrite Hb. cbn [m_bitset set_bitset]. unfold in_block.
    rewrite elem_of_union, elem_of_singleton. split; [intros [[-> | ?] | ?] | intros [? | ?]]; auto; try (right; lia).
    destruct (decide (x = i + s)); [auto |]. right. lia.
Qed.

Lemma start_over_bitset p : m_bitset (start_over p) = m_bitset p.
Proof. unfold start_over. by destruct (_ <=? _). Qed.
Lemma start_over_configured p : configured p -> configured (start_over p).
Proof.
  intros H. unfold start_over. destruct (_ <=? _); [| done]. pose proof (mappings_length p H). destruct H.
  split; cbn; try done. lia.
Qed.

Lemma reset_bits_spec k i s n p : configured p -> 0 <= i -> 0 <= s -> s + n <= m_mappings p -> i + Z.of_nat k = n ->
  exists bits, reset_bits k i (m_address p + s * m_size_of_segment p) p = Ret tt (set_bitset bits p) /\
    forall x, x ∈ bits <-> x ∈ m_bitset p /\ ~ in_block (s + i) (Z.of_nat k) x.
Proof.
  intros Hc. revert i p Hc. induction k as [| k IH]; intros i p Hc Hi Hs Hle Hk; cbn [reset_bits].
  - exists (m_bitset p). split; [by destruct p |]. unfold in_block. intros x. split; [intros; split; [done | lia] | tauto].
  - destruct (mappings_length p Hc) as [_ HL]. destruct (Hc) as [Hseg _ Hb Ha HL0 He _ _].
    assert (Hpos : u64 (u64 (m_address p + s * m_size_of_segment p - m_address p) + u64 (i * m_size_of_segment p)) / m_size_of_segment p = i + s).
    { replace (m_address p + s * m_size_of_segment p - m_address p) with (s * m_size_of_segment p) by lia.
      assert (0 <= s * m_size_of_segment p /\ 0 <= i * m_size_of_segment p) by nia.
      assert (s * m_size_of_segment p + i * m_size_of_segment p <= m_length p) by nia.
      rewrite (u64_small (s * _)), (u64_small (i * _)), u64_small by lia. rewrite <- Z.mul_add_distr_r, Z.div_mul by lia. lia. }
    rewrite Hpos. destruct (Z.leb_spec NVML_MAPPINGS (i + s)); [lia |].
    destruct (IH (i + 1) (set_bitset (m_bitset p ∖ {[i + s]}) p)) as (bits & E & Hx); [by destruct Hc | lia | lia | exact Hle | lia |].
    exists bits. split; [exact E |]. intros x. rewrite Hx. cbn [m_bitset set_bitset].
    rewrite elem_of_difference, elem_of_singleton. unfold in_block. split.
    + intros [[? ?] ?]. split; [done |]. lia.
    + intros [? ?]. split; [split; [done |] |]; lia.
Qed.

Definition same_device (p p' : big_pool) : Prop :=
  m_address p' = m_address p /\ m_length p' = m_length p /\ m_size_of_segment p' = m_size_of_segment p.

(** Reserving a block that was found. *)
Lemma reserve p s n : configured p -> 0 <= n -> 0 <= s -> s + n < m_mappings p ->
  exists p', (match set_bits (Z.to_nat n) 0 s p with
              | Ret _ p => Ret (u64 (m_address p + u64 (s * m_size_of_segment p))) (start_over (set_offset (u64 (n + s + 1)) p))
              | Throw p => Throw p | Fault => Fault | Spin => Spin
              end) = Ret (m_address p + s * m_size_of_segment p) p' /\ configured p' /\ same_device p p' /\
    forall x, x ∈ m_bitset p' <-> x ∈ m_bitset p \/ in_block s n x.
Proof.
  intros Hc Hn Hs Hfit. destruct (mappings_length p Hc) as [_ HL]. destruct (Hc) as [Hseg Hmap Hb Ha HL0 He Hoff Hi].
  destruct (set_bits_spec (Z.to_nat n) 0 s p) as (bits & -> & Hx); [lia | lia | lia |]. cbn [m_address m_size_of_segment set_bitset].
  assert (0 <= s * m_size_of_segment p <= m_length p) by nia.
  rewrite (u64_small (s * _)), u64_small, u64_small by small.
  eexists. split; [reflexivity |]. split; [apply start_over_configured; split; cbn; try done; lia |]. split.
  - unfold start_over, same_device. by destruct (_ <=? _).
  - rewrite start_over_bitset. cbn [set_offset set_bitset m_bitset]. intros x. by rewrite Hx, Z.add_0_r, Z2Nat.id.
Qed.

(** [allocate] reserves the whole segments of the size, a block that was free, or returns null
    when there is no free block of one segment more. *)
Lemma allocate_spec p size n : configured p -> 0 < m_mappings p -> n = size / m_size_of_segment p ->
  0 <= n < 2 ^ 32 -> exists r p',
  allocate size p = Ret r p' /\ configured p' /\ same_device p p' /\
  (r = 0 /\ m_bitset p' = m_bitset p /\
     (forall s, 0 <= s -> s + n + 1 < m_mappings p -> ~ free_block s (n + 1) (m_bitset p)) \/
   exists s, 0 <= s /\ s + n < m_mappings p /\ r = m_address p + s * m_size_of_segment p /\
     free_block s n (m_bitset p) /\ forall x, x ∈ m_bitset p' <-> x ∈ m_bitset p \/ in_block s n x).
Proof.
  intros Hc HM Hsize Hn. destruct (Hc) as [Hseg Hmap Hb Ha HL0 He Hoff Hi]. unfold allocate.
  destruct (Z.eqb_spec (m_size_of_segment p) 0); [lia |]. rewrite <- Hsize, u32_small by lia.
  set (first := if u64 (n + m_offset p) <? m_mappings p then _ else _).
  assert (Hfirst : first = Ret None p \/
    first = Ret (Some (m_offset p)) p /\ m_offset p + n < m_mappings p /\ free_block (m_offset p) n (m_bitset p)).
  { subst first. rewrite u64_small by small. destruct (Z.ltb_spec (n + m_offset p) (m_mappings p)) as [Hfit |]; [| by left].
    pose proof (first_set_spec (Z.to_nat n) 0 (m_offset p) (m_bitset p) ltac:(lia) ltac:(lia) ltac:(lia)) as HF.
    destruct (first_set _ _ _ _) as [[c |] |]; [by left | | done].
    rewrite Z.add_0_r, Z2Nat.id in HF by lia. right. split; [done | split; [lia | done]]. }
  destruct Hfirst as [-> | (-> & Hfit & Hfree)].
  - pose proof (search_spec p n Hc Hn (fuel_of p) 0 (Some 0) ltac:(lia) ltac:(unfold fuel_of; lia) ltac:(right; lia)) as HS.
    destruct (search _ _ _ _ _) as [[s |] p1 | | |]; [| | done | done | done].
    + destruct HS as (-> & Hs & Hfit & Hfree). destruct (reserve p s n Hc ltac:(lia) Hs Hfit) as (p' & -> & Hc' & Hd & Hx).
      eexists _, p'. split; [reflexivity |]. split; [done |]. split; [done |]. right. eauto 10.
    + destruct HS as [-> HS]. eexists 0, _. split; [reflexivity |]. split; [by apply start_over_configured |].
      split; [unfold start_over, same_device; by destruct (_ <=? _) |]. left.
      split; [done |]. split; [apply start_over_bitset |]. intros s Hs Hlast. apply HS; lia.
  - destruct (reserve p (m_offset p) n Hc ltac:(lia) ltac:(lia) Hfit) as (p' & -> & Hc' & Hd & Hx).
    eexists _, p'. split; [reflexivity |]. split; [done |]. split; [done |]. right. exists (m_offset p). repeat split; try done; try lia; by apply Hx.
Qed.

Lemma deallocate_spec p s size n : configured p -> 0 <= s -> n = size / m_size_of_segment p -> 0 <= n < 2 ^ 32 ->
  s + n <= m_mappings p ->
  exists bits, deallocate (m_address p + s * m_size_of_segment p) size p = Ret tt (set_bitset bits p) /\
    forall x, x ∈ bits <-> x ∈ m_bitset p /\ ~ in_block s n x.
Proof.
  intros Hc Hs Hsize Hn Hfit. destruct (Hc) as [Hseg _ _ _ _ _ _ _]. unfold deallocate.
  destruct (Z.eqb_spec (m_size_of_segment p) 0); [lia |]. rewrite <- Hsize.
  destruct (Z.leb_spec (2 ^ 32) n); [lia |].
  destruct (reset_bits_spec (Z.to_nat n) 0 s n p Hc ltac:(lia) Hs Hfit ltac:(lia)) as (bits & E & Hx).
  exists bits. split; [exact E |]. intros x. by rewrite Hx, Z.add_0_r, Z2Nat.id by lia.
Qed.

(** ** The pools of all segments *)

Abbreviation state := (big_pool * gmap positive pool)%type.
Inductive action :=
  | New (id : positive) (junk : Z) | Allocate (id : positive) (size : Z) | Deallocate (id : positive) | Destroy (id : positive).

Definition DEVICE : Z := 600 * 2 ^ 30.

Section System.
Context (S_ A : Z).
Hypothesis HS : 0 < S_ <= DEVICE.
Hypothesis Hbits : DEVICE / S_ <= NVML_MAPPINGS.
Hypothesis HA : 0 < A.
Hypothesis Hend : A + DEVICE < 2 ^ 64.

(** A member call on the pool of a segment; [None] when it throws, faults or does not return. *)
Definition exec (a : action) (σ : state) : option state :=
  let '(bp, ps) := σ in
  let store id r := match r with Ret pl bp => Some (bp, <[id := pl]> ps) | _ => None end in
  match a with
  | New id junk => store id (pool_new S_ A junk bp)
  | Allocate id size => pl ← ps !! id; store id (pool_allocate size pl bp)
  | Deallocate id => pl ← ps !! id; store id (pool_deallocate pl bp)
  | Destroy id =>
      pl ← ps !! id; match pool_deallocate pl bp with Ret _ bp => Some (bp, delete id ps) | _ => None end
  end.

(** What the segments do with their pools: a pool is created once, an empty one is given a
    block of any size of less than 2^32 device segments (the counters of the loops have 32
    bits), and an existing one is released or destroyed. *)
Definition allowed (a : action) (σ : state) : Prop :=
  match a with
  | New id _ => σ.2 !! id = None
  | Allocate id size =>
      exists pl, σ.2 !! id = Some pl /\ p_data pl = 0 /\ 0 <= size /\ size / S_ < 2 ^ 32
  | Deallocate id | Destroy id => is_Some (σ.2 !! id)
  end.

Inductive reachable : state -> Prop :=
  | reachable_start off addr len seg maps : reachable (BigPool ∅ off addr false len seg maps, ∅)
  | reachable_step σ a σ' : reachable σ -> allowed a σ -> exec a σ = Some σ' -> reachable σ'.

(** The whole segments of a block, which are those that [allocate] reserves. *)
Definition block (pl : pool) : Z * Z := ((p_data pl - A) / S_, p_length pl / S_).
Definition owns (pl : pool) (x : Z) : Prop := p_data pl <> 0 /\ in_block (block pl).1 (block pl).2 x.
Definition good_pool (maps : Z) (pl : pool) : Prop := p_data pl <> 0 -> exists s,
  p_data pl = A + s * S_ /\ 0 <= s /\ 0 <= p_length pl /\ p_length pl / S_ < 2 ^ 32 /\ s + p_length pl / S_ < maps.

(** The bits that are set are those of the blocks of the pools, and no two have one in common. *)
Record tables (maps : Z) (bits : gset Z) (ps : gmap positive pool) : Prop := {
  t_pool id pl : ps !! id = Some pl -> good_pool maps pl;
  t_bits x : x ∈ bits <-> exists id pl, ps !! id = Some pl /\ owns pl x;
  t_excl id1 id2 pl1 pl2 x : ps !! id1 = Some pl1 -> ps !! id2 = Some pl2 -> owns pl1 x -> owns pl2 x -> id1 = id2 }.

Definition device (bp : big_pool) : Prop := m_address bp = A /\ m_length bp = DEVICE /\ m_size_of_segment bp = S_.
Definition inv (σ : state) : Prop :=
  (m_init σ.1 = false /\ m_bitset σ.1 = ∅ /\ σ.2 = ∅) \/
  (configured σ.1 /\ device σ.1 /\ tables (m_mappings σ.1) (m_bitset σ.1) σ.2).

Lemma block_at s l : block (Pool (A + s * S_) l) = (s, l / S_).
Proof. unfold block. cbn. replace (A + s * S_ - A) with (s * S_) by lia. by rewrite !Z.div_mul by lia. Qed.
Lemma owns_at s l x : 0 <= s -> owns (Pool (A + s * S_) l) x <-> in_block s (l / S_) x.
Proof. intros Hs. unfold owns. rewrite block_at. cbn. assert (A + s * S_ <> 0) by nia. tauto. Qed.

Lemma device_mappings bp : configured bp -> device bp -> m_mappings bp = DEVICE / S_ /\ 0 < m_mappings bp.
Proof.
  intros Hc (_ & Hl & Hs). destruct Hc. rewrite cf_mappings0, Hl, Hs. split; [done |]. apply Z.div_str_pos. lia.
Qed.

Lemma tables_insert maps bits bits' ps id pl : tables maps bits ps -> good_pool maps pl ->
  (forall x, x ∈ bits' <-> (x ∈ bits /\ ~ (exists pl0, ps !! id = Some pl0 /\ owns pl0 x)) \/ owns pl x) ->
  (forall x, owns pl x -> x ∉ bits) -> tables maps bits' (<[id := pl]> ps).
Proof.
  intros [Tp Tb Te] Hg Hb' Hfresh. split.
  - intros i q [[<- <-] | [Hne Hi]]%lookup_insert_Some; [done | eauto].
  - intros x. rewrite Hb', Tb. split.
    + intros [[(i & q & Hi & Ho) Hnot] | Ho]; [| exists id, pl; by rewrite lookup_insert_eq].
      exists i, q. split; [| done]. rewrite lookup_insert_ne; [done |]. intros ->. apply Hnot. eauto.
    + intros (i & q & [[<- <-] | [Hne Hi]]%lookup_insert_Some & Ho); [by right |]. left. split; [eauto |].
      intros (q0 & Hq0 & Ho0). by apply Hne, (Te _ _ _ _ _ Hq0 Hi Ho0 Ho).
  - assert (Hno : forall i q x, ps !! i = Some q -> owns q x -> owns pl x -> False).
    { intros i q x Hi Ho Hpl. apply (Hfresh x Hpl). apply Tb. eauto. }
    intros i1 i2 q1 q2 x [[<- <-] | [Hne1 H1]]%lookup_insert_Some [[<- <-] | [Hne2 H2]]%lookup_insert_Some; eauto;
      intros; exfalso; eauto.
Qed.
Lemma tables_delete maps bits ps id pl : tables maps bits ps -> ps !! id = Some pl -> p_data pl = 0 -> tables maps bits (delete id ps).
Proof.
  intros [Tp Tb Te] Hid Hz. split.
  - intros i q [_ Hi]%lookup_delete_Some. eauto.
  - intros x. rewrite Tb. split; intros (i & q & Hi & Ho).
    + exists i, q. split; [| done]. rewrite lookup_delete_ne; [done |]. intros ->. rewrite Hid in Hi. simplify_eq. by destruct Ho.
    + apply lookup_delete_Some in Hi as [_ Hi]. eauto.
  - intros i1 i2 q1 q2 x [_ H1]%lookup_delete_Some [_ H2]%lookup_delete_Some. eauto.
Qed.

Lemma null_owns l x : ~ owns (Pool 0 l) x.
Proof. by intros [? _]. Qed.
Lemma null_good maps l : good_pool maps (Pool 0 l).
Proof. by intros ?. Qed.

Lemma pool_new_inv bp ps id junk : inv (bp, ps) -> ps !! id = None ->
  exists bp', pool_new S_ A junk bp = Ret (Pool 0 junk) bp' /\ inv (bp', <[id := Pool 0 junk]> ps).
Proof.
  intros Hi Hid. assert (Hins : forall maps bits, tables maps bits ps -> tables maps bits (<[id := Pool 0 junk]> ps)).
  { intros maps bits HT. eapply tables_insert; [exact HT | apply null_good | | by intros x ?%null_owns].
    intros x. split; [| intros [[? _] | ?%null_owns]; done]. intros Hx. left. split; [done |].
    intros (pl0 & Hpl0 & _). by rewrite Hid in Hpl0. }
  unfold pool_new. destruct Hi as [(Hf & Hb & Hp) | (Hc & Hd & HT)]; cbn in *.
  - rewrite Hf. unfold init. destruct (Z.eqb_spec S_ 0); [lia |]. eexists. split; [reflexivity |]. right. cbn.
    change (u64 (u64 (1024 * 1024 * 1024) * 600)) with DEVICE. split; [| split; [done |]].
    + split; cbn; try done; try lia. split; [lia |]. apply Z.div_pos; lia.
    + apply Hins. rewrite Hb, Hp. split; [by intros ? ? ?%lookup_empty_Some | | by intros ? ? ? ? ? ?%lookup_empty_Some].
      intros x. split; [by intros ?%elem_of_empty | by intros (? & ? & ?%lookup_empty_Some & _)].
  - rewrite (cf_init _ Hc). eexists. split; [reflexivity |]. right. auto.
Qed.

Lemma inv_some bp ps id pl : inv (bp, ps) -> ps !! id = Some pl ->
  configured bp /\ device bp /\ tables (m_mappings bp) (m_bitset bp) ps.
Proof. intros [(_ & _ & Hp) | H] Hid; [| done]. cbn in Hp. by rewrite Hp, lookup_empty in Hid. Qed.

Lemma device_same bp bp' : configured bp -> configured bp' -> device bp -> same_device bp bp' ->
  device bp' /\ m_mappings bp' = m_mappings bp.
Proof.
  intros [? ? ? ? ? ? ? ?] [? ? ? ? ? ? ? ?] (Ha & Hl & Hs) (Ha' & Hl' & Hs'). unfold device. split; [| congruence].
  repeat split; congruence.
Qed.

Lemma pool_allocate_inv bp ps id pl size n : inv (bp, ps) -> ps !! id = Some pl -> p_data pl = 0 ->
  0 <= size -> n = size / S_ -> n < 2 ^ 32 ->
  exists pl' bp', pool_allocate size pl bp = Ret pl' bp' /\ inv (bp', <[id := pl']> ps) /\
    p_length pl' = size /\
    (p_data pl' = 0 /\ (forall s, 0 <= s -> s + n + 1 < DEVICE / S_ -> ~ free_block s (n + 1) (m_bitset bp)) \/
     exists s, p_data pl' = A + s * S_ /\ 0 <= s /\ s + n < DEVICE / S_ /\ free_block s n (m_bitset bp)).
Proof.
  intros Hi Hid Hz Hsz En Hn. assert (0 <= n) by (subst; apply Z.div_pos; lia). destruct (inv_some _ _ _ _ Hi Hid) as (Hc & Hd & HT).
  destruct (device_mappings bp Hc Hd) as [HM HM0]. destruct (Hd) as (Ha & Hl & Hs). unfold pool_allocate.
  rewrite Hz, Z.eqb_refl. cbn [negb].
  destruct (allocate_spec bp size n Hc HM0 ltac:(congruence) ltac:(lia)) as (r & bp' & E & Hc' & Hsd & Hr). rewrite E.
  destruct (device_same bp bp' Hc Hc' Hd Hsd) as [Hd' HM'].
  assert (Hown : forall x, ~ (exists pl0, ps !! id = Some pl0 /\ owns pl0 x)).
  { intros x (pl0 & Hpl0 & [Hnz _]). rewrite Hid in Hpl0. by simplify_eq. }
  eexists _, bp'. split; [reflexivity |]. rewrite <- HM. destruct Hr as [(-> & Hb & Hnone) | (s & Hs0 & Hfit & -> & Hfree & Hb)].
  - split; [right; cbn; rewrite HM', Hb; split; [done |]; split; [done |] | split; [done |]; left; auto].
    eapply tables_insert; [exact HT | apply null_good | | by intros x ?%null_owns].
    intros x. split; [| intros [[? _] | ?%null_owns]; done]. intros Hx. left. split; [done | apply Hown].
  - rewrite Ha, Hs in *.
    assert (Hob : forall x, owns (Pool (A + s * S_) size) x <-> in_block s n x) by (intros x; rewrite En; by apply owns_at).
    split; [right; cbn; rewrite HM'; split; [done |]; split; [done |] | split; [done |]; right; exists s; repeat split; done].
    eapply tables_insert; [exact HT | | | by intros x ?%Hob%Hfree].
    + intros _. exists s. cbn. rewrite <- En. repeat split; lia.
    + intros x. rewrite Hb, Hob. split; [| tauto]. intros [Hx | Hx]; [left; split; [done | apply Hown] | by right].
Qed.

Lemma pool_deallocate_inv bp ps id pl : inv (bp, ps) -> ps !! id = Some pl ->
  exists pl' bp', pool_deallocate pl bp = Ret pl' bp' /\ p_data pl' = 0 /\ inv (bp', <[id := pl']> ps).
Proof.
  intros Hi Hid. destruct (inv_some _ _ _ _ Hi Hid) as (Hc & Hd & HT). destruct (Hd) as (Ha & Hl & Hs). unfold pool_deallocate.
  destruct (Z.eqb_spec (p_data pl) 0) as [Hz | Hnz].
  { exists pl, bp. split; [done |]. split; [done |]. by rewrite insert_id. }
  destruct (t_pool _ _ _ HT _ _ Hid Hnz) as (s & Hp & Hs0 & Hl0 & Hn & Hfit). rewrite Hp.
  assert (0 <= p_length pl / S_) by (apply Z.div_pos; lia).
  destruct (deallocate_spec bp s (p_length pl) (p_length pl / S_) Hc Hs0 ltac:(congruence) ltac:(lia) ltac:(lia)) as (bits & E & Hb).
  rewrite Ha, Hs in E. rewrite E.
  eexists _, _. split; [reflexivity |]. split; [done |]. right. cbn. split; [by destruct Hc |]. split; [done |].
  eapply tables_insert; [exact HT | apply null_good | | by intros x ?%null_owns].
  assert (Hob : forall x, owns pl x <-> in_block s (p_length pl / S_) x).
  { intros x. destruct pl as [d l]. cbn in *. subst d. by apply owns_at. }
  intros x. rewrite Hb. split.
  - intros [Hx Hnx]. left. split; [done |]. intros (pl0 & Hpl0 & Ho). rewrite Hid in Hpl0. simplify_eq. by apply Hnx, Hob.
  - intros [[Hx Hno] | ?%null_owns]; [| done]. split; [done |]. intros Hin. apply Hno. exists pl. split; [done | by apply Hob].
Qed.

Lemma exec_inv a σ : inv σ -> allowed a σ -> exists σ', exec a σ = Some σ' /\ inv σ'.
Proof.
  destruct σ as [bp ps]. intros Hi Ha. destruct a as [id junk | id size | id | id]; cbn in *.
  - destruct (pool_new_inv bp ps id junk Hi Ha) as (bp' & -> & Hi'). eauto.
  - destruct Ha as (pl & Hid & Hz & H0 & Hn). destruct (pool_allocate_inv bp ps id pl size _ Hi Hid Hz H0 eq_refl Hn) as (pl' & bp' & E & Hi' & _).
    rewrite Hid. cbn. rewrite E. eauto.
  - destruct Ha as [pl Hid]. destruct (pool_deallocate_inv bp ps id pl Hi Hid) as (pl' & bp' & E & _ & Hi'). rewrite Hid. cbn. rewrite E. eauto.
  - destruct Ha as [pl Hid]. destruct (pool_deallocate_inv bp ps id pl Hi Hid) as (pl' & bp' & E & Hz & Hi'). rewrite Hid. cbn. rewrite E.
    eexists. split; [reflexivity |]. destruct (inv_some _ _ id pl' Hi') as (Hc & Hd & HT); [by rewrite lookup_insert_eq |].
    right. split; [done |]. split; [done |]. cbn. rewrite <- (delete_insert_eq ps id pl').
    eapply tables_delete; [exact HT | by rewrite lookup_insert_eq | done].
Qed.
Lemma devdax_reachable_inv σ : reachable σ -> inv σ.
Proof.
  induction 1 as [| σ a σ' _ IH Ha E]; [by left |]. destruct (exec_inv a σ IH Ha) as (σ1 & E1 & H1). by simplify_eq.
Qed.

(** A pool with a block, in terms of device segments. *)
Lemma inv_block bp ps id pl : inv (bp, ps) -> ps !! id = Some pl -> p_data pl <> 0 ->
  exists s, p_data pl = A + s * S_ /\ 0 <= s /\ 0 <= p_length pl /\ (s + p_length pl / S_ + 1) * S_ <= DEVICE /\
    forall x, in_block s (p_length pl / S_) x -> owns pl x.
Proof.
  intros Hi Hid Hnz. destruct (inv_some _ _ _ _ Hi Hid) as (Hc & Hd & HT).
  destruct (t_pool _ _ _ HT _ _ Hid Hnz) as (s & Hp & Hs & Hl & Hn & Hfit). destruct (device_mappings bp Hc Hd) as [HM _].
  exists s. split_and!; try done.
  - pose proof (Z.mul_div_le DEVICE S_ ltac:(lia)). nia.
  - intros x Hx. destruct pl as [d l]. cbn in *. subst d. by apply owns_at.
Qed.

Lemma inv_inside σ : inv σ -> forall id pl, σ.2 !! id = Some pl -> p_data pl <> 0 ->
  A <= p_data pl /\ p_data pl + p_length pl <= A + DEVICE.
Proof.
  destruct σ as [bp ps]. intros Hi id pl Hid Hnz. destruct (inv_block bp ps id pl Hi Hid Hnz) as (s & -> & Hs & Hl & Hle & _).
  pose proof (Z.div_mod (p_length pl) S_ ltac:(lia)). pose proof (Z.mod_pos_bound (p_length pl) S_ ltac:(lia)). nia.
Qed.

Lemma inv_disjoint σ : inv σ -> forall id1 id2 pl1 pl2 y, id1 <> id2 -> σ.2 !! id1 = Some pl1 -> σ.2 !! id2 = Some pl2 ->
  p_data pl1 <> 0 -> p_data pl2 <> 0 ->
  p_data pl1 <= y < p_data pl1 + p_length pl1 / S_ * S_ -> ~ p_data pl2 <= y < p_data pl2 + p_length pl2 / S_ * S_.
Proof.
  destruct σ as [bp ps]. intros Hi id1 id2 pl1 pl2 y Hne H1 H2 Hnz1 Hnz2 Hy1 Hy2. cbn in *.
  destruct (inv_some _ _ _ _ Hi H1) as (_ & _ & HT).
  destruct (inv_block _ _ _ _ Hi H1 Hnz1) as (s1 & E1 & Hs1 & _ & _ & Ho1).
  destruct (inv_block _ _ _ _ Hi H2 Hnz2) as (s2 & E2 & Hs2 & _ & _ & Ho2).
  assert (Hx : forall s n, A + s * S_ <= y < A + s * S_ + n * S_ -> in_block s n ((y - A) / S_)).
  { intros s n Hy. unfold in_block. split; [apply Z.div_le_lower_bound; lia | apply Z.div_lt_upper_bound; lia]. }
  apply Hne. rewrite E1 in Hy1. rewrite E2 in Hy2. apply (t_excl _ _ _ HT _ _ _ _ ((y - A) / S_) H1 H2); auto.
Qed.



End System.

(** ** Concrete runs *)

(** A device of 600 GiB in segments of 128 MiB, mapped at 2^40. *)
Definition segment_128 : Z := 2 ^ 27.
Definition mapped_at : Z := 2 ^ 40.
Definition start : state := (BigPool ∅ 0 0 false 0 0 0, ∅).
Definition after (a : action) (σ : state) : state := default σ (exec segment_128 mapped_at a σ).
Definition two_pools : state := after (New 2%positive 0) (after (Allocate 1%positive (3 * segment_128)) (after (New 1%positive 0) start)).

Lemma reachable_after a σ : reachable segment_128 mapped_at σ -> allowed segment_128 a σ -> reachable segment_128 mapped_at (after a σ).
Proof.
  intros Hr Ha. unfold after. destruct (exec _ _ a σ) as [σ' |] eqn:E; [| done]. by eapply reachable_step.
Qed.
Lemma two_pools_reachable : reachable segment_128 mapped_at two_pools.
Proof.
  apply reachable_after; [| reflexivity]. apply reachable_after.
  - apply reachable_after; [constructor | reflexivity].
  - exists (Pool 0 0). repeat split. discriminate.
Qed.



(** A block that is smaller than a segment is not reserved: on a device of three segments the
    block of 4 KiB that the first segment of a new file has is handed out again while it is in
    use. (The backend gives files segments of 4 KiB and more; the default segment size is
    128 MiB.) *)
Definition small_device : big_pool := BigPool ∅ 0 mapped_at true (3 * segment_128) segment_128 3.
Definition allocations (sizes : list Z) (p : big_pool) : list Z * big_pool :=
  fold_left (fun '(l, p) size => match allocate size p with Ret r p => (l ++ [r], p) | _ => (l, p) end) sizes ([], p).
Theorem small_blocks_are_shared :
  (allocations [4096; segment_128; segment_128] small_device).1 = [mapped_at; mapped_at + segment_128; mapped_at].
Proof. reflexivity. Qed.

(** A hole of exactly the size that is asked for can be missed, because the search goes on two
    segments behind the one that is taken; and the last segment is never used: on a device of
    five segments with only the first in use, three segments are refused. *)
Theorem exact_hole_is_missed :
  allocate (3 * segment_128) (BigPool {[0]} 2 mapped_at true (5 * segment_128) segment_128 5)
  = Ret 0 (BigPool {[0]} 2 mapped_at true (5 * segment_128) segment_128 5) /\
  free_block 1 4 {[0]}.
Proof. split; [reflexivity |]. intros x Hx. unfold in_block in Hx. rewrite elem_of_singleton. lia. Qed.

End DevdaxPool.
