(* ===== verification/Fuse.v ===== *)
(** * The FUSE operations: src/efs-ng.cpp, src/metadata/files.cpp, src/usr-credentials.h

    The handlers serve the requests of the kernel from the first of the configured backends.
    The state is that backend, the table [fastlink] of symbolic links, the [File] records of
    open files, whose addresses the kernel keeps as file handles, the user id that the
    thread has for the file system, and the memory and environment that the files share. A path is looked up in [fastlink] by some of the handlers
    and not by others, as in the code. The data of a file and the buffers of FUSE are the class
    [FileData]. A handler replies, throws, or crashes: a null or dangling pointer. *)
From S2P Require Import Prelude Errors Namespace NamespaceSpec.
From Stdlib Require Import Ascii String.
From stdpp Require Import base list numbers option strings gmap sets.
Local Open Scope string_scope.
Local Open Scope Z_scope.
Local Open Scope list_scope.

Module Fuse.
Import Namespace NamespaceSpec.

(** The data of a [backend::file] and [struct fuse_bufvec], with what the files share: [Sh] is
    the memory and the environment they live in. [None] when a call does not return. *)
Class FileData (Sh F B : Type) := {
  f_truncate : Z -> F -> Sh -> option (F * Sh);
  f_get_data : Z -> Z -> B -> F -> Sh -> option (Z * B * F * Sh);
  f_put_data : Z -> Z -> B -> F -> Sh -> option (Z * F * Sh);
  f_allocate : Z -> Z -> F -> Sh -> option (Z * F * Sh);
  fuse_buf_size : B -> Z;
  FUSE_BUFVEC_INIT : Z -> B }.

Definition EINVAL : Z := 22.
Definition ENOMEM : Z := 12.
Definition EOPNOTSUPP : Z := 95.
Definition O_RDONLY : Z := 0.
Definition O_WRONLY : Z := 1.
Definition O_RDWR : Z := 2.

(** [class File]: the metadata of an open file. *)
Record file_record := FileRecord { inode : Z; fd : Z; mode : Z; ptr : positive }.

Section Fuse.
Context {Sh F B : Type} `{BackendFile F} `{Host} `{FileData Sh F B}.

Record filesystem := Filesystem {
  fs_backend : backend F; fastlink : gmap string string;
  file_records : gmap positive file_record; next_record : positive; fsuid : Z; fs_data : Sh }.
Definition set_backend (b : backend F) (s : filesystem) : filesystem :=
  Filesystem b (fastlink s) (file_records s) (next_record s) (fsuid s) (fs_data s).
Definition set_fastlink (l : gmap string string) (s : filesystem) : filesystem :=
  Filesystem (fs_backend s) l (file_records s) (next_record s) (fsuid s) (fs_data s).
Definition set_records (r : gmap positive file_record) (n : positive) (s : filesystem) : filesystem :=
  Filesystem (fs_backend s) (fastlink s) r n (fsuid s) (fs_data s).
Definition set_fsuid (u : Z) (s : filesystem) : filesystem :=
  Filesystem (fs_backend s) (fastlink s) (file_records s) (next_record s) u (fs_data s).

Definition set_data (e : Sh) (s : filesystem) : filesystem :=
  Filesystem (fs_backend s) (fastlink s) (file_records s) (next_record s) (fsuid s) e.

Inductive answer (X : Type) := Reply (x : X) (s : filesystem) | Exception (s : filesystem) | Crash.
#[local] Arguments Reply {X}.
#[local] Arguments Exception {X}.
#[local] Arguments Crash {X}.

Definition of_outcome {X} (s : filesystem) (r : outcome F X) : answer X :=
  match r with
  | Ret x b => Reply x (set_backend b s)
  | Throw b => Exception (set_backend b s)
  | Fault => Crash
  end.

(** [fastlink.count(pathname) > 0 ? fastlink[pathname].c_str() : pathname] *)
Definition resolve (pathname : string) (s : filesystem) : string := default pathname (fastlink s !! pathname).

(** The object behind a pointer to a file. *)
Definition object (id : positive) (s : filesystem) : option F := b_heap (fs_backend s) !! id.
Definition set_object (id : positive) (f : F) (s : filesystem) : filesystem :=
  set_backend (set_heap (<[id := f]> (b_heap (fs_backend s))) (b_next (fs_backend s)) (fs_backend s)) s.
(** The object and what the files share, after an operation on the object. *)
Definition store_object (id : positive) (f : F) (e : Sh) (s : filesystem) : filesystem := set_data e (set_object id f s).
Definition with_object {X} (id : positive) (s : filesystem) (k : F -> answer X) : answer X :=
  match object id s with Some f => k f | None => Crash end.
(** The record that [file_info->fh] points to. *)
Definition with_record {X} (fh : positive) (s : filesystem) (k : file_record -> answer X) : answer X :=
  match file_records s !! fh with Some r => k r | None => Crash end.

(** ** Requests by path *)

Definition efsng_getattr (pathname : string) (s : filesystem) : answer (Z * option attr) :=
  of_outcome s (do_stat (resolve pathname s) (fs_backend s)).
Definition efsng_readlink (pathname : string) (s : filesystem) : answer Z := Reply (- EOPNOTSUPP) s.
Definition efsng_mknod (pathname : string) (mode dev : Z) (s : filesystem) : answer Z := Reply (- EOPNOTSUPP) s.
Definition efsng_mkdir (k : clock) (pathname : string) (mode : Z) (s : filesystem) : answer Z :=
  of_outcome s (do_mkdir k pathname mode (fs_backend s)).
(** The path of a link is a pointer into the entry of [fastlink] that is erased before it is used. *)
Definition efsng_unlink (k : clock) (pathname : string) (s : filesystem) : answer Z :=
  match fastlink s !! pathname with
  | Some _ => Crash
  | None => of_outcome s (do_unlink k pathname (fs_backend s))
  end.
Definition efsng_rmdir (k : clock) (pathname : string) (s : filesystem) : answer Z :=
  of_outcome s (do_rmdir k (resolve pathname s) (fs_backend s)).
Definition efsng_symlink (oldpath newpath : string) (s : filesystem) : answer Z :=
  Reply 0 (set_fastlink (<[oldpath := newpath]> (fastlink s)) s).
Definition efsng_rename (k : clock) (oldpath newpath : string) (s : filesystem) : answer Z :=
  of_outcome s (do_rename k oldpath newpath (fs_backend s)).
Definition efsng_link (oldpath newpath : string) (s : filesystem) : answer Z := Reply (- EOPNOTSUPP) s.
Definition efsng_chmod (k : clock) (pathname : string) (mode : Z) (s : filesystem) : answer Z :=
  of_outcome s (do_chmod k pathname mode (fs_backend s)).
Definition efsng_chown (k : clock) (pathname : string) (owner group : Z) (s : filesystem) : answer Z :=
  of_outcome s (do_chown k pathname owner group (fs_backend s)).
Definition efsng_access (pathname : string) (s : filesystem) : answer Z :=
  match do_stat (resolve pathname s) (fs_backend s) with
  | Ret (err, _) b => Reply (if err =? 0 then err else - ENOENT) (set_backend b s)
  | Throw b => Exception (set_backend b s)
  | Fault => Crash
  end.
Definition efsng_readdir (pathname : string) (s : filesystem) : answer (list string) :=
  Reply (do_readdir (resolve pathname s) (fs_backend s)) s.

(** [utimens(pathname, tv)], with the seconds of the two times *)
Definition efsng_utimens (pathname : string) (atime mtime : Z) (s : filesystem) : answer Z :=
  match m_files (fs_backend s) !! resolve pathname s with
  | None => Reply (- ENOENT) s
  | Some id =>
      with_object id s (fun f =>
        Reply 0 (set_object id (f_save (set_times atime mtime (st_ctime (f_stat f)) (f_stat f)) f) s))
  end.

(** [file_ptr->truncate(length)] and a reply of 0 *)
Definition truncate_object (id : positive) (length : Z) (s : filesystem) : answer Z :=
  with_object id s (fun f =>
    match f_truncate length f (fs_data s) with Some (f, e) => Reply 0 (store_object id f e s) | None => Crash end).

(** [truncate(pathname, length)]: FUSE 2 looks the path up, FUSE 3 uses the handle if there is
    one and does nothing otherwise. *)
Definition efsng_truncate (fuse3 : bool) (pathname : string) (length : Z) (file_info : option positive)
    (s : filesystem) : answer Z :=
  if length <? 0 then Reply (- EINVAL) s
  else if fuse3 then
    match file_info with
    | None => Reply 0 s
    | Some fh => with_record fh s (fun r => truncate_object (ptr r) length s)
    end
  else
    match m_files (fs_backend s) !! pathname with
    | None => Reply (- ENOENT) s
    | Some id => truncate_object id length s
    end.

(** ** Open files *)

Definition open_flags (flags : Z) : Z :=
  let add flag x := if negb (Z.land flags flag =? 0) then Z.lor x flag else x in
  add O_RDWR (add O_WRONLY (add O_RDONLY 0)).

(** [new efsng::File(st.st_ino, 42, flags)] with its pointer set; the address is the handle. *)
Definition new_record (id : positive) (f : F) (flags : Z) (s : filesystem) : positive * filesystem :=
  let fh := next_record s in
  (fh, set_records (<[fh := FileRecord (st_ino (f_stat f)) 42 flags id]> (file_records s)) (Pos.succ fh) s).

Definition efsng_open (pathname : string) (flags : Z) (s : filesystem) : answer (Z * option positive) :=
  match m_files (fs_backend s) !! resolve pathname s with
  | None => Reply (- ENOENT, None) s
  | Some id =>
      with_object id s (fun f =>
        let '(fh, s) := new_record id f (open_flags flags) s in Reply (0, Some fh) s)
  end.

(** [create(pathname, mode, file_info)]: the pointer that [do_create] leaves null is used. *)
Definition efsng_create (k : clock) (pathname : string) (mode flags : Z) (s : filesystem) : answer (Z * option positive) :=
  match do_create k pathname mode (fs_backend s) with
  | Ret (ret, Some id) b =>
      let s := set_backend b s in
      with_object id s (fun f =>
        let '(fh, s) := new_record id f (open_flags flags) s in Reply (ret, Some fh) s)
  | Ret (_, None) _ => Crash
  | Throw b => Exception (set_backend b s)
  | Fault => Crash
  end.

(** [delete file_record] *)
Definition efsng_release (fh : positive) (s : filesystem) : answer Z :=
  with_record fh s (fun _ => Reply 0 (set_records (delete fh (file_records s)) (next_record s) s)).

Definition efsng_ftruncate (fh : positive) (length flags : Z) (s : filesystem) : answer Z :=
  if negb (Z.land flags O_RDONLY =? 0) then Reply (- EINVAL) s
  else with_record fh s (fun r => truncate_object (ptr r) length s).
Definition efsng_fgetattr (fh : positive) (s : filesystem) : answer (Z * attr) :=
  with_record fh s (fun r => with_object (ptr r) s (fun f => Reply (0, f_stat f) s)).
Definition efsng_write_buf (fh : positive) (buf : B) (offset : Z) (s : filesystem) : answer Z :=
  with_record fh s (fun r => with_object (ptr r) s (fun f =>
    match f_put_data offset (fuse_buf_size buf) buf f (fs_data s) with
    | Some (rv, f, e) => Reply (s32 rv) (store_object (ptr r) f e s)
    | None => Crash
    end)).
Definition efsng_read_buf (malloc_ok : bool) (fh : positive) (size offset : Z) (s : filesystem) : answer (Z * option B) :=
  with_record fh s (fun r =>
    if negb malloc_ok then Reply (- ENOMEM, None) s
    else with_object (ptr r) s (fun f =>
      match f_get_data offset size (FUSE_BUFVEC_INIT size) f (fs_data s) with
      | Some (rv, dst, f, e) => Reply (s32 rv, Some dst) (store_object (ptr r) f e s)
      | None => Crash
      end)).
Definition efsng_fallocate (fh : positive) (mode offset length : Z) (s : filesystem) : answer Z :=
  if negb (mode =? 0) then Reply (- EOPNOTSUPP) s
  else with_record fh s (fun r => with_object (ptr r) s (fun f =>
    match f_allocate offset length f (fs_data s) with
    | Some (rv, f, e) => Reply (s32 rv) (store_object (ptr r) f e s)
    | None => Crash
    end)).

(** [read] and [write] are not called when [read_buf] and [write_buf] are there; [pread] is the
    system call on the descriptor of the record. *)
Definition efsng_read (pread : Z -> Z -> Z -> Z + Z) (fh : positive) (count offset : Z) (s : filesystem) : answer Z :=
  with_record fh s (fun r =>
    match pread (fd r) count offset with inl n => Reply (s32 n) s | inr errno => Reply (- errno) s end).
Definition efsng_write (fh : positive) (count offset : Z) (s : filesystem) : answer Z := Reply 0 s.
Definition efsng_flush (fh : positive) (s : filesystem) : answer Z := Reply 0 s.
Definition efsng_fsync (fh : positive) (is_datasync : Z) (s : filesystem) : answer Z := Reply 0 s.
Definition efsng_opendir (pathname : string) (s : filesystem) : answer Z := Reply 0 s.
Definition efsng_releasedir (pathname : string) (s : filesystem) : answer Z := Reply 0 s.
Definition efsng_fsyncdir (pathname : string) (s : filesystem) : answer Z := Reply 0 s.

(** The requests that are not supported. *)
Definition efsng_setxattr (pathname : string) (s : filesystem) : answer Z := Reply (- EOPNOTSUPP) s.
Definition efsng_getxattr (pathname : string) (s : filesystem) : answer Z := Reply (- EOPNOTSUPP) s.
Definition efsng_listxattr (pathname : string) (s : filesystem) : answer Z := Reply (- EOPNOTSUPP) s.
Definition efsng_removexattr (pathname : string) (s : filesystem) : answer Z := Reply 0 s.
Definition efsng_lock (pathname : string) (s : filesystem) : answer Z := Reply (- EOPNOTSUPP) s.
Definition efsng_bmap (pathname : string) (s : filesystem) : answer Z := Reply (- EOPNOTSUPP) s.
Definition efsng_ioctl (pathname : string) (s : filesystem) : answer Z := Reply (- EOPNOTSUPP) s.
Definition efsng_poll (pathname : string) (s : filesystem) : answer Z := Reply (- EOPNOTSUPP) s.
Definition efsng_flock (pathname : string) (s : filesystem) : answer Z := Reply (- EOPNOTSUPP) s.

(** ** Credentials

    [setfsuid] returns the id it replaces; the daemon is privileged, so that it succeeds. *)
Definition setfsuid (u : Z) (s : filesystem) : Z * filesystem := (fsuid s, set_fsuid u s).
Definition assume_user_credentials (uid gid : Z) (s : filesystem) : (Z * Z) * filesystem :=
  let '(saved_uid, s) := setfsuid uid s in
  let '(saved_gid, s) := setfsuid gid s in
  ((saved_uid, saved_gid), s).
Definition restore_credentials (credentials : Z * Z) (s : filesystem) : filesystem :=
  let s := (setfsuid credentials.1 s).2 in (setfsuid credentials.2 s).2.
Definition efsng_statfs (statvfs : Z -> string -> option Z) (uid gid : Z) (pathname : string) (s : filesystem) : answer Z :=
  let '(old_credentials, s) := assume_user_credentials uid gid s in
  let res := statvfs (fsuid s) pathname in
  let s := restore_credentials old_credentials s in
  match res with Some errno => Reply (- errno) s | None => Reply 0 s end.

End Fuse.
Arguments filesystem : clear implicits.
Arguments answer : clear implicits.
Arguments Reply {Sh F X}.
Arguments Exception {Sh F X}.
Arguments Crash {Sh F X}.
End Fuse.
