(* ===== verification/FuseSpec.v ===== *)
(** * What the FUSE operations do: a file system with open files

    The abstract state is the tree of the name space, the objects (the contents and attributes
    of files) and the object that every open handle refers to. The specification says, for every
    request, the reply and what changes; the theorem is that the handlers of [Fuse] implement
    it as long as no symbolic link was made. *)
From S2P Require Import Prelude Errors Namespace NamespaceSpec Fuse.
From Stdlib Require Import Ascii String.
From stdpp Require Import base list numbers option strings gmap sets.
Local Open Scope string_scope.
Local Open Scope Z_scope.
Local Open Scope list_scope.

Module FuseSpec.
Import Namespace NamespaceSpec Fuse.

Section Spec.
Context {Sh F B : Type} `{BackendFile F} `{Host} `{FileData Sh F B}.
Implicit Types (s : filesystem Sh F) (b : backend F) (f : F).

Record model := Model { m_tree : tree; m_objects : gmap positive F; m_handles : gmap positive positive; m_data : Sh }.
Definition abs (s : filesystem Sh F) : model :=
  Model (view (fs_backend s)) (b_heap (fs_backend s)) (ptr <$> file_records s) (fs_data s).

Inductive request :=
  | RGetattr (p : string) | RAccess (p : string) | RReaddir (p : string)
  | RUnlink (p : string) | RRename (o n : string) | RMkdir (p : string) (mode : Z) | RRmdir (p : string)
  | RChmod (p : string) (mode : Z) | RChown (p : string) (u g : Z) | RUtimens (p : string) (atime mtime : Z)
  | RCreate (p : string) (mode flags : Z) | ROpen (p : string) (flags : Z) | RRelease (fh : positive)
  | RFgetattr (fh : positive) | RFtruncate (fh : positive) (length flags : Z)
  | RWrite (fh : positive) (buf : B) (offset : Z) | RRead (fh : positive) (size offset : Z)
  | RFallocate (fh : positive) (offset length : Z).
Inductive reply :=
  | Code (z : Z) | Attributes (z : Z) (a : option attr) | Names (l : list string)
  | Handle (z : Z) (fh : option positive) | Data (z : Z) (b : option B).

Definition amap {X Y} (f : X -> Y) (a : answer Sh F X) : answer Sh F Y :=
  match a with Reply x s => Reply (f x) s | Exception s => Exception s | Crash => Crash end.

Definition dispatch (c : clock) (r : request) (s : filesystem Sh F) : answer Sh F reply :=
  match r with
  | RGetattr p => amap (fun x => Attributes x.1 x.2) (efsng_getattr p s)
  | RAccess p => amap Code (efsng_access p s)
  | RReaddir p => amap Names (efsng_readdir p s)
  | RUnlink p => amap Code (efsng_unlink c p s)
  | RRename o n => amap Code (efsng_rename c o n s)
  | RMkdir p mode => amap Code (efsng_mkdir c p mode s)
  | RRmdir p => amap Code (efsng_rmdir c p s)
  | RChmod p mode => amap Code (efsng_chmod c p mode s)
  | RChown p u g => amap Code (efsng_chown c p u g s)
  | RUtimens p a m => amap Code (efsng_utimens p a m s)
  | RCreate p mode flags => amap (fun x => Handle x.1 x.2) (efsng_create c p mode flags s)
  | ROpen p flags => amap (fun x => Handle x.1 x.2) (efsng_open p flags s)
  | RRelease fh => amap Code (efsng_release fh s)
  | RFgetattr fh => amap (fun x => Attributes x.1 (Some x.2)) (efsng_fgetattr fh s)
  | RFtruncate fh len flags => amap Code (efsng_ftruncate fh len flags s)
  | RWrite fh buf off => amap Code (efsng_write_buf fh buf off s)
  | RRead fh size off => amap (fun x => Data x.1 x.2) (efsng_read_buf true fh size off s)
  | RFallocate fh off len => amap Code (efsng_fallocate fh 0 off len s)
  end.

(** The operation of the name space a request asks for. *)
Definition meta (r : request) : option op :=
  match r with
  | RUnlink p => Some (Unlink p)
  | RRename o n => Some (Rename o n)
  | RMkdir p mode => Some (Mkdir p mode)
  | RRmdir p => Some (Rmdir p)
  | RChmod p mode => Some (Chmod p mode)
  | RChown p u g => Some (Chown p u g)
  | _ => None
  end.

(** ** The specification *)

Definition same_tree (m m' : model) : Prop := forall q, path q -> m_tree m' q = m_tree m q.
Definition quiet (m m' : model) : Prop :=
  same_tree m m' /\ m_objects m' = m_objects m /\ m_handles m' = m_handles m /\ m_data m' = m_data m.
(** The object of an open handle. *)
Definition opened (m : model) (fh id : positive) (f : F) : Prop := m_handles m !! fh = Some id /\ m_objects m !! id = Some f.
(** Only the object [id] changes, to [f], and what the files share, to [e]. *)
Definition updates (m : model) (id : positive) (f : F) (e : Sh) (m' : model) : Prop :=
  same_tree m m' /\ m_objects m' = <[id := f]> (m_objects m) /\ m_handles m' = m_handles m /\ m_data m' = e.

(** The object of a file that was created: empty, with the mode asked for. *)
Definition new_object (p : string) (mode : Z) (f : F) : Prop :=
  exists f0 a, f_new p 0 temporary false = Some f0 /\ f = f_save a f0 /\ st_mode a = mode /\ st_size a = 0.

Definition fspec (m : model) (r : request) (y : reply) (m' : model) : Prop :=
  match r with
  | RGetattr p => quiet m m' /\
      match m_tree m p with
      | Some (File id) => exists f, m_objects m !! id = Some f /\ y = Attributes 0 (Some (f_stat f))
      | Some Directory => exists a, y = Attributes 0 (Some a)
      | None => y = Attributes (- ENOENT) None
      end
  | RAccess p => quiet m m' /\ y = Code (if m_tree m p is Some _ then 0 else - ENOENT)
  | RReaddir p => quiet m m' /\ exists l, y = Names ("." :: ".." :: l) /\ NoDup l /\
      forall n, n ∈ l <-> name n /\ m_tree m (child_of p n) <> None
  | RUtimens p atime mtime =>
      match m_tree m p with
      | Some (File id) => exists f, m_objects m !! id = Some f /\ y = Code 0 /\
          updates m id (f_save (set_times atime mtime (st_ctime (f_stat f)) (f_stat f)) f) (m_data m) m'
      | _ => y = Code (- ENOENT) /\ quiet m m'
      end
  | RCreate p mode _ => exists fh id f, y = Handle 0 (Some fh) /\
      m_handles m !! fh = None /\ m_objects m !! id = None /\ new_object p mode f /\
      (forall q, path q -> m_tree m' q = upd (m_tree m) p (Some (File id)) q) /\
      m_objects m' = <[id := f]> (m_objects m) /\ m_handles m' = <[fh := id]> (m_handles m) /\ m_data m' = m_data m
  | ROpen p _ =>
      match m_tree m p with
      | Some (File id) => exists fh, y = Handle 0 (Some fh) /\ m_handles m !! fh = None /\
          same_tree m m' /\ m_objects m' = m_objects m /\ m_handles m' = <[fh := id]> (m_handles m) /\ m_data m' = m_data m
      | _ => y = Handle (- ENOENT) None /\ quiet m m'
      end
  | RRelease fh => y = Code 0 /\ same_tree m m' /\ m_objects m' = m_objects m /\ m_handles m' = delete fh (m_handles m) /\ m_data m' = m_data m
  | RFgetattr fh => quiet m m' /\ exists id f, opened m fh id f /\ y = Attributes 0 (Some (f_stat f))
  | RFtruncate fh len _ => exists id f f' e, opened m fh id f /\
      f_truncate len f (m_data m) = Some (f', e) /\ y = Code 0 /\ updates m id f' e m'
  | RWrite fh buf off => exists id f rv f' e, opened m fh id f /\
      f_put_data off (fuse_buf_size buf) buf f (m_data m) = Some (rv, f', e) /\ y = Code (s32 rv) /\ updates m id f' e m'
  | RRead fh size off => exists id f rv dst f' e, opened m fh id f /\
      f_get_data off size (FUSE_BUFVEC_INIT size) f (m_data m) = Some (rv, dst, f', e) /\ y = Data (s32 rv) (Some dst) /\
      updates m id f' e m'
  | RFallocate fh off len => exists id f rv f' e, opened m fh id f /\
      f_allocate off len f (m_data m) = Some (rv, f', e) /\ y = Code (s32 rv) /\ updates m id f' e m'
  | _ => exists o z t, meta r = Some o /\ y = Code z /\ spec (m_tree m) o z t /\
      (forall q, path q -> m_tree m' q = t q) /\ attributes_only (m_objects m) (m_objects m') /\ m_handles m' = m_handles m /\
      m_data m' = m_data m
  end.

(** The requests of the theorem. The kernel has looked up the paths: it creates a file only
    where there is none, and reads only directories; and it uses handles that are open. Of the
    operations of the name space those are left out that [allowed] leaves out, the renaming
    of a directory among them. Offsets, sizes and buffers are any. *)
Definition kernel (m : model) (r : request) : Prop :=
  match r with
  | RGetattr p | RAccess p | RUtimens p _ _ | ROpen p _ => path p
  | RReaddir p => path p /\ m_tree m p = Some Directory
  | RCreate p _ _ => path p /\ p <> "/" /\ m_tree m p = None /\ m_tree m (parent_of p) = Some Directory
  | RRelease fh | RFgetattr fh | RFtruncate fh _ _ | RWrite fh _ _ | RRead fh _ _ | RFallocate fh _ _ => is_Some (m_handles m !! fh)
  | RUnlink _ | RRename _ _ | RMkdir _ _ | RRmdir _ | RChmod _ _ | RChown _ _ _ =>
      match meta r with Some o => allowed (m_tree m) o | None => False end
  end.

(** The operation of the file that a request calls, if any, returns. *)
Definition returns (m : model) (r : request) : Prop :=
  match r with
  | RFtruncate fh len _ => exists id f, opened m fh id f /\ is_Some (f_truncate len f (m_data m))
  | RWrite fh buf off => exists id f, opened m fh id f /\ is_Some (f_put_data off (fuse_buf_size buf) buf f (m_data m))
  | RRead fh size off => exists id f, opened m fh id f /\ is_Some (f_get_data off size (FUSE_BUFVEC_INIT size) f (m_data m))
  | RFallocate fh off len => exists id f, opened m fh id f /\ is_Some (f_allocate off len f (m_data m))
  | _ => True
  end.

(** ** The invariant *)

Record inv (s : filesystem Sh F) : Prop := {
  inv_wf : wf (fs_backend s);
  inv_links : fastlink s = ∅;
  inv_ptr fh r : file_records s !! fh = Some r -> is_Some (b_heap (fs_backend s) !! ptr r);
  inv_next fh : is_Some (file_records s !! fh) -> (fh < next_record s)%positive }.

Lemma resolve_none p s : inv s -> resolve p s = p.
Proof. intros Hi. unfold resolve. by rewrite (inv_links s Hi), lookup_empty. Qed.

Lemma set_backend_id s : set_backend (fs_backend s) s = s.
Proof. by destruct s. Qed.
Lemma abs_backend s b : abs (set_backend b s) = Model (view b) (b_heap b) (m_handles (abs s)) (m_data (abs s)).
Proof. done. Qed.
Lemma quiet_refl m : quiet m m.
Proof. done. Qed.

Lemma fresh_handle s : inv s -> file_records s !! next_record s = None.
Proof.
  intros Hi. destruct (file_records s !! next_record s) as [r |] eqn:E; [| done].
  pose proof (inv_next s Hi (next_record s) ltac:(eauto)). lia.
Qed.

(** A new state of the backend in which the objects are still there. *)
Lemma inv_backend s b : inv s -> wf b -> (forall id, is_Some (b_heap (fs_backend s) !! id) -> is_Some (b_heap b !! id)) ->
  inv (set_backend b s).
Proof. intros [HW HL HP HN] Hwf Hh. split; cbn; eauto. Qed.
Lemma inv_object s id f : inv s -> is_Some (b_heap (fs_backend s) !! id) -> inv (set_object id f s).
Proof.
  intros Hi Hid. apply inv_backend; [done | apply wf_set_heap; [apply (inv_wf s Hi) | done] |].
  intros i Hi'. cbn. rewrite lookup_insert_is_Some'. auto.
Qed.
Lemma inv_store s id f e : inv s -> is_Some (b_heap (fs_backend s) !! id) -> inv (store_object id f e s).
Proof. intros Hi Hid. destruct (inv_object s id f Hi Hid) as [HW HL HP HN]. by split. Qed.
Lemma store_object_id s id f : store_object id f (fs_data s) s = set_object id f s.
Proof. done. Qed.
Lemma inv_record s id f flags : inv s -> b_heap (fs_backend s) !! id = Some f ->
  inv (new_record id f flags s).2.
Proof.
  intros [HW HL HP HN] Hid. split; cbn; try done.
  - intros fh r [[_ <-] | [_ Hr]]%lookup_insert_Some; cbn; eauto.
  - intros fh [r [[<- _] | [_ Hr]]%lookup_insert_Some]; [lia |]. pose proof (HN fh ltac:(eauto)). lia.
Qed.
Lemma abs_record s id f flags : abs (new_record id f flags s).2
  = Model (m_tree (abs s)) (m_objects (abs s)) (<[next_record s := id]> (m_handles (abs s))) (m_data (abs s)).
Proof. unfold abs. cbn. by rewrite fmap_insert. Qed.
Lemma handles_fresh s : inv s -> m_handles (abs s) !! next_record s = None.
Proof. intros Hi. cbn. by rewrite lookup_fmap, (fresh_handle s Hi). Qed.

Lemma opened_record s fh id f : opened (abs s) fh id f ->
  exists r, file_records s !! fh = Some r /\ ptr r = id /\ object id s = Some f.
Proof.
  intros [Hh Ho]. cbn in Hh, Ho. rewrite lookup_fmap in Hh. destruct (file_records s !! fh) as [r |]; [| done].
  injection Hh as <-. eauto.
Qed.

(** [do_stat] and the tree *)
Lemma do_stat_tree p (b : backend F) : wf b ->
  match view b p with
  | Some (File id) => exists f, b_heap b !! id = Some f /\ do_stat p b = Ret (0, Some (f_stat f)) b
  | Some Directory => exists a, do_stat p b = Ret (0, Some a) b
  | None => do_stat p b = Ret (- ENOENT, None) b
  end.
Proof.
  intros Hwf. unfold view, do_stat. destruct (m_files b !! p) as [id |] eqn:E.
  - destruct (wf_heap b Hwf p id E) as [f Hf]. exists f. by rewrite Hf.
  - destruct (m_dirs b !! dir_key p); eauto.
Qed.

Definition good (s : filesystem Sh F) (r : request) (a : answer Sh F reply) : Prop :=
  exists y s', a = Reply y s' /\ inv s' /\ fspec (abs s) r y (abs s').
(** Answered as specified, or a crash exactly when the operation of the file does not return. *)
Definition exact (s : filesystem Sh F) (r : request) (a : answer Sh F reply) : Prop :=
  returns (abs s) r /\ good s r a \/ ~ returns (abs s) r /\ a = Crash.
Lemma good_exact s r a : returns (abs s) r -> good s r a -> exact s r a.
Proof. by left. Qed.

(** The requests that are one operation of the name space. *)
Lemma meta_good c s o r : inv s -> fits (fs_backend s) -> meta r = Some o -> creates o = false ->
  allowed (view (fs_backend s)) o -> dispatch c r s = amap Code (of_outcome s (run c o (fs_backend s))) ->
  good s r (dispatch c r s).
Proof.
  intros Hi Hf Hm Hc Ha ->. destruct (op_refines c (fs_backend s) o (inv_wf s Hi) Hf Ha) as (z & b' & t & E & Hwf & Hsp & Hv).
  rewrite E. cbn. pose proof (run_heap c o _ _ _ Hc E) as Hh. eexists _, _. split; [reflexivity |]. split.
  - apply inv_backend; [done | done |]. intros id [f Hid]. destruct (proj2 Hh id f Hid) as (f' & -> & _). eauto.
  - assert (HE : exists o z0 t, meta r = Some o /\ Code z = Code z0 /\ spec (view (fs_backend s)) o z0 t /\
      (forall q, path q -> view b' q = t q) /\ attributes_only (b_heap (fs_backend s)) (b_heap b') /\ ptr <$> file_records s = ptr <$> file_records s /\
      fs_data s = fs_data s)
      by (exists o, z, t; by split_and!).
    destruct r; cbn in Hm; try done; exact HE.
Qed.

Lemma getattr_good c s p : inv s -> path p -> good s (RGetattr p) (dispatch c (RGetattr p) s).
Proof.
  intros Hi _. cbn [dispatch]. unfold efsng_getattr. rewrite resolve_none by done.
  pose proof (do_stat_tree p (fs_backend s) (inv_wf s Hi)) as HS. unfold good. cbn [fspec abs m_tree m_objects].
  destruct (view (fs_backend s) p) as [[id |] |]; [destruct HS as (f & Hf & ->) | destruct HS as (a & ->) | rewrite HS];
    cbn; rewrite set_backend_id; eexists _, s; split_and!; eauto using quiet_refl.
Qed.
Lemma access_good c s p : inv s -> path p -> good s (RAccess p) (dispatch c (RAccess p) s).
Proof.
  intros Hi _. cbn [dispatch]. unfold efsng_access. rewrite resolve_none by done.
  pose proof (do_stat_tree p (fs_backend s) (inv_wf s Hi)) as HS. unfold good. cbn [fspec abs m_tree].
  destruct (view (fs_backend s) p) as [[id |] |]; [destruct HS as (f & _ & ->) | destruct HS as (a & ->) | rewrite HS];
    cbn; rewrite set_backend_id; eexists _, s; split_and!; eauto using quiet_refl.
Qed.
Lemma readdir_good c s p : inv s -> kernel (abs s) (RReaddir p) -> good s (RReaddir p) (dispatch c (RReaddir p) s).
Proof.
  intros Hi [Hp Hv]. cbn [dispatch]. unfold efsng_readdir. rewrite resolve_none by done.
  destruct (readdir_names (fs_backend s) p (inv_wf s Hi) Hp Hv) as (l & -> & Hl). eexists _, s. split; [reflexivity |].
  split; [done |]. split; [apply quiet_refl |]. exists l. by destruct Hl.
Qed.

(** The table of files and the tree. *)
Lemma file_entry s p : inv s ->
  match m_tree (abs s) p with
  | Some (File id) => exists f, m_files (fs_backend s) !! p = Some id /\ b_heap (fs_backend s) !! id = Some f
  | _ => m_files (fs_backend s) !! p = None
  end.
Proof.
  intros Hi. cbn. unfold view. destruct (m_files (fs_backend s) !! p) as [id |] eqn:E.
  - destruct (wf_heap _ (inv_wf s Hi) p id E) as [f Hf]. eauto.
  - by destruct (m_dirs (fs_backend s) !! dir_key p).
Qed.

Lemma utimens_good c s p a m : inv s -> good s (RUtimens p a m) (dispatch c (RUtimens p a m) s).
Proof.
  intros Hi. cbn [dispatch]. unfold efsng_utimens. rewrite resolve_none by done. pose proof (file_entry s p Hi) as HE.
  unfold good. cbn [fspec]. destruct (m_tree (abs s) p) as [[id |] |].
  - destruct HE as (f & -> & Hf). unfold with_object, object. rewrite Hf. eexists _, _. split; [reflexivity |].
    split; [apply inv_object; eauto | exists f; split_and!; done].
  - rewrite HE. eexists _, s. split_and!; done.
  - rewrite HE. eexists _, s. split_and!; done.
Qed.
Lemma open_good c s p flags : inv s -> good s (ROpen p flags) (dispatch c (ROpen p flags) s).
Proof.
  intros Hi. cbn [dispatch]. unfold efsng_open. rewrite resolve_none by done. pose proof (file_entry s p Hi) as HE.
  unfold good. cbn [fspec]. destruct (m_tree (abs s) p) as [[id |] |].
  - destruct HE as (f & -> & Hf). unfold with_object, object. rewrite Hf. eexists _, _. split; [reflexivity |].
    split; [apply (inv_record s id f); done |]. change (set_records _ _ _) with (new_record id f (open_flags flags) s).2.
    rewrite abs_record. exists (next_record s). split_and!; try done. by apply handles_fresh.
  - rewrite HE. eexists _, s. split_and!; done.
  - rewrite HE. eexists _, s. split_and!; done.
Qed.

(** [do_create] of a new file in a directory that is there. *)
Lemma do_create_new c (b : backend F) p mode : m_files b !! p = None -> is_Some (m_dirs b !! parent_key p) ->
  exists f b', do_create c p mode b = Ret (0, Some (b_next b)) b' /\ new_object p mode f /\ m_files b' = <[p := b_next b]> (m_files b) /\ b_heap b' = <[b_next b := f]> (b_heap b).
Proof.
  intros Hf [D HD]. unfold do_create. rewrite Hf, HD. destruct (f_new_empty p) as [f0 Hf0]. rewrite Hf0. cbn.
  eexists _, _. split; [reflexivity |]. cbn. split_and!; [| reflexivity | reflexivity]. eexists f0, _. by split_and!.
Qed.
Lemma create_good c s p mode flags : inv s -> kernel (abs s) (RCreate p mode flags) ->
  good s (RCreate p mode flags) (dispatch c (RCreate p mode flags) s).
Proof.
  intros Hi (Hp & Hnr & Hv & Hpar). set (b := fs_backend s) in *. assert (Hwf := inv_wf s Hi : wf b). cbn in Hv, Hpar. fold b in Hv, Hpar.
  destruct (create_refines c b p mode Hwf) as (z & b1 & t & E & Hwf1 & Hsp & Hvw); [split_and!; [done | done | by rewrite Hv] |].
  destruct (not_root_path p Hp) as [-> | (d & n & -> & Hd & Hn)]; [done |].
  apply view_parent in Hpar; [| done | done | done].
  assert (Hf0 : m_files b !! (d +:+ n) = None) by (apply view_none in Hv; [tauto | by apply dkey_slash | done]).
  destruct (do_create_new c b (d +:+ n) mode Hf0) as (f & b' & Ec & Hm & Hfs & Hh);
    [by rewrite parent_key_app by eauto using dkey_slash |].
  cbn [run] in E. rewrite Ec in E. injection E as <- <-.
  assert (Hnew : b_heap b !! b_next b = None).
  { destruct (b_heap b !! b_next b) eqn:Eh; [| done]. pose proof (wf_next b Hwf (b_next b) ltac:(eauto)). lia. }
  assert (Hsp' : forall q, path q -> view b' q = upd (view b) (d +:+ n) (Some (File (b_next b))) q).
  { intros q Hq. rewrite (Hvw q Hq). inversion Hsp as [? ? id Hnone Hdir Hfresh | | | | | | | | | | | | | | |]; subst; try congruence.
    assert (Hid : view b' (d +:+ n) = Some (File id)) by (rewrite (Hvw _ Hp); unfold upd; by rewrite decide_True).
    apply view_file in Hid. rewrite Hfs, lookup_insert_eq in Hid. by simplify_eq. }
  cbn [dispatch]. unfold efsng_create. fold b. rewrite Ec. cbn. unfold with_object, object. cbn. rewrite Hh, lookup_insert_eq.
  assert (Hi' : inv (set_backend b' s)).
  { apply inv_backend; [done | done |]. intros id Hid. rewrite Hh, lookup_insert_is_Some'. auto. }
  eexists _, _. split; [reflexivity |]. change (set_records _ _ _) with (new_record (b_next b) f (open_flags flags) (set_backend b' s)).2.
  split; [apply inv_record; [done | cbn; by rewrite Hh, lookup_insert_eq] |].
  rewrite abs_record. exists (next_record s), (b_next b), f. split_and!; try done. by apply handles_fresh.
Qed.

(** Requests on an open handle. *)
Lemma handle_opened s fh : inv s -> is_Some (m_handles (abs s) !! fh) -> exists id f, opened (abs s) fh id f.
Proof.
  intros Hi [id Hh]. cbn in Hh. rewrite lookup_fmap in Hh. destruct (file_records s !! fh) as [r |] eqn:E; [| done].
  injection Hh as <-. destruct (inv_ptr s Hi fh r E) as [f Hf]. exists (ptr r), f. split; [| done]. cbn. by rewrite lookup_fmap, E.
Qed.
Lemma with_opened {X} s fh id f (k : file_record -> F -> answer Sh F X) : opened (abs s) fh id f ->
  exists r, ptr r = id /\ with_record fh s (fun r => with_object (ptr r) s (k r)) = k r f.
Proof.
  intros (r & Hr & <- & Ho)%opened_record. exists r. unfold with_record, with_object. by rewrite Hr, Ho.
Qed.
Lemma release_good c s fh : inv s -> is_Some (m_handles (abs s) !! fh) -> good s (RRelease fh) (dispatch c (RRelease fh) s).
Proof.
  intros Hi Hh. destruct (handle_opened s fh Hi Hh) as (id & f & (r & Hr & _ & _)%opened_record).
  cbn [dispatch]. unfold efsng_release, with_record. rewrite Hr. eexists _, _. split; [reflexivity |]. split.
  - destruct Hi as [HW HL HP HN]. split; cbn; try done.
    + intros fh' r' [_ Hr']%lookup_delete_Some. eauto.
    + intros fh' [r' [_ Hr']%lookup_delete_Some]. apply HN. eauto.
  - split_and!; try done. cbn. by rewrite fmap_delete.
Qed.
Lemma fgetattr_good c s fh : inv s -> is_Some (m_handles (abs s) !! fh) -> good s (RFgetattr fh) (dispatch c (RFgetattr fh) s).
Proof.
  intros Hi Hh. destruct (handle_opened s fh Hi Hh) as (id & f & Ho). cbn [dispatch]. unfold efsng_fgetattr.
  destruct (with_opened s fh id f (fun r f => Reply (0, f_stat f) s) Ho) as (r & _ & ->).
  eexists _, s. split; [reflexivity |]. split; [done |]. split; [apply quiet_refl |]. eauto.
Qed.
Lemma updates_good s r y id f f' e : inv s -> b_heap (fs_backend s) !! id = Some f ->
  fspec (abs s) r y (abs (store_object id f' e s)) -> good s r (Reply y (store_object id f' e s)).
Proof. intros Hi Hf Hsp. eexists _, _. split; [reflexivity |]. split; [apply inv_store; eauto | done]. Qed.

Lemma opened_fun m fh id1 f1 id2 f2 : opened m fh id1 f1 -> opened m fh id2 f2 -> id1 = id2 /\ f1 = f2.
Proof. intros [? ?] [? ?]. by simplify_eq. Qed.

Lemma ftruncate_exact c s fh len flags : inv s -> is_Some (m_handles (abs s) !! fh) ->
  exact s (RFtruncate fh len flags) (dispatch c (RFtruncate fh len flags) s).
Proof.
  intros Hi Hh. destruct (handle_opened s fh Hi Hh) as (id & f & Ho).
  cbn [dispatch]. unfold efsng_ftruncate, O_RDONLY, truncate_object. rewrite Z.land_0_r. cbn [negb Z.eqb].
  destruct (with_opened s fh id f (fun r f => match f_truncate len f (fs_data s) with
    Some (f, e) => Reply 0 (store_object (ptr r) f e s) | None => Crash end) Ho) as (r & Hr & ->).
  destruct (f_truncate len f (fs_data s)) as [[f' e] |] eqn:E.
  - left. split; [exists id, f; split; [done |]; cbn; rewrite E; eauto |]. rewrite Hr.
    eapply updates_good; [done | apply Ho |]. exists id, f, f', e. split_and!; done || apply Ho.
  - right. split; [| done]. intros (id1 & f1 & Ho1 & [x Hx]). destruct (opened_fun _ _ _ _ _ _ Ho Ho1) as [<- <-]. cbn in Hx. congruence.
Qed.
Lemma write_exact c s fh buf off : inv s -> is_Some (m_handles (abs s) !! fh) ->
  exact s (RWrite fh buf off) (dispatch c (RWrite fh buf off) s).
Proof.
  intros Hi Hh. destruct (handle_opened s fh Hi Hh) as (id & f & Ho). cbn [dispatch]. unfold efsng_write_buf.
  destruct (with_opened s fh id f (fun r f => match f_put_data off (fuse_buf_size buf) buf f (fs_data s) with
    Some (rv, f, e) => Reply (s32 rv) (store_object (ptr r) f e s) | None => Crash end) Ho) as (r & Hr & ->).
  destruct (f_put_data off (fuse_buf_size buf) buf f (fs_data s)) as [[[rv f'] e] |] eqn:E.
  - left. split; [exists id, f; split; [done |]; cbn; rewrite E; eauto |]. rewrite Hr.
    eapply updates_good; [done | apply Ho |]. exists id, f, rv, f', e. split_and!; done || apply Ho.
  - right. split; [| done]. intros (id1 & f1 & Ho1 & [x Hx]). destruct (opened_fun _ _ _ _ _ _ Ho Ho1) as [<- <-]. cbn in Hx. congruence.
Qed.
Lemma fallocate_exact c s fh off len : inv s -> is_Some (m_handles (abs s) !! fh) ->
  exact s (RFallocate fh off len) (dispatch c (RFallocate fh off len) s).
Proof.
  intros Hi Hh. destruct (handle_opened s fh Hi Hh) as (id & f & Ho). cbn [dispatch]. unfold efsng_fallocate. cbn [negb Z.eqb].
  destruct (with_opened s fh id f (fun r f => match f_allocate off len f (fs_data s) with
    Some (rv, f, e) => Reply (s32 rv) (store_object (ptr r) f e s) | None => Crash end) Ho) as (r & Hr & ->).
  destruct (f_allocate off len f (fs_data s)) as [[[rv f'] e] |] eqn:E.
  - left. split; [exists id, f; split; [done |]; cbn; rewrite E; eauto |]. rewrite Hr.
    eapply updates_good; [done | apply Ho |]. exists id, f, rv, f', e. split_and!; done || apply Ho.
  - right. split; [| done]. intros (id1 & f1 & Ho1 & [x Hx]). destruct (opened_fun _ _ _ _ _ _ Ho Ho1) as [<- <-]. cbn in Hx. congruence.
Qed.
Lemma read_exact c s fh size off : inv s -> is_Some (m_handles (abs s) !! fh) ->
  exact s (RRead fh size off) (dispatch c (RRead fh size off) s).
Proof.
  intros Hi Hh. destruct (handle_opened s fh Hi Hh) as (id & f & Ho). cbn [dispatch]. unfold efsng_read_buf. cbn [negb].
  destruct (with_opened s fh id f (fun r f => match f_get_data off size (FUSE_BUFVEC_INIT size) f (fs_data s) with
    Some (rv, dst, f, e) => Reply (s32 rv, Some dst) (store_object (ptr r) f e s) | None => Crash end) Ho) as (r & Hr & ->).
  destruct (f_get_data off size (FUSE_BUFVEC_INIT size) f (fs_data s)) as [[[[rv dst] f'] e] |] eqn:E.
  - left. split; [exists id, f; split; [done |]; cbn; rewrite E; eauto |]. rewrite Hr.
    eapply updates_good; [done | apply Ho |]. exists id, f, rv, dst, f', e. split_and!; done || apply Ho.
  - right. split; [| done]. intros (id1 & f1 & Ho1 & [x Hx]). destruct (opened_fun _ _ _ _ _ _ Ho Ho1) as [<- <-]. cbn in Hx. congruence.
Qed.

Lemma dispatch_exact c s r : inv s -> fits (fs_backend s) -> kernel (abs s) r -> exact s r (dispatch c r s).
Proof.
  intros Hi Hf Hk. destruct r; try (by apply ftruncate_exact || by apply write_exact || by apply read_exact || by apply fallocate_exact);
    apply good_exact; try done.
  - by apply getattr_good. - by apply access_good. - by apply readdir_good.
  - eapply meta_good; try done. cbn. unfold efsng_unlink. by rewrite (inv_links s Hi), lookup_empty.
  - by eapply meta_good. - by eapply meta_good.
  - eapply meta_good; try done. cbn. unfold efsng_rmdir. by rewrite resolve_none.
  - by eapply meta_good. - by eapply meta_good.
  - by apply utimens_good. - by apply create_good. - by apply open_good. - by apply release_good. - by apply fgetattr_good.
Qed.
Lemma dispatch_good c s r : inv s -> fits (fs_backend s) -> kernel (abs s) r -> returns (abs s) r -> good s r (dispatch c r s).
Proof. intros Hi Hf Hk Hr. by destruct (dispatch_exact c s r Hi Hf Hk) as [[_ ?] | [? _]]. Qed.

(** ** Runs *)

(** A mounted file system: a new backend, no links, no open files. *)
Definition mounted (s : filesystem Sh F) : Prop :=
  exists root junk, nvml_backend root junk = Some (fs_backend s) /\ fastlink s = ∅ /\ file_records s = ∅.
(** Requests of the kernel, one after the other. *)
Inductive runs : list request -> filesystem Sh F -> filesystem Sh F -> Prop :=
  | runs_nil s : runs [] s s
  | runs_cons c r y l s1 s2 s3 : fits (fs_backend s1) -> kernel (abs s1) r -> dispatch c r s1 = Reply y s2 ->
      runs l s2 s3 -> runs (r :: l) s1 s3.
Lemma mounted_inv s : mounted s -> inv s.
Proof.
  intros (root & junk & Hb & Hl & Hr). split; [by eapply nvml_backend_wf | done | |]; rewrite Hr.
  - by intros fh r ?%lookup_empty_Some.
  - by intros fh [? ?%lookup_empty_Some].
Qed.
Lemma step_good c r y s s' : inv s -> fits (fs_backend s) -> kernel (abs s) r -> dispatch c r s = Reply y s' ->
  inv s' /\ fspec (abs s) r y (abs s').
Proof.
  intros Hi Hf Hk E. destruct (dispatch_exact c s r Hi Hf Hk) as [[_ (y' & s1 & E' & Hi' & Hsp)] | [_ E']]; rewrite E in E'; [| done].
  by injection E' as -> ->.
Qed.
Lemma runs_inv l s s' : runs l s s' -> inv s -> inv s'.
Proof. induction 1 as [| c r y l s1 s2 s3 Hf Hk E _ IH]; [done |]. intros Hi. by eapply IH, step_good. Qed.


(** ** Where the handlers leave the specification *)

(** [create] of a file that is there, or in a directory that is not, uses the pointer that
    [do_create] has left null. *)
Theorem create_of_existing_crashes c s p mode flags :
  is_Some (m_files (fs_backend s) !! p) \/ m_dirs (fs_backend s) !! parent_key p = None -> efsng_create c p mode flags s = Crash.
Proof.
  unfold efsng_create, do_create. intros [[id ->] | Hd]; [done |]. destruct (m_files (fs_backend s) !! p); [done |]. by rewrite Hd.
Qed.

(** A symbolic link is entered under the path it points to: from then on the target is looked
    up under the path of the link, where there is nothing, the link itself is not found, and
    the removal of the target uses a pointer into the entry that was erased. *)
Theorem symlink_hides_target c s target link : wf (fs_backend s) ->
  view (fs_backend s) link = None -> fastlink s !! link = None -> link <> target ->
  exists s', efsng_symlink target link s = Reply 0 s' /\
    efsng_getattr target s' = Reply (- ENOENT, None) s' /\ efsng_getattr link s' = Reply (- ENOENT, None) s' /\
    efsng_unlink c target s' = Crash.
Proof.
  intros Hwf Hv Hl Hne. eexists. split; [reflexivity |]. unfold efsng_getattr, efsng_unlink, resolve. cbn.
  rewrite lookup_insert_eq, lookup_insert_ne, Hl by done. cbn. pose proof (do_stat_tree link (fs_backend s) Hwf) as E. rewrite Hv in E.
  rewrite E. done.
Qed.

(** [setfsuid] is used for the group as well: [statvfs] runs with the group's number as user,
    and afterwards the thread keeps the user id of the caller. *)
Theorem credentials_not_restored (statvfs : Z -> string -> option Z) uid gid p s :
  exists z s', efsng_statfs statvfs uid gid p s = Reply z s' /\ fsuid s' = uid /\
    z = match statvfs gid p with Some errno => - errno | None => 0 end.
Proof. unfold efsng_statfs. cbn. destruct (statvfs gid p); eexists _, _; done. Qed.

(** With FUSE 3 a truncation by path succeeds and does nothing. *)
Theorem truncate_by_path_does_nothing p length s : 0 <= length -> efsng_truncate true p length None s = Reply 0 s.
Proof. intros Hl. unfold efsng_truncate. by destruct (Z.ltb_spec length 0); [lia |]. Qed.

End Spec.
Arguments model : clear implicits.
Arguments request : clear implicits.
Arguments reply : clear implicits.

(** ** A concrete file system

    Files that are their attributes and a list of bytes, buffers that are lists of bytes. *)
#[export] Instance bytes_file : BackendFile (attr * list Z).
Proof.
  refine {| f_new _ ino _ _ := Some (set_ino ino zero_attr, []); f_stat f := f.1; f_save a f := (a, f.2); f_change_type _ f := f |}; eauto.
Defined.
#[export] Instance bytes_data : FileData unit (attr * list Z) (list Z) := {|
  f_truncate n f e := Some ((f.1, take (Z.to_nat n) f.2), e);
  f_get_data off size _ f e := let d := take (Z.to_nat size) (drop (Z.to_nat off) f.2) in Some (Z.of_nat (length d), d, f, e);
  f_put_data off size buf f e := Some (size, (f.1, take (Z.to_nat off) f.2 ++ buf ++ drop (Z.to_nat (off + size)) f.2), e);
  f_allocate _ _ f e := Some (0, f, e);
  fuse_buf_size buf := Z.of_nat (length buf);
  FUSE_BUFVEC_INIT _ := [] |}.

Abbreviation bytes_fs := (filesystem unit (attr * list Z)).
Definition mounted_fs : bytes_fs :=
  Filesystem (default (Backend "" ∅ ∅ 0 ∅ 1%positive) (nvml_backend "/data/" 7)) ∅ ∅ 1%positive 0 tt.
Definition served (r : request (list Z)) (s : bytes_fs) : bytes_fs := match dispatch clk r s with Reply _ s => s | _ => s end.
Definition created_fs : bytes_fs := served (RCreate "/a" 420 1) mounted_fs.
Definition unlinked_fs : bytes_fs := served (RUnlink "/a") created_fs.

Lemma mounted_fs_mounted : mounted mounted_fs.
Proof. exists "/data/", 7. done. Qed.
Lemma created_runs : runs [RCreate "/a" 420 1] mounted_fs created_fs.
Proof.
  eapply (runs_cons clk); [concrete_fits | | reflexivity | constructor].
  split; [apply path_a | split; [done | split; reflexivity]].
Qed.
Lemma unlinked_runs : runs [RUnlink "/a"] created_fs unlinked_fs.
Proof. eapply (runs_cons clk); [concrete_fits | apply path_a | reflexivity | constructor]. Qed.


End FuseSpec.
