(* ===== verification/NvmlFuse.v ===== *)
(** * The mounted file system is a POSIX file system

    The composition of [Fuse], [Namespace] and [NvmlFile]: the objects of the name space are
    files, which share one memory, and the requests of the kernel act on their bytes. The
    storage of the files is any that has the laws of [Segment.StorageLaws]: the pools of NVML,
    and the device DAX of [DevdaxFile]. The abstract state is the tree, the bytes of every file, and the file that
    every open handle refers to; the specification is that of the POSIX calls. Between two
    requests the rest of the process runs: it may write to memory that no file uses, for
    example the next data to be written, and map and unmap memory. *)
From S2P Require Import Prelude Common RangeLock RangeMutex Mdds FuseBuf Segment NvmlFile NvmlSpec NvmlStore.
From S2P Require Import Errors Namespace NamespaceSpec Fuse FuseSpec.
From Stdlib Require Import Ascii String.
From stdpp Require Import base list numbers option strings gmap sets.
Local Open Scope string_scope.
Local Open Scope Z_scope.
Local Open Scope list_scope.

Module NvmlFuse.
Import Namespace NamespaceSpec Fuse FuseSpec.
Import (coercions) NvmlSpec.

Section Nvml.
Context {W L : Type} `{KN : FuseBuf.Kernel W} `{SR : Segment.Sources W} `{ST : Segment.Storage W} `{SL : !Segment.StorageLaws W}.
Context `{RM : RangeMutex.RangeMutex L} `{FL : NvmlFile.FuseLib W} `{HO : Host}.
(** The largest segment is [2^J] bytes. *)
Variable J : Z.
Hypothesis J_range : 12 <= J <= 60.
Abbreviation SS := (2 ^ J).
Variable local_buf : Z.
Variable have_splice : bool.
Variable memalign_ok : Z -> bool.
Variable now : Z.
(** [generate_pool_subdir], and libfuse's [fuse_buf_size]: the total of the sizes. *)
Variable pool_subdir : string -> string.
Variable bufvec_size : FuseBuf.fuse_bufvec -> Z.
Hypothesis bufvec_size_ok : forall v, FuseBuf.vec_ok v -> FuseBuf.v_idx v = O -> FuseBuf.v_off v = 0 ->
  bufvec_size v = Z.of_nat (length (FuseBuf.remaining v)).

(** An [nvml::file] as the name space sees it: the file, whose [m_attributes] are the members
    of [struct stat] that its own operations assign, and the other members. *)
Record object := Object { o_file : NvmlFile.file L; o_attr : attr }.
Definition o_stat (o : object) : attr :=
  let a := o_attr o in
  let st := NvmlFile.m_attributes (o_file o) in
  Attr (st_ino a) (st_mode a) (st_nlink a) (st_uid a) (st_gid a) (Segment.st_size st) (Segment.st_blocks st)
    (st_atime a) (st_mtime a) (Segment.st_ctime st).
Definition o_save (a : attr) (o : object) : object :=
  Object (NvmlFile.save_attributes (Segment.Stat (st_size a) (st_blocks a) (st_ctime a)) (o_file o)) a.
Definition o_change_type (t : entry_type) (o : object) : object :=
  let f := o_file o in
  let t := match t with temporary => NvmlFile.temporary | persistent => NvmlFile.persistent end in
  Object (NvmlFile.File (NvmlFile.m_pathname f) t (NvmlFile.m_pool_subdir f) (NvmlFile.m_attributes f)
    (NvmlFile.m_alloc_offset f) (NvmlFile.m_used_offset f) (NvmlFile.m_segment_size f) (NvmlFile.m_segments f)
    (NvmlFile.m_initialized f) (NvmlFile.m_range_mutex f) (NvmlFile.f_heap f) (NvmlFile.f_next f)) (o_attr o).

(** The constructor, for a file that is not populated: the tree of its segments is built.
    Files that were loaded before the file system is mounted are given by [loaded]. *)
Variable loaded : string -> Z -> entry_type -> option object.
Definition o_new (pathname : string) (inode : Z) (t : entry_type) (populate : bool) : option object :=
  if populate then loaded pathname inode t
  else
    let f := NvmlFile.file_init pathname (pool_subdir pathname)
               (match t with temporary => NvmlFile.temporary | persistent => NvmlFile.persistent end) in
    tr ← Mdds.build_tree (NvmlFile.m_segments f); Some (Object (NvmlFile.set_tree tr f) zero_attr).

#[local] Instance nvml_backend_file : BackendFile object.
Proof.
  refine {| f_new := o_new; f_stat := o_stat; f_save := o_save; f_change_type := o_change_type |}.
  - intros p. unfold o_new. cbn [NvmlFile.m_segments NvmlFile.file_init].
    destruct NvmlSpec.init_tree as (tb & -> & _). eauto.
  - intros [] f. done.
  - done.
Defined.

(** A vector of buffers that FUSE hands in, and the bytes of the one that is handed out. *)
Inductive buffer := Incoming (v : FuseBuf.fuse_bufvec) | Outgoing (bytes : list Z).

(** The result of an operation of a file; an exception leaves the handler. *)
Definition returned {X} (o : object) (r : option ((Segment.exn + X) * (NvmlFile.file L * Segment.env W)))
    : option (X * object * Segment.env W) :=
  match r with Some (inr x, (f, e)) => Some (x, Object f (o_attr o), e) | _ => None end.

#[local] Instance nvml_file_data : FileData (Segment.env W) object buffer := {|
  f_truncate len o e := '(_, o, e) ← returned o (NvmlFile.truncate SS now len (o_file o, e)); Some (o, e);
  f_get_data off size _ o e :=
    '(x, o, e) ← returned o (NvmlFile.get_data SS memalign_ok off size (o_file o, e)); Some (x.1, Outgoing x.2, o, e);
  f_put_data off size buf o e :=
    match buf with
    | Incoming v => returned o (NvmlFile.put_data SS local_buf have_splice off size v (o_file o, e))
    | Outgoing _ => None
    end;
  f_allocate off len o e := returned o (NvmlFile.allocate SS now off (u64 len) (o_file o, e));
  fuse_buf_size buf := match buf with Incoming v => bufvec_size v | Outgoing bs => Z.of_nat (length bs) end;
  FUSE_BUFVEC_INIT size := Incoming (FuseBuf.Bufvec 0 0 [FuseBuf.Buf size 0 0 (-1) 0]) |}.

Abbreviation fsys := (filesystem (Segment.env W) object).
Abbreviation fmodel := (model (Segment.env W) object).
Abbreviation freq := (request buffer).
Abbreviation frep := (reply buffer).
Implicit Types (s : fsys) (m : fmodel) (r : freq) (y : frep).

(** ** The specification *)

Record posix := Posix { p_tree : tree; p_files : gmap positive (list Z); p_handles : gmap positive positive }.

Definition same_names (m m' : posix) : Prop := forall q, path q -> p_tree m' q = p_tree m q.
Definition still (m m' : posix) : Prop :=
  same_names m m' /\ p_files m' = p_files m /\ p_handles m' = p_handles m.
(** The bytes of the file of a handle, and a step that only changes them. *)
Definition content (m : posix) (fh : positive) (bytes : list Z) : Prop :=
  exists id, p_handles m !! fh = Some id /\ p_files m !! id = Some bytes.
Definition changes (m : posix) (fh : positive) (bytes : list Z) (m' : posix) : Prop :=
  exists id, p_handles m !! fh = Some id /\ same_names m m' /\
    p_files m' = <[id := bytes]> (p_files m) /\ p_handles m' = p_handles m.

(** [d] are the bytes that the request brings along. *)
Definition pspec (m : posix) (r : freq) (d : list Z) (y : frep) (m' : posix) : Prop :=
  match r with
  | RGetattr p => still m m' /\
      match p_tree m p with
      | Some (File id) => exists bytes a, p_files m !! id = Some bytes /\ y = Attributes 0 (Some a) /\
          st_size a = Z.of_nat (length bytes)
      | Some Directory => exists a, y = Attributes 0 (Some a)
      | None => y = Attributes (- ENOENT) None
      end
  | RAccess p => still m m' /\ y = Code (if p_tree m p is Some _ then 0 else - ENOENT)
  | RReaddir p => still m m' /\ exists l, y = Names ("." :: ".." :: l) /\ NoDup l /\
      forall n, n ∈ l <-> name n /\ p_tree m (child_of p n) <> None
  | RUtimens p _ _ => still m m' /\ y = Code (if p_tree m p is Some (File _) then 0 else - ENOENT)
  | RCreate p _ _ => exists fh id, y = Handle 0 (Some fh) /\ p_handles m !! fh = None /\ p_files m !! id = None /\
      (forall q, path q -> p_tree m' q = upd (p_tree m) p (Some (File id)) q) /\
      p_files m' = <[id := []]> (p_files m) /\ p_handles m' = <[fh := id]> (p_handles m)
  | ROpen p _ =>
      match p_tree m p with
      | Some (File id) => exists fh, y = Handle 0 (Some fh) /\ p_handles m !! fh = None /\
          same_names m m' /\ p_files m' = p_files m /\ p_handles m' = <[fh := id]> (p_handles m)
      | _ => y = Handle (- ENOENT) None /\ still m m'
      end
  | RRelease fh => y = Code 0 /\ same_names m m' /\ p_files m' = p_files m /\ p_handles m' = delete fh (p_handles m)
  | RFgetattr fh => still m m' /\ exists bytes a, content m fh bytes /\ y = Attributes 0 (Some a) /\
      st_size a = Z.of_nat (length bytes)
  | RFtruncate fh len _ => exists bytes, content m fh bytes /\ y = Code 0 /\
      changes m fh (NvmlStore.posix_allocate bytes 0 len) m'
  | RFallocate fh off len => exists bytes, content m fh bytes /\ y = Code 0 /\
      changes m fh (NvmlStore.posix_allocate bytes off len) m'
  | RWrite fh _ off => exists bytes, content m fh bytes /\ y = Code (s32 (Z.of_nat (length d))) /\
      changes m fh (NvmlSpec.posix_write bytes off d) m'
  | RRead fh size off => still m m' /\ exists bytes, content m fh bytes /\
      let out := NvmlSpec.posix_read bytes off size in
      y = if negb (memalign_ok (Z.of_nat (length out))) && negb (Mdds.is_nil out)
          then Data (- NvmlFile.ENOMEM) (Some (Outgoing [])) else Data 0 (Some (Outgoing out))
  | _ => exists o z t, meta r = Some o /\ y = Code z /\ spec (p_tree m) o z t /\
      (forall q, path q -> p_tree m' q = t q) /\ p_files m' = p_files m /\ p_handles m' = p_handles m
  end.

(** ** The abstraction *)

Definition nvml_files (m : fmodel) : gmap positive (NvmlFile.file L) := o_file <$> m_objects m.
Definition data_ok (m : fmodel) : Prop := NvmlStore.store_ok (nvml_files m) (m_data m).
Definition posix_of (m : fmodel) : posix :=
  Posix (m_tree m) (NvmlStore.bytes_of (nvml_files m) (m_data m)) (m_handles m).
Definition pabs (s : fsys) : posix := posix_of (abs s).

(** Memory of the process in which there is no byte of a file. *)
Record foreign (m : fmodel) (x : Z) : Prop := {
  fg_live : exists b n, (b, n) ∈ Segment.e_maps (m_data m) /\ b <= x < b + n;
  fg_free : forall id o k, m_objects m !! id = Some o -> 0 <= k < NvmlFile.m_alloc_offset (o_file o) ->
    NvmlSpec.addr_of (o_file o) k <> x }.
(** Buffers as libfuse hands them in: at their start, in memory of their own. *)
Record incoming_ok (m : fmodel) (v : FuseBuf.fuse_bufvec) : Prop := {
  ic_vec : FuseBuf.vec_ok v;
  ic_mem : FuseBuf.in_memory v;
  ic_idx : FuseBuf.v_idx v = O;
  ic_off : FuseBuf.v_off v = 0;
  ic_some : FuseBuf.remaining v <> [];
  ic_foreign : forall x, x ∈ FuseBuf.remaining v -> foreign m x }.
Definition payload (m : fmodel) (r : freq) : list Z :=
  match r with
  | RWrite _ (Incoming v) _ => FuseBuf.mem_get (Segment.e_mem (m_data m)) <$> FuseBuf.remaining v
  | _ => []
  end.

(** The requests of the theorem: those of [kernel] that the kernel does not answer itself
    (it removes only files with [unlink], opens only files, makes directories only where there is
    nothing, and removes only directories), without the times of a directory, for which the code
    answers [-ENOENT]; and with data that starts at or before the end of file and, for a write,
    comes from memory of its own. A file is only made longer by [ftruncate], to a size of 32
    bits. The storage has room for a block, and reads as zeros where a file is extended
    without data. *)
Definition plain (m : fmodel) (r : freq) : Prop :=
  match r with
  | RUnlink p | ROpen p _ | RUtimens p _ _ => m_tree m p <> Some Directory
  | RMkdir p _ => m_tree m p = None
  | RRmdir p => forall id, m_tree m p <> Some (File id)
  | _ => True
  end.
Definition pkernel (m : fmodel) (r : freq) : Prop :=
  match r with
  | RFtruncate fh len _ => exists bytes, content (posix_of m) fh bytes /\ Z.of_nat (length bytes) < len < 2 ^ 32 /\
      Segment.sto_zeroed (W := W) /\ NvmlSpec.room (m_data m) (len + SS)
  | RWrite fh buf off => exists bytes v, content (posix_of m) fh bytes /\ buf = Incoming v /\ incoming_ok m v /\
      0 <= off <= Z.of_nat (length bytes) /\ off + Z.of_nat (length (FuseBuf.remaining v)) + SS < NvmlFile.OFF_MAX /\
      NvmlSpec.room (m_data m) (Z.of_nat (length (FuseBuf.remaining v)) + SS)
  | RRead fh size off => exists bytes, content (posix_of m) fh bytes /\
      0 <= off <= Z.of_nat (length bytes) /\ 0 < size /\ off + size < 2 ^ 63
  | RFallocate fh off len => exists bytes, content (posix_of m) fh bytes /\
      0 <= off <= Z.of_nat (length bytes) /\ 0 < len /\ off + len + SS < NvmlFile.OFF_MAX /\
      Segment.sto_zeroed (W := W) /\ NvmlSpec.room (m_data m) (len + SS)
  | _ => kernel m r /\ plain m r
  end.

(** ** The objects *)

Lemma data_rest m id o : data_ok m -> m_objects m !! id = Some o -> NvmlSpec.at_rest (o_file o) (m_data m).
Proof. intros Hd Ho. apply (NvmlStore.so_rest _ _ Hd id). unfold nvml_files. by rewrite lookup_fmap, Ho. Qed.
Lemma files_object m id o : m_objects m !! id = Some o ->
  p_files (posix_of m) !! id = Some (NvmlSpec.contents (o_file o) (m_data m)).
Proof. intros Ho. simpl. unfold NvmlStore.bytes_of, nvml_files. by rewrite !lookup_fmap, Ho. Qed.
Lemma content_object m fh bytes : content (posix_of m) fh bytes ->
  exists id o, opened m fh id o /\ bytes = NvmlSpec.contents (o_file o) (m_data m).
Proof.
  intros (id & Hh & Hf). simpl in Hh, Hf. unfold NvmlStore.bytes_of, nvml_files in Hf. rewrite !lookup_fmap in Hf.
  destruct (m_objects m !! id) as [o |] eqn:Ho; [| done]. injection Hf as <-. by exists id, o.
Qed.
Lemma object_content m fh id o : opened m fh id o -> content (posix_of m) fh (NvmlSpec.contents (o_file o) (m_data m)).
Proof. intros [Hh Ho]. exists id. split; [done |]. by apply files_object. Qed.

(** The size of an object is the number of its bytes. *)
Lemma stat_size m id o : data_ok m -> m_objects m !! id = Some o ->
  st_size (o_stat o) = Z.of_nat (length (NvmlSpec.contents (o_file o) (m_data m))).
Proof.
  intros Hd Ho. destruct (data_rest m id o Hd Ho) as [Hf _]. simpl. rewrite (NvmlSpec.fo_size _ _ Hf), NvmlStore.length_contents.
  pose proof (NvmlSpec.fo_used _ _ Hf). lia.
Qed.

(** A step that changes one object, by an operation whose effect is framed. *)
Lemma updates_data m id o f' e' a m' : data_ok m -> m_objects m !! id = Some o ->
  NvmlSpec.frame (o_file o) f' (m_data m) e' -> NvmlSpec.stored e' -> NvmlSpec.at_rest f' e' -> updates m id (Object f' a) e' m' ->
  data_ok m' /\ p_files (posix_of m') = <[id := NvmlSpec.contents f' e']> (p_files (posix_of m)).
Proof.
  intros Hd Ho Hfr Hse Hr (_ & Hobj & _ & He). unfold data_ok. simpl. unfold nvml_files. rewrite Hobj, He, fmap_insert.
  apply (NvmlStore.store_update _ _ id (o_file o)); try done. by rewrite lookup_fmap, Ho.
Qed.
Lemma updates_changes m fh id o f' e' a bytes m' : data_ok m -> opened m fh id o ->
  NvmlSpec.frame (o_file o) f' (m_data m) e' -> NvmlSpec.stored e' -> NvmlSpec.at_rest f' e' -> updates m id (Object f' a) e' m' ->
  NvmlSpec.contents f' e' = bytes -> data_ok m' /\ changes (posix_of m) fh bytes (posix_of m').
Proof.
  intros Hd [Hh Ho] Hfr Hse Hr Hu <-. destruct (updates_data m id o f' e' a m' Hd Ho Hfr Hse Hr Hu) as [Hd' Hp].
  split; [done |]. destruct Hu as (Ht & _ & Hh' & _). by exists id.
Qed.

(** Objects that only have other attributes, of the same size. *)
Lemma saved_same (f : NvmlFile.file L) st (e : Segment.env W) : Segment.st_size st = Segment.st_size (NvmlFile.m_attributes f) ->
  NvmlSpec.same_file f (NvmlFile.save_attributes st f) e e.
Proof. by constructor. Qed.
Lemma saved_frame (f : NvmlFile.file L) st (e : Segment.env W) : NvmlSpec.at_rest f e -> Segment.st_size st = Segment.st_size (NvmlFile.m_attributes f) ->
  NvmlSpec.frame f (NvmlFile.save_attributes st f) e e /\ NvmlSpec.at_rest (NvmlFile.save_attributes st f) e /\
  NvmlSpec.contents (NvmlFile.save_attributes st f) e = NvmlSpec.contents f e.
Proof.
  intros [Hf Hi] Hs. pose proof (saved_same f st e Hs) as HS. split; [by apply NvmlSpec.same_frame |].
  split; [split; [by eapply NvmlSpec.same_file_ok | done] | by apply NvmlSpec.same_contents].
Qed.
Lemma attributes_data m m' : data_ok m -> attributes_only (m_objects m) (m_objects m') -> m_data m' = m_data m ->
  data_ok m' /\ p_files (posix_of m') = p_files (posix_of m).
Proof.
  intros Hd [Hdom Hat] He. unfold data_ok. simpl. rewrite He. apply NvmlStore.store_same; [done | |].
  - unfold nvml_files. by rewrite !dom_fmap_L.
  - unfold nvml_files. intros i f Hf. rewrite lookup_fmap in Hf. destruct (m_objects m !! i) as [o |] eqn:Ho; [| done].
    injection Hf as <-. destruct (Hat i o Ho) as (o' & Ho' & Hcase). exists (o_file o'). rewrite lookup_fmap, Ho'.
    split; [done |]. destruct Hcase as [-> | (a & -> & Ha)]; [split; [apply NvmlSpec.same_refl | done] |].
    split; [by apply saved_same | done].
Qed.

(** A new object has no bytes. *)
Lemma create_data m m' p mode id o : data_ok m -> new_object p mode o ->
  m_objects m' = <[id := o]> (m_objects m) -> m_data m' = m_data m ->
  data_ok m' /\ p_files (posix_of m') = <[id := []]> (p_files (posix_of m)).
Proof.
  intros Hd (o0 & a & Hnew & -> & _ & Hsz) Hobj He. change (o_new p 0 temporary false = Some o0) in Hnew. unfold o_new in Hnew.
  destruct NvmlSpec.init_tree as (tb & Hb & Hw & Hls & Hin & Hv).
  cbn [NvmlFile.m_segments NvmlFile.file_init] in Hnew. rewrite Hb in Hnew. cbn in Hnew. injection Hnew as <-.
  set (f0 := NvmlFile.set_tree tb (NvmlFile.file_init (L := L) p (pool_subdir p) NvmlFile.temporary)) in *.
  assert (Hr0 : NvmlSpec.at_rest f0 (m_data m)) by (split; [by apply NvmlSpec.init_file_ok | apply RangeMutex.lk_new_idle]).
  set (st := Segment.Stat (st_size a) (st_blocks a) (st_ctime a)).
  destruct (saved_frame f0 st (m_data m) Hr0 Hsz) as (_ & Hr & Hc).
  assert (Hfr : NvmlSpec.frame (NvmlFile.file_init p (pool_subdir p) NvmlFile.temporary)
    (NvmlFile.save_attributes st f0) (m_data m) (m_data m)) by (constructor; simpl; intros; try done; lia).
  unfold data_ok. simpl. unfold nvml_files. rewrite Hobj, He, fmap_insert. cbn [o_file].
  destruct (NvmlStore.store_add (nvml_files m) (m_data m) id _ _ _ _ (m_data m) Hd Hfr (NvmlStore.so_stored _ _ Hd) Hr) as [Hok Hby].
  split; [exact Hok |]. etransitivity; [exact Hby |]. by rewrite Hc.
Qed.

(** ** The operations on data *)

Lemma SS_small : 0 < SS /\ 2 ^ 32 + SS < NvmlFile.OFF_MAX.
Proof.
  split; [apply Z.pow_pos_nonneg; lia |]. assert (SS <= 2 ^ 60) by (apply Z.pow_le_mono_r; lia). unfold NvmlFile.OFF_MAX. lia.
Qed.

(** The file of a handle: its end is the number of its bytes. *)
Lemma content_rest m fh bytes : data_ok m -> content (posix_of m) fh bytes ->
  exists id o, opened m fh id o /\ NvmlSpec.at_rest (o_file o) (m_data m) /\
    bytes = NvmlSpec.contents (o_file o) (m_data m) /\
    Z.of_nat (length bytes) = NvmlFile.m_used_offset (o_file o) /\
    NvmlFile.m_used_offset (o_file o) <= NvmlFile.m_alloc_offset (o_file o).
Proof.
  intros Hd Hc. destruct (content_object m fh bytes Hc) as (id & o & Ho & ->). exists id, o.
  pose proof (data_rest m id o Hd (proj2 Ho)) as Hr. pose proof (NvmlSpec.fo_used _ _ (proj1 Hr)).
  rewrite NvmlStore.length_contents. split_and!; try done; lia.
Qed.

Lemma put_result m fh v off bytes : Segment.sto_reliable (W := W) -> data_ok m -> content (posix_of m) fh bytes ->
  incoming_ok m v -> 0 <= off <= Z.of_nat (length bytes) ->
  off + Z.of_nat (length (FuseBuf.remaining v)) + SS < NvmlFile.OFF_MAX ->
  NvmlSpec.room (m_data m) (Z.of_nat (length (FuseBuf.remaining v)) + SS) ->
  exists id o f' e', opened m fh id o /\ NvmlSpec.frame (o_file o) f' (m_data m) e' /\ (NvmlSpec.stored e' /\ NvmlSpec.at_rest f' e') /\
    f_put_data off (fuse_buf_size (Incoming v)) (Incoming v) o (m_data m)
      = Some (Z.of_nat (length (payload m (RWrite fh (Incoming v) off))), Object f' (o_attr o), e') /\
    NvmlSpec.contents f' e' = NvmlSpec.posix_write bytes off (payload m (RWrite fh (Incoming v) off)).
Proof.
  intros Hrel Hd Hc [V1 V2 V3 V4 V5 V6] Hoff Hmax Hroom.
  destruct (content_rest m fh bytes Hd Hc) as (id & o & Ho & Hr & -> & Hlen & Hal).
  assert (Hpos : 0 < Z.of_nat (length (FuseBuf.remaining v))) by (destruct (FuseBuf.remaining v); [done | simpl; lia]).
  destruct (NvmlSpec.put_data_ok J local_buf have_splice J_range (o_file o) (m_data m) off
    (Z.of_nat (length (FuseBuf.remaining v))) v Hr (NvmlStore.so_stored _ _ Hd) Hroom)
    as (r & [f' e'] & Hput & Hres); [lia | right; lia | done | done | | done |].
  { constructor; [done | done | |].
    - intros x Hx. apply (V6 x Hx).
    - intros x k Hx Hk. by apply (fg_free _ _ (V6 x Hx) id o k (proj2 Ho)). }
  destruct r as [x | n]; [done |]. destruct Hres as (-> & Hse & Hfr & Hr' & Hcon). cbn [fst snd] in *.
  exists id, o, f', e'. split_and!; try done. cbn [f_put_data fuse_buf_size nvml_file_data].
  rewrite (bufvec_size_ok v V1 V3 V4), Hput. cbn. by rewrite length_fmap.
Qed.

Lemma get_result m fh off size bytes : Segment.sto_reliable (W := W) -> data_ok m -> content (posix_of m) fh bytes ->
  0 <= off <= Z.of_nat (length bytes) -> 0 < size -> off + size < 2 ^ 63 ->
  exists id o f' e' out, opened m fh id o /\ NvmlSpec.frame (o_file o) f' (m_data m) e' /\ (NvmlSpec.stored e' /\ NvmlSpec.at_rest f' e') /\
    f_get_data off size (FUSE_BUFVEC_INIT size) o (m_data m) = Some (out.1, Outgoing out.2, Object f' (o_attr o), e') /\
    NvmlSpec.contents f' e' = bytes /\
    out = let d := NvmlSpec.posix_read bytes off size in
          if negb (memalign_ok (Z.of_nat (length d))) && negb (Mdds.is_nil d) then (- NvmlFile.ENOMEM, []) else (0, d).
Proof.
  intros Hrel Hd Hc Hoff Hsz Hmax. destruct (content_rest m fh bytes Hd Hc) as (id & o & Ho & Hr & -> & Hlen & Hal).
  destruct (NvmlSpec.get_data_ok J memalign_ok (o_file o) (m_data m) off size Hr (NvmlStore.so_stored _ _ Hd)) as (r & [f' e'] & Hget & Hres);
    [lia | done | done |].
  destruct r as [x | out]; [by destruct Hres |]. destruct Hres as (Hse & Hfr & Hr' & Hcon & Hout). cbn [fst snd] in *.
  exists id, o, f', e', out. split_and!; try done. cbn [f_get_data nvml_file_data]. by rewrite Hget.
Qed.

Lemma allocate_result m fh off len bytes : Segment.sto_reliable (W := W) -> data_ok m -> content (posix_of m) fh bytes ->
  0 <= off <= Z.of_nat (length bytes) -> 0 < len -> off + len + SS < NvmlFile.OFF_MAX ->
  Segment.sto_zeroed (W := W) -> NvmlSpec.room (m_data m) (len + SS) ->
  exists id o f' e', opened m fh id o /\ NvmlSpec.frame (o_file o) f' (m_data m) e' /\ (NvmlSpec.stored e' /\ NvmlSpec.at_rest f' e') /\
    f_allocate off len o (m_data m) = Some (0, Object f' (o_attr o), e') /\
    NvmlSpec.contents f' e' = NvmlStore.posix_allocate bytes off len.
Proof.
  intros Hrel Hd Hc Hoff Hsz Hmax Hzd Hroom. destruct (content_rest m fh bytes Hd Hc) as (id & o & Ho & Hr & -> & Hlen & Hal).
  destruct (NvmlStore.allocate_ok J now J_range (o_file o) (m_data m) off len Hzd Hr (NvmlStore.so_stored _ _ Hd) Hroom) as (r & [f' e'] & Hall & Hres);
    [lia | done | done |].
  destruct r as [x | n]; [done |]. destruct Hres as (-> & Hse & Hfr & Hr' & Hcon). cbn [fst snd] in *.
  pose proof SS_small. unfold NvmlFile.OFF_MAX in *.
  exists id, o, f', e'. split_and!; try done. cbn [f_allocate nvml_file_data]. rewrite u64_small by lia. by rewrite Hall.
Qed.

Lemma truncate_result m fh len bytes : Segment.sto_reliable (W := W) -> data_ok m -> content (posix_of m) fh bytes ->
  Z.of_nat (length bytes) < len < 2 ^ 32 -> Segment.sto_zeroed (W := W) -> NvmlSpec.room (m_data m) (len + SS) ->
  exists id o f' e', opened m fh id o /\ NvmlSpec.frame (o_file o) f' (m_data m) e' /\ (NvmlSpec.stored e' /\ NvmlSpec.at_rest f' e') /\
    f_truncate len o (m_data m) = Some (Object f' (o_attr o), e') /\
    NvmlSpec.contents f' e' = NvmlStore.posix_allocate bytes 0 len.
Proof.
  intros Hrel Hd Hc Hlen Hzd Hroom. destruct (content_rest m fh bytes Hd Hc) as (id & o & Ho & Hr & -> & Hl & Hal).
  destruct (NvmlStore.truncate_ok J now J_range (o_file o) (m_data m) len Hzd Hr (NvmlStore.so_stored _ _ Hd) Hroom) as (r & [f' e'] & Htr & Hres);
    [lia | pose proof SS_small; lia |].
  destruct r as [x | n]; [done |]. destruct Hres as (Hse & Hfr & Hr' & Hcon). cbn [fst snd] in *.
  exists id, o, f', e'. split_and!; try done. cbn [f_truncate nvml_file_data]. by rewrite Htr.
Qed.

(** ** The simulation *)

Lemma pkernel_kernel m r : Segment.sto_reliable (W := W) -> data_ok m -> pkernel m r -> kernel m r /\ returns m r.
Proof.
  intros Hrel Hd. destruct r; cbn [pkernel]; try (by intros [? _]).
  - intros (bytes & Hc & Hl & Hzd & Hrm). destruct (truncate_result m fh length bytes Hrel Hd Hc Hl Hzd Hrm) as (id & o & f' & e' & Hop & _ & _ & Hp & _).
    split; [exists id; apply Hop |]. exists id, o. split; [done |]. rewrite Hp. eauto.
  - intros (bytes & v & Hc & -> & Hv & Ho & Hm & Hrm).
    destruct (put_result m fh v offset bytes Hrel Hd Hc Hv Ho Hm Hrm) as (id & o & f' & e' & Hop & _ & _ & Hp & _).
    split; [exists id; apply Hop |]. exists id, o. split; [done |]. rewrite Hp. eauto.
  - intros (bytes & Hc & Ho & Hs & Hm).
    destruct (get_result m fh offset size bytes Hrel Hd Hc Ho Hs Hm) as (id & o & f' & e' & out & Hop & _ & _ & Hp & _).
    split; [exists id; apply Hop |]. exists id, o. split; [done |]. rewrite Hp. eauto.
  - intros (bytes & Hc & Ho & Hs & Hm & Hzd & Hrm).
    destruct (allocate_result m fh offset length bytes Hrel Hd Hc Ho Hs Hm Hzd Hrm) as (id & o & f' & e' & Hop & _ & _ & Hp & _).
    split; [exists id; apply Hop |]. exists id, o. split; [done |]. rewrite Hp. eauto.
Qed.

Lemma quiet_still m m' : data_ok m -> quiet m m' -> data_ok m' /\ still (posix_of m) (posix_of m').
Proof.
  intros Hd (Ht & Hobj & Hh & He). unfold data_ok, still, same_names. simpl. unfold nvml_files. by rewrite Hobj, He, Hh.
Qed.
Lemma same_objects m m' : data_ok m -> m_objects m' = m_objects m -> m_data m' = m_data m ->
  data_ok m' /\ p_files (posix_of m') = p_files (posix_of m).
Proof. intros Hd Hobj He. unfold data_ok. simpl. unfold nvml_files. by rewrite Hobj, He. Qed.
Lemma meta_step m r y m' : data_ok m ->
  (exists o z t, meta r = Some o /\ y = Code z /\ spec (m_tree m) o z t /\ (forall q, path q -> m_tree m' q = t q) /\
     attributes_only (m_objects m) (m_objects m') /\ m_handles m' = m_handles m /\ m_data m' = m_data m) ->
  data_ok m' /\ exists o z t, meta r = Some o /\ y = Code z /\ spec (m_tree m) o z t /\
    (forall q, path q -> m_tree m' q = t q) /\ p_files (posix_of m') = p_files (posix_of m) /\ m_handles m' = m_handles m.
Proof.
  intros Hd (o & z & t & Hm & Hy & Hsp & Ht & Hat & Hh & He). destruct (attributes_data m m' Hd Hat He) as [Hd' Hp].
  split; [done |]. exists o, z, t. by split_and!.
Qed.

(** A step of the specification with objects is one of the specification with bytes. *)
Definition stepped (m : fmodel) (r : freq) (y : frep) (m' : fmodel) : Prop :=
  data_ok m' /\ pspec (posix_of m) r (payload m r) y (posix_of m').

Lemma getattr_step m y m' p : data_ok m -> fspec m (RGetattr p) y m' -> stepped m (RGetattr p) y m'.
Proof.
  intros Hd [Hq Hy]. destruct (quiet_still m m' Hd Hq) as [Hd' Hst]. split; [done |]. split; [done |].
  cbn [p_tree posix_of]. destruct (m_tree m p) as [[id |] |]; [| done | done]. destruct Hy as (o & Ho & ->).
  eexists _, _. split; [by apply files_object |]. split; [reflexivity |]. by apply (stat_size m id).
Qed.
Lemma fgetattr_step m y m' fh : data_ok m -> fspec m (RFgetattr fh) y m' -> stepped m (RFgetattr fh) y m'.
Proof.
  intros Hd [Hq (id & o & Ho & ->)]. destruct (quiet_still m m' Hd Hq) as [Hd' Hst]. split; [done |]. split; [done |].
  eexists _, _. split; [by eapply object_content |]. split; [reflexivity |]. apply (stat_size m id); [done | apply Ho].
Qed.
Lemma utimens_step m y m' p a t : data_ok m -> fspec m (RUtimens p a t) y m' -> stepped m (RUtimens p a t) y m'.
Proof.
  intros Hd Hsp. unfold stepped. cbn [pspec fspec p_tree posix_of] in *.
  destruct (m_tree m p) as [[id |] |]; [| destruct Hsp as [-> Hq]; by destruct (quiet_still m m' Hd Hq) ..].
  destruct Hsp as (o & Ho & -> & Hu). pose proof (data_rest m id o Hd Ho) as Hr.
  destruct (saved_frame (o_file o) (Segment.Stat (st_size (o_stat o)) (st_blocks (o_stat o)) (st_ctime (o_stat o)))
    (m_data m) Hr eq_refl) as (Hfr & Hr' & Hc).
  destruct (updates_data m id o _ _ _ m' Hd Ho Hfr (NvmlStore.so_stored _ _ Hd) Hr' Hu) as [Hd' Hp].
  split; [done |]. split; [| done]. destruct Hu as (Ht & _ & Hh & _). split; [done |]. split; [| done].
  rewrite Hp, Hc. apply insert_id. by apply files_object.
Qed.
Lemma create_step m y m' p mode flags : data_ok m -> fspec m (RCreate p mode flags) y m' -> stepped m (RCreate p mode flags) y m'.
Proof.
  intros Hd (fh & id & o & -> & Hh & Ho & Hnew & Ht & Hobj & Hh' & He).
  destruct (create_data m m' p mode id o Hd Hnew Hobj He) as [Hd' Hp]. split; [done |].
  exists fh, id. split_and!; try done. simpl. unfold NvmlStore.bytes_of, nvml_files. by rewrite !lookup_fmap, Ho.
Qed.
Lemma open_step m y m' p flags : data_ok m -> fspec m (ROpen p flags) y m' -> stepped m (ROpen p flags) y m'.
Proof.
  intros Hd Hsp. unfold stepped. cbn [pspec fspec p_tree posix_of] in *.
  destruct (m_tree m p) as [[id |] |]; [| destruct Hsp as [-> Hq]; by destruct (quiet_still m m' Hd Hq) ..].
  destruct Hsp as (fh & -> & Hh & Ht & Hobj & Hh' & He). destruct (same_objects m m' Hd Hobj He) as [Hd' Hp].
  split; [done |]. exists fh. by split_and!.
Qed.
Lemma release_step m y m' fh : data_ok m -> fspec m (RRelease fh) y m' -> stepped m (RRelease fh) y m'.
Proof.
  intros Hd (-> & Ht & Hobj & Hh & He). destruct (same_objects m m' Hd Hobj He) as [Hd' Hp]. by split_and!.
Qed.
Lemma ftruncate_step m y m' fh len flags : Segment.sto_reliable (W := W) -> data_ok m -> pkernel m (RFtruncate fh len flags) ->
  fspec m (RFtruncate fh len flags) y m' -> stepped m (RFtruncate fh len flags) y m'.
Proof.
  intros Hrel Hd (bytes & Hc & Hl & Hzd & Hrm) (id' & o' & o1 & e & Ho' & Htr' & -> & Hu).
  destruct (truncate_result m fh len bytes Hrel Hd Hc Hl Hzd Hrm) as (id & o & f1 & e1 & Ho & Hfr & [Hse Hr] & Htr & Hcon).
  destruct (opened_fun _ _ _ _ _ _ Ho Ho') as [<- <-]. rewrite Htr in Htr'. injection Htr' as <- <-.
  destruct (updates_changes m fh id o _ _ _ _ m' Hd Ho Hfr Hse Hr Hu Hcon) as [Hd' Hch]. split; [done |]. by exists bytes.
Qed.
Lemma fallocate_step m y m' fh off len : Segment.sto_reliable (W := W) -> data_ok m -> pkernel m (RFallocate fh off len) ->
  fspec m (RFallocate fh off len) y m' -> stepped m (RFallocate fh off len) y m'.
Proof.
  intros Hrel Hd (bytes & Hc & Hoff & Hsz & Hm & Hzd & Hrm) (id' & o' & rv & o1 & e & Ho' & Hal' & -> & Hu).
  destruct (allocate_result m fh off len bytes Hrel Hd Hc Hoff Hsz Hm Hzd Hrm)
    as (id & o & f1 & e1 & Ho & Hfr & [Hse Hr] & Hal & Hcon).
  destruct (opened_fun _ _ _ _ _ _ Ho Ho') as [<- <-]. rewrite Hal in Hal'. injection Hal' as <- <- <-.
  destruct (updates_changes m fh id o _ _ _ _ m' Hd Ho Hfr Hse Hr Hu Hcon) as [Hd' Hch]. split; [done |]. by exists bytes.
Qed.
Lemma write_step m y m' fh buf off : Segment.sto_reliable (W := W) -> data_ok m -> pkernel m (RWrite fh buf off) ->
  fspec m (RWrite fh buf off) y m' -> stepped m (RWrite fh buf off) y m'.
Proof.
  intros Hrel Hd (bytes & v & Hc & -> & Hv & Hoff & Hm & Hrm) (id' & o' & rv & o1 & e & Ho' & Hp' & -> & Hu).
  destruct (put_result m fh v off bytes Hrel Hd Hc Hv Hoff Hm Hrm) as (id & o & f1 & e1 & Ho & Hfr & [Hse Hr] & Hp & Hcon).
  destruct (opened_fun _ _ _ _ _ _ Ho Ho') as [<- <-]. rewrite Hp in Hp'. injection Hp' as <- <- <-.
  destruct (updates_changes m fh id o _ _ _ _ m' Hd Ho Hfr Hse Hr Hu Hcon) as [Hd' Hch]. split; [done |]. by exists bytes.
Qed.
Lemma read_step m y m' fh size off : Segment.sto_reliable (W := W) -> data_ok m -> pkernel m (RRead fh size off) ->
  fspec m (RRead fh size off) y m' -> stepped m (RRead fh size off) y m'.
Proof.
  intros Hrel Hd (bytes & Hc & Hoff & Hsz & Hm) (id' & o' & rv & dst & o1 & e & Ho' & Hg' & -> & Hu).
  destruct (get_result m fh off size bytes Hrel Hd Hc Hoff Hsz Hm) as (id & o & f1 & e1 & out & Ho & Hfr & [Hse Hr] & Hg & Hcon & Hout).
  destruct (opened_fun _ _ _ _ _ _ Ho Ho') as [<- <-]. rewrite Hg in Hg'. injection Hg' as <- <- <- <-.
  destruct (updates_data m id o _ _ _ m' Hd (proj2 Ho) Hfr Hse Hr Hu) as [Hd' Hp].
  destruct Hc as (id' & Hh & Hf). assert (id' = id) as -> by (destruct Ho as [Hh' _]; simpl in Hh; congruence).
  split; [done |]. cbn [pspec]. split.
  - destruct Hu as (Ht & _ & Hh' & _). split; [done |]. split; [| done]. rewrite Hp, Hcon. by apply insert_id.
  - exists bytes. split; [by exists id |]. subst out. cbn zeta. destruct (_ && _); reflexivity.
Qed.

Lemma posix_step m r y m' : Segment.sto_reliable (W := W) -> data_ok m -> pkernel m r -> fspec m r y m' -> stepped m r y m'.
Proof.
  intros Hrel Hd Hk Hsp. destruct r; try (apply (meta_step m _ y m' Hd Hsp)).
  - by apply getattr_step.
  - destruct Hsp as [Hq Hy]. by destruct (quiet_still m m' Hd Hq).
  - destruct Hsp as [Hq Hy]. by destruct (quiet_still m m' Hd Hq).
  - by apply utimens_step. - by apply create_step. - by apply open_step. - by apply release_step.
  - by apply fgetattr_step. - by apply ftruncate_step. - by apply write_step. - by apply read_step.
  - by apply fallocate_step.
Qed.

(** ** Runs *)

(** A step of the rest of the process: the environment changes, but for the bytes of the files
    and their mappings. *)
Definition meanwhile (s s' : fsys) : Prop :=
  exists e, s' = set_data e s /\ NvmlSpec.stored e /\
    forall id o, b_heap (fs_backend s) !! id = Some o -> NvmlStore.undisturbed (o_file o) (fs_data s) e.

(** The states a mounted file system goes through. *)
Inductive serves : list (freq * frep) -> fsys -> fsys -> Prop :=
  | serves_nil s : serves [] s s
  | serves_request c r y l s1 s2 s3 : fits (fs_backend s1) -> pkernel (abs s1) r -> dispatch c r s1 = Reply y s2 ->
      serves l s2 s3 -> serves ((r, y) :: l) s1 s3
  | serves_meanwhile l s1 s2 s3 : meanwhile s1 s2 -> serves l s2 s3 -> serves l s1 s3.

(** The invariant: the tables of the name space and of the open files fit together, and the
    files are sound and share no memory. *)
Definition sound (s : fsys) : Prop := inv s /\ data_ok (abs s).

Lemma mounted_sound s : mounted s -> NvmlSpec.stored (fs_data s) -> sound s.
Proof.
  intros Hm Hst. split; [by apply mounted_inv |]. destruct Hm as (root & junk & Hb & _).
  assert (Hh : b_heap (fs_backend s) = ∅).
  { unfold nvml_backend, new_inode in Hb. cbn in Hb. destruct (h_stat root); [| done]. cbn in Hb. injection Hb as <-. done. }
  unfold data_ok, nvml_files. simpl. rewrite Hh, fmap_empty. by apply NvmlStore.store_empty.
Qed.
Lemma dispatch_posix c r s : Segment.sto_reliable (W := W) -> sound s -> fits (fs_backend s) -> pkernel (abs s) r ->
  exists y s', dispatch c r s = Reply y s' /\ sound s' /\ pspec (pabs s) r (payload (abs s) r) y (pabs s').
Proof.
  intros Hrel [Hi Hd] Hf Hk. destruct (pkernel_kernel _ r Hrel Hd Hk) as [Hk' Hret].
  destruct (dispatch_good c s r Hi Hf Hk' Hret) as (y & s' & E & Hi' & Hsp).
  destruct (posix_step _ r y _ Hrel Hd Hk Hsp) as [Hd' Hps]. exists y, s'. by split_and!.
Qed.
Lemma request_sound c r y s s' : Segment.sto_reliable (W := W) -> sound s -> fits (fs_backend s) -> pkernel (abs s) r ->
  dispatch c r s = Reply y s' -> sound s' /\ pspec (pabs s) r (payload (abs s) r) y (pabs s').
Proof.
  intros Hrel Hs Hf Hk E. destruct (dispatch_posix c r s Hrel Hs Hf Hk) as (y' & s1 & E' & Hs').
  rewrite E in E'. by injection E' as -> ->.
Qed.
Lemma meanwhile_sound s s' : sound s -> meanwhile s s' -> sound s' /\ pabs s' = pabs s.
Proof.
  intros [Hi Hd] (e & -> & Hst & Hu). destruct (NvmlStore.store_undisturbed (nvml_files (abs s)) (fs_data s) e) as [Hok Hb].
  - done.
  - done.
  - intros i f Hf. unfold nvml_files in Hf. rewrite lookup_fmap in Hf. cbn in Hf.
    destruct (b_heap (fs_backend s) !! i) as [o |] eqn:Ho; [| done]. injection Hf as <-. by apply (Hu i).
  - split; [split; [| done] |].
    + destruct Hi as [HW HL HP HN]. by split.
    + unfold pabs, posix_of. f_equal. done.
Qed.
Lemma serves_sound l s s' : Segment.sto_reliable (W := W) -> serves l s s' -> sound s -> sound s'.
Proof.
  intros Hrel. induction 1 as [| c r y l s1 s2 s3 Hf Hk E _ IH | l s1 s2 s3 Hm _ IH]; intros Hs; [done | |].
  - apply IH. by eapply request_sound.
  - apply IH. by eapply meanwhile_sound.
Qed.

(** Writing to memory that no file uses is such a step. *)
Lemma refill s a bs : sound s -> (forall x, a <= x < a + Z.of_nat (length bs) -> foreign (abs s) x) ->
  meanwhile s (set_data (Segment.Env (FuseBuf.mem_put (Segment.e_mem (fs_data s)) a bs)
    (Segment.e_maps (fs_data s)) (Segment.e_world (fs_data s))) s).
Proof.
  intros [_ Hd] Hx. eexists. split; [reflexivity |]. split; [apply (NvmlStore.so_stored _ _ Hd) |]. intros id o Ho. pose proof (data_rest (abs s) id o Hd Ho) as [Hf _].
  constructor.
  - intros k Hk. apply FuseBuf.mem_put_frame. set (x := NvmlSpec.addr_of (o_file o) k).
    destruct (decide (a <= x < a + Z.of_nat (length bs))) as [Hin |]; [| lia].
    exfalso. by apply (fg_free _ _ (Hx x Hin) id o k).
  - intros i x Hi. apply (NvmlSpec.fo_seg _ _ Hf i x Hi).
Qed.

(** Memory below all storage of the files. *)
Lemma foreign_below s lo n : sound s -> (lo, n) ∈ Segment.e_maps (fs_data s) ->
  map_Forall (fun _ o => map_Forall (fun _ x => lo + n <= Segment.data x) (NvmlFile.f_heap (o_file o))) (b_heap (fs_backend s)) ->
  forall x, lo <= x < lo + n -> foreign (abs s) x.
Proof.
  intros [_ Hd] Hin Hall x Hx. constructor; [eauto |]. intros id o k Ho Hk.
  pose proof (data_rest (abs s) id o Hd Ho) as [Hf _]. destruct (NvmlSpec.fo_cover _ _ Hf k Hk) as (i & y & _ & Hy & Hi).
  rewrite (NvmlSpec.addr_of_seg _ _ i y k Hf Hy Hi). pose proof (Hall id o Ho i y Hy) as Hb. cbn beta in Hb. lia.
Qed.

(** The mounted file system with NVML files is a POSIX file system. In every state that it
    reaches, whatever the rest of the process does in between, a request of the kernel is
    answered, and the reply and the change are those of the POSIX call on the tree, the bytes
    of the files and the open handles: in particular a write changes the bytes of its file
    as [pwrite] does and those of no other file, a read returns the bytes that are there,
    and the size in the attributes is the number of bytes. *)
Theorem nvml_fuse_posix (c : clock) (l : list (freq * frep)) (s0 s : fsys) (r : freq) :
  Segment.sto_reliable (W := W) -> mounted s0 -> NvmlSpec.stored (fs_data s0) -> serves l s0 s -> fits (fs_backend s) -> pkernel (abs s) r ->
  exists y s', dispatch c r s = Reply y s' /\ pspec (pabs s) r (payload (abs s) r) y (pabs s').
Proof.
  intros Hrel Hm Hst Hr Hf Hk. pose proof (serves_sound l s0 s Hrel Hr (mounted_sound s0 Hm Hst)) as Hs.
  destruct (dispatch_posix c r s Hrel Hs Hf Hk) as (y & s' & E & _ & Hsp). eauto.
Qed.

(** Well-formedness: in every state that a mounted file system reaches, the table of files
    and the tree of directories agree, every open handle refers to an object, every object's
    segments tile its storage in live mappings, the size in its attributes is its end of file,
    no lock is held, and no two objects share a byte of memory. *)
Theorem nvml_fuse_well_formed (l : list (freq * frep)) (s0 s : fsys) :
  Segment.sto_reliable (W := W) -> mounted s0 -> NvmlSpec.stored (fs_data s0) -> serves l s0 s -> inv s /\ NvmlStore.store_ok (nvml_files (abs s)) (fs_data s).
Proof. intros Hrel Hm Hst Hr. exact (serves_sound l s0 s Hrel Hr (mounted_sound s0 Hm Hst)). Qed.

(** ** What was written is read *)

(** A request that may change the bytes of the file [id], and one that closes [fh]. *)
Definition changes_file (m : posix) (id : positive) (r : freq) : Prop :=
  match r with
  | RWrite fh _ _ | RFtruncate fh _ _ | RFallocate fh _ _ => p_handles m !! fh = Some id
  | _ => False
  end.
Inductive others (id fh : positive) : fsys -> fsys -> Prop :=
  | others_nil s : others id fh s s
  | others_request c r y s1 s2 s3 : fits (fs_backend s1) -> pkernel (abs s1) r -> dispatch c r s1 = Reply y s2 ->
      ~ changes_file (pabs s1) id r -> r <> RRelease fh -> others id fh s2 s3 -> others id fh s1 s3
  | others_meanwhile s1 s2 s3 : meanwhile s1 s2 -> others id fh s2 s3 -> others id fh s1 s3.

(** The bytes of a file that no request changes stay. *)
Lemma pspec_file (m : posix) r d y (m' : posix) id bytes : pspec m r d y m' -> ~ changes_file m id r ->
  p_files m !! id = Some bytes -> p_files m' !! id = Some bytes.
Proof.
  intros Hsp Hno Hf. assert (Hst : still m m' -> p_files m' !! id = Some bytes) by (by intros (_ & -> & _)).
  assert (Hch : forall fh' b, changes m fh' b m' -> p_handles m !! fh' <> Some id -> p_files m' !! id = Some bytes).
  { intros fh' b (id' & Hh' & _ & -> & _) Hne. rewrite lookup_insert_ne; [done |]. congruence. }
  assert (Hmeta : forall r', (exists o z t, meta r' = Some o /\ y = Code z /\ spec (p_tree m) o z t /\
    (forall q, path q -> p_tree m' q = t q) /\ p_files m' = p_files m /\ p_handles m' = p_handles m) -> p_files m' !! id = Some bytes).
  { intros r' (_ & _ & _ & _ & _ & _ & _ & -> & _). done. }
  destruct r; cbn [pspec changes_file] in *; try (exact (Hmeta _ Hsp)); try (exact (Hst (proj1 Hsp)));
    try (destruct Hsp as (b & _ & _ & Hc); by apply (Hch _ _ Hc)).
  - destruct Hsp as (fh' & id' & _ & Hn & Hn' & _ & -> & _). by rewrite lookup_insert_ne by congruence.
  - destruct (p_tree m p) as [[id' |] |]; [| apply Hst, Hsp ..]. by destruct Hsp as (fh' & _ & Hn & _ & -> & _).
  - by destruct Hsp as (_ & _ & -> & _).
Qed.
(** And the handle of one that is not closed. *)
Lemma pspec_handle (m : posix) r d y (m' : posix) id fh : pspec m r d y m' -> r <> RRelease fh ->
  p_handles m !! fh = Some id -> p_handles m' !! fh = Some id.
Proof.
  intros Hsp Hrel Hh. assert (Hst : still m m' -> p_handles m' !! fh = Some id) by (by intros (_ & _ & ->)).
  assert (Hmeta : forall r', (exists o z t, meta r' = Some o /\ y = Code z /\ spec (p_tree m) o z t /\
    (forall q, path q -> p_tree m' q = t q) /\ p_files m' = p_files m /\ p_handles m' = p_handles m) -> p_handles m' !! fh = Some id).
  { intros r' (_ & _ & _ & _ & _ & _ & _ & _ & ->). done. }
  destruct r; cbn [pspec] in *; try (exact (Hmeta _ Hsp)); try (exact (Hst (proj1 Hsp)));
    try (by destruct Hsp as (b & _ & _ & (id' & _ & _ & _ & ->))).
  - destruct Hsp as (fh' & id' & _ & Hn & Hn' & _ & _ & ->). by rewrite lookup_insert_ne by congruence.
  - destruct (p_tree m p) as [[id' |] |]; [| apply Hst, Hsp ..]. destruct Hsp as (fh' & _ & Hn & _ & _ & ->).
    by rewrite lookup_insert_ne by congruence.
  - destruct Hsp as (_ & _ & _ & ->). by rewrite lookup_delete_ne by congruence.
Qed.
Lemma others_keep id fh s s' bytes : Segment.sto_reliable (W := W) -> others id fh s s' -> sound s ->
  p_handles (pabs s) !! fh = Some id -> p_files (pabs s) !! id = Some bytes ->
  sound s' /\ p_handles (pabs s') !! fh = Some id /\ p_files (pabs s') !! id = Some bytes.
Proof.
  intros Hrel. induction 1 as [| c r y s1 s2 s3 Hf Hk E Hno Hr _ IH | s1 s2 s3 Hm _ IH]; intros Hs Hh Hb; [done | |].
  - destruct (request_sound c r y s1 s2 Hrel Hs Hf Hk E) as [Hs2 Hsp].
    apply IH; [done | by eapply pspec_handle | by eapply pspec_file].
  - destruct (meanwhile_sound s1 s2 Hs Hm) as [Hs2 Hp]. apply IH; [done | by rewrite Hp | by rewrite Hp].
Qed.

(** The bytes a write puts at an offset are there. *)
Lemma read_of_write bytes off d : 0 <= off -> d <> [] ->
  NvmlSpec.posix_read (NvmlSpec.posix_write bytes off d) off (Z.of_nat (length d)) = d.
Proof.
  intros Ho Hd. unfold NvmlSpec.posix_read, NvmlSpec.posix_write.
  rewrite drop_app_length'; [by rewrite take_app_length' by lia |].
  rewrite length_take, length_app, length_replicate. lia.
Qed.
Lemma length_write bytes off d : 0 <= off -> d <> [] ->
  off + Z.of_nat (length d) <= Z.of_nat (length (NvmlSpec.posix_write bytes off d)).
Proof.
  intros Ho Hd. unfold NvmlSpec.posix_write. rewrite !length_app, length_take, length_app, length_replicate. lia.
Qed.

(** C9: What a client writes is what it reads: after a write through a handle (at an offset up to
    the end of file, from memory, with room in the storage), and any requests of [pkernel] that do
    not change the bytes of this file and do not release the handle, interleaved with steps of the
    rest of the process, the read of the same range through the handle returns exactly the bytes
    that the write was given, when its buffer can be allocated. *)
Theorem write_then_read (c1 c2 : clock) (l : list (freq * frep)) (s0 s1 s2 s3 : fsys) (fh id : positive)
    (v : FuseBuf.fuse_bufvec) (off : Z) (y : frep) :
  let d := payload (abs s1) (RWrite fh (Incoming v) off) in
  Segment.sto_reliable (W := W) -> mounted s0 -> NvmlSpec.stored (fs_data s0) -> serves l s0 s1 -> p_handles (pabs s1) !! fh = Some id ->
  fits (fs_backend s1) -> pkernel (abs s1) (RWrite fh (Incoming v) off) ->
  dispatch c1 (RWrite fh (Incoming v) off) s1 = Reply y s2 ->
  others id fh s2 s3 -> fits (fs_backend s3) -> memalign_ok (Z.of_nat (length d)) = true ->
  exists s4, dispatch c2 (RRead fh (Z.of_nat (length d)) off) s3 = Reply (Data 0 (Some (Outgoing d))) s4.
Proof.
  intros d Hrel Hm Hst Hr Hh Hf Hk E Hoth Hf3 Hmem. pose proof (serves_sound l s0 s1 Hrel Hr (mounted_sound s0 Hm Hst)) as Hs.
  destruct (request_sound c1 _ y s1 s2 Hrel Hs Hf Hk E) as [Hs2 (bytes & Hc & _ & (id' & Hh' & _ & Hb & Hh2))].
  assert (id' = id) as -> by congruence. fold d in Hb.
  assert (Hoff : 0 <= off /\ d <> [] /\ off + Z.of_nat (length d) < 2 ^ 63).
  { destruct Hk as (? & ? & _ & [= <-] & Hv & Ho & Hmax & _). subst d. cbn [payload]. rewrite length_fmap. split; [lia |].
    split; [| pose proof SS_small; unfold NvmlFile.OFF_MAX in Hmax; lia]. pose proof (ic_some _ _ Hv). by destruct (FuseBuf.remaining v). }
  destruct Hoff as (Ho & Hd & Hmax).
  destruct (others_keep id fh s2 s3 (NvmlSpec.posix_write bytes off d) Hrel Hoth Hs2) as (Hs3 & Hh3 & Hb3);
    [by rewrite Hh2 | by rewrite Hb, lookup_insert_eq |].
  pose proof (length_write bytes off d Ho Hd) as Hlen.
  assert (Hc3 : content (pabs s3) fh (NvmlSpec.posix_write bytes off d)) by (by exists id).
  destruct (dispatch_posix c2 (RRead fh (Z.of_nat (length d)) off) s3 Hrel Hs3 Hf3) as (y' & s4 & E4 & _ & Hsp).
  { exists (NvmlSpec.posix_write bytes off d). split_and!; try done; try lia. destruct d; [done | simpl; lia]. }
  destruct Hsp as (_ & bytes' & (id' & Hh4 & Hb4) & Hy). assert (id' = id) as -> by congruence.
  assert (bytes' = NvmlSpec.posix_write bytes off d) as -> by congruence. cbn zeta in Hy.
  rewrite (read_of_write bytes off d Ho Hd), Hmem in Hy. subst y'. eauto.
Qed.

End Nvml.

(** ** A concrete file system *)

(** The machine of [Segment], the lock manager of [RangeLock], segments of at most 128 MiB. *)
Definition vec_size (v : FuseBuf.fuse_bufvec) : Z := foldr (fun b n => FuseBuf.b_size b + n) 0 (FuseBuf.v_buf v).
Lemma vec_size_ok v : FuseBuf.vec_ok v -> FuseBuf.v_idx v = O -> FuseBuf.v_off v = 0 ->
  vec_size v = Z.of_nat (length (FuseBuf.remaining v)).
Proof.
  intros [Hs _] Hi Ho. unfold vec_size, FuseBuf.remaining. rewrite Hi, Ho, drop_0.
  assert (Hg : forall bs, (forall b, b ∈ bs -> 0 <= FuseBuf.b_size b) ->
    foldr (fun b n => FuseBuf.b_size b + n) 0 bs = Z.of_nat (length (mjoin (FuseBuf.buf_addrs <$> bs)))).
  { induction bs as [| b bs IH]; intros Hb; [done |]. rewrite fmap_cons. simpl mjoin. cbn [foldr].
    rewrite IH by (intros b' Hb'; apply Hb; by right). rewrite length_app. unfold FuseBuf.buf_addrs at 2.
    rewrite length_seqZ. pose proof (Hb b ltac:(left)). lia. }
  destruct (FuseBuf.v_buf v) as [| b bs]; [done |]. cbn [foldr]. rewrite Hg by (intros b' Hb'; apply Hs; by right).
  rewrite length_app, length_seqZ. pose proof (Hs b ltac:(left)). lia.
Qed.

#[local] Existing Instances RangeMutex.lock_manager_mutex Segment.machine_kernel Segment.machine_pmem Segment.nvml_storage
  Segment.nvml_laws NvmlFile.machine_fuse.
Abbreviation mach := Segment.machine.
Abbreviation cobj := (object (L := RangeMutex.locker)).
Definition no_file (p : string) (ino : Z) (t : entry_type) : option cobj := None.
Definition subdir_of (p : string) : string := "/pool" +:+ p.
#[local] Instance cfile : BackendFile cobj := nvml_backend_file subdir_of no_file.
#[local] Instance cdata : FileData (Segment.env mach) cobj buffer :=
  nvml_file_data (W := mach) 27 0 true NvmlSpec.can_alloc 0 vec_size.
Abbreviation cfs := (filesystem (Segment.env mach) cobj).
Abbreviation cserves := (serves (W := mach) (L := RangeMutex.locker) 27 0 true NvmlSpec.can_alloc 0 subdir_of vec_size no_file).
Abbreviation cothers := (others (W := mach) (L := RangeMutex.locker) 27 0 true NvmlSpec.can_alloc 0 subdir_of vec_size no_file).

Definition answered (r : request buffer) (s : cfs) : cfs := match dispatch clk r s with Reply _ s => s | _ => s end.
Definition fs0 : cfs :=
  Filesystem (default (Backend "" ∅ ∅ 0 ∅ 1%positive) (nvml_backend "/data/" 7)) ∅ ∅ 1%positive 0 NvmlSpec.env0.
Definition fs_a : cfs := answered (RCreate "/a" 420 1) fs0.
Definition fs_ab : cfs := answered (RCreate "/b" 420 1) fs_a.
Definition write_to (fh : positive) : request buffer := RWrite fh (Incoming (NvmlSpec.user_buf 4)) 0.
Definition fs_w : cfs := answered (write_to 1%positive) fs_ab.
(** New data in the buffer, and a write of it to the other file. *)
Definition fs_m : cfs := set_data (Segment.Env (FuseBuf.mem_put (Segment.e_mem (fs_data fs_w)) 1 [21; 22; 23; 24])
  (Segment.e_maps (fs_data fs_w)) (Segment.e_world (fs_data fs_w))) fs_w.
Definition fs_w2 : cfs := answered (write_to 2%positive) fs_m.

Lemma fs0_mounted : mounted fs0.
Proof. exists "/data/", 7. done. Qed.
Lemma path_b : path "/b".
Proof. apply (path_in "/" "b"); [constructor | done]. Qed.
Abbreviation creations := [(RCreate "/a" 420 1, Handle 0 (Some 1%positive)); (RCreate "/b" 420 1, Handle 0 (Some 2%positive))].
Lemma fs_ab_serves : cserves creations fs0 fs_ab.
Proof.
  apply (serves_request _ _ _ _ _ _ _ _ clk _ _ _ _ fs_a); [concrete_fits | | by vm_compute |].
  { split; [| exact I]. split; [apply path_a | split; [done | split; by vm_compute]]. }
  apply (serves_request _ _ _ _ _ _ _ _ clk _ _ _ _ fs_ab); [concrete_fits | | by vm_compute | constructor].
  split; [| exact I]. split; [apply path_b | split; [done | split; by vm_compute]].
Qed.
Lemma fs_ab_sound : sound fs_ab.
Proof. exact (serves_sound 27 ltac:(lia) 0 true NvmlSpec.can_alloc 0 subdir_of vec_size vec_size_ok no_file _ _ _
  NvmlSpec.machine_reliable fs_ab_serves (mounted_sound _ fs0_mounted I)). Qed.

(** The buffer is in memory of its own. *)
Lemma user_buf_ok (s : cfs) : sound s -> (1, 4) ∈ Segment.e_maps (fs_data s) ->
  map_Forall (fun _ o => map_Forall (fun _ x => 1 + 4 <= Segment.data x) (NvmlFile.f_heap (o_file o))) (b_heap (fs_backend s)) ->
  incoming_ok (abs s) (NvmlSpec.user_buf 4).
Proof.
  intros Hs Hin Hall. constructor; try done.
  - apply FuseBuf.vec_ok_of; reflexivity.
  - intros b ->%list_elem_of_singleton. reflexivity.
  - change (FuseBuf.remaining (NvmlSpec.user_buf 4)) with (seqZ 1 4). intros x Hx%elem_of_seqZ.
    by apply (foreign_below s 1 4).
Qed.
Lemma write_allowed (s : cfs) fh id : sound s -> (1, 4) ∈ Segment.e_maps (fs_data s) ->
  map_Forall (fun _ o => map_Forall (fun _ x => 1 + 4 <= Segment.data x) (NvmlFile.f_heap (o_file o))) (b_heap (fs_backend s)) ->
  p_handles (pabs s) !! fh = Some id -> is_Some (p_files (pabs s) !! id) ->
  pkernel 27 (abs s) (write_to fh).
Proof.
  intros Hs Hin Hall Hh [bytes Hf]. exists bytes, (NvmlSpec.user_buf 4). split; [by exists id |]. split; [done |].
  split; [by apply user_buf_ok |]. split; [lia |]. split; [by vm_compute | exact I].
Qed.
Lemma fs_ab_write : pkernel 27 (abs fs_ab) (write_to 1%positive).
Proof.
  apply (write_allowed fs_ab 1 1); [apply fs_ab_sound | by_evaluation | by_evaluation | by vm_compute | by_evaluation].
Qed.

Lemma nvml_fuse_posix_witness : exists y s', dispatch clk (write_to 1%positive) fs_ab = Reply y s' /\
  pspec NvmlSpec.can_alloc (pabs fs_ab) (write_to 1%positive) (payload (abs fs_ab) (write_to 1%positive)) y (pabs s').
Proof.
  refine (nvml_fuse_posix 27 ltac:(lia) 0 true NvmlSpec.can_alloc 0 subdir_of vec_size vec_size_ok no_file clk creations
    fs0 fs_ab (write_to 1%positive) _ _ _ _ _ _);
    [apply NvmlSpec.machine_reliable | apply fs0_mounted | exact I | apply fs_ab_serves | concrete_fits | apply fs_ab_write].
Defined.
Lemma nvml_fuse_well_formed_witness : inv fs_ab /\ NvmlStore.store_ok (nvml_files (abs fs_ab)) (fs_data fs_ab).
Proof.
  refine (nvml_fuse_well_formed 27 ltac:(lia) 0 true NvmlSpec.can_alloc 0 subdir_of vec_size vec_size_ok no_file creations
    fs0 fs_ab _ _ _ _);
    [apply NvmlSpec.machine_reliable | apply fs0_mounted | exact I | apply fs_ab_serves].
Defined.

Lemma fs_w_write : dispatch clk (write_to 1%positive) fs_ab = Reply (Code 4) fs_w.
Proof. by vm_compute. Qed.
Lemma fs_w_sound : sound fs_w.
Proof.
  refine (proj1 (request_sound 27 ltac:(lia) 0 true NvmlSpec.can_alloc 0 subdir_of vec_size vec_size_ok no_file clk
    (write_to 1%positive) (Code 4) fs_ab fs_w NvmlSpec.machine_reliable fs_ab_sound _ _ _));
    [concrete_fits | apply fs_ab_write | apply fs_w_write].
Qed.
Lemma fs_m_meanwhile : meanwhile fs_w fs_m.
Proof.
  apply refill; [apply fs_w_sound |]. apply (foreign_below fs_w 1 4); [apply fs_w_sound | by_evaluation | by_evaluation].
Qed.
Lemma fs_m_write : pkernel 27 (abs fs_m) (write_to 2%positive).
Proof.
  apply (write_allowed fs_m 2 2); [| by_evaluation | by_evaluation | by vm_compute | by_evaluation].
  by apply (meanwhile_sound fs_w fs_m fs_w_sound), fs_m_meanwhile.
Qed.
Lemma fs_w2_others : cothers 1%positive 1%positive fs_w fs_w2.
Proof.
  apply (others_meanwhile _ _ _ _ _ _ _ _ _ _ fs_w fs_m fs_w2); [apply fs_m_meanwhile |].
  apply (others_request _ _ _ _ _ _ _ _ _ _ clk (write_to 2%positive) (Code 4) fs_m fs_w2);
    [concrete_fits | apply fs_m_write | by vm_compute | by vm_compute | done | constructor].
Qed.

Lemma write_then_read_witness :
  exists s4, dispatch clk (RRead 1%positive 4 0) fs_w2 = Reply (Data 0 (Some (Outgoing [11; 12; 13; 14]))) s4.
Proof.
  refine (write_then_read 27 ltac:(lia) 0 true NvmlSpec.can_alloc 0 subdir_of vec_size vec_size_ok no_file clk clk creations
    fs0 fs_ab fs_w fs_w2 1%positive 1%positive (NvmlSpec.user_buf 4) 0 (Code 4) _ _ _ _ _ _ _ _ _ _ _);
    [apply NvmlSpec.machine_reliable | apply fs0_mounted | exact I | apply fs_ab_serves | by vm_compute | concrete_fits
    | apply fs_ab_write | apply fs_w_write | apply fs_w2_others | concrete_fits | by vm_compute].
Defined.

End NvmlFuse.
