(* ===== verification/NvmlUnload.v ===== *)
(** * Unloading: the files of a backend copied to the results directory

    [file::unload] (src/backends/nvram-nvml/file.cpp) copies a persistent file to an output
    file; [nvml_backend::unload] and [mkdir_p] (nvram-nvml.cpp) do so for every file of the name
    space, at the end of the daemon. The host's file system is the class [Results]: what is in
    a regular file, [mkdir], and an [ofstream] that is opened, written and closed. A path means
    the list of its components, so that repeated slashes do not matter. *)
From S2P Require Import Prelude Common RangeLock RangeMutex Mdds FuseBuf Segment NvmlFile NvmlSpec NvmlStore.
From S2P Require Import Errors Namespace NamespaceSpec NamespaceLoad Fuse FuseSpec NvmlFuse.
From Stdlib Require Import Ascii String.
From stdpp Require Import base list numbers option strings gmap sets.
Local Open Scope string_scope.
Local Open Scope Z_scope.
Local Open Scope list_scope.

Module NvmlUnload.
Import Namespace NamespaceSpec NamespaceLoad Fuse FuseSpec.
Import (coercions) NvmlSpec.

(** ** Paths of the host *)

Definition components (p : string) : list string := filter (fun c => c <> "") (split_slashes p).

Lemma split_slashes_cons p : exists h t, split_slashes p = h :: t.
Proof.
  induction p as [| c p (h & t & E)]; [by exists "", [] |]. cbn [split_slashes]. destruct (decide _); [eauto |]. rewrite E. eauto.
Qed.
Lemma components_slash p : components (String slash p) = components p.
Proof. unfold components. cbn [split_slashes]. rewrite decide_True by done. by rewrite filter_cons_False by auto. Qed.
Lemma split_slashes_app a p : split_slashes (a +:+ String slash p) = split_slashes a ++ split_slashes p.
Proof.
  induction a as [| c a IH]; [done |]. change (String c a +:+ String slash p) with (String c (a +:+ String slash p)).
  cbn [split_slashes]. rewrite IH. destruct (decide _); [done |]. by destruct (split_slashes_cons a) as (h & t & ->).
Qed.
Lemma components_join a p : components (a +:+ String slash p) = components a ++ components p.
Proof. unfold components. by rewrite split_slashes_app, filter_app. Qed.
Lemma ends_slash_inv d : ends_slash d = true -> exists a, d = a +:+ "/".
Proof.
  induction d as [| c d IH]; [done |]. destruct d as [| c2 d].
  - intros Hc%bool_decide_eq_true. subst c. by exists "".
  - intros Hd. destruct (IH Hd) as (a & E). exists (String c a). by rewrite E.
Qed.
(** Behind a slash, a path continues one. *)
Lemma components_app d p : ends_slash d = true -> components (d +:+ p) = components d ++ components p.
Proof.
  intros (a & ->)%ends_slash_inv. rewrite <- app_assoc_string. change ("/" +:+ p) with (String slash p).
  rewrite components_join. change (a +:+ "/") with (a +:+ String slash ""). rewrite components_join.
  by rewrite app_nil_r.
Qed.
(** The components of an absolute path are its names. *)
Lemma components_absolute ns : Forall name ns -> components (absolute ns) = ns.
Proof.
  intros Hn. unfold components. rewrite split_slashes_absolute by done. rewrite filter_cons_False by auto.
  induction Hn as [| n ns [Hne _] _ IH]; [done |]. by rewrite filter_cons_True, IH by done.
Qed.
Lemma dkey_absolute d : dkey d -> exists ns, Forall name ns /\ d = absolute ns +:+ "/".
Proof.
  induction 1 as [| d n _ (ns & Hns & ->) Hn]; [by exists [] |]. exists (ns ++ [n]).
  split; [by apply Forall_app; split; [| apply Forall_singleton] |]. rewrite absolute_snoc. by rewrite !app_assoc_string.
Qed.
(** Different files of the name space have different paths on the host. *)
Lemma file_key_components d n : dkey d -> name n -> exists ns, Forall name ns /\ d +:+ n = absolute ns /\ components (d +:+ n) = ns.
Proof.
  intros (ns & Hns & ->)%dkey_absolute Hn. exists (ns ++ [n]).
  assert (HF : Forall name (ns ++ [n])) by (by apply Forall_app; split; [| apply Forall_singleton]).
  assert (E : (absolute ns +:+ "/") +:+ n = absolute (ns ++ [n])) by (by rewrite absolute_snoc, app_assoc_string).
  split; [done |]. split; [done |]. rewrite E. by apply components_absolute.
Qed.

(** What is behind the last slash, and the components up to it. *)
Lemma rsplit_parts b : exists d n, rsplit b = (d, n) /\ b = d +:+ n /\ no_slash n = true /\ (d = "" \/ ends_slash d = true).
Proof.
  induction b as [| c b (d & n & E & Hb & Hn & Hd)]; [by exists "", ""; auto |]. cbn [rsplit]. rewrite E. destruct d as [| c' d].
  - destruct (decide (c = slash)) as [-> | Hc].
    + exists "/", n. split_and!; [done | by rewrite Hb | done | by right].
    + exists "", (String c n). split_and!; [done | by rewrite Hb | | by left]. cbn [no_slash]. by rewrite bool_decide_false, Hn.
  - exists (String c (String c' d)), n. split_and!; [done | by rewrite Hb | done |]. right. by destruct Hd.
Qed.
Lemma no_slash_app a b : no_slash (a +:+ b) = no_slash a && no_slash b.
Proof. induction a as [| c a IH]; [done |]. change (String c a +:+ b) with (String c (a +:+ b)). cbn [no_slash]. by rewrite IH, andb_assoc. Qed.
Lemma rsplit_push b : (rsplit (b +:+ "/")).1 = b +:+ "/".
Proof. rewrite <- (app_nil_string (b +:+ "/")) at 1. rewrite rsplit_app; [done | apply ends_slash_push | done]. Qed.
Lemma rsplit_char b c : c <> slash -> (rsplit (b +:+ String c "")).1 = (rsplit b).1.
Proof.
  intros Hc. destruct (rsplit_parts b) as (d & n & E & Hb & Hn & Hd). rewrite E, Hb, <- app_assoc_string.
  assert (Hnc : no_slash (n +:+ String c "") = true).
  { rewrite no_slash_app, Hn. cbn [no_slash]. by rewrite bool_decide_false. }
  destruct Hd as [-> | Hd]; [| by rewrite rsplit_app].
  change ("" +:+ (n +:+ String c "")) with (n +:+ String c ""). by rewrite rsplit_name.
Qed.
Lemma components_no_slash n : no_slash n = true -> components n = if decide (n = "") then [] else [n].
Proof.
  intros Hn. unfold components. pose proof (split_slashes_name n "" [] "" Hn eq_refl) as E. rewrite !app_nil_string in E. rewrite E.
  destruct (decide (n = "")) as [-> | Hne].
  - by rewrite filter_cons_False by auto.
  - by rewrite filter_cons_True.
Qed.
Lemma components_push b : components (b +:+ "/") = components b.
Proof. change (b +:+ "/") with (b +:+ String slash ""). rewrite components_join. apply app_nil_r. Qed.
Lemma components_rsplit b : components b = components (rsplit b).1 \/ exists c, components b = components (rsplit b).1 ++ [c].
Proof.
  destruct (rsplit_parts b) as (d & n & E & Hb & Hn & Hd). rewrite E. cbn [fst].
  assert (Hc : components b = components d ++ components n).
  { rewrite Hb. destruct Hd as [-> | Hd]; [| by apply components_app]. by rewrite (components_no_slash "" eq_refl). }
  rewrite Hc, (components_no_slash n) by done. destruct (decide (n = "")); [left; apply app_nil_r | eauto].
Qed.

(** The directory and the file that a key of the name space is copied to. *)
Lemma rfind_slash a n : no_slash n = true -> rfind_string "/" (a +:+ "/" +:+ n) = Some (String.length a).
Proof.
  intros Hn. assert (Hno : rfind_string "/" n = None).
  { clear -Hn. induction n as [| c n IH]; [done |]. cbn [no_slash] in Hn. apply andb_prop in Hn as [Hc Hn].
    cbn [rfind_string]. rewrite IH by done. apply negb_true_iff, bool_decide_eq_false in Hc.
    cbn [String.prefix]. unfold slash in Hc. destruct (Ascii.ascii_dec "/" c); congruence. }
  induction a as [| c a IH].
  - change ("" +:+ "/" +:+ n) with (String slash n). cbn [rfind_string]. rewrite Hno. by destruct n.
  - change (String c a +:+ "/" +:+ n) with (String c (a +:+ "/" +:+ n)). cbn [rfind_string]. by rewrite IH.
Qed.
Lemma before_last_absolute ns n : no_slash n = true -> before_last "/" (absolute (ns ++ [n])) = absolute ns.
Proof. intros Hn. unfold before_last. rewrite absolute_snoc, rfind_slash by done. apply substring_app. Qed.
Lemma tail_absolute ns : ns <> [] -> exists t, absolute ns = String slash t /\
  String.substring 1 (String.length (absolute ns) - 1) (absolute ns) = t.
Proof.
  destruct ns as [| n ns]; [done |]. intros _. exists (n +:+ absolute ns). split; [done |].
  cbn [absolute foldr]. fold (absolute ns). change ("/" +:+ n +:+ absolute ns) with (String slash (n +:+ absolute ns)).
  cbn [String.length String.substring]. rewrite Nat.sub_1_r. cbn [Nat.pred]. apply substring_all.
Qed.
Lemma components_target dir ns n : ends_slash dir = true -> Forall name (ns ++ [n]) ->
  let key := absolute (ns ++ [n]) in
  components (dir +:+ before_last "/" key) = components dir ++ ns /\
  components (dir +:+ String.substring 1 (String.length key - 1) key) = components dir ++ ns ++ [n].
Proof.
  intros Hd HF key. apply Forall_app in HF as HF'. destruct HF' as [HF1 [[_ Hn] _]%Forall_cons]. split.
  - unfold key. by rewrite before_last_absolute, components_app, components_absolute.
  - destruct (tail_absolute (ns ++ [n])) as (t & E & Ht); [by destruct ns |]. unfold key. rewrite Ht, components_app by done.
    f_equal. by rewrite <- (components_slash t), <- E, components_absolute.
Qed.

(** ** The operations *)

Definition PATH_MAX : Z := 4096.

(** [out_file w p] is what a program finds in the regular file at [p]; [sys_mkdir] returns zero
    or [errno]; [ofstream w name bytes] is the world after a stream for [name] was opened,
    written and closed, whatever came of it. *)
Class Results (W : Type) := {
  out_file : W -> list string -> option (list Z);
  sys_mkdir : W -> string -> Z * W;
  ofstream : W -> string -> list Z -> W }.

(** What is documented of them, as far as the host is in order ([host_ok]: permissions, space,
    no links or dots in the paths): [mkdir] makes a directory where its parent is one and no
    regular file is in the way, an output stream replaces or creates one regular file, and
    neither touches the pools. [out_dir w p]: there is a directory at [p]. *)
Class ResultsLaws (W : Type) `{Results W} `{SL : Segment.StorageLaws W} := {
  out_dir : W -> list string -> Prop;
  host_ok : W -> Prop;
  dir_root w : host_ok w -> out_dir w [];
  dir_parent w l c : host_ok w -> out_dir w (l ++ [c]) -> out_dir w l;
  mkdir_law w p : host_ok w -> p <> "" -> (forall l c, components p = l ++ [c] -> out_dir w l) -> out_file w (components p) = None ->
    exists r w', sys_mkdir w p = (r, w') /\ (r = 0 \/ r = EEXIST) /\ host_ok w' /\
      (forall q, out_dir w' q <-> out_dir w q \/ q = components p) /\ (forall q, out_file w' q = out_file w q) /\
      forall maps, Segment.sto_ok maps w -> Segment.sto_ok maps w';
  ofstream_law w p l c bytes : host_ok w -> components p = l ++ [c] -> out_dir w l -> ~ out_dir w (l ++ [c]) ->
    let w' := ofstream w p bytes in
    host_ok w' /\ (forall q, out_dir w' q <-> out_dir w q) /\
    (forall q, out_file w' q = if decide (q = l ++ [c]) then Some bytes else out_file w q) /\
    forall maps, Segment.sto_ok maps w -> Segment.sto_ok maps w' }.

Section Unload.
Context {W L : Type} `{KN : FuseBuf.Kernel W} `{SR : Segment.Sources W} `{ST : Segment.Storage W} `{SL : !Segment.StorageLaws W}.
Context `{RM : RangeMutex.RangeMutex L} `{RS : Results W}.
Variable J : Z.
Hypothesis J_range : 12 <= J <= 60.
Abbreviation SS := (2 ^ J).
Abbreviation env := (Segment.env W).
Abbreviation object := (NvmlFuse.object (L := L)).
Abbreviation file := (NvmlFile.file L).

(** [mkdir_p]: a directory for every prefix that ends before a slash, then for the path. The
    loop starts at the second character, so an empty path is read behind its end. *)
Definition try_mkdir (p : string) (w : W) : bool * W :=
  let '(r, w) := sys_mkdir w p in ((r =? 0) || (r =? EEXIST), w).
Fixpoint mkdir_loop (before rest : string) (w : W) : bool * W :=
  match rest with
  | "" => (true, w)
  | String c rest =>
      if decide (c = slash) then
        let '(ok, w) := try_mkdir before w in
        if ok then mkdir_loop (before +:+ "/") rest w else (false, w)
      else mkdir_loop (before +:+ String c "") rest w
  end.
Definition mkdir_p (p : string) (w : W) : option (Z * W) :=
  if PATH_MAX - 1 <? Z.of_nat (String.length p) then Some (-1, w)
  else
    match p with
    | "" => None
    | String c rest =>
        let '(ok, w) := mkdir_loop (String c "") rest w in
        if negb ok then Some (-1, w)
        else let '(ok, w) := try_mkdir p w in Some (if ok then 0 else -1, w)
    end.

(** [file::unload(name)] *)
Definition unload_to (name : string) : NvmlFile.M (W := W) (L := L) Z :=
  NvmlFile.bind (NvmlFile.unload SS) (fun r =>
  NvmlFile.bind (if r.1 =? 0 then NvmlFile.lift (Segment.on_world (fun w => (tt, ofstream w name r.2)))
                 else NvmlFile.ret tt) (fun _ => NvmlFile.ret r.1)).

(** [nvml_backend::unload(pathname)]: [entries] is the table of files, in the order in which it
    is traversed. The objects and the environment are the state. *)
Fixpoint unload_all (pathname : string) (entries : list (string * positive)) (h : gmap positive object) (e : env)
    : option ((Segment.exn + Errors.error_code) * (gmap positive object * env)) :=
  match entries with
  | [] => Some (inr Errors.success, (h, e))
  | (key, id) :: entries =>
      '(error, w) ← mkdir_p (pathname +:+ before_last "/" key) (Segment.e_world e);
      let e := Segment.Env (Segment.e_mem e) (Segment.e_maps e) w in
      if error <? 0 then Some (inr Errors.internal_error, (h, e))
      else
        o ← h !! id;
        match unload_to (pathname +:+ String.substring 1 (String.length key - 1) key) (NvmlFuse.o_file o, e) with
        | Some (inr _, (f, e)) => unload_all pathname entries (<[id := NvmlFuse.Object f (NvmlFuse.o_attr o)]> h) e
        | Some (inl x, (f, e)) => Some (inl x, (<[id := NvmlFuse.Object f (NvmlFuse.o_attr o)]> h, e))
        | None => None
        end
  end.

(** ** One file *)

Lemma unload_regions_ok m rg : Forall (fun r => 0 < NvmlFile.r_address r /\ 0 <= NvmlFile.r_size r) rg ->
  NvmlFile.unload_regions m rg = Some (FuseBuf.mem_get m <$> mjoin (NvmlSpec.region_addrs <$> rg)).
Proof.
  induction 1 as [| r rg [Hr _] _ IH]; [done |]. cbn [NvmlFile.unload_regions]. rewrite (proj2 (Z.eqb_neq _ _)), IH by lia.
  rewrite fmap_cons. simpl mjoin. by rewrite fmap_app.
Qed.

(** The bytes that [unload] copies are the contents of a persistent file. *)
Lemma unload_ok (f : file) (e : env) : NvmlSpec.at_rest f e -> exists f',
  NvmlFile.unload SS (f, e) = Some (inr (match NvmlFile.m_type f with NvmlFile.temporary => (-1, []) | NvmlFile.persistent => (0, NvmlSpec.contents f e) end), (f', e)) /\
  NvmlSpec.same_file f f' e e /\ RangeMutex.lk_idle (NvmlFile.m_range_mutex f') /\ NvmlFile.m_type f' = NvmlFile.m_type f.
Proof.
  intros [Hf Hi]. unfold NvmlFile.unload. rewrite NvmlSpec.bind_get. destruct (NvmlFile.m_type f) eqn:Et.
  { exists f. split; [done |]. split; [apply NvmlSpec.same_refl | done]. }
  rewrite (NvmlSpec.fo_size _ _ Hf). set (n := NvmlFile.m_used_offset f).
  pose proof (NvmlSpec.fo_used _ _ Hf) as Hu. pose proof (NvmlSpec.fo_alloc _ _ Hf) as Ha. unfold NvmlFile.OFF_MAX in Ha.
  destruct (NvmlSpec.lock_range_ok f e 0 n NvmlFile.op_read Hi) as (h & l & Hlk & Hunlk).
  rewrite (NvmlSpec.bind_ok _ _ _ _ _ Hlk). set (f2 := NvmlFile.set_mutex l f).
  assert (Hs2 : NvmlSpec.same_file f f2 e e) by apply NvmlSpec.same_mutex.
  assert (Hf2 : NvmlSpec.shaped f2 e) by (eapply NvmlSpec.same_shaped; [done | apply Hf]).
  assert (Hld : exists rg, NvmlFile.lookup_data SS 0 n [] (f2, e) = Some (inr rg, (f2, e)) /\
    Forall (fun r => 0 < NvmlFile.r_address r /\ 0 <= NvmlFile.r_size r) rg /\
    mjoin (NvmlSpec.region_addrs <$> rg) = NvmlSpec.addr_of f <$> seqZ 0 n).
  { destruct (Z.lt_ge_cases 0 n) as [Hpos | Hz].
    - destruct (NvmlSpec.lookup_data_ok J f2 e 0 n Hf2) as (rg & Hld & Hrg); [lia | apply Hu |]. exists rg.
      change (NvmlFile.m_used_offset f2) with n in Hrg. rewrite (proj2 (Z.ltb_lt 0 n)), Z.min_id in Hrg by done.
      split; [done |]. split; [apply Hrg |]. rewrite (NvmlSpec.rg_addrs _ _ _ _ Hrg), Z.sub_0_r. done.
    - assert (Hn : n = 0) by lia. rewrite Hn. exists []. split; [| done]. unfold NvmlFile.lookup_data. rewrite NvmlSpec.bind_get.
      rewrite NvmlSpec.asserts_ok by (first [done | lia]). change (NvmlFile.m_used_offset f2) with n. by rewrite Hn. }
  destruct Hld as (rg & Hld & Hrg & Haddr). rewrite (NvmlSpec.bind_ok _ _ _ _ _ Hld).
  destruct (Hunlk f2 e eq_refl) as (l' & Hun & Hi'). exists (NvmlFile.set_mutex l' f2).
  split; [| split; [eapply NvmlSpec.same_trans; [done | apply NvmlSpec.same_mutex] | done]].
  unfold NvmlFile.bind at 1. cbn [fst snd]. rewrite unload_regions_ok, Haddr by done.
  rewrite (NvmlSpec.bind_ok _ _ _ _ _ Hun). unfold NvmlFile.ret, NvmlSpec.contents. rewrite <- list_fmap_compose. done.
Qed.

(** ** The directories *)

Context `{RL : !ResultsLaws W}.

(** The world after directories were made: those of [p] and no others. *)
Record made (p : list string) (w w' : W) : Prop := {
  md_host : host_ok w';
  md_dir : forall q, out_dir w q -> out_dir w' q;
  md_only : forall q, out_dir w' q -> out_dir w q \/ q `prefix_of` p;
  md_file : forall q, out_file w' q = out_file w q;
  md_sto : forall maps, Segment.sto_ok maps w -> Segment.sto_ok maps w' }.

Lemma made_refl p w : host_ok w -> made p w w.
Proof. constructor; auto. Qed.
Lemma made_trans p w1 w2 w3 : made p w1 w2 -> made p w2 w3 -> made p w1 w3.
Proof.
  intros [A1 A2 A3 A4 A5] [B1 B2 B3 B4 B5]. constructor; auto.
  - intros q Hq. destruct (B3 q Hq); auto.
  - intros q. by rewrite B4.
Qed.

(** Everything up to the last slash of [b] is there. *)
Definition ready (w : W) (b : string) : Prop := b <> "" /\ out_dir w (components (rsplit b).1).

Lemma try_mkdir_ok p w b : host_ok w -> ready w b -> components b `prefix_of` p -> out_file w (components b) = None ->
  exists w', try_mkdir b w = (true, w') /\ made p w w' /\ out_dir w' (components b).
Proof.
  intros Hw [Hne Hr] Hp Hf. destruct (mkdir_law w b) as (r & w' & E & Hrv & H1 & H2 & H3 & H4); [done | done | | done |].
  { intros l c Hlc. destruct (components_rsplit b) as [Eb | (c' & Eb)].
    - rewrite <- Eb, Hlc in Hr. by eapply dir_parent.
    - rewrite Eb in Hlc. by apply app_inj_tail in Hlc as [<- _]. }
  exists w'. unfold try_mkdir. rewrite E. split_and!; [| | apply H2; by right].
  - destruct Hrv as [-> | ->]; [done |]. by rewrite orb_true_r.
  - constructor; [done | | | done | done]; intros q Hq; [apply H2; by left |]. apply H2 in Hq as [Hq | ->]; auto.
Qed.

Lemma mkdir_loop_ok p rest before w : host_ok w -> ready w before -> p = components (before +:+ rest) ->
  (forall q, q `prefix_of` p -> out_file w q = None) ->
  exists w', mkdir_loop before rest w = (true, w') /\ made p w w' /\ ready w' (before +:+ rest).
Proof.
  revert before w. induction rest as [| c rest IH]; intros before w Hw Hr Hp Hf; cbn [mkdir_loop].
  { exists w. rewrite app_nil_string. split; [done |]. split; [by apply made_refl | done]. }
  assert (Hsnoc : before +:+ String c rest = (before +:+ String c "") +:+ rest) by (by rewrite <- app_assoc_string).
  destruct (decide (c = slash)) as [-> | Hc].
  - assert (Hpre : components before `prefix_of` p).
    { rewrite Hp. change (before +:+ String slash rest) with (before +:+ String slash rest). rewrite components_join. by eexists. }
    destruct (try_mkdir_ok p w before Hw Hr Hpre) as (w1 & E & Hm & Hd); [by apply Hf |]. rewrite E.
    destruct (IH (before +:+ "/") w1) as (w2 & E2 & Hm2 & Hr2).
    + apply Hm.
    + split; [by destruct before |]. rewrite rsplit_push. by rewrite components_push.
    + rewrite Hp, Hsnoc. done.
    + intros q Hq. rewrite (md_file _ _ _ Hm). auto.
    + exists w2. rewrite E2. split; [done |]. split; [by eapply made_trans |]. by rewrite Hsnoc.
  - destruct (IH (before +:+ String c "") w) as (w2 & E2 & Hm2 & Hr2); [done | | by rewrite Hp, Hsnoc | done |].
    + destruct Hr as [Hb Hr]. split; [by destruct before |]. by rewrite rsplit_char.
    + exists w2. rewrite E2. split; [done |]. split; [done |]. by rewrite Hsnoc.
Qed.

(** [mkdir_p] makes the directory, and of others only those that lead to it. *)
Lemma mkdir_p_ok p w : host_ok w -> p <> "" -> Z.of_nat (String.length p) < PATH_MAX ->
  (forall q, q `prefix_of` components p -> out_file w q = None) ->
  exists w', mkdir_p p w = Some (0, w') /\ made (components p) w w' /\ out_dir w' (components p).
Proof.
  intros Hw Hne Hl Hf. unfold mkdir_p. rewrite (proj2 (Z.ltb_ge _ _)) by lia. destruct p as [| c rest]; [done |].
  destruct (mkdir_loop_ok (components (String c rest)) rest (String c "") w) as (w1 & E & Hm & Hr); [done | | done | done |].
  { split; [done |]. destruct (decide (c = slash)) as [-> | Hc].
    - change (out_dir w []). by apply dir_root.
    - cbn [rsplit]. rewrite decide_False by done. rewrite components_no_slash by done. by apply dir_root. }
  rewrite E. cbn [negb]. change (String c "" +:+ rest) with (String c rest) in Hr.
  destruct (try_mkdir_ok (components (String c rest)) w1 (String c rest)) as (w2 & E2 & Hm2 & Hd); [apply Hm | done | done | |].
  { rewrite (md_file _ _ _ Hm). by apply Hf. }
  rewrite E2. exists w2. split; [done |]. split; [by eapply made_trans | done].
Qed.

(** ** The files *)

Definition summary (h : gmap positive object) (e : env) : gmap positive (NvmlFile.file_type * attr * list Z) :=
  (fun o => (NvmlFile.m_type (NvmlFuse.o_file o), NvmlFuse.o_attr o, NvmlSpec.contents (NvmlFuse.o_file o) e)) <$> h.
Abbreviation files h := (NvmlFuse.o_file <$> h).

(** The file at [q] after the traversal: the bytes of a persistent file. *)
Definition saves (dir : string) (entries : list (string * positive)) (h : gmap positive object) (e : env)
    (q : list string) (bytes : list Z) : Prop :=
  exists key id a, (key, id) ∈ entries /\ q = components dir ++ components key /\
    summary h e !! id = Some (NvmlFile.persistent, a, bytes).
(** The files of the host before and after. *)
Definition copied (dir : string) (entries : list (string * positive)) (h : gmap positive object) (e : env) (w w' : W) : Prop :=
  (forall q bytes, saves dir entries h e q bytes -> out_file w' q = Some bytes) /\
  (forall q, (forall bytes, ~ saves dir entries h e q bytes) -> out_file w' q = out_file w q).

(** Keys that can be copied: they are paths of files, and no file is where a directory is
    needed, neither among the keys nor on the host. *)
Record keys_ok (dir : string) (keys : list string) : Prop := {
  ks_key : forall key, key ∈ keys -> exists ns n, key = absolute (ns ++ [n]) /\ Forall name (ns ++ [n]);
  ks_length : forall key, key ∈ keys -> Z.of_nat (String.length dir + String.length key) < PATH_MAX;
  ks_nodup : NoDup (components <$> keys);
  ks_tree : forall k p ns n, k ∈ keys -> p ∈ keys -> components p = ns ++ [n] -> ~ components k `prefix_of` ns }.
Definition clear (w : W) (dir : string) (keys : list string) : Prop := forall key ns n,
  key ∈ keys -> components key = ns ++ [n] ->
  (forall q, q `prefix_of` components dir ++ ns -> out_file w q = None) /\ ~ out_dir w (components dir ++ ns ++ [n]).

Lemma keys_ok_cons dir k keys : keys_ok dir (k :: keys) -> keys_ok dir keys.
Proof.
  intros [K1 K2 K3 K4]. constructor.
  - intros key Hk. apply K1. by right.
  - intros key Hk. apply K2. by right.
  - by apply NoDup_cons in K3 as [_ K3].
  - intros k' p ns n Hk Hp. apply K4; by right.
Qed.

(** The world after one file was copied to [l]. *)
Definition wrote (l : list string) (bytes : option (list Z)) (w w' : W) : Prop :=
  forall q, out_file w' q = match bytes with Some bs => if decide (q = l) then Some bs else out_file w q | None => out_file w q end.

Lemma clear_next w w1 w' dir k ns n keys bytes : keys_ok dir (k :: keys) -> components k = ns ++ [n] ->
  clear w dir (k :: keys) -> made (components dir ++ ns) w w1 -> (forall q, out_dir w' q <-> out_dir w1 q) ->
  wrote (components dir ++ ns ++ [n]) bytes w w' -> clear w' dir keys.
Proof.
  intros [_ _ _ K4] Hk Hc Hm Hd Hw key ms x Hkey Hx. destruct (Hc key ms x) as [C1 C2]; [by right | done |]. split.
  - intros q Hq. rewrite Hw. destruct bytes as [bs |]; [| by apply C1]. rewrite decide_False; [by apply C1 |]. intros ->.
    apply prefix_app_inv in Hq. rewrite <- Hk in Hq. apply (K4 k key ms x) in Hq; [done | by left | by right | done].
  - intros [HD | HP]%Hd%(md_only _ _ _ Hm); [done |]. apply prefix_app_inv in HP. rewrite <- Hx in HP.
    apply (K4 key k ns n) in HP; [done | by right | by left | done].
Qed.

(** One file. *)
Lemma unload_to_ok (f : file) (e : env) name : NvmlSpec.at_rest f e -> exists r f',
  unload_to name (f, e) = Some (inr r, (f', Segment.Env (Segment.e_mem e) (Segment.e_maps e)
    match NvmlFile.m_type f with NvmlFile.temporary => Segment.e_world e
    | NvmlFile.persistent => ofstream (Segment.e_world e) name (NvmlSpec.contents f e) end)) /\
  NvmlSpec.same_file f f' e e /\ RangeMutex.lk_idle (NvmlFile.m_range_mutex f') /\ NvmlFile.m_type f' = NvmlFile.m_type f.
Proof.
  intros Hr. destruct (unload_ok f e Hr) as (f' & E & Hs). unfold unload_to. rewrite (NvmlSpec.bind_ok _ _ _ _ _ E).
  destruct e as [m maps w]. destruct (NvmlFile.m_type f); do 2 eexists; (split; [reflexivity | done]).
Qed.

Lemma unload_object (h : gmap positive object) e id o f' w' : NvmlStore.store_ok (files h) e -> h !! id = Some o ->
  let e' := Segment.Env (Segment.e_mem e) (Segment.e_maps e) w' in
  let h' := <[id := NvmlFuse.Object f' (NvmlFuse.o_attr o)]> h in
  NvmlSpec.same_file (NvmlFuse.o_file o) f' e e -> RangeMutex.lk_idle (NvmlFile.m_range_mutex f') ->
  NvmlFile.m_type f' = NvmlFile.m_type (NvmlFuse.o_file o) -> NvmlSpec.stored e' ->
  NvmlStore.store_ok (files h') e' /\ summary h' e' = summary h e.
Proof.
  intros Hok Ho e' h' Hs Hi Ht Hst. assert (Hf : files h !! id = Some (NvmlFuse.o_file o)) by (by rewrite lookup_fmap, Ho).
  destruct (NvmlStore.so_rest _ _ Hok id _ Hf) as [Hfo _].
  destruct (NvmlStore.store_update (files h) e id (NvmlFuse.o_file o) f' e Hok Hf) as [Hok1 Hb1];
    [by apply NvmlSpec.same_frame | apply Hok | split; [by eapply NvmlSpec.same_file_ok | done] |].
  rewrite <- (fmap_insert NvmlFuse.o_file h id (NvmlFuse.Object f' (NvmlFuse.o_attr o))) in Hok1. fold h' in Hok1.
  destruct (NvmlStore.store_undisturbed _ e e' Hok1 Hst) as [Hok2 _].
  { intros i g Hg. constructor; [done |]. intros j x Hx. destruct (NvmlStore.so_rest _ _ Hok1 i g Hg) as [Hgo _].
    apply (NvmlSpec.fo_seg _ _ Hgo j x Hx). }
  split; [done |]. apply map_eq. intros i. unfold summary, h'. rewrite !lookup_fmap. destruct (decide (id = i)) as [<- | Hne].
  - rewrite lookup_insert_eq, Ho. simpl. rewrite Ht. do 2 f_equal. change (NvmlSpec.contents f' e = NvmlSpec.contents (NvmlFuse.o_file o) e).
    by apply NvmlSpec.same_contents.
  - rewrite lookup_insert_ne by done. by destruct (h !! i).
Qed.

Definition in_world (e : env) (w : W) : env := Segment.Env (Segment.e_mem e) (Segment.e_maps e) w.
Definition copy_of (f : file) (e : env) : option (list Z) :=
  match NvmlFile.m_type f with NvmlFile.temporary => None | NvmlFile.persistent => Some (NvmlSpec.contents f e) end.

(** One turn of the loop. *)
Lemma unload_one dir key id keys (h : gmap positive object) e o : ends_slash dir = true ->
  keys_ok dir (key :: keys) -> host_ok (Segment.e_world e) -> clear (Segment.e_world e) dir (key :: keys) ->
  NvmlStore.store_ok (files h) e -> h !! id = Some o ->
  exists w1 r f' w', mkdir_p (dir +:+ before_last "/" key) (Segment.e_world e) = Some (0, w1) /\
    unload_to (dir +:+ String.substring 1 (String.length key - 1) key) (NvmlFuse.o_file o, in_world e w1) = Some (inr r, (f', in_world e w')) /\
    host_ok w' /\ clear w' dir keys /\ wrote (components dir ++ components key) (copy_of (NvmlFuse.o_file o) e) (Segment.e_world e) w' /\
    NvmlStore.store_ok (files (<[id := NvmlFuse.Object f' (NvmlFuse.o_attr o)]> h)) (in_world e w') /\
    summary (<[id := NvmlFuse.Object f' (NvmlFuse.o_attr o)]> h) (in_world e w') = summary h e.
Proof.
  intros Hd HK Hw Hc Hok Ho. destruct (ks_key _ _ HK key) as (ns & n & Ekey & HF); [by left |].
  destruct (components_target dir ns n Hd HF) as [Cd Cf]. rewrite <- Ekey in Cd, Cf.
  assert (Ck : components key = ns ++ [n]) by (rewrite Ekey; by apply components_absolute).
  destruct (Hc key ns n) as [C1 C2]; [by left | done |].
  destruct (mkdir_p_ok (dir +:+ before_last "/" key) (Segment.e_world e) Hw) as (w1 & Em & Hm & Hdir).
  { intros E. assert (dir = "") as -> by (by destruct dir). done. }
  { pose proof (ks_length _ _ HK key ltac:(by left)) as HL. apply Forall_app in HF as [_ [[_ Hn] _]%Forall_cons].
    rewrite Ekey, before_last_absolute, length_app_string by done. rewrite Ekey, absolute_snoc, !length_app_string in HL. lia. }
  { by rewrite Cd. }
  rewrite Cd in Hm, Hdir. assert (Hf : files h !! id = Some (NvmlFuse.o_file o)) by (by rewrite lookup_fmap, Ho).
  pose proof (NvmlStore.so_stored _ _ Hok) as Hst.
  destruct (NvmlStore.store_undisturbed (files h) e (in_world e w1) Hok) as [Hok1 _]; [by apply (md_sto _ _ _ Hm) | |].
  { intros i g Hg. constructor; [done |]. intros j x Hx. destruct (NvmlStore.so_rest _ _ Hok i g Hg) as [Hgo _].
    apply (NvmlSpec.fo_seg _ _ Hgo j x Hx). }
  destruct (unload_to_ok (NvmlFuse.o_file o) (in_world e w1) (dir +:+ String.substring 1 (String.length key - 1) key)
    (NvmlStore.so_rest _ _ Hok1 id _ Hf)) as (r & f' & E & Hs & Hi & Ht).
  set (w' := match NvmlFile.m_type (NvmlFuse.o_file o) with NvmlFile.temporary => _ | _ => _ end) in E.
  assert (Hw' : host_ok w' /\ (forall q, out_dir w' q <-> out_dir w1 q) /\
    wrote (components dir ++ components key) (copy_of (NvmlFuse.o_file o) e) (Segment.e_world e) w' /\
    forall maps, Segment.sto_ok maps w1 -> Segment.sto_ok maps w').
  { unfold w', copy_of. rewrite Ck. destruct (NvmlFile.m_type _).
    - split_and!; [apply Hm | done | intros q; apply (md_file _ _ _ Hm) | done].
    - destruct (ofstream_law w1 _ (components dir ++ ns) n (NvmlSpec.contents (NvmlFuse.o_file o) e) (md_host _ _ _ Hm)
        ltac:(by rewrite Cf, app_assoc) Hdir) as (O1 & O2 & O3 & O4).
      + intros [HD | HP]%(md_only _ _ _ Hm); [by rewrite <- app_assoc in HD |]. apply prefix_length in HP.
        rewrite length_app in HP. simpl in HP. lia.
      + split_and!; [done | done | | done]. intros q. cbn. rewrite O3, <- app_assoc. by rewrite (md_file _ _ _ Hm). }
  destruct Hw' as (H1 & H2 & H3 & H4). exists w1, r, f', w'. split; [done |]. split; [done |]. split; [done |].
  assert (Hst' : NvmlSpec.stored (in_world e w')) by (by apply H4, (md_sto _ _ _ Hm)).
  split; [rewrite Ck in H3; by eapply clear_next |]. split; [done |]. apply (unload_object h e id o f' w' Hok Ho); [by destruct Hs | done..].
Qed.

(** The loop. *)
Lemma saves_cons dir key id entries (h : gmap positive object) e o q bytes : h !! id = Some o ->
  saves dir ((key, id) :: entries) h e q bytes <->
  (q = components dir ++ components key /\ copy_of (NvmlFuse.o_file o) e = Some bytes) \/ saves dir entries h e q bytes.
Proof.
  intros Ho. assert (Hid : summary h e !! id = Some (NvmlFile.m_type (NvmlFuse.o_file o), NvmlFuse.o_attr o, NvmlSpec.contents (NvmlFuse.o_file o) e)).
  { unfold summary. by rewrite lookup_fmap, Ho. }
  unfold saves, copy_of. split.
  - intros (k & i & a & [[= -> ->] | Hin]%elem_of_cons & -> & E); [| right; eauto 6]. left. rewrite Hid in E. by injection E as -> <- <-.
  - intros [[-> E] | (k & i & a & Hin & -> & E)]; [| exists k, i, a; split; [by right | done]].
    destruct (NvmlFile.m_type (NvmlFuse.o_file o)) eqn:Et; [done |]. injection E as <-.
    exists key, id, (NvmlFuse.o_attr o). split; [by left | done].
Qed.

Lemma unload_all_ok dir entries (h : gmap positive object) e : ends_slash dir = true ->
  keys_ok dir entries.*1 -> host_ok (Segment.e_world e) -> clear (Segment.e_world e) dir entries.*1 ->
  NvmlStore.store_ok (files h) e -> (forall key id, (key, id) ∈ entries -> is_Some (h !! id)) ->
  exists h' e', unload_all dir entries h e = Some (inr Errors.success, (h', e')) /\
    NvmlStore.store_ok (files h') e' /\ summary h' e' = summary h e /\
    copied dir entries h e (Segment.e_world e) (Segment.e_world e').
Proof.
  intros Hd. revert h e. induction entries as [| [key id] entries IH]; intros h e HK Hw Hc Hok Hh; cbn [unload_all].
  { exists h, e. split_and!; [done | done | done |]. split; [| done]. by intros q bytes (? & ? & ? & []%not_elem_of_nil & _). }
  destruct (Hh key id) as [o Ho]; [by left |].
  destruct (unload_one dir key id entries.*1 h e o Hd HK Hw Hc Hok Ho) as (w1 & r & f' & w' & E1 & E2 & Hw' & Hc' & Hwr & Hok' & Hsum).
  rewrite E1. cbn [mbind option_bind]. change (Segment.Env (Segment.e_mem e) (Segment.e_maps e) w1) with (in_world e w1).
  rewrite (proj2 (Z.ltb_ge 0 0)), Ho by lia. cbn [mbind option_bind]. rewrite E2.
  destruct (IH (<[id := NvmlFuse.Object f' (NvmlFuse.o_attr o)]> h) (in_world e w')) as (h2 & e2 & E & Hok2 & Hsum2 & Hcp1 & Hcp2);
    [by eapply keys_ok_cons | done | done | done | |].
  { intros k i Hin. apply lookup_insert_is_Some'. right. apply (Hh k i). by right. }
  exists h2, e2. split; [done |]. split; [done |]. split; [by rewrite Hsum2 |].
  assert (Hsv : forall q bytes, saves dir entries (<[id := NvmlFuse.Object f' (NvmlFuse.o_attr o)]> h) (in_world e w') q bytes
    <-> saves dir entries h e q bytes) by (intros q bytes; unfold saves; by rewrite Hsum).
  assert (Hnot : forall bytes, ~ saves dir entries h e (components dir ++ components key) bytes).
  { intros bytes (k & i & a & Hin & Ek & _). apply app_inv_head in Ek.
    pose proof (ks_nodup _ _ HK) as Hnd. rewrite !fmap_cons in Hnd. apply NoDup_cons in Hnd as [Hnd _].
    cbn [fst] in Hnd. apply Hnd. rewrite Ek. apply list_elem_of_fmap_2, (list_elem_of_fmap_2 fst _ (k, i)), Hin. }
  split.
  - intros q bytes [[-> Hcp] | Hs]%(saves_cons _ _ _ _ _ _ _ _ _ Ho); [| by apply Hcp1, Hsv].
    rewrite Hcp2 by (intros bs; rewrite Hsv; apply Hnot). cbn [Segment.e_world in_world]. rewrite Hwr, Hcp. by rewrite decide_True.
  - intros q Hq. rewrite Hcp2 by (intros bs Hbs%Hsv; apply (Hq bs), (saves_cons _ _ _ _ _ _ _ _ _ Ho); by right).
    cbn [Segment.e_world in_world]. rewrite Hwr. destruct (copy_of _ e) as [bs |] eqn:Ecp; [| done].
    rewrite decide_False; [done |]. intros ->. apply (Hq bs), (saves_cons _ _ _ _ _ _ _ _ _ Ho). by left.
Qed.

End Unload.

(** ** The keys of the name space *)

Section Keys.
Context {filemap : gmap string positive} {names : listing} (HS : shape filemap names).

Lemma shape_dkey k ns : names !! k = Some ns -> dkey k.
Proof.
  remember (String.length k) as len eqn:El. revert k ns El. induction (lt_wf len) as [len _ IH]. intros k ns -> Hk.
  destruct (sh_dir _ _ HS k ns Hk) as [-> | (d & n & ns' & -> & Hn & Hd & _)]; [constructor |].
  constructor; [| done]. refine (IH _ _ d ns' eq_refl Hd). rewrite !length_app_string. simpl. lia.
Qed.
Lemma shape_file_key p id : filemap !! p = Some id -> exists ns n, p = absolute (ns ++ [n]) /\ Forall name (ns ++ [n]) /\
  is_Some (names !! (absolute ns +:+ "/")).
Proof.
  intros (d & n & l & -> & Hn & Hd & _)%(sh_file _ _ HS). destruct (dkey_absolute d (shape_dkey d l Hd)) as (ns & Hns & ->).
  exists ns, n. split; [by rewrite absolute_snoc, app_assoc_string |]. split; [by apply Forall_app; split; [| apply Forall_singleton] | eauto].
Qed.
(** What a path to a directory goes through is a directory. *)
Lemma shape_ancestor ms ns : ms `prefix_of` ns -> Forall name ns -> is_Some (names !! (absolute ns +:+ "/")) ->
  is_Some (names !! (absolute ms +:+ "/")).
Proof.
  intros [l ->]. induction l as [| x l IH] using rev_ind; [by rewrite app_nil_r |]. rewrite app_assoc. intros HF [v Hv].
  apply Forall_app in HF as HF'. destruct HF' as [HF1 _]. apply IH; [done |].
  destruct (sh_dir _ _ HS _ v Hv) as [E | (d & n & l' & E & Hn & Hd & _)].
  - apply (f_equal components) in E. rewrite components_push, components_absolute in E by done. by destruct (ms ++ l).
  - destruct (dkey_absolute d (shape_dkey d l' Hd)) as (ns & Hns & ->). apply (f_equal components) in E.
    rewrite app_assoc_string, !components_push, components_absolute in E by done.
    rewrite components_app, components_push, components_absolute, components_no_slash, decide_False in E; try done; try apply Hn; [| apply ends_slash_push].
    apply app_inj_tail in E as [-> _]. eauto.
Qed.
End Keys.

Lemma namespace_keys `{BackendFile F} (b : backend F) dir (entries : list (string * positive)) : wf b -> entries ≡ₚ map_to_list (m_files b) ->
  (forall key id, m_files b !! key = Some id -> Z.of_nat (String.length dir + String.length key) < PATH_MAX) ->
  keys_ok dir entries.*1 /\ forall key id, (key, id) ∈ entries -> is_Some (b_heap b !! id).
Proof.
  intros Hwf Hp Hl. pose proof (wf_shape b Hwf) as HS.
  assert (Hin : forall key id, (key, id) ∈ entries <-> m_files b !! key = Some id).
  { intros key id. rewrite Hp. apply elem_of_map_to_list. }
  assert (Hk : forall key, key ∈ entries.*1 -> exists id, m_files b !! key = Some id).
  { intros key ([k i] & -> & Hi%Hin)%list_elem_of_fmap_1. eauto. }
  split; [| intros key id Hi%Hin; by apply (wf_heap b Hwf key)]. constructor.
  - intros key (id & Hid)%Hk. destruct (shape_file_key HS key id Hid) as (ns & n & E & HF & _). eauto.
  - intros key (id & Hid)%Hk. eauto.
  - apply NoDup_fmap_2_strong; [| rewrite Hp; apply NoDup_fst_map_to_list].
    intros k1 k2 (i1 & H1)%Hk (i2 & H2)%Hk E. destruct (shape_file_key HS k1 i1 H1) as (ns1 & n1 & -> & HF1 & _).
    destruct (shape_file_key HS k2 i2 H2) as (ns2 & n2 & -> & HF2 & _). rewrite !components_absolute in E by done. by rewrite E.
  - intros k p ns n (i1 & H1)%Hk (i2 & H2)%Hk Hc Hpre. destruct (shape_file_key HS k i1 H1) as (ns1 & n1 & -> & HF1 & _).
    destruct (shape_file_key HS p i2 H2) as (ns2 & n2 & -> & HF2 & Hd). rewrite components_absolute in Hc, Hpre by done.
    apply app_inj_tail in Hc as [-> ->]. apply Forall_app in HF2 as [HF2 _].
    destruct (shape_ancestor HS _ _ Hpre HF2 Hd) as [v Hv]. rewrite (sh_excl _ _ HS _ (ex_intro _ i1 H1)) in Hv. done.
Qed.

(** ** The files of the mounted file system *)

Section Teardown.
Context {W L : Type} `{ST : Segment.Storage W} `{SL : !Segment.StorageLaws W} `{RM : RangeMutex.RangeMutex L}.
Context `{RS : Results W} `{RL : !ResultsLaws W} `{HO : Host}.
Variable J : Z.
Hypothesis J_range : 12 <= J <= 60.
Variable pool_subdir : string -> string.
Abbreviation object := (NvmlFuse.object (L := L)).
Variable loaded : string -> Z -> entry_type -> option object.
Abbreviation fsys := (filesystem (Segment.env W) object).
#[local] Instance unload_backend_file : BackendFile object := NvmlFuse.nvml_backend_file pool_subdir loaded.

(** A file made persistent: the state stays sound, and the bytes stay the same. *)
Lemma change_type_sound path t (s : fsys) b' : NvmlFuse.sound s -> do_change_type path t (fs_backend s) = Ret tt b' ->
  NvmlFuse.sound (set_backend b' s) /\ NvmlFuse.p_files (NvmlFuse.pabs (set_backend b' s)) = NvmlFuse.p_files (NvmlFuse.pabs s).
Proof.
  intros [Hi Hd]. unfold do_change_type. destruct (remove_root path (fs_backend s)) as [p |]; [| done].
  destruct (m_files (fs_backend s) !! p) as [id |] eqn:Ep; [| intros [= <-]; by rewrite set_backend_id].
  destruct (b_heap (fs_backend s) !! id) as [o |] eqn:Ho; [| done]. intros [= <-].
  destruct (NvmlStore.store_same (NvmlFuse.nvml_files (abs s))
    (NvmlFuse.o_file <$> <[id := NvmlFuse.o_change_type t o]> (b_heap (fs_backend s))) (fs_data s) Hd) as [Hd' Hb].
  - unfold NvmlFuse.nvml_files. rewrite !dom_fmap_L. apply dom_insert_lookup_L. eauto.
  - unfold NvmlFuse.nvml_files. intros i f Hf. rewrite lookup_fmap in Hf. rewrite lookup_fmap. destruct (decide (id = i)) as [<- | Hne].
    + rewrite lookup_insert_eq. simpl in Hf. rewrite Ho in Hf. injection Hf as <-. eexists. split; [reflexivity | done].
    + rewrite lookup_insert_ne by done. exists f. split; [done |]. split; [apply NvmlSpec.same_refl | done].
  - split; [split; [| done] |].
    + destruct Hi as [HW HL HP HN]. constructor; [by apply wf_set_heap; [| eauto] | done | | done].
      intros fh r Hr. apply lookup_insert_is_Some'. right. by apply (HP fh).
    + exact Hb.
Qed.

(** What [unload] copies. *)
Lemma unload_result (s : fsys) (dir : string) (entries : list (string * positive)) :
  NvmlFuse.sound s -> entries ≡ₚ map_to_list (m_files (fs_backend s)) -> ends_slash dir = true ->
  (forall key id, m_files (fs_backend s) !! key = Some id -> Z.of_nat (String.length dir + String.length key) < PATH_MAX) ->
  host_ok (Segment.e_world (fs_data s)) -> clear (Segment.e_world (fs_data s)) dir entries.*1 ->
  exists h e, unload_all J dir entries (b_heap (fs_backend s)) (fs_data s) = Some (inr Errors.success, (h, e)) /\
    NvmlStore.store_ok (NvmlFuse.o_file <$> h) e /\ summary h e = summary (b_heap (fs_backend s)) (fs_data s) /\
    (forall p id o, m_files (fs_backend s) !! p = Some id -> b_heap (fs_backend s) !! id = Some o ->
       out_file (Segment.e_world e) (components dir ++ components p) =
       match NvmlFile.m_type (NvmlFuse.o_file o) with
       | NvmlFile.persistent => Some (NvmlSpec.contents (NvmlFuse.o_file o) (fs_data s))
       | NvmlFile.temporary => out_file (Segment.e_world (fs_data s)) (components dir ++ components p)
       end) /\
    forall q, (forall p, is_Some (m_files (fs_backend s) !! p) -> q <> components dir ++ components p) ->
      out_file (Segment.e_world e) q = out_file (Segment.e_world (fs_data s)) q.
Proof.
  intros [Hi Hd] Hp Hdir Hlen Hw Hc. destruct (namespace_keys (fs_backend s) dir entries (inv_wf s Hi) Hp Hlen) as [HK Hh].
  destruct (unload_all_ok J dir entries (b_heap (fs_backend s)) (fs_data s) Hdir HK Hw Hc Hd Hh) as (h & e & E & Hok & Hsum & Hc1 & Hc2).
  assert (Hin : forall key id, (key, id) ∈ entries <-> m_files (fs_backend s) !! key = Some id).
  { intros key id. rewrite Hp. apply elem_of_map_to_list. }
  exists h, e. split; [done |]. split; [done |]. split; [done |]. split.
  - intros p id o Hf Ho. assert (Hsm : summary (b_heap (fs_backend s)) (fs_data s) !! id = Some
      (NvmlFile.m_type (NvmlFuse.o_file o), NvmlFuse.o_attr o, NvmlSpec.contents (NvmlFuse.o_file o) (fs_data s))).
    { unfold summary. by rewrite lookup_fmap, Ho. }
    destruct (NvmlFile.m_type (NvmlFuse.o_file o)) eqn:Et.
    + apply Hc2. intros bytes (k & i & a & Hk%Hin & Ek & Hs). apply app_inv_head in Ek.
      destruct (shape_file_key (wf_shape _ (inv_wf s Hi)) p id Hf) as (ns & n & -> & HF & _).
      destruct (shape_file_key (wf_shape _ (inv_wf s Hi)) k i Hk) as (ns' & n' & -> & HF' & _).
      rewrite !components_absolute in Ek by done. rewrite <- Ek in Hk. congruence.
    + apply Hc1. exists p, id, (NvmlFuse.o_attr o). split; [by apply Hin | done].
  - intros q Hq. apply Hc2. intros bytes (k & i & a & Hk%Hin & -> & _). apply (Hq k); eauto.
Qed.

(** The end of the daemon. From every sound state of the file system and into a results
    directory that has room for the tree, [unload] succeeds: at the path of every
    persistent file below the results directory the host has a file with exactly the bytes
    of the file, a temporary file is not copied, no other regular file of the host is
    touched, and the files themselves are as they were. *)
Theorem unload_complete (s : fsys) (dir : string) (entries : list (string * positive)) :
  NvmlFuse.sound s -> entries ≡ₚ map_to_list (m_files (fs_backend s)) -> ends_slash dir = true ->
  (forall key id, m_files (fs_backend s) !! key = Some id -> Z.of_nat (String.length dir + String.length key) < PATH_MAX) ->
  host_ok (Segment.e_world (fs_data s)) -> clear (Segment.e_world (fs_data s)) dir entries.*1 ->
  exists h e, unload_all J dir entries (b_heap (fs_backend s)) (fs_data s) = Some (inr Errors.success, (h, e)) /\
    NvmlStore.store_ok (NvmlFuse.o_file <$> h) e /\ summary h e = summary (b_heap (fs_backend s)) (fs_data s) /\
    (forall p id o, m_files (fs_backend s) !! p = Some id -> b_heap (fs_backend s) !! id = Some o ->
       out_file (Segment.e_world e) (components dir ++ components p) =
       match NvmlFile.m_type (NvmlFuse.o_file o) with
       | NvmlFile.persistent => Some (NvmlSpec.contents (NvmlFuse.o_file o) (fs_data s))
       | NvmlFile.temporary => out_file (Segment.e_world (fs_data s)) (components dir ++ components p)
       end) /\
    forall q, (forall p, is_Some (m_files (fs_backend s) !! p) -> q <> components dir ++ components p) ->
      out_file (Segment.e_world e) q = out_file (Segment.e_world (fs_data s)) q.
Proof. apply unload_result. Qed.

End Teardown.

(** ** A concrete host *)

#[local] Existing Instances RangeMutex.lock_manager_mutex Segment.machine_kernel Segment.machine_pmem Segment.nvml_storage
  Segment.nvml_laws NvmlFile.machine_fuse.
Abbreviation mach := Segment.machine.
Definition host_dir (w : mach) (q : list string) : Prop := q = [] \/ Segment.k_host w !! q = Some None.
#[export] Instance host_dir_dec w q : Decision (host_dir w q).
Proof. unfold host_dir. apply _. Defined.
Definition host_put (q : list string) (x : option (list Z)) (w : mach) : mach :=
  Segment.Machine (Segment.k_next w) (Segment.k_reads w) (Segment.k_stat w) (<[q := x]> (Segment.k_host w)).
#[export] Instance machine_results : Results mach := {|
  out_file w q := mjoin (Segment.k_host w !! q);
  sys_mkdir w p :=
    let q := components p in
    if decide (q = [] \/ is_Some (Segment.k_host w !! q)) then (EEXIST, w)
    else if decide (host_dir w (removelast q)) then (0, host_put q None w) else (2, w);
  ofstream w p bytes :=
    let q := components p in
    if decide (host_dir w (removelast q) /\ ~ host_dir w q) then host_put q (Some bytes) w else w |}.

Lemma host_dir_put w q x p : q <> [] -> host_dir (host_put q x w) p <-> if decide (p = q) then x = None else host_dir w p.
Proof.
  intros Hq. unfold host_dir, host_put. cbn [Segment.k_host]. destruct (decide (p = q)) as [-> | Hne].
  - rewrite lookup_insert_eq. split; [intros [? | ?]; congruence | intros ->; auto].
  - by rewrite lookup_insert_ne.
Qed.
Lemma host_file_put w q x p : out_file (host_put q x w) p = if decide (p = q) then x else out_file w p.
Proof.
  unfold out_file. cbn. destruct (decide (p = q)) as [-> | Hne]; [by rewrite lookup_insert_eq | by rewrite lookup_insert_ne].
Qed.
#[export] Instance machine_results_laws : ResultsLaws mach.
Proof.
  refine {| out_dir := host_dir; host_ok w := forall l c, host_dir w (l ++ [c]) -> host_dir w l |}.
  - by left.
  - eauto.
  - intros w p Hw Hne Hpar Hf. cbn [sys_mkdir machine_results]. set (q := components p) in *.
    destruct (decide (q = [] \/ is_Some (Segment.k_host w !! q))) as [Hex | Hnew].
    + exists EEXIST, w. split_and!; [done | by right | done | | done | done]. intros q'. split; [by left |]. intros [Hq' | ->]; [done |].
      destruct Hex as [-> | [[bs |] Hx]]; [by left | | by right]. cbn in Hf. by rewrite Hx in Hf.
    + destruct q as [| c l _] eqn:Eq using rev_ind; [exfalso; auto |]. rewrite removelast_last.
      rewrite decide_True by (by eapply Hpar). exists 0, (host_put (l ++ [c]) None w).
      assert (Hnn : l ++ [c] <> []) by (by destruct l).
      split_and!; [done | by left | | | | done].
      * intros l' c'. rewrite !host_dir_put by done. destruct (decide (l' = l ++ [c])); [done |].
        destruct (decide (l' ++ [c'] = l ++ [c])) as [E | _]; [| apply Hw]. apply app_inj_tail in E as [-> _]. intros _. by eapply Hpar.
      * intros q'. rewrite host_dir_put by done. destruct (decide (q' = l ++ [c])); naive_solver.
      * intros q'. rewrite host_file_put. destruct (decide (q' = l ++ [c])) as [-> |]; [by rewrite Hf | done].
  - intros w p l c bytes Hw Hc Hl Hn. cbn [ofstream machine_results]. rewrite Hc, removelast_last, decide_True by done.
    assert (Hnn : l ++ [c] <> []) by (by destruct l).
    assert (Hsame : forall q, host_dir (host_put (l ++ [c]) (Some bytes) w) q <-> host_dir w q).
    { intros q. rewrite host_dir_put by done. destruct (decide (q = l ++ [c])) as [-> |]; [split; [discriminate | done] | done]. }
    split_and!; [| done | | done].
    + intros l' c'. rewrite !Hsame. apply Hw.
    + intros q. by rewrite host_file_put.
Defined.

(** The file system of [NvmlFuse] after the first write, with [/a] made persistent. *)
#[local] Instance cfile : BackendFile NvmlFuse.cobj := NvmlFuse.nvml_backend_file NvmlFuse.subdir_of NvmlFuse.no_file.
Definition changed (b : backend NvmlFuse.cobj) : backend NvmlFuse.cobj :=
  match do_change_type "/data/a" persistent b with Ret _ b => b | _ => b end.
Definition fs_p : NvmlFuse.cfs := set_backend (changed (fs_backend NvmlFuse.fs_w)) NvmlFuse.fs_w.
Definition two_files : list (string * positive) := [("/a", 1%positive); ("/b", 2%positive)].

Lemma fs_p_sound : NvmlFuse.sound fs_p.
Proof.
  refine (proj1 (change_type_sound NvmlFuse.subdir_of NvmlFuse.no_file "/data/a" persistent NvmlFuse.fs_w _ NvmlFuse.fs_w_sound _)).
  by vm_compute.
Qed.
Lemma two_files_all : two_files ≡ₚ map_to_list (m_files (fs_backend fs_p)).
Proof. assert (E : map_to_list (m_files (fs_backend fs_p)) = two_files) by (by vm_compute). by rewrite E. Qed.

(** Nothing is in the way on an empty host. *)
Lemma empty_file w q : Segment.k_host w = ∅ -> out_file w q = None.
Proof. intros Hw. cbn. by rewrite Hw, lookup_empty. Qed.
Lemma empty_host w dir keys : Segment.k_host w = ∅ -> host_ok w /\ clear w dir keys.
Proof.
  intros Hw. assert (Hd : forall q, host_dir w q -> q = []).
  { intros q [-> | Hq]; [done |]. by rewrite Hw, lookup_empty in Hq. }
  split; [intros l c Hlc%Hd; by destruct l |]. intros key ns n _ _. split.
  - intros q _. by apply empty_file.
  - intros Hq%Hd. by destruct (components dir), ns.
Qed.
Lemma fs_p_host : Segment.k_host (Segment.e_world (fs_data fs_p)) = ∅.
Proof. by vm_compute. Qed.
Definition copy_at (id : positive) : option (option (list Z)) :=
  (fun o : NvmlFuse.cobj => copy_of (NvmlFuse.o_file o) (fs_data fs_p)) <$> b_heap (fs_backend fs_p) !! id.
Lemma fs_p_copies : copy_at 1%positive = Some (Some [11; 12; 13; 14]) /\ copy_at 2%positive = Some None.
Proof. split; by vm_compute. Qed.

Lemma unload_complete_witness : exists h e,
  unload_all 27 "out/" two_files (b_heap (fs_backend fs_p)) (fs_data fs_p) = Some (inr Errors.success, (h, e)) /\
  out_file (Segment.e_world e) ["out"; "a"] = Some [11; 12; 13; 14] /\ out_file (Segment.e_world e) ["out"; "b"] = None.
Proof.
  destruct (unload_complete 27 NvmlFuse.subdir_of NvmlFuse.no_file fs_p "out/" two_files fs_p_sound two_files_all eq_refl)
    as (h & e & E & _ & _ & Hcp & _).
  - intros key id Hk. assert (Hin : (key, id) ∈ two_files) by (rewrite two_files_all; by apply elem_of_map_to_list).
    clear Hk. apply elem_of_cons in Hin as [[= -> ->] | [[= -> ->] | []%not_elem_of_nil]%elem_of_cons]; by vm_compute.
  - apply (empty_host _ "out/" two_files.*1 fs_p_host).
  - apply (empty_host _ "out/" two_files.*1 fs_p_host).
  - exists h, e. split; [exact E |]. split.
    + destruct (proj1 (fmap_Some _ _ _) (proj1 fs_p_copies)) as (o & Ho & Hv).
      refine (eq_trans (Hcp "/a" 1%positive o eq_refl Ho) _). unfold copy_of in Hv. by destruct (NvmlFile.m_type _).
    + destruct (proj1 (fmap_Some _ _ _) (proj2 fs_p_copies)) as (o & Ho & Hv).
      refine (eq_trans (Hcp "/b" 2%positive o eq_refl Ho) _). unfold copy_of in Hv.
      destruct (NvmlFile.m_type _); [exact (empty_file _ _ fs_p_host) | discriminate].
Defined.

(** ** What the conditions exclude *)

Definition unloaded (dir : string) (host : gmap (list string) (option (list Z))) : option (gmap (list string) (option (list Z))) :=
  let e := fs_data fs_p in
  let w := Segment.e_world e in
  match unload_all 27 dir two_files (b_heap (fs_backend fs_p))
    (in_world e (Segment.Machine (Segment.k_next w) (Segment.k_reads w) (Segment.k_stat w) host)) with
  | Some (inr Errors.success, (_, e)) => Some (Segment.k_host (Segment.e_world e))
  | _ => None
  end.

(** Without a slash at its end, as in the default [none], the results directory stays empty: the
    name of a file is appended to the name of the directory, and the copy is beside it. *)
Theorem unload_beside : unloaded "none" ∅ = Some {[ ["none"] := None; ["nonea"] := Some [11; 12; 13; 14] ]}.
Proof. by vm_compute. Qed.

(** A regular file in the place of the results directory: [mkdir] fails with [EEXIST], which is
    accepted, the stream is not open, which is not looked at, and [unload] reports success
    although nothing was copied. *)
Theorem unload_nowhere : unloaded "out/" {[ ["out"] := Some [1] ]} = Some {[ ["out"] := Some [1] ]}.
Proof. by vm_compute. Qed.

End NvmlUnload.
