(* ===== verification/Lifecycle.v ===== *)
(** * From the source files to the results directory

    The daemon imports files from the host, serves the requests of the kernel, changes the type
    of files on request, and copies the persistent files to the results directory at its end.
    Here [nvml_backend::load] runs with the contents of the files: the constructor of a file
    reads its source ([NvmlFile.file_new]) in the environment that all files share, and the
    tables of the name space get the object. Imports, changes of type and the deaths of objects
    to which nothing refers any more are steps between the requests; the invariant of [NvmlFuse]
    and its refinement hold in every state that such steps reach. *)
From S2P Require Import Prelude Common RangeLock RangeMutex Mdds FuseBuf Segment NvmlFile NvmlSpec NvmlStore.
From S2P Require Import NvmlDestroy Errors Namespace NamespaceSpec NamespaceLoad Fuse FuseSpec NvmlFuse NvmlUnload.
From Stdlib Require Import Ascii String.
From stdpp Require Import base list numbers option strings gmap sets.
Local Open Scope string_scope.
Local Open Scope Z_scope.
Local Open Scope list_scope.

Module Lifecycle.
Import Namespace NamespaceSpec NamespaceLoad Fuse FuseSpec NvmlFuse NvmlUnload.
Import (coercions) NvmlSpec.

Section Life.
Context {W L : Type} `{KN : FuseBuf.Kernel W} `{SR : Segment.Sources W} `{ST : Segment.Storage W} `{SL : !Segment.StorageLaws W}.
Context `{RM : RangeMutex.RangeMutex L} `{FL : !NvmlFile.FuseLib W} `{HO : Host} `{RS : Results W} `{RL : !ResultsLaws W}.
Variable J : Z.
Hypothesis J_range : 12 <= J <= 60.
Abbreviation SS := (2 ^ J).
Variable local_buf : Z.
Variable have_splice : bool.
Variable memalign_ok : Z -> bool.
Variable now : Z.
Variable pool_subdir : string -> string.
Variable bufvec_size : FuseBuf.fuse_bufvec -> Z.
Hypothesis bufvec_size_ok : forall v, FuseBuf.vec_ok v -> FuseBuf.v_idx v = O -> FuseBuf.v_off v = 0 ->
  bufvec_size v = Z.of_nat (length (FuseBuf.remaining v)).
Abbreviation object := (NvmlFuse.object (L := L)).
Abbreviation fsys := (filesystem (Segment.env W) object).
Abbreviation freq := (request buffer).

(** No handler constructs a file from a source. *)
Definition no_source (p : string) (ino : Z) (t : entry_type) : option object := None.
#[local] Instance life_file : BackendFile object := nvml_backend_file pool_subdir no_source.
#[local] Instance life_data : FileData (Segment.env W) object buffer :=
  nvml_file_data J local_buf have_splice memalign_ok now bufvec_size.
Abbreviation pkernel := (NvmlFuse.pkernel (W := W) (L := L) J).

(** ** Importing *)

Definition file_type_of (t : entry_type) : NvmlFile.file_type :=
  match t with temporary => NvmlFile.temporary | persistent => NvmlFile.persistent end.
(** Whether [load] comes to the constructor. *)
Definition constructs (pathname : string) (b : backend object) : bool :=
  h_exists pathname && match remove_root pathname b with Some p => bool_decide (m_files b !! p = None) | None => false end.

(** The attributes of the object are those of the source, with the new inode. *)
Definition source_object (pathname : string) (f : option (NvmlFile.file L)) (p : string) (ino : Z) (t : entry_type) : option object :=
  (fun f => Object f (set_ino ino (default zero_attr (h_stat pathname)))) <$> f.
Definition load_with (k : clock) (pathname : string) (t : entry_type) (f : option (NvmlFile.file L)) (e : Segment.env W) (s : fsys)
    : option ((unit + Errors.error_code) * fsys) :=
  match load_one (H := nvml_backend_file pool_subdir (source_object pathname f)) k pathname t (fs_backend s) with
  | Ret x b => Some (inr x, set_data e (set_backend b s))
  | Throw b => Some (inl tt, set_data e (set_backend b s))
  | Fault => None
  end.

(** [load(pathname, type)] of a file; [inl] is an exception. *)
Definition import (fuel : nat) (k : clock) (pathname : string) (t : entry_type) (s : fsys)
    : option ((unit + Errors.error_code) * fsys) :=
  if constructs pathname (fs_backend s) then
    match NvmlFile.file_new pathname (pool_subdir pathname) (file_type_of t) true fuel (fs_data s) with
    | Some (inr _, (f, e)) => load_with k pathname t (Some f) e s
    | Some (inl _, (_, e)) => load_with k pathname t None e s
    | None => None
    end
  else load_with k pathname t None (fs_data s) s.

(** [load(pathname, type)]: a directory is imported file by file. *)
Fixpoint import_all (fuel : nat) (k : clock) (paths : list string) (t : entry_type) (s : fsys)
    : option ((unit + Errors.error_code) * fsys) :=
  match paths with
  | [] => Some (inr Errors.success, s)
  | p :: paths =>
      if h_is_directory p then import_all fuel k paths t s
      else
        match import fuel k p t s with
        | Some (inr Errors.success, s) => import_all fuel k paths t s
        | r => r
        end
  end.
Definition import_path (fuel : nat) (k : clock) (pathname : string) (t : entry_type) (s : fsys)
    : option ((unit + Errors.error_code) * fsys) :=
  if negb (h_exists pathname) then Some (inr Errors.no_such_path, s)
  else if h_is_directory pathname then
    match remove_root pathname (fs_backend s) with
    | None => Some (inl tt, s)
    | Some _ => import_all fuel k (h_entries pathname) t s
    end
  else import fuel k pathname t s.

(** A source that can be imported to [/ns/n]: it is a regular file, the path is free, nothing on
    the way to it is a file, and there is room for its bytes. *)
Record importable (fuel : nat) (s : fsys) (pathname : string) (ns : list string) (n : string) (bytes : list Z) : Prop := {
  im_exists : h_exists pathname = true;
  im_file : h_is_directory pathname = false;
  im_path : remove_root pathname (fs_backend s) = Some (absolute (ns ++ [n]));
  im_names : Forall name (ns ++ [n]);
  im_free : view (fs_backend s) (absolute (ns ++ [n])) = None;
  im_way : forall q, q ∈ on_the_way "/" ns -> m_files (fs_backend s) !! q = None;
  im_stat : forall p, is_Some (h_stat p);
  im_source : exists P fd st, NvmlSpec.source_file P pathname fd st bytes fuel /\ P (Segment.e_world (fs_data s));
  im_room : NvmlSpec.room (fs_data s) (Z.of_nat (length bytes) + SS);
  im_length : Z.of_nat (length bytes) + SS < NvmlFile.OFF_MAX }.

(** The source is copied to a new object, and the tree gets it and the directories on the way. *)
Lemma import_ok fuel k pathname t s ns n bytes : Segment.sto_reliable (W := W) -> sound s -> importable fuel s pathname ns n bytes ->
  exists s' o, import fuel k pathname t s = Some (inr Errors.success, s') /\ sound s' /\
    p_files (pabs s') = <[b_next (fs_backend s) := bytes]> (p_files (pabs s)) /\ p_handles (pabs s') = p_handles (pabs s) /\
    (forall q, path q -> p_tree (pabs s') q =
       upd (with_dirs (p_tree (pabs s)) (on_the_way "/" ns)) (absolute (ns ++ [n])) (Some (File (b_next (fs_backend s)))) q) /\
    b_heap (fs_backend s') = <[b_next (fs_backend s) := o]> (b_heap (fs_backend s)) /\
    m_files (fs_backend s') = <[absolute (ns ++ [n]) := b_next (fs_backend s)]> (m_files (fs_backend s)).
Proof.
  intros Hrel [Hi Hd] [I1 I2 I3 I4 I5 I6 I7 (P & fd & st & Hsrc & HP) I9 I10]. set (b := fs_backend s) in *.
  pose proof (inv_wf s Hi) as Hwf.
  destruct (NvmlSpec.populate_ok J J_range P pathname (pool_subdir pathname) (file_type_of t) fd st bytes fuel (fs_data s) Hsrc HP
    (NvmlStore.so_stored _ _ Hd) I9 I10) as (r & [f e] & E & Hr). destruct r as [x | u]; [by destruct (Hr Hrel) |].
  destruct Hr as (Hst & Hfr & Hrest & Hc). cbn [fst snd] in *.
  destruct (load_ok (H := nvml_backend_file pool_subdir (source_object pathname (Some f))) k pathname n ns t b Hwf I1 I2 I3 I4 I5 I6 I7)
    as (b' & o & El & Hwf' & Eo & Hh & Hf & Hv); [by eexists |].
  exists (set_data e (set_backend b' s)), o. unfold import. fold b.
  assert (Hcon : constructs pathname b = true).
  { unfold constructs. rewrite I1, I3. apply bool_decide_eq_true. unfold view in I5. by destruct (m_files b !! _). }
  unfold load in El. rewrite I1, I2 in El. cbn [negb] in El. rewrite Hcon, E. unfold load_with. fold b. rewrite El.
  split; [done |].
  assert (Ho : o_file o = f) by (cbn in Eo; by injection Eo as <-).
  destruct (NvmlStore.store_add (nvml_files (abs s)) (fs_data s) (b_next b) _ _ _ f e Hd Hfr Hst Hrest) as [Hok Hby].
  assert (Hfiles : nvml_files (abs (set_data e (set_backend b' s))) = <[b_next b := f]> (nvml_files (abs s))).
  { unfold nvml_files. simpl. rewrite Hh, fmap_insert. by rewrite Ho. }
  split; [split |].
  - destruct Hi as [_ HL HP' HN]. constructor; [done | done | | done].
    intros fh rec Hrec. simpl. rewrite Hh. apply lookup_insert_is_Some'. right. by apply (HP' fh).
  - unfold data_ok. rewrite Hfiles. exact Hok.
  - split; [| split; [done | split; [exact Hv | split; [done | done]]]].
    unfold pabs, posix_of. cbn [p_files]. rewrite Hfiles. etransitivity; [exact Hby |]. by rewrite Hc.
Qed.

(** A source that is not there, and one that was imported before. *)
Definition refused (s : fsys) (pathname : string) : Prop :=
  h_exists pathname = false \/ exists p id, remove_root pathname (fs_backend s) = Some p /\ m_files (fs_backend s) !! p = Some id.
Lemma import_refused fuel k pathname t s : refused s pathname -> exists code,
  import fuel k pathname t s = Some (inr code, s) /\ code <> Errors.success.
Proof.
  assert (Hs : set_data (fs_data s) (set_backend (fs_backend s) s) = s) by (by destruct s).
  unfold import, constructs, load_with, load_one. intros [-> | (p & id & Hp & Hf)]; cbn [andb negb]; [rewrite Hs; eauto |].
  rewrite Hp, Hf, bool_decide_false, andb_false_r by done. destruct (h_exists pathname); cbn [negb]; rewrite Hs; eauto.
Qed.

(** ** The steps of the daemon *)

(** An object that has no name and no open handle: no [shared_ptr] keeps it. *)
Definition unreferenced (id : positive) (s : fsys) : Prop :=
  (forall p, m_files (fs_backend s) !! p <> Some id) /\ forall fh r, file_records s !! fh = Some r -> ptr r <> id.
Definition forget (id : positive) (b : backend object) : backend object := set_heap (delete id (b_heap b)) (b_next b) b.

Inductive event := Request (r : freq) | Elsewhere | Import (pathname : string) (t : entry_type) | Retype (pathname : string) (t : entry_type)
  | Reclaim (id : positive).
Inductive step : event -> fsys -> fsys -> Prop :=
  | step_request c r y s s' : fits (fs_backend s) -> pkernel (abs s) r -> dispatch c r s = Reply y s' -> step (Request r) s s'
  | step_elsewhere s s' : meanwhile s s' -> step Elsewhere s s'
  | step_import fuel k pathname t ns n bytes s s' : importable fuel s pathname ns n bytes ->
      import fuel k pathname t s = Some (inr Errors.success, s') -> step (Import pathname t) s s'
  | step_refused fuel k pathname t x s s' : refused s pathname -> import fuel k pathname t s = Some (x, s') -> step (Import pathname t) s s'
  | step_retype pathname t s b : do_change_type pathname t (fs_backend s) = Ret tt b -> step (Retype pathname t) s (set_backend b s)
  | step_reclaim id e s : unreferenced id s -> NvmlSpec.stored e ->
      (forall i o, i <> id -> b_heap (fs_backend s) !! i = Some o -> NvmlStore.undisturbed (o_file o) (fs_data s) e) ->
      step (Reclaim id) s (set_data e (set_backend (forget id (fs_backend s)) s)).
(** A life whose events satisfy [Q]. *)
Inductive lives (Q : fsys -> event -> Prop) : fsys -> fsys -> Prop :=
  | lives_nil s : lives Q s s
  | lives_step ev s1 s2 s3 : Q s1 ev -> step ev s1 s2 -> lives Q s2 s3 -> lives Q s1 s3.
Definition any_event (s : fsys) (ev : event) : Prop := True.
(** An event that leaves the bytes of a file as they are. *)
Definition spares (id : positive) (s : fsys) (ev : event) : Prop :=
  match ev with Request r => ~ changes_file (pabs s) id r | Reclaim i => i <> id | _ => True end.

Lemma reclaim_sound id e s : sound s -> unreferenced id s -> NvmlSpec.stored e ->
  (forall i o, i <> id -> b_heap (fs_backend s) !! i = Some o -> NvmlStore.undisturbed (o_file o) (fs_data s) e) ->
  let s' := set_data e (set_backend (forget id (fs_backend s)) s) in
  sound s' /\ p_files (pabs s') = delete id (p_files (pabs s)).
Proof.
  intros [Hi Hd] [Hn Hh] Hst Hu s'. destruct (NvmlStore.store_delete _ _ id Hd) as [Hd1 Hb1].
  destruct (NvmlStore.store_undisturbed (delete id (nvml_files (abs s))) (fs_data s) e Hd1 Hst) as [Hd2 Hb2].
  { intros i f [Hne Hf]%lookup_delete_Some. unfold nvml_files in Hf. rewrite lookup_fmap in Hf. simpl in Hf.
    destruct (b_heap (fs_backend s) !! i) as [o |] eqn:Ho; [| done]. injection Hf as <-. apply (Hu i); [done | done]. }
  assert (Hfiles : nvml_files (abs s') = delete id (nvml_files (abs s))) by (unfold nvml_files; simpl; by rewrite fmap_delete).
  split; [split |].
  - destruct Hi as [[W1 W2 W3 W4 W5] HL HP HN]. constructor; [constructor; [done | done | | done |] | done | | done].
    + intros p i Hp. simpl. rewrite lookup_delete_ne by (intros <-; by apply (Hn p)). by apply (W3 p).
    + intros i [o Ho]. simpl in Ho. apply lookup_delete_Some in Ho as [_ Ho]. apply (W5 i). eauto.
    + intros fh r Hr. simpl. rewrite lookup_delete_ne by (intros E; by apply (Hh fh r Hr)). by apply (HP fh).
  - unfold data_ok. rewrite Hfiles. exact Hd2.
  - unfold pabs, posix_of. cbn [p_files]. rewrite Hfiles. etransitivity; [exact Hb2 | exact Hb1].
Qed.

Lemma step_sound ev s s' : Segment.sto_reliable (W := W) -> sound s -> step ev s s' -> sound s'.
Proof.
  intros Hrel Hs. destruct 1 as [c r y s s' Hf Hk E | s s' Hm | fuel k p t ns n bytes s s' Him E | fuel k p t x s s' Hr E | p t s b E | id e s Hun Hst Hu].
  - eapply request_sound; eauto.
  - by eapply meanwhile_sound.
  - destruct (import_ok fuel k p t s ns n bytes Hrel Hs Him) as (s1 & o & E1 & Hs1 & _). rewrite E in E1. by injection E1 as ->.
  - destruct (import_refused fuel k p t s Hr) as (code & E1 & _). rewrite E in E1. by injection E1 as _ ->.
  - by eapply change_type_sound.
  - by apply reclaim_sound.
Qed.
Lemma lives_sound Q s s' : Segment.sto_reliable (W := W) -> lives Q s s' -> sound s -> sound s'.
Proof. intros Hrel. induction 1 as [| ev s1 s2 s3 _ Hst _ IH]; intros Hs; [done |]. eapply IH, step_sound; eauto. Qed.

Lemma step_spares id ev s s' bytes : Segment.sto_reliable (W := W) -> sound s -> step ev s s' -> spares id s ev ->
  p_files (pabs s) !! id = Some bytes -> p_files (pabs s') !! id = Some bytes.
Proof.
  intros Hrel Hs. destruct 1 as [c r y s s' Hf Hk E | s s' Hm | fuel k p t ns n bs s s' Him E | fuel k p t x s s' Hr E | p t s b E | i e s Hun Hst Hu];
    intros Hsp Hb.
  - destruct (request_sound J J_range local_buf have_splice memalign_ok now pool_subdir bufvec_size bufvec_size_ok no_source c r y s s'
      Hrel Hs Hf Hk E) as [_ Hps]. by eapply pspec_file.
  - destruct (meanwhile_sound s s' Hs Hm) as [_ ->]. done.
  - destruct (import_ok fuel k p t s ns n bs Hrel Hs Him) as (s1 & o & E1 & _ & Hf & _). rewrite E in E1. injection E1 as ->.
    rewrite Hf. rewrite lookup_insert_ne; [done |]. intros <-. unfold pabs, posix_of, NvmlStore.bytes_of, nvml_files in Hb.
    simpl in Hb. rewrite lookup_fmap, lookup_fmap in Hb. destruct (b_heap (fs_backend s) !! _) as [o' |] eqn:Ho; [| done].
    pose proof (wf_next _ (inv_wf s (proj1 Hs)) _ (ex_intro _ o' Ho)). lia.
  - destruct (import_refused fuel k p t s Hr) as (code & E1 & _). rewrite E in E1. by injection E1 as _ ->.
  - destruct (change_type_sound pool_subdir no_source p t s b Hs E) as [_ ->]. done.
  - destruct (reclaim_sound i e s Hs Hun Hst Hu) as [_ ->]. by rewrite lookup_delete_ne.
Qed.
Lemma lives_spares id s s' bytes : Segment.sto_reliable (W := W) -> lives (spares id) s s' -> sound s ->
  p_files (pabs s) !! id = Some bytes -> p_files (pabs s') !! id = Some bytes.
Proof.
  intros Hrel. induction 1 as [| ev s1 s2 s3 Hq Hst _ IH]; intros Hs Hb; [done |].
  apply IH; [by eapply step_sound | by eapply step_spares].
Qed.


(** An open handle keeps its object: it is not destroyed, and only a request that writes to the
    file changes its bytes. *)
Definition keeps_open (fh id : positive) (s : fsys) (ev : event) : Prop :=
  match ev with Request r => r <> RRelease fh /\ ~ changes_file (pabs s) id r | _ => True end.
Lemma handle_referenced s fh id : p_handles (pabs s) !! fh = Some id -> ~ unreferenced id s.
Proof.
  intros Hh [_ Hn]. simpl in Hh. rewrite lookup_fmap in Hh. destruct (file_records s !! fh) as [rec |] eqn:E; [| done].
  injection Hh as Hp. by apply (Hn fh rec).
Qed.
Lemma step_keeps_open fh id ev s s' bytes : Segment.sto_reliable (W := W) -> sound s -> step ev s s' -> keeps_open fh id s ev ->
  p_handles (pabs s) !! fh = Some id -> p_files (pabs s) !! id = Some bytes ->
  p_handles (pabs s') !! fh = Some id /\ p_files (pabs s') !! id = Some bytes.
Proof.
  intros Hrel Hs Hst Hk Hh Hb. split.
  - destruct Hst as [c r y s s' Hf Hker E | s s' Hm | fuel k p t ns n bs s s' Him E | fuel k p t x s s' Hr E | p t s b E | i e s Hun Hst Hu].
    + destruct (request_sound J J_range local_buf have_splice memalign_ok now pool_subdir bufvec_size bufvec_size_ok no_source c r y s s'
        Hrel Hs Hf Hker E) as [_ Hps]. by eapply pspec_handle; [exact Hps | apply Hk |].
    + destruct (meanwhile_sound s s' Hs Hm) as [_ ->]. done.
    + destruct (import_ok fuel k p t s ns n bs Hrel Hs Him) as (s1 & o & E1 & _ & _ & Hh' & _). rewrite E in E1. injection E1 as ->.
      by rewrite Hh'.
    + destruct (import_refused fuel k p t s Hr) as (code & E1 & _). rewrite E in E1. by injection E1 as _ ->.
    + exact Hh.
    + exact Hh.
  - eapply step_spares; [done | done | exact Hst | | done].
    destruct ev as [r | | | | i]; try done; [apply Hk |]. intros ->. inversion Hst; subst. by eapply handle_referenced.
Qed.
Lemma lives_keeps_open fh id s s' bytes : Segment.sto_reliable (W := W) -> lives (keeps_open fh id) s s' -> sound s ->
  p_handles (pabs s) !! fh = Some id -> p_files (pabs s) !! id = Some bytes ->
  p_handles (pabs s') !! fh = Some id /\ p_files (pabs s') !! id = Some bytes.
Proof.
  intros Hrel. induction 1 as [| ev s1 s2 s3 Hq Hst _ IH]; intros Hs Hh Hb; [done |].
  destruct (step_keeps_open fh id ev s1 s2 bytes Hrel Hs Hst Hq Hh Hb). apply IH; [by eapply step_sound | done | done].
Qed.

(** C16: An open file outlives its name. The daemon destroys an object when neither a name nor an
    open handle refers to it, and not before: when a handle is open on a file with the bytes
    [bytes], then after any events (requests of [pkernel], among them an unlink of the file, a
    rename over it and the creation of another file in its place; imports; destructions of
    other objects) other than the release of this handle and requests that change the bytes of
    this file, the handle still refers to the object, the object has these bytes, and a read
    through the handle returns them. *)
Theorem open_file_survives (c : clock) (s0 s1 s2 : fsys) (fh id : positive) (bytes : list Z) (size off : Z) :
  Segment.sto_reliable (W := W) -> mounted s0 -> NvmlSpec.stored (fs_data s0) -> lives any_event s0 s1 ->
  p_handles (pabs s1) !! fh = Some id -> p_files (pabs s1) !! id = Some bytes -> lives (keeps_open fh id) s1 s2 ->
  fits (fs_backend s2) -> 0 <= off <= Z.of_nat (length bytes) -> 0 < size -> off + size < 2 ^ 63 ->
  memalign_ok (Z.of_nat (length (NvmlSpec.posix_read bytes off size))) = true ->
  p_handles (pabs s2) !! fh = Some id /\ p_files (pabs s2) !! id = Some bytes /\
  exists s3, dispatch c (RRead fh size off) s2 = Reply (Data 0 (Some (Outgoing (NvmlSpec.posix_read bytes off size)))) s3.
Proof.
  intros Hrel Hm Hst Hl1 Hh Hb Hl2 Hfit Hoff Hsz Hmax Hal.
  pose proof (lives_sound any_event s0 s1 Hrel Hl1 (mounted_sound s0 Hm Hst)) as Hs1.
  destruct (lives_keeps_open fh id s1 s2 bytes Hrel Hl2 Hs1 Hh Hb) as [Hh2 Hb2]. split; [done |]. split; [done |].
  pose proof (lives_sound _ s1 s2 Hrel Hl2 Hs1) as Hs2.
  assert (Hcon : content (pabs s2) fh bytes) by (by exists id).
  destruct (dispatch_posix J J_range local_buf have_splice memalign_ok now pool_subdir bufvec_size bufvec_size_ok no_source c
    (RRead fh size off) s2 Hrel Hs2 Hfit) as (y & s3 & E & _ & Hsp); [by exists bytes |].
  exists s3. etransitivity; [exact E |]. f_equal. destruct Hsp as [_ (bytes' & (id' & Hh' & Hb') & ->)]. simplify_eq. by rewrite Hal.
Qed.

(** C10: Well-formedness: in every state of the daemon that requests of [pkernel] (without the
    renaming of directories, which breaks it), imports, changes of type and the destruction of
    objects reach from a mounted file system on storage that does not fail, the table of files
    and the tree of directories agree, every open handle refers to an object, every object's
    segments tile its storage in live mappings, the size in its attributes is its end of file,
    no lock is held, and no two objects share a byte of memory. *)
Theorem daemon_well_formed (s0 s : fsys) :
  Segment.sto_reliable (W := W) -> mounted s0 -> NvmlSpec.stored (fs_data s0) -> lives any_event s0 s ->
  inv s /\ NvmlStore.store_ok (nvml_files (abs s)) (fs_data s).
Proof. intros Hrel Hm Hst Hl. exact (lives_sound any_event s0 s Hrel Hl (mounted_sound s0 Hm Hst)). Qed.

(** C17: From the source to the results: a file that is imported at any time in the life of the
    daemon (requests of [pkernel], storage that does not fail), to which no request writes, and
    which is at the end still at the path it was imported to and persistent, is copied to the
    results directory with exactly the bytes of its source, whatever happened to the other
    files. The name of the results directory ends with a slash, the paths below it are shorter
    than [PATH_MAX], the file system of the host is in order ([host_ok]) and has nothing in the
    way of the copies ([clear]). *)
Theorem import_unload_roundtrip (fuel : nat) (k : clock) (s0 s1 s2 s3 : fsys) (pathname : string) (t : entry_type)
    (ns : list string) (n : string) (bytes : list Z) (dir : string) (entries : list (string * positive)) (o : object) :
  let id := b_next (fs_backend s1) in
  let w := Segment.e_world (fs_data s3) in
  Segment.sto_reliable (W := W) -> mounted s0 -> NvmlSpec.stored (fs_data s0) -> lives any_event s0 s1 ->
  importable fuel s1 pathname ns n bytes -> import fuel k pathname t s1 = Some (inr Errors.success, s2) ->
  lives (spares id) s2 s3 ->
  m_files (fs_backend s3) !! absolute (ns ++ [n]) = Some id -> b_heap (fs_backend s3) !! id = Some o ->
  NvmlFile.m_type (o_file o) = NvmlFile.persistent ->
  entries ≡ₚ map_to_list (m_files (fs_backend s3)) -> ends_slash dir = true ->
  (forall key i, m_files (fs_backend s3) !! key = Some i -> Z.of_nat (String.length dir + String.length key) < PATH_MAX) ->
  host_ok w -> clear w dir entries.*1 ->
  exists h e, unload_all J dir entries (b_heap (fs_backend s3)) (fs_data s3) = Some (inr Errors.success, (h, e)) /\
    out_file (Segment.e_world e) (components dir ++ ns ++ [n]) = Some bytes.
Proof.
  intros id w Hrel Hm Hst Hl1 Him E Hl2 Hf Ho Ht Hp Hd Hlen Hw Hc.
  pose proof (lives_sound any_event s0 s1 Hrel Hl1 (mounted_sound s0 Hm Hst)) as Hs1.
  destruct (import_ok fuel k pathname t s1 ns n bytes Hrel Hs1 Him) as (s2' & o' & E' & Hs2 & Hfiles & _).
  rewrite E in E'. injection E' as <-.
  assert (Hb : p_files (pabs s3) !! id = Some bytes).
  { apply (lives_spares id s2 s3 bytes Hrel Hl2 Hs2). by rewrite Hfiles, lookup_insert_eq. }
  pose proof (lives_sound _ s2 s3 Hrel Hl2 Hs2) as Hs3.
  destruct (unload_result J pool_subdir no_source s3 dir entries Hs3 Hp Hd Hlen Hw Hc) as (h & e & Eu & _ & _ & Hcp & _).
  exists h, e. split; [done |]. specialize (Hcp _ id o Hf Ho). rewrite Ht, components_absolute in Hcp by apply Him.
  rewrite Hcp. unfold pabs, posix_of, NvmlStore.bytes_of, nvml_files in Hb. simpl in Hb. rewrite !lookup_fmap, Ho in Hb. exact Hb.
Qed.

End Life.

(** ** The destructor of a file over NVML pools *)

Section Reclaim.
#[local] Existing Instances Segment.nvml_storage Segment.nvml_laws.
Context {W L : Type} `{KN : FuseBuf.Kernel W} `{SR : Segment.Sources W} `{PM : Segment.Pmem W}.
Context `{RM : RangeMutex.RangeMutex L} `{FL : !NvmlFile.FuseLib W} `{HO : Host} `{RS : Results W} `{RL : !ResultsLaws W}.
Variables (J local_buf now : Z) (have_splice : bool) (memalign_ok : Z -> bool) (pool_subdir : string -> string).
Variable bufvec_size : FuseBuf.fuse_bufvec -> Z.
Abbreviation object := (NvmlFuse.object (L := L)).
Abbreviation fsys := (filesystem (Segment.env W) object).
#[local] Instance reclaim_file : BackendFile object := nvml_backend_file pool_subdir no_source.
#[local] Instance reclaim_data : FileData (Segment.env W) object buffer :=
  nvml_file_data J local_buf have_splice memalign_ok now bufvec_size.

(** The destructor of a file, run when the last reference to it is gone, ends without an
    exception and is a step of the daemon: all other files keep their mappings and bytes. *)
Theorem destructor_reclaims (id : positive) (o : object) (s : fsys) :
  Segment.reliable (W := W) -> inv s -> data_ok (abs s) -> unreferenced id s -> b_heap (fs_backend s) !! id = Some o ->
  exists e, NvmlDestroy.file_destroy (o_file o) (fs_data s) = Some (inr tt, e) /\
    step J local_buf have_splice memalign_ok now pool_subdir bufvec_size (Reclaim id) s
      (set_data e (set_backend (forget id (fs_backend s)) s)).
Proof.
  intros Hrel Hi Hd Hun Ho. destruct (NvmlDestroy.file_destroy_ok (o_file o) (fs_data s) Hrel) as (w & E).
  eexists. split; [exact E |]. apply step_reclaim; [done | done |]. intros i o' Hne Ho'.
  assert (Hl : forall j x, b_heap (fs_backend s) !! j = Some x -> nvml_files (abs s) !! j = Some (o_file x)).
  { intros j x Hx. unfold nvml_files. simpl. by rewrite lookup_fmap, Hx. }
  pose proof (Hl _ _ Ho) as H1. pose proof (Hl _ _ Ho') as H2.
  apply NvmlDestroy.destroy_undisturbed; [by apply (NvmlStore.so_rest _ _ Hd id) | by apply (NvmlStore.so_rest _ _ Hd i) |].
  by apply (NvmlStore.so_apart _ _ Hd id i).
Qed.

End Reclaim.

(** ** A concrete life: [/data/a/y] is imported, [/b] is created, and the end. *)

#[local] Existing Instances RangeMutex.lock_manager_mutex Segment.machine_kernel Segment.machine_pmem Segment.machine_sources
  Segment.nvml_storage Segment.nvml_laws NvmlFile.machine_fuse machine_results machine_results_laws.
Abbreviation mach := Segment.machine.
Abbreviation clife := (lives (W := mach) (L := RangeMutex.locker) 27 0 true NvmlSpec.can_alloc 0 subdir_of vec_size).
Definition imported : cfs :=
  match import (W := mach) subdir_of 3 clk "/data/a/y" persistent fs0 with Some (inr Errors.success, s) => s | _ => fs0 end.
#[local] Instance cfile : BackendFile cobj := nvml_backend_file subdir_of no_source.
#[local] Instance cdata : FileData (Segment.env mach) cobj buffer := nvml_file_data (W := mach) 27 0 true NvmlSpec.can_alloc 0 vec_size.
Definition creation_b : request buffer := RCreate "/b" 420 1.
Definition then_b : cfs := match dispatch clk creation_b imported with Reply _ s => s | _ => imported end.

Lemma fs0_importable : importable (W := mach) 27 3 fs0 "/data/a/y" ["a"] "y" [7; 8; 9].
Proof.
  assert (Hway : forall q, q ∈ on_the_way "/" ["a"] -> m_files (fs_backend fs0) !! q = None).
  { intros q [-> | ?%elem_of_nil]%elem_of_cons; [by vm_compute | done]. }
  assert (Hsrc : exists P fd st, NvmlSpec.source_file P "/data/a/y" fd st [7; 8; 9] 3 /\ P (Segment.e_world (fs_data fs0))).
  { exists NvmlSpec.reads_left, 3, (Segment.Stat 3 1 0). split; [apply NvmlSpec.source0 | done]. }
  constructor; [done | done | by vm_compute | by repeat constructor | by vm_compute | exact Hway | eauto | exact Hsrc | done | by vm_compute].
Qed.
Lemma imported_ok : import (W := mach) subdir_of 3 clk "/data/a/y" persistent fs0 = Some (inr Errors.success, imported).
Proof.
  destruct (import_ok (W := mach) (SL := Segment.nvml_laws) 27 ltac:(lia) subdir_of 3 clk "/data/a/y" persistent fs0 ["a"] "y" [7; 8; 9]
    NvmlSpec.machine_reliable (mounted_sound (SL := Segment.nvml_laws) _ fs0_mounted I) fs0_importable) as (s' & o & E & _).
  unfold imported. by rewrite E.
Qed.
Lemma imported_lives : clife any_event fs0 imported.
Proof. apply (lives_step _ _ _ _ _ _ _ _ (Import "/data/a/y" persistent) _ imported); [done | | constructor]. by eapply step_import, imported_ok; apply fs0_importable. Qed.
Lemma path_ay : path "/a/y".
Proof. apply (path_in "/a/" "y"); [apply (dk_in "/" "a"); [constructor | done] | done]. Qed.

Lemma daemon_well_formed_witness : inv imported /\ NvmlStore.store_ok (nvml_files (abs imported)) (fs_data imported).
Proof.
  exact (daemon_well_formed (W := mach) (SL := Segment.nvml_laws) 27 ltac:(lia) 0 true NvmlSpec.can_alloc 0 subdir_of vec_size vec_size_ok fs0 imported
    NvmlSpec.machine_reliable fs0_mounted I imported_lives).
Defined.


(** [/a/y] is opened and removed. *)
Definition open_ay : cfs := match dispatch clk (ROpen "/a/y" 0) imported with Reply _ s => s | _ => imported end.
Definition unlinked_ay : cfs := match dispatch clk (RUnlink "/a/y") open_ay with Reply _ s => s | _ => open_ay end.
Lemma open_ay_lives : clife any_event fs0 open_ay.
Proof.
  apply (lives_step _ _ _ _ _ _ _ _ (Import "/data/a/y" persistent) _ imported); [done | by eapply step_import, imported_ok; apply fs0_importable |].
  apply (lives_step _ _ _ _ _ _ _ _ (Request (ROpen "/a/y" 0)) _ open_ay); [done | | constructor].
  apply (step_request _ _ _ _ _ _ _ clk (ROpen "/a/y" 0) (Handle 0 (Some 1%positive))); [concrete_fits | | by vm_compute].
  split; [apply path_ay | by vm_compute].
Qed.
Lemma unlinked_ay_lives : clife (keeps_open 1%positive 1%positive) open_ay unlinked_ay.
Proof.
  apply (lives_step _ _ _ _ _ _ _ _ (Request (RUnlink "/a/y")) _ unlinked_ay); [by split; [| intros []] | | constructor].
  apply (step_request _ _ _ _ _ _ _ clk (RUnlink "/a/y") (Code 0)); [concrete_fits | | by vm_compute].
  split; [apply path_ay | by vm_compute].
Qed.
Lemma open_ay_bytes : p_files (pabs open_ay) !! 1%positive = Some [7; 8; 9].
Proof. by vm_compute. Qed.
Lemma unlinked_ay_gone : m_files (fs_backend unlinked_ay) !! "/a/y" = None.
Proof. by vm_compute. Qed.
Lemma open_file_survives_witness : m_files (fs_backend unlinked_ay) !! "/a/y" = None /\
  exists s3, dispatch clk (RRead 1%positive 2 1) unlinked_ay = Reply (Data 0 (Some (Outgoing [8; 9]))) s3.
Proof.
  split; [exact unlinked_ay_gone |].
  refine (proj2 (proj2 (open_file_survives (W := mach) (SL := Segment.nvml_laws) 27 ltac:(lia) 0 true NvmlSpec.can_alloc 0 subdir_of vec_size vec_size_ok clk
    fs0 open_ay unlinked_ay 1%positive 1%positive [7; 8; 9] 2 1
    NvmlSpec.machine_reliable fs0_mounted I open_ay_lives _ open_ay_bytes unlinked_ay_lives _ _ _ _ _)));
    [by vm_compute | concrete_fits | by vm_compute | lia | lia | by vm_compute].
Defined.

Definition ay_and_b : list (string * positive) := [("/b", 2%positive); ("/a/y", 1%positive)].
Lemma then_b_files : ay_and_b ≡ₚ map_to_list (m_files (fs_backend then_b)).
Proof.
  assert (E : map_to_list (m_files (fs_backend then_b)) = ay_and_b \/ map_to_list (m_files (fs_backend then_b)) = reverse ay_and_b).
  { first [left; by vm_compute | right; by vm_compute]. }
  destruct E as [-> | ->]; [done |]. by rewrite reverse_Permutation.
Qed.
Lemma then_b_lives : clife (spares 1%positive) imported then_b.
Proof.
  apply (lives_step _ _ _ _ _ _ _ _ (Request creation_b) _ then_b); [by intros [] | | constructor].
  apply (step_request _ _ _ _ _ _ _ clk creation_b (Handle 0 (Some 1%positive))); [concrete_fits | | by vm_compute].
  split; [| exact I]. split; [apply path_b | split; [done | split; by vm_compute]].
Qed.
Lemma then_b_host : Segment.k_host (Segment.e_world (fs_data then_b)) = ∅.
Proof. by vm_compute. Qed.
Lemma then_b_type : (fun o : cobj => NvmlFile.m_type (o_file o)) <$> b_heap (fs_backend then_b) !! 1%positive = Some NvmlFile.persistent.
Proof. by vm_compute. Qed.

Lemma import_unload_roundtrip_witness : exists h e,
  unload_all 27 "out/" ay_and_b (b_heap (fs_backend then_b)) (fs_data then_b) = Some (inr Errors.success, (h, e)) /\
  out_file (Segment.e_world e) ["out"; "a"; "y"] = Some [7; 8; 9].
Proof.
  destruct (proj1 (fmap_Some _ _ _) then_b_type) as (o & Ho & Ht).
  refine (import_unload_roundtrip (W := mach) (SL := Segment.nvml_laws) 27 ltac:(lia) 0 true NvmlSpec.can_alloc 0 subdir_of vec_size vec_size_ok
    3 clk fs0 fs0 imported then_b "/data/a/y" persistent ["a"] "y" [7; 8; 9] "out/" ay_and_b o
    NvmlSpec.machine_reliable fs0_mounted I (lives_nil _ _ _ _ _ _ _ _ _) fs0_importable imported_ok then_b_lives _ Ho (eq_sym Ht)
    then_b_files eq_refl _ _ _).
  - by vm_compute.
  - intros key id Hk. assert (Hin : (key, id) ∈ ay_and_b) by (rewrite then_b_files; by apply elem_of_map_to_list).
    clear Hk. apply elem_of_cons in Hin as [[= -> ->] | [[= -> ->] | []%not_elem_of_nil]%elem_of_cons]; by vm_compute.
  - apply (empty_host _ "out/" ay_and_b.*1 then_b_host).
  - apply (empty_host _ "out/" ay_and_b.*1 then_b_host).
Defined.

End Lifecycle.
