(* ===== verification/DevdaxFile.v ===== *)
(** * The device DAX backend: src/backends/nvram-devdax

    The files, the segments and the name space of this backend are those of the NVML backend,
    up to the names of the classes; the memory of a segment is a block of the device, from the
    allocator of [DevdaxPool], and there is no directory of pools. So the backend is the code of
    [NvmlFile] over another [Storage]. The laws of storage hold until the allocator reaches the
    end of the device and starts over: up to then every block begins behind all the blocks
    before it, even one that is smaller than a segment of the device. The blocks do not read as
    zeros. *)
From S2P Require Import Prelude Common RangeLock RangeMutex Mdds FuseBuf Segment NvmlFile NvmlSpec NvmlStore.
From S2P Require Import Errors Namespace NamespaceSpec DevdaxPool Fuse FuseSpec NvmlFuse NvmlUnload.
From stdpp Require Import base list numbers option strings gmap sets.
Local Open Scope string_scope.
Local Open Scope Z_scope.
Local Open Scope list_scope.

Module DevdaxFile.
Import DevdaxPool.

(** The static [pool::m_bpool] in the state of the process. *)
Class HasDevice (W : Type) := {
  bpool : W -> big_pool;
  set_bpool : big_pool -> W -> W;
  bpool_set b w : bpool (set_bpool b w) = b }.

(** ** The storage *)

Section Storage.
Context {W : Type} `{HD : HasDevice W}.
(** [segment::s_segment_size], what [mmap] returns for the device, and the member [m_length]
    of a pool that is not allocated. *)
Variable s_segment_size : Z.
Variable mapping : Z.
Variable junk : Z.

Abbreviation env := (Segment.env W).
Abbreviation M := (Segment.M (W := W)).

(** An operation on the allocator: a [std::bitset] throws, a fault ends the program, and so
    does a loop that does not end. *)
Definition on_bpool {X} (f : big_pool -> result X) : M X := fun e =>
  let put p := Segment.Env (Segment.e_mem e) (Segment.e_maps e) (set_bpool p (Segment.e_world e)) in
  match f (bpool (Segment.e_world e)) with
  | Ret x p => Some (inr x, put p)
  | Throw p => Some (inl Segment.OutOfRange, put p)
  | Fault | Spin => None
  end.

(** The block as a mapping of its own, unless it is null. *)
Definition live (a len : Z) : M unit := fun e =>
  Some (inr tt, if a =? 0 then e
                else Segment.Env (Segment.e_mem e) ((a, len) :: Segment.e_maps e) (Segment.e_world e)).

(** [pool::pool(subdir)] and [pool::allocate(size)]; a block is not [m_is_pmem] and has no
    path. *)
Definition dev_pool_new (subdir : string) : M Segment.pool :=
  Segment.bind (on_bpool (pool_new s_segment_size mapping junk)) (fun pl =>
  Segment.ret (Segment.Pool subdir "" (p_data pl) (p_length pl) false)).
Definition dev_pool_allocate (p : Segment.pool) (size : Z) : M Segment.pool :=
  Segment.bind (on_bpool (pool_allocate size (Pool (Segment.p_data p) (Segment.p_length p)))) (fun pl =>
  Segment.bind (live (p_data pl) (p_length pl)) (fun _ =>
  Segment.ret (Segment.Pool (Segment.p_subdir p) "" (p_data pl) (p_length pl) false))).

#[export] Instance devdax_storage : Segment.Storage W := {|
  Segment.sto_new := dev_pool_new; Segment.sto_allocate := dev_pool_allocate;
  Segment.sto_prepare _ := Segment.ret tt |}.

(** The allocator once the device is mapped, which the first pool does. *)
Definition opened (bp : big_pool) : big_pool :=
  if m_init bp then bp
  else BigPool (m_bitset bp) 0 mapping true DEVICE s_segment_size (DEVICE / s_segment_size).

(** No allocation has started over: all segments in use and all live mappings in the device
    are before the offset behind the last allocation. *)
Record fresh_device (maps : list (Z * Z)) (bp : big_pool) : Prop := {
  fd_configured : configured bp;
  fd_bits : forall x, x ∈ m_bitset bp -> x < m_offset bp;
  fd_maps : forall b n, (b, n) ∈ maps ->
    b + n <= m_address bp + m_offset bp * m_size_of_segment bp \/ m_address bp + m_length bp <= b }.
Definition dev_ok (maps : list (Z * Z)) (w : W) : Prop := fresh_device maps (opened (bpool w)).
Definition dev_room (w : W) (n : Z) : Prop :=
  let bp := opened (bpool w) in 0 < m_size_of_segment bp /\ m_offset bp + n / m_size_of_segment bp < m_mappings bp.

Lemma pool_new_opened bp : configured (opened bp) -> pool_new s_segment_size mapping junk bp = Ret (Pool 0 junk) (opened bp).
Proof.
  intros Hc. unfold pool_new, opened in *. destruct (m_init bp); [done |]. pose proof (cf_segment _ Hc) as Hs. cbn in Hs.
  unfold init. rewrite (proj2 (Z.eqb_neq _ _)) by lia. done.
Qed.

Lemma first_set_clear k i s bits : 0 <= i -> 0 <= s -> s + i + Z.of_nat k <= NVML_MAPPINGS ->
  (forall x, x ∈ bits -> x < s) -> first_set k i s bits = Some None.
Proof.
  intros Hi Hs Hle Hb. pose proof (first_set_spec k i s bits Hi Hs Hle) as HF.
  destruct (first_set k i s bits) as [[c |] |]; [exfalso | done | done]. destruct HF as [Hc Hin]. specialize (Hb _ Hin). lia.
Qed.

(** While no allocation has started over, the next block is the one at the offset. *)
Lemma allocate_next maps bp size : fresh_device maps bp -> 0 < size -> m_offset bp + size / m_size_of_segment bp < m_mappings bp ->
  exists bp', allocate size bp = Ret (m_address bp + m_offset bp * m_size_of_segment bp) bp' /\
    configured bp' /\ same_device bp bp' /\ m_offset bp' = m_offset bp + size / m_size_of_segment bp + 1 /\
    forall x, x ∈ m_bitset bp' -> x < m_offset bp'.
Proof.
  intros [Hc Hbits _] Hsz Hroom. destruct (mappings_length bp Hc) as [HM HL]. destruct (Hc) as [Hseg Hmap Hb Ha HL0 He Hoff Hi].
  set (S_ := m_size_of_segment bp) in *. set (n := size / S_) in *. assert (Hn : 0 <= n) by (apply Z.div_pos; lia).
  assert (Hsmall : NVML_MAPPINGS < 2 ^ 32) by done.
  unfold allocate. fold S_. rewrite (proj2 (Z.eqb_neq _ _)) by lia. fold n. rewrite (u32_small n) by lia.
  rewrite (u64_small (n + m_offset bp)), (proj2 (Z.ltb_lt _ _)) by lia.
  rewrite first_set_clear by (first [lia | done]).
  destruct (set_bits_spec (Z.to_nat n) 0 (m_offset bp) bp) as (bits & -> & Hx); [lia | lia | lia |].
  cbn [m_address m_size_of_segment set_bitset]. fold S_.
  assert (Hend : (n + m_offset bp + 1) * S_ <= m_length bp) by nia.
  rewrite (u64_small (m_offset bp * S_)), (u64_small (m_address bp + _)), (u64_small (n + m_offset bp + 1)) by nia.
  assert (Hso : start_over (set_offset (n + m_offset bp + 1) (set_bitset bits bp)) = set_offset (n + m_offset bp + 1) (set_bitset bits bp)).
  { unfold start_over. cbn [m_length m_offset m_size_of_segment set_offset set_bitset]. fold S_.
    rewrite (u64_small (n + m_offset bp + 1 - 1)), u64_small by nia. rewrite (proj2 (Z.leb_gt _ _)) by nia. done. }
  rewrite Hso. eexists. split; [reflexivity |]. split; [split; cbn; try done; lia |]. split; [done |]. split; [cbn; lia |].
  cbn [m_bitset m_offset set_offset set_bitset]. intros x [Hin | Hin]%Hx; [specialize (Hbits x Hin); lia |].
  unfold in_block in Hin. lia.
Qed.

Lemma dev_block d size m maps w : 0 < size -> dev_ok maps w -> dev_room w size -> exists p w',
  Segment.bind (dev_pool_new d) (fun p => dev_pool_allocate p size) (Segment.Env m maps w)
    = Some (inr p, Segment.Env m ((Segment.p_data p, size) :: maps) w') /\
  0 < Segment.p_data p /\
  (forall b n, (b, n) ∈ maps -> Segment.p_data p + size <= b \/ b + n <= Segment.p_data p) /\
  dev_ok ((Segment.p_data p, size) :: maps) w' /\ forall P : W -> Prop, (forall w bp, P w -> P (set_bpool bp w)) -> P w -> P w'.
Proof.
  intros Hsz Hok [_ Hroom]. unfold dev_ok in *. set (bp := opened (bpool w)) in *.
  pose proof (pool_new_opened (bpool w) (fd_configured _ _ Hok)) as Hnew. fold bp in Hnew.
  destruct (allocate_next maps bp size Hok Hsz Hroom) as (bp' & Hal & Hc' & (Hd1 & Hd2 & Hd3) & Hoff & Hbits).
  destruct (mappings_length bp (fd_configured _ _ Hok)) as [_ HL]. destruct (fd_configured _ _ Hok) as [Hseg _ _ Ha _ _ Hof _].
  set (S_ := m_size_of_segment bp) in *. set (a := m_address bp + m_offset bp * S_) in *.
  assert (Hapos : 0 < a) by nia. pose proof (Z.mod_pos_bound size S_ Hseg) as Hmod. pose proof (Z.div_mod size S_ ltac:(lia)) as Hdiv.
  assert (Hblock : a + size <= m_address bp + (m_offset bp + size / S_ + 1) * S_) by nia.
  assert (Hin : m_address bp + (m_offset bp + size / S_ + 1) * S_ <= m_address bp + m_length bp) by nia.
  exists (Segment.Pool d "" a size false), (set_bpool bp' (set_bpool bp w)). split.
  { unfold dev_pool_new, dev_pool_allocate, on_bpool, live, Segment.bind, Segment.ret. cbn [Segment.e_mem Segment.e_maps Segment.e_world].
    rewrite Hnew. cbn [Segment.e_mem Segment.e_maps Segment.e_world Segment.p_data Segment.p_length Segment.p_subdir p_data p_length].
    rewrite bpool_set. unfold pool_allocate. cbn [p_data Z.eqb negb]. rewrite Hal.
    cbn [p_data p_length Segment.e_mem Segment.e_maps Segment.e_world]. by rewrite (proj2 (Z.eqb_neq a 0)) by lia. }
  cbn [Segment.p_data]. split; [done |]. split; [| split].
  - intros b n Hb. destruct (fd_maps _ _ Hok b n Hb); lia.
  - rewrite bpool_set. unfold opened. rewrite (cf_init _ Hc'). split; [done | done |].
    rewrite Hd1, Hd2, Hd3, Hoff. fold S_. intros b n [[= -> ->] | Hb]%elem_of_cons; [left; lia |].
    destruct (fd_maps _ _ Hok b n Hb); [left | by right]. assert (0 <= size / S_) by (apply Z.div_pos; lia). nia.
  - intros P HP Hp. by apply HP, HP.
Qed.

#[export] Instance devdax_laws : Segment.StorageLaws W.
Proof.
  refine {| Segment.sto_ok := dev_ok; Segment.sto_room := dev_room; Segment.sto_reliable := True; Segment.sto_zeroed := False;
            Segment.sto_kept P := forall w bp, P w -> P (set_bpool bp w) |}.
  - intros w n n' [Hs Hr] Hn. split; [done |]. pose proof (Z.div_le_mono n' n _ Hs ltac:(lia)). lia.
  - intros d size m maps w Hsz Hok Hroom. destruct (dev_block d size m maps w Hsz Hok Hroom) as (p & w' & E & H1 & H2 & H3 & H4).
    exists (inr p), (Segment.Env m ((Segment.p_data p, size) :: maps) w'). split; [exact E |]. by split_and!.
  - intros d m maps w. by exists (inr tt), w.
Defined.

End Storage.

(** ** Files, name space and handlers *)

Section Backend.
Context {W L : Type} `{KN : FuseBuf.Kernel W} `{SR : Segment.Sources W} `{HD : HasDevice W} `{RM : RangeMutex.RangeMutex L}.
Context `{FL : NvmlFile.FuseLib W} `{HO : Namespace.Host}.
(** The segments of the device, and the largest ones of a file, have [2^J] bytes. *)
Variable J : Z.
Hypothesis J_range : 12 <= J <= 60.
Variable mapping : Z.
Variable junk : Z.
Variable local_buf : Z.
Variable have_splice : bool.
Variable memalign_ok : Z -> bool.
Variable now : Z.
Variable pool_base : string.
Variable bufvec_size : FuseBuf.fuse_bufvec -> Z.
Hypothesis bufvec_size_ok : forall v, FuseBuf.vec_ok v -> FuseBuf.v_idx v = O -> FuseBuf.v_off v = 0 ->
  bufvec_size v = Z.of_nat (length (FuseBuf.remaining v)).
Abbreviation SS := (2 ^ J).
Abbreviation St := (NvmlFile.St (W := W) (L := L)).
Abbreviation op := (NvmlFile.M (W := W) (L := L)).

#[local] Instance dev_storage : Segment.Storage W := devdax_storage SS mapping junk.
#[local] Instance dev_laws : Segment.StorageLaws W := devdax_laws SS mapping junk.

(** *** [nvml_dev::segment] and [nvml_dev::file] *)

Definition dev_segment_new : string -> Z -> Z -> bool -> Segment.M (W := W) Segment.segment := Segment.segment_new.
Definition dev_segment_allocate : positive -> Z -> Z -> op unit := NvmlFile.segment_allocate.
Definition dev_zero_fill : Segment.segment -> Z -> Z -> Segment.M (W := W) unit := Segment.zero_fill.
Definition dev_copy_data_to_pmem : nat -> Segment.segment -> Z -> Segment.M (W := W) Z := Segment.copy_data_to_pmem.
Definition dev_copy_data_to_non_pmem : nat -> Segment.segment -> Z -> Segment.M (W := W) Z := Segment.copy_data_to_non_pmem.
Definition dev_fill_from : nat -> Segment.segment -> Z -> Segment.M (W := W) Segment.segment := Segment.fill_from.
Definition dev_file_new (pathname : string) : NvmlFile.file_type -> bool -> nat -> Segment.env W -> option ((Segment.exn + unit) * St) :=
  NvmlFile.file_new pathname pool_base.
Definition dev_lock_range : Z -> Z -> NvmlFile.operation -> op RangeMutex.lk_handle := NvmlFile.lock_range.
Definition dev_unlock_range : RangeMutex.lk_handle -> op unit := NvmlFile.unlock_range.
Definition dev_update_size : Z -> op unit := NvmlFile.update_size.
Definition dev_unload : op (Z * list Z) := NvmlFile.unload SS.
Definition dev_create_segment : Z -> Z -> bool -> op positive := NvmlFile.create_segment.
Definition dev_append_segments : list positive -> op unit := NvmlFile.append_segments.
Definition dev_insert_segments : list positive -> op unit := NvmlFile.insert_segments.
Definition dev_fetch_storage : Z -> Z -> list NvmlFile.file_region -> op (list NvmlFile.file_region) := NvmlFile.fetch_storage SS.
Definition dev_lookup_segments : Z -> Z -> list NvmlFile.file_region -> op (list NvmlFile.file_region) := NvmlFile.lookup_segments SS.
Definition dev_lookup_data : Z -> Z -> list NvmlFile.file_region -> op (list NvmlFile.file_region) := NvmlFile.lookup_data SS.
Definition dev_lookup_helper : Z -> Z -> bool -> list NvmlFile.file_region -> op (list NvmlFile.file_region) := NvmlFile.lookup_helper SS.
Definition dev_get_data : Z -> Z -> op (Z * list Z) := NvmlFile.get_data SS memalign_ok.
Definition dev_put_data : Z -> Z -> FuseBuf.fuse_bufvec -> op Z := NvmlFile.put_data SS local_buf have_splice.
Definition dev_append_data : Z -> Z -> FuseBuf.fuse_bufvec -> op Z := NvmlFile.append_data.
Definition dev_allocate : Z -> Z -> op Z := NvmlFile.allocate SS now.
Definition dev_change_type : NvmlFile.file_type -> op unit := NvmlFile.change_type.
Definition dev_truncate : Z -> op unit := NvmlFile.truncate SS now.

(** *** fuse_buf_copy_pmem.cpp *)

Definition dev_fuse_buf_write : FuseBuf.fuse_buf -> Z -> FuseBuf.fuse_buf -> Z -> Z -> FuseBuf.M (W := W) Z := FuseBuf.fuse_buf_write.
Definition dev_fuse_buf_read : FuseBuf.fuse_buf -> Z -> FuseBuf.fuse_buf -> Z -> Z -> FuseBuf.M (W := W) Z := FuseBuf.fuse_buf_read.
Definition dev_fuse_buf_fd_to_fd : FuseBuf.fuse_buf -> Z -> FuseBuf.fuse_buf -> Z -> Z -> FuseBuf.M (W := W) Z :=
  FuseBuf.fuse_buf_fd_to_fd local_buf.
Definition dev_fuse_buf_splice : FuseBuf.fuse_buf -> Z -> FuseBuf.fuse_buf -> Z -> Z -> Z -> FuseBuf.M (W := W) Z :=
  FuseBuf.fuse_buf_splice local_buf have_splice.
Definition dev_fuse_buf_copy_one : FuseBuf.fuse_buf -> Z -> FuseBuf.fuse_buf -> Z -> Z -> Z -> FuseBuf.M (W := W) Z :=
  FuseBuf.fuse_buf_copy_one local_buf have_splice.
Definition dev_fuse_buf_copy_pmem : bool -> FuseBuf.fuse_bufvec -> FuseBuf.fuse_bufvec -> Z ->
    FuseBuf.M (W := W) (Z * FuseBuf.fuse_bufvec * FuseBuf.fuse_bufvec) := FuseBuf.fuse_buf_copy_pmem local_buf have_splice.

(** *** dir.cpp *)

Definition dev_dir_new : string -> Z -> string -> Namespace.entry_type -> bool -> option Namespace.dir := Namespace.dir_new.
Definition dev_dir_add_file : Namespace.clock -> string -> Namespace.dir -> Namespace.dir := Namespace.add_file.
Definition dev_dir_remove_file : Namespace.clock -> string -> Namespace.dir -> Namespace.dir := Namespace.remove_file.
Definition dev_dir_find : string -> Namespace.dir -> bool := Namespace.dir_find.
Definition dev_dir_num_links : Namespace.dir -> Z := Namespace.num_links.

(** *** [nvml_devdax_backend]; [loaded] gives the files that are loaded. *)

Abbreviation object := (NvmlFuse.object (L := L)).
Abbreviation backend := (Namespace.backend object).
Variable loaded : string -> Z -> Namespace.entry_type -> option object.
#[local] Instance dev_backend_file : Namespace.BackendFile object := NvmlFuse.nvml_backend_file (fun _ => pool_base) loaded.
#[local] Instance dev_file_data : Fuse.FileData (Segment.env W) object NvmlFuse.buffer :=
  NvmlFuse.nvml_file_data J local_buf have_splice memalign_ok now bufvec_size.

Definition nvml_devdax_backend : string -> Z -> option backend := Namespace.nvml_backend.
Definition dev_load : Namespace.clock -> string -> Namespace.entry_type -> backend -> Namespace.outcome object Errors.error_code := Namespace.load.
Definition dev_exists : string -> backend -> bool := Namespace.exists_.
Definition dev_do_readdir : string -> backend -> list string := Namespace.do_readdir.
Definition dev_do_stat : string -> backend -> Namespace.outcome object (Z * option Namespace.attr) := Namespace.do_stat.
Definition dev_do_create : Namespace.clock -> string -> Z -> backend -> Namespace.outcome object (Z * option positive) := Namespace.do_create.
Definition dev_do_unlink : Namespace.clock -> string -> backend -> Namespace.outcome object Z := Namespace.do_unlink.
Definition dev_do_renamedir : Namespace.clock -> string -> string -> backend -> Namespace.outcome object Z := Namespace.do_renamedir.
Definition dev_do_rename : Namespace.clock -> string -> string -> backend -> Namespace.outcome object Z := Namespace.do_rename.
Definition dev_do_mkdir : Namespace.clock -> string -> Z -> backend -> Namespace.outcome object Z := Namespace.do_mkdir.
Definition dev_do_rmdir : Namespace.clock -> string -> backend -> Namespace.outcome object Z := Namespace.do_rmdir.
Definition dev_do_chmod : Namespace.clock -> string -> Z -> backend -> Namespace.outcome object Z := Namespace.do_chmod.
Definition dev_do_chown : Namespace.clock -> string -> Z -> Z -> backend -> Namespace.outcome object Z := Namespace.do_chown.
Definition dev_find_s : string -> backend -> list string := Namespace.find_s.
Definition dev_do_change_type : string -> Namespace.entry_type -> backend -> Namespace.outcome object unit := Namespace.do_change_type.
Definition dev_remove_root : string -> backend -> option string := Namespace.remove_root.
Definition dev_new_inode : backend -> Z * backend := Namespace.new_inode.

(** At the end of the daemon, with the host's file system. *)
Context `{RS : NvmlUnload.Results W}.
Definition dev_mkdir_p : string -> W -> option (Z * W) := NvmlUnload.mkdir_p.
Definition dev_unload_to : string -> op Z := NvmlUnload.unload_to J.
Definition dev_unload_all : string -> list (string * positive) -> gmap positive object -> Segment.env W ->
    option ((Segment.exn + Errors.error_code) * (gmap positive object * Segment.env W)) := NvmlUnload.unload_all J.

(** The handlers over this backend. *)
Abbreviation fsys := (Fuse.filesystem (Segment.env W) object).
Abbreviation request := (FuseSpec.request NvmlFuse.buffer).
Abbreviation reply := (FuseSpec.reply NvmlFuse.buffer).
Definition dev_dispatch : Namespace.clock -> request -> fsys -> Fuse.answer (Segment.env W) object reply := FuseSpec.dispatch.
Definition dev_serves : list (request * reply) -> fsys -> fsys -> Prop :=
  NvmlFuse.serves J local_buf have_splice memalign_ok now (fun _ => pool_base) bufvec_size loaded.
Definition dev_kernel : fsys -> request -> Prop := fun s =>
  NvmlFuse.pkernel J (FuseSpec.abs s).

(** C4: The file system over the device DAX backend is a POSIX file system until the allocator
    starts over, for requests of [pkernel] that do not extend a file without data (a block of
    the device is not zeroed, [devdax_stale_bytes], so [ftruncate] and [fallocate] are left
    out). As long as a write finds room behind the last block of the device, a request is
    answered, and the reply and the change of the tree, of the bytes of the files and of the
    open handles are those of the POSIX call. As for the other backend, data is written from
    memory and read at offsets up to the end of file, and there are no symbolic links, no
    renaming of directories or of a file to itself, no [truncate] by path and no times of
    directories. *)
Theorem devdax_fuse_posix (c : Namespace.clock) (l : list (request * reply)) (s0 s : fsys) (r : request) :
  FuseSpec.mounted s0 -> dev_ok SS mapping (Segment.e_maps (Fuse.fs_data s0)) (Segment.e_world (Fuse.fs_data s0)) ->
  dev_serves l s0 s -> NamespaceSpec.fits (Fuse.fs_backend s) -> dev_kernel s r ->
  exists y s', dev_dispatch c r s = Fuse.Reply y s' /\
    NvmlFuse.pspec memalign_ok (NvmlFuse.pabs s) r (NvmlFuse.payload (FuseSpec.abs s) r) y (NvmlFuse.pabs s').
Proof.
  intros Hm Hst Hr Hf Hk. pose proof (NvmlFuse.serves_sound (SL := dev_laws) J J_range local_buf have_splice memalign_ok now (fun _ => pool_base)
    bufvec_size bufvec_size_ok loaded l s0 s I Hr (NvmlFuse.mounted_sound s0 Hm Hst)) as Hs.
  destruct (NvmlFuse.dispatch_posix (SL := dev_laws) J J_range local_buf have_splice memalign_ok now (fun _ => pool_base)
    bufvec_size bufvec_size_ok loaded c r s I Hs Hf Hk) as (y & s' & E & _ & Hsp). eauto.
Qed.

End Backend.

(** ** A concrete device *)

(** The machine of [Segment] with the allocator, which has not mapped the device yet. *)
Record dmachine := DMachine { dm_rest : Segment.machine; dm_pool : big_pool }.
#[local] Existing Instances RangeMutex.lock_manager_mutex Segment.machine_kernel NamespaceSpec.sample_host.
#[local] Instance dmachine_kernel : FuseBuf.Kernel dmachine.
Proof.
  refine {| FuseBuf.sys_read w fd len pos :=
              (fun x => (x.1, DMachine x.2 (dm_pool w))) (FuseBuf.sys_read (dm_rest w) fd len pos);
            FuseBuf.sys_write w fd bs pos :=
              (fun x => (x.1, DMachine x.2 (dm_pool w))) (FuseBuf.sys_write (dm_rest w) fd bs pos);
            FuseBuf.sys_splice w fd p fd' p' len :=
              (fun x => (x.1, DMachine x.2 (dm_pool w))) (FuseBuf.sys_splice (dm_rest w) fd p fd' p' len) |}.
  - intros w fd len pos bs w' Hl Hx. destruct (FuseBuf.sys_read (dm_rest w) fd len pos) eqn:E. injection Hx as -> _. by eapply FuseBuf.sys_read_le.
  - intros w fd len pos e w' Hx. destruct (FuseBuf.sys_read (dm_rest w) fd len pos) eqn:E. injection Hx as -> _. by eapply FuseBuf.sys_read_errno.
  - intros w fd bs pos n w' Hx. destruct (FuseBuf.sys_write (dm_rest w) fd bs pos) eqn:E. injection Hx as -> _. by eapply FuseBuf.sys_write_le.
  - intros w fd bs pos e w' Hx. destruct (FuseBuf.sys_write (dm_rest w) fd bs pos) eqn:E. injection Hx as -> _. by eapply FuseBuf.sys_write_errno.
  - intros w fd p fd' p' len n w' Hl Hx. destruct (FuseBuf.sys_splice (dm_rest w) fd p fd' p' len) eqn:E. injection Hx as -> _.
    by eapply FuseBuf.sys_splice_le.
  - intros w fd p fd' p' len e w' Hx. destruct (FuseBuf.sys_splice (dm_rest w) fd p fd' p' len) eqn:E. injection Hx as -> _.
    by eapply FuseBuf.sys_splice_errno.
Defined.
#[local] Instance dmachine_sources : Segment.Sources dmachine := {| Segment.open_stat w _ := (Some (3, Segment.k_stat (dm_rest w)), w) |}.
#[local] Instance dmachine_device : HasDevice dmachine.
Proof. by refine {| bpool := dm_pool; set_bpool p w := DMachine (dm_rest w) p |}. Defined.
#[local] Instance dmachine_fuse : NvmlFile.FuseLib dmachine.
Proof.
  refine {| NvmlFile.fuse_buf_copy dstv srcv flags := FuseBuf.fuse_buf_copy_pmem 0 false false dstv srcv flags |}.
  intros dstv srcv flags m w Hd Hs Hmd Hms Hdis. apply (FuseBuf.copy_loop_memory 0 false _ dstv srcv flags 0); try done.
  unfold FuseBuf.left_over. lia.
Defined.

Definition mapped : Z := 2 ^ 40.
Definition denv0 : Segment.env dmachine :=
  Segment.Env NvmlSpec.user_mem [(1, 4)] (DMachine NvmlSpec.world0 (BigPool ∅ 0 0 false 0 0 0)).

(** Files with segments of [2^K] bytes: the four bytes of the user's buffer are written at the
    start of a new file, and four bytes are read. *)
Abbreviation dst := (NvmlFile.St (W := dmachine) (L := RangeMutex.locker)).
Definition new_with (K : Z) (e : Segment.env dmachine) : option dst :=
  match dev_file_new K mapped 0 "/dev/dax" "f" NvmlFile.persistent false 3 e with
  | Some (inr _, s) =>
      match dev_put_data K mapped 0 0 true 0 4 (NvmlSpec.user_buf 4) s with Some (inr 4, s) => Some s | _ => None end
  | _ => None
  end.
Definition read_of (K : Z) (f : NvmlFile.file RangeMutex.locker) (e : Segment.env dmachine) : option (list Z) :=
  match dev_get_data K mapped 0 NvmlSpec.can_alloc 0 4 (f, e) with Some (inr (_, bs), _) => Some bs | _ => None end.
Definition refill (bs : list Z) (e : Segment.env dmachine) : Segment.env dmachine :=
  Segment.Env (FuseBuf.mem_put (Segment.e_mem e) 1 bs) (Segment.e_maps e) (Segment.e_world e).

(** When the allocator starts over, a new file takes the memory of an old one: on a device of
    four segments, of which each of five small files needs none by the count of [allocate], the
    fifth file overwrites the first. *)
Definition five_files : option (list Z * list Z) :=
  '(f1, e) ← new_with 37 denv0; '(_, e) ← new_with 37 e; '(_, e) ← new_with 37 e; '(_, e) ← new_with 37 e;
  before ← read_of 37 f1 e; '(_, e) ← new_with 37 (refill [21; 22; 23; 24] e);
  after ← read_of 37 f1 e; Some (before, after).
Theorem devdax_starts_over : five_files = Some ([11; 12; 13; 14], [21; 22; 23; 24]).
Proof. vm_compute. reflexivity. Qed.

(** A file that is extended without data shows what the device held before. *)
Definition extended : option (list Z) :=
  let e := Segment.Env (FuseBuf.mem_put (Segment.e_mem denv0) mapped [7; 7; 7; 7]) [(1, 4)] (Segment.e_world denv0) in
  match dev_file_new 27 mapped 0 "/dev/dax" "f" NvmlFile.persistent false 3 e with
  | Some (inr _, s) => match dev_allocate 27 mapped 0 0 0 4 s with Some (inr 0, (f, e)) => read_of 27 f e | _ => None end
  | _ => None
  end.
Theorem devdax_stale_bytes : extended = Some [7; 7; 7; 7].
Proof. vm_compute. reflexivity. Qed.

(** A file created on the mounted device, and a write to it. *)
Abbreviation dfs := (Fuse.filesystem (Segment.env dmachine) (NvmlFuse.object (L := RangeMutex.locker))).
Abbreviation creation := (FuseSpec.RCreate "/a" 420 1 : FuseSpec.request NvmlFuse.buffer).
Abbreviation ddispatch := (dev_dispatch 27 mapped 0 0 true NvmlSpec.can_alloc 0 "/dev/dax" NvmlFuse.vec_size NvmlFuse.no_file NamespaceSpec.clk).
Definition dfs0 : dfs :=
  Fuse.Filesystem (default (Namespace.Backend "" ∅ ∅ 0 ∅ 1%positive) (nvml_devdax_backend "/data/" 7)) ∅ ∅ 1%positive 0 denv0.
Definition dfs_a : dfs := match ddispatch creation dfs0 with Fuse.Reply _ s => s | _ => dfs0 end.
Lemma dfs0_ok : dev_ok (2 ^ 27) mapped (Segment.e_maps (Fuse.fs_data dfs0)) (Segment.e_world (Fuse.fs_data dfs0)).
Proof.
  split; cbn.
  - split; cbn; try done; by vm_compute.
  - set_solver.
  - intros b n [= -> ->]%list_elem_of_singleton. left. by vm_compute.
Qed.
Lemma dfs_a_serves : dev_serves 27 mapped 0 0 true NvmlSpec.can_alloc 0 "/dev/dax" NvmlFuse.vec_size NvmlFuse.no_file
  [(creation, FuseSpec.Handle 0 (Some 1%positive))] dfs0 dfs_a.
Proof.
  apply (NvmlFuse.serves_request _ _ _ _ _ _ _ _ NamespaceSpec.clk _ _ _ _ dfs_a); [NamespaceSpec.concrete_fits | | by vm_compute | constructor].
  split; [| exact I]. split; [apply NamespaceSpec.path_a | split; [done | split; by vm_compute]].
Qed.
Lemma dfs0_mounted : FuseSpec.mounted dfs0.
Proof. exists "/data/", 7. done. Qed.
Lemma dfs_a_sound : NvmlFuse.sound (SL := dev_laws 27 mapped 0) dfs_a.
Proof.
  exact (NvmlFuse.serves_sound (SL := dev_laws 27 mapped 0) 27 ltac:(lia) 0 true NvmlSpec.can_alloc 0 (fun _ => "/dev/dax") NvmlFuse.vec_size
    NvmlFuse.vec_size_ok NvmlFuse.no_file _ _ _ I dfs_a_serves (NvmlFuse.mounted_sound (SL := dev_laws 27 mapped 0) _ dfs0_mounted dfs0_ok)).
Qed.
Lemma dfs_a_write : dev_kernel 27 mapped 0 dfs_a (NvmlFuse.write_to 1%positive).
Proof.
  exists [], (NvmlSpec.user_buf 4). split; [exists 1%positive; by vm_compute |]. split; [done |]. split.
  - constructor; try done.
    + apply FuseBuf.vec_ok_of; reflexivity.
    + intros b ->%list_elem_of_singleton. reflexivity.
    + change (FuseBuf.remaining (NvmlSpec.user_buf 4)) with (seqZ 1 4). intros x Hx%elem_of_seqZ.
      apply (NvmlFuse.foreign_below (SL := dev_laws 27 mapped 0) dfs_a 1 4); [apply dfs_a_sound | by_evaluation | by_evaluation | lia].
  - split; [simpl; lia |]. split; [by vm_compute |]. by vm_compute.
Qed.
Lemma devdax_fuse_posix_witness : exists y s', ddispatch (NvmlFuse.write_to 1%positive) dfs_a = Fuse.Reply y s' /\
  NvmlFuse.pspec NvmlSpec.can_alloc (NvmlFuse.pabs dfs_a) (NvmlFuse.write_to 1%positive)
    (NvmlFuse.payload (FuseSpec.abs dfs_a) (NvmlFuse.write_to 1%positive)) y (NvmlFuse.pabs s').
Proof.
  refine (devdax_fuse_posix 27 ltac:(lia) mapped 0 0 true NvmlSpec.can_alloc 0 "/dev/dax" NvmlFuse.vec_size NvmlFuse.vec_size_ok
    NvmlFuse.no_file NamespaceSpec.clk _ dfs0 dfs_a (NvmlFuse.write_to 1%positive) _ _ _ _ _);
    [apply dfs0_mounted | apply dfs0_ok | apply dfs_a_serves | NamespaceSpec.concrete_fits | apply dfs_a_write].
Defined.

End DevdaxFile.
