(* ===== verification/MountHelper.v ===== *)
(** * The mounter: src/fuse-mount-helper.cpp

    [fuse_custom_mounter] sets the file system up with libfuse, runs its loop and takes it down
    again, with the calls of FUSE 2 or of FUSE 3. libfuse is the class [LibFuse]: its calls, and
    what they do to the handle, the mount and the signal handlers of the process. *)
From S2P Require Import Prelude Settings.
From stdpp Require Import base list numbers option strings.
Local Open Scope string_scope.
Local Open Scope Z_scope.

Module MountHelper.

(** What libfuse holds: a handle, a mount, signal handlers. *)
Record held := Held { h_fuse : bool; h_mount : bool; h_signals : bool }.
Definition nothing : held := Held false false false.

Class LibFuse (W : Type) := {
  holds : W -> held;
  (* FUSE 2; the flag is [multithreaded] *)
  fuse_setup : list Settings.cptr -> W -> option bool * W;
  fuse_teardown : W -> W;
  (* FUSE 3 *)
  fuse_new : list Settings.cptr -> W -> bool * W;
  fuse_mount : string -> W -> W;
  fuse_set_signal_handlers : W -> Z * W;
  fuse_daemonize : bool -> W -> W;
  fuse_remove_signal_handlers : W -> W;
  fuse_unmount : W -> W;
  fuse_destroy : W -> W;
  fuse_loop_mt : W -> Z * W;
  fuse_loop : W -> Z * W;
  setup_some args w mt w' : fuse_setup args w = (Some mt, w') -> holds w' = Held true true true;
  setup_none args w w' : fuse_setup args w = (None, w') -> holds w' = holds w;
  teardown_holds w : holds (fuse_teardown w) = nothing;
  new_holds args w b w' : fuse_new args w = (b, w') -> holds w' = if b then Held true (h_mount (holds w)) (h_signals (holds w)) else holds w;
  mount_holds p w : exists b, holds (fuse_mount p w) = Held (h_fuse (holds w)) b (h_signals (holds w));
  signals_hold w r w' : fuse_set_signal_handlers w = (r, w') ->
    holds w' = if r =? 0 then Held (h_fuse (holds w)) (h_mount (holds w)) true else holds w;
  daemonize_holds b w : holds (fuse_daemonize b w) = holds w;
  remove_holds w : holds (fuse_remove_signal_handlers w) = Held (h_fuse (holds w)) (h_mount (holds w)) false;
  unmount_holds w : holds (fuse_unmount w) = Held (h_fuse (holds w)) false (h_signals (holds w));
  destroy_holds w : holds (fuse_destroy w) = Held false (h_mount (holds w)) (h_signals (holds w));
  loop_mt_holds w : holds (fuse_loop_mt w).2 = holds w;
  loop_holds w : holds (fuse_loop w).2 = holds w }.

Section Mounter.
Context {W : Type} `{LF : LibFuse W}.

(** [fuse_custom_mounter(user_opts, ops)]; [fuse3] is the version of the build. The result of
    [fuse_mount] is not looked at. *)
Definition fuse_custom_mounter (fuse3 : bool) (user_opts : Settings.settings) (w : W) : Z * W :=
  if fuse3 then
    match fuse_new (Settings.m_fuse_argv user_opts) w with
    | (false, w) => (1, w)
    | (true, w) =>
        match fuse_set_signal_handlers (fuse_mount (Settings.m_mount_dir user_opts) w) with
        | (r, w) =>
            if negb (r =? 0) then (1, w)
            else
              let '(res, w) := fuse_loop_mt (fuse_daemonize (negb (Settings.m_daemonize user_opts)) w) in
              (if res =? -1 then 1 else 0, fuse_destroy (fuse_unmount (fuse_remove_signal_handlers w)))
        end
    end
  else
    match fuse_setup (Settings.m_fuse_argv user_opts) w with
    | (None, w) => (1, w)
    | (Some multithreaded, w) =>
        let '(res, w) := if multithreaded then fuse_loop_mt w else fuse_loop w in
        (if res =? -1 then 1 else 0, fuse_teardown w)
    end.

(** Whatever libfuse answers, the mounter returns 0 or 1, and what was set up is taken down
    again, but for one path of FUSE 3: when the signal handlers cannot be set, the handle and
    the mount are left. *)
Theorem mounter_releases (fuse3 : bool) (user_opts : Settings.settings) (w : W) :
  holds w = nothing ->
  let '(code, w') := fuse_custom_mounter fuse3 user_opts w in
  (code = 0 \/ code = 1) /\
  (holds w' = nothing \/ fuse3 = true /\ code = 1 /\ h_fuse (holds w') = true /\ h_signals (holds w') = false).
Proof.
  intros Hw. unfold fuse_custom_mounter. destruct fuse3.
  - destruct (fuse_new (Settings.m_fuse_argv user_opts) w) as [b w1] eqn:En. apply new_holds in En. rewrite Hw in En.
    destruct b; [| split; [by right | by left]]. destruct (mount_holds (Settings.m_mount_dir user_opts) w1) as [b Hm]. rewrite En in Hm. cbn in Hm.
    destruct (fuse_set_signal_handlers _) as [r w2] eqn:Es. apply signals_hold in Es. rewrite Hm in Es. cbn in Es.
    destruct (r =? 0); cbn [negb]; [| split; [by right |]; right; by rewrite Es].
    destruct (fuse_loop_mt _) as [res w3] eqn:El. split; [destruct (res =? -1); auto |]. left.
    by rewrite destroy_holds, unmount_holds, remove_holds.
  - destruct (fuse_setup _ w) as [[mt |] w1] eqn:En; [| apply setup_none in En; split; [by right |]; left; by rewrite En].
    destruct (if mt then _ else _) as [res w2]. split; [destruct (res =? -1); auto |]. left. apply teardown_holds.
Qed.

End Mounter.

(** ** A libfuse whose handlers cannot be set *)

#[export] Instance scripted_fuse : LibFuse (held * Z).
Proof.
  refine {| holds := fst;
    fuse_setup _ w := (Some true, (Held true true true, w.2)); fuse_teardown w := (nothing, w.2);
    fuse_new _ w := (true, (Held true (h_mount w.1) (h_signals w.1), w.2));
    fuse_mount _ w := (Held (h_fuse w.1) true (h_signals w.1), w.2);
    fuse_set_signal_handlers w := (w.2, if w.2 =? 0 then (Held (h_fuse w.1) (h_mount w.1) true, w.2) else w);
    fuse_daemonize _ w := w;
    fuse_remove_signal_handlers w := (Held (h_fuse w.1) (h_mount w.1) false, w.2);
    fuse_unmount w := (Held (h_fuse w.1) false (h_signals w.1), w.2);
    fuse_destroy w := (Held false (h_mount w.1) (h_signals w.1), w.2);
    fuse_loop_mt w := (0, w); fuse_loop w := (0, w) |}; try done.
  - by intros args w mt w' [= <- <-].
  - by intros args w b w' [= <- <-].
  - intros p w. by eexists.
  - intros w r w' [= <- <-]. by destruct (w.2 =? 0).
Defined.
(** The file system stays mounted after the mounter has returned. *)
Example mounter_leaves_mount user_opts : fuse_custom_mounter true user_opts (nothing, -1) = (1, (Held true true false, -1)).
Proof. done. Qed.

End MountHelper.
