(* ===== verification/Startup.v ===== *)
(** * Starting the daemon: src/backends/backend-base.cpp, src/context.cpp

    [context::initialize] makes a backend for every entry of the settings, checks that there is
    one, and submits a task for every resource that is to be loaded. The constructors of the
    backends are the parameter [construct], which gives no backend when they throw; floating
    point numbers are the class [Doubles]. *)
From S2P Require Import Prelude Errors Parsers Settings Namespace.
From Stdlib Require Import Ascii String.
From stdpp Require Import base list numbers option strings gmap fin_maps.
Local Open Scope string_scope.
Local Open Scope Z_scope.
Local Open Scope list_scope.

Module Startup.
Import Settings.

(** [double]: [std::stod] throws or gives a number, [scale] is the product with an integer,
    [to_int64] rounds; the conversion of a value that does not fit is undefined. *)
Class Doubles := {
  double : Type;
  stod : string -> option double;
  scale : double -> Z -> double;
  to_int64 : double -> option Z }.

Inductive backend_type := UNKNOWN | DRAM | NVRAM_NVML | NVRAM_DEVDAX.
#[export] Instance backend_type_eq_dec : EqDecision backend_type.
Proof. solve_decision. Defined.

(** [backend::name_to_type(name)] *)
Definition name_to_type (name : string) : backend_type :=
  if bool_decide (name = "DRAM") then DRAM
  else if bool_decide (name = "NVRAM-NVML") then NVRAM_NVML
  else if bool_decide (name = "NVRAM-DEVDAX") then NVRAM_DEVDAX
  else UNKNOWN.

(** The units of [parse_size], in the order in which it looks for them. *)
Definition units : list (string * Z) :=
  [("KB", 10 ^ 3); ("KiB", 2 ^ 10); ("MB", 10 ^ 6); ("MiB", 2 ^ 20); ("GB", 10 ^ 9); ("GiB", 2 ^ 30)].
Fixpoint find_unit (us : list (string * Z)) (s : string) : option (nat * Z) :=
  match us with
  | [] => None
  | (u, factor) :: us =>
      match Namespace.find_string u s with Some found => Some (found, factor) | None => find_unit us s end
  end.

Section Startup.
Context `{Doubles}.

(** [backend::parse_size(str)] *)
Definition parse_size (str : string) : Parsers.res Z :=
  let scopy := string_of_list_ascii (filter (fun c => Parsers.isspace c = false) (list_ascii_of_string str)) in
  let number prefix factor :=
    match stod prefix with
    | None => Parsers.Throw (Parsers.InvalidArgument "stod")
    | Some value => match to_int64 (scale value factor) with Some n => Parsers.Ok n | None => Parsers.Undef end
    end in
  match find_unit units scopy with
  | Some (found, factor) => number (String.substring 0 found scopy) factor
  | None =>
      if forallb Parsers.isdigit (list_ascii_of_string scopy) then number scopy 1 else Parsers.Ok (-1)
  end.

(** The backend that is asked for. *)
Inductive backend_spec :=
  | NewDram (capacity : Z)
  | NewNvml (capacity : Z) (daxfs root_dir : string) (segment_size : Z)
  | NewDevdax (capacity : Z) (daxfs root_dir : string) (segment_size : Z).

(** The options [daxfs] and [segment-size] of the two kinds of NVRAM. *)
Definition nvram_options (opts : backend_options) : Parsers.res (string * Z) :=
  match b_extra_options opts !! "daxfs" with
  | None => Parsers.Throw (Parsers.RuntimeError ("Mandatory option 'daxfs' missing in definition of backend '" +:+ b_id opts +:+ "'"))
  | Some daxfs =>
      match b_extra_options opts !! "segment-size" with
      | None => Parsers.Ok (daxfs, -1)
      | Some str =>
          match parse_size str with
          | Parsers.Ok ssize => Parsers.Ok (daxfs, ssize)
          | Parsers.Throw _ =>
              Parsers.Throw (Parsers.RuntimeError ("Invalid argument in option 'segment-size' of backend '" +:+ b_id opts +:+ "'"))
          | Parsers.Undef => Parsers.Undef
          end
      end
  end.

(** [backend::create_from_options(opts)], up to the call of the constructor; [None] is the null
    pointer. *)
Definition create_from_options (opts : backend_options) : Parsers.res (option backend_spec) :=
  match name_to_type (b_type opts) with
  | DRAM => Parsers.Ok (Some (NewDram (b_capacity opts)))
  | NVRAM_NVML =>
      Parsers.bind (nvram_options opts) (fun '(daxfs, ssize) => Parsers.Ok (Some (NewNvml (b_capacity opts) daxfs (b_root_dir opts) ssize)))
  | NVRAM_DEVDAX =>
      Parsers.bind (nvram_options opts) (fun '(daxfs, ssize) => Parsers.Ok (Some (NewDevdax (b_capacity opts) daxfs (b_root_dir opts) ssize)))
  | UNKNOWN => Parsers.Ok None
  end.

Context {Bk : Type} (construct : backend_spec -> option Bk).

(** What starting ends with. *)
Inductive started (X : Type) := Started (x : X) | Exception | Crash.
#[local] Arguments Started {X}.
#[local] Arguments Exception {X}.
#[local] Arguments Crash {X}.

(** The body of the loop over the backends: exceptions are logged; the name of the backend is
    printed, through a pointer that may be null. *)
Definition setup_backend (id : string) (opts : backend_options) (m_backends : gmap string Bk) : started (gmap string Bk) :=
  match create_from_options opts with
  | Parsers.Ok (Some spec) =>
      match construct spec with
      | None => Started m_backends
      | Some b => Started (match m_backends !! id with Some _ => m_backends | None => <[id := b]> m_backends end)
      end
  | Parsers.Ok None => Crash
  | Parsers.Throw _ => Started m_backends
  | Parsers.Undef => Crash
  end.
Fixpoint setup_backends (l : list (string * backend_options)) (m_backends : gmap string Bk) : started (gmap string Bk) :=
  match l with
  | [] => Started m_backends
  | (id, opts) :: l =>
      match setup_backend id opts m_backends with
      | Started m_backends => setup_backends l m_backends
      | Exception => Exception
      | Crash => Crash
      end
  end.

(** A task that loads a resource. *)
Record load_task := LoadTask { t_target : string; t_path : string; t_type : Namespace.entry_type }.
Fixpoint import_resources (rs : list (gmap string string)) (m_backends : gmap string Bk) : started (list load_task) :=
  match rs with
  | [] => Started []
  | kv :: rs =>
      match kv !! "path", kv !! "backend", kv !! "flags" with
      | Some pathname, Some target, Some flag =>
          match import_resources rs m_backends with
          | Started ts =>
              Started (match m_backends !! target with
                       | None => ts
                       | Some _ =>
                           LoadTask target pathname (if bool_decide (flag = "temporary") then Namespace.temporary else Namespace.persistent) :: ts
                       end)
          | r => r
          end
      | _, _, _ => Exception
      end
  end.

(** [context::initialize()] up to the start of the listener: the backends and the tasks it
    submits; [results] are the codes of the tasks. *)
Definition initialize (s : settings) (results : list load_task -> list Errors.error_code)
    : started (gmap string Bk * list load_task) :=
  match setup_backends (map_to_list (m_backend_opts s)) ∅ with
  | Started m_backends =>
      if bool_decide (m_backends = ∅) then Exception
      else
        match import_resources (m_resources s) m_backends with
        | Started tasks =>
            if forallb (fun rv => match rv with Errors.success => true | _ => false end) (results tasks)
            then Started (m_backends, tasks) else Exception
        | Exception => Exception
        | Crash => Crash
        end
  | Exception => Exception
  | Crash => Crash
  end.

(** ** What starting does *)

(** The entry stops the daemon: its type is not known, or its segment size is out of range. *)
Definition fatal (opts : backend_options) : bool :=
  match create_from_options opts with Parsers.Ok None | Parsers.Undef => true | _ => false end.
(** The backend an entry stands for, if it can be made. *)
Definition backend_of_entry (opts : backend_options) : option Bk :=
  match create_from_options opts with Parsers.Ok (Some spec) => construct spec | _ => None end.
(** The task for a resource, and that it has its three options. *)
Definition complete (kv : gmap string string) : bool :=
  bool_decide (is_Some (kv !! "path")) && bool_decide (is_Some (kv !! "backend")) && bool_decide (is_Some (kv !! "flags")).
Definition task_of (m_backends : gmap string Bk) (kv : gmap string string) : option load_task :=
  pathname ← kv !! "path"; target ← kv !! "backend"; flag ← kv !! "flags"; _ ← m_backends !! target;
  Some (LoadTask target pathname (if bool_decide (flag = "temporary") then Namespace.temporary else Namespace.persistent)).
Definition succeeded (rv : Errors.error_code) : bool := match rv with Errors.success => true | _ => false end.

Lemma setup_backends_fatal l m : existsb (fun x => fatal x.2) l = true -> setup_backends l m = Crash.
Proof.
  revert m. induction l as [| [id o] l IH]; intros m; [done |]. cbn. unfold setup_backend, fatal at 1.
  destruct (create_from_options o) as [[spec |] | |]; cbn; try done; intros Hf; [destruct (construct spec) |]; by apply IH.
Qed.
Lemma setup_backends_ok l : forall m, existsb (fun x => fatal x.2) l = false -> NoDup l.*1 -> (forall id, id ∈ l.*1 -> m !! id = None) ->
  exists m', setup_backends l m = Started m' /\
    forall id, m' !! id = match (list_to_map l : gmap string backend_options) !! id with Some o => backend_of_entry o | None => m !! id end.
Proof.
  induction l as [| [id o] l IH]; intros m Hf Hnd Hm; [by exists m |].
  cbn in Hf. apply orb_false_elim in Hf as [Ho Hf]. apply NoDup_cons in Hnd as [Hid Hnd].
  assert (Hidm : m !! id = None) by (apply Hm, list_elem_of_here).
  assert (HE : exists m1, setup_backend id o m = Started m1 /\ m1 !! id = backend_of_entry o /\ forall i, i <> id -> m1 !! i = m !! i).
  { unfold setup_backend, backend_of_entry. unfold fatal in Ho. cbn in Ho. destruct (create_from_options o) as [[spec |] | |]; try done; [| by exists m].
    destruct (construct spec) as [b |]; [| by exists m]. rewrite Hidm. eexists. split; [reflexivity |].
    split; [by rewrite lookup_insert_eq |]. intros i Hi. by rewrite lookup_insert_ne. }
  destruct HE as (m1 & E & Hm1 & Hrest). cbn [setup_backends]. rewrite E.
  destruct (IH m1 Hf Hnd) as (m' & E' & Hm').
  { intros i Hi. rewrite Hrest by (by intros ->). by apply Hm, list_elem_of_further. }
  exists m'. split; [done |]. intros i. rewrite Hm'. cbn. destruct (decide (i = id)) as [-> | Hne].
  - rewrite lookup_insert_eq. by rewrite not_elem_of_list_to_map_1.
  - rewrite lookup_insert_ne by done. destruct (list_to_map l !! i); [done | by apply Hrest].
Qed.

Lemma setup_backends_exact (opts : gmap string backend_options) :
  setup_backends (map_to_list opts) ∅
  = if existsb (fun x => fatal x.2) (map_to_list opts) then Crash else Started (omap backend_of_entry opts).
Proof.
  destruct (existsb _ _) eqn:Hf; [by apply setup_backends_fatal |].
  destruct (setup_backends_ok (map_to_list opts) ∅ Hf (NoDup_fst_map_to_list opts)) as (m' & -> & Hm); [done |].
  f_equal. apply map_eq. intros id. rewrite Hm, list_to_map_to_list, lookup_omap. by destruct (opts !! id).
Qed.

Lemma import_resources_exact rs m :
  import_resources rs m = if forallb complete rs then Started (omap (task_of m) rs) else Exception.
Proof.
  induction rs as [| kv rs IH]; [done |]. cbn [import_resources forallb]. unfold complete at 1. cbn [omap list_omap]. rewrite IH.
  unfold task_of at 2. destruct (kv !! "path"), (kv !! "backend") as [target |], (kv !! "flags"); cbn; try done.
  destruct (forallb complete rs); [| done]. by destruct (m !! target).
Qed.

(** The start of the daemon: it crashes when an entry is fatal; otherwise the backends are
    those of the entries whose options are valid and whose constructor returns, each under its
    id; without any, or when a resource lacks an option or one of the loads fails, an exception
    ends the start; and the loads are those of the resources whose backend is there, in the
    order of the settings, persistent unless they are marked as temporary. *)
Theorem initialize_exact (s : settings) (results : list load_task -> list Errors.error_code) :
  initialize s results =
    let backends := omap backend_of_entry (m_backend_opts s) in
    let tasks := omap (task_of backends) (m_resources s) in
    if existsb (fun x => fatal x.2) (map_to_list (m_backend_opts s)) then Crash
    else if bool_decide (backends = ∅) then Exception
    else if forallb complete (m_resources s) && forallb succeeded (results tasks) then Started (backends, tasks)
    else Exception.
Proof.
  unfold initialize. rewrite setup_backends_exact. cbn zeta. destruct (existsb _ _); [done |].
  destruct (bool_decide _); [done |]. rewrite import_resources_exact. by destruct (forallb complete (m_resources s)).
Qed.

End Startup.
Arguments Started {X}.
Arguments Exception {X}.
Arguments Crash {X}.
End Startup.
