(* ===== verification/Daemon.v ===== *)
(** * The life of the process: src/context.cpp and src/efs-ng.cpp (main, init, destroy)

    [main] reads the settings and hands over to libfuse, which calls [efsng_init] before the
    first request and [efsng_destroy] after the last. The first makes the context: the logger,
    the backends, the imports, the socket and its listener. The second tears it down: the files
    of the first backend are unloaded, then the listener, the socket and the pool go.
    What the import tasks and the unloading do to a backend, whether the logger can be made and
    libfuse are parameters; the socket in the file system is the class [Sockets]. The NVML
    backend is put in at the end. *)
From S2P Require Import Prelude Common RangeLock RangeMutex Mdds FuseBuf Segment NvmlFile NvmlSpec NvmlStore.
From S2P Require Import Errors Wire Api Listener ThreadPool Parsers Settings Startup.
From S2P Require Import Namespace NamespaceSpec Fuse FuseSpec NvmlFuse NvmlUnload Lifecycle.
From Stdlib Require Import Ascii String.
From stdpp Require Import base list numbers option strings gmap sets relations.
Local Open Scope string_scope.
Local Open Scope Z_scope.
Local Open Scope list_scope.

Module Daemon.

(** The socket: [bfs::exists], [bfs::remove], which may throw, and the bind of the acceptor. *)
Class Sockets (W : Type) := {
  sock_exists : W -> string -> bool;
  sock_remove : W -> string -> bool * W;
  sock_bind : W -> string -> bool * W;
  sock_removed w p w' : sock_remove w p = (true, w') -> sock_exists w' p = false;
  sock_bound w p w' : sock_bind w p = (true, w') -> sock_exists w' p = true;
  sock_in_use w p : sock_exists w p = true -> (sock_bind w p).1 = false }.

Definition EXIT_FAILURE : Z := 1.

(** The end of a call: it returns, it throws, or the program is gone. *)
Inductive outcome (C W : Type) := Returned (c : C) (w : W) | Threw (c : C) (w : W) | Crashed.
Arguments Returned {C W}.
Arguments Threw {C W}.
Arguments Crashed {C W}.

(** [m_backends.begin()]: a [std::map] is ordered by its keys. *)
Definition smaller {X} (a b : string * X) : string * X := if String.leb a.1 b.1 then a else b.
Definition first_backend {X} (m : gmap string X) : option (string * X) :=
  match map_to_list m with [] => None | x :: l => Some (foldr smaller x l) end.

Lemma smallest {X} (x : string * X) l : foldr smaller x l ∈ x :: l /\ forall y, y ∈ x :: l -> String.le (foldr smaller x l).1 y.1.
Proof.
  assert (Ht : forall a b c : string, String.le a b -> String.le b c -> String.le a c) by (intros a b c; apply transitivity).
  induction l as [| z l [IH1 IH2]]; cbn [foldr].
  - split; [left |]. intros y [-> | ?%elem_of_nil]%elem_of_cons; [reflexivity | done].
  - unfold smaller at 1 3. assert (Hz : String.le z.1 (foldr smaller x l).1 \/ String.le (foldr smaller x l).1 z.1) by (apply (total String.le)).
    destruct (String.leb z.1 (foldr smaller x l).1) eqn:E.
    + split; [set_solver |]. assert (Hle : String.le z.1 (foldr smaller x l).1) by (unfold String.le; by rewrite E).
      intros y Hy. apply elem_of_cons in Hy as [-> | [-> | Hy]%elem_of_cons]; [| reflexivity |]; (eapply Ht; [exact Hle |]); apply IH2; set_solver.
    + split; [set_solver |]. destruct Hz as [Hz | Hz]; [unfold String.le in Hz; by rewrite E in Hz |].
      intros y Hy. apply elem_of_cons in Hy as [-> | [-> | Hy]%elem_of_cons]; [apply IH2; set_solver | done | apply IH2; set_solver].
Qed.
Lemma first_backend_spec {X} (m : gmap string X) : match first_backend m with
  | None => m = ∅
  | Some (id, b) => m !! id = Some b /\ forall id', is_Some (m !! id') -> String.le id id'
  end.
Proof.
  unfold first_backend. destruct (map_to_list m) as [| x l] eqn:E; [by apply map_to_list_empty_iff |].
  destruct (smallest x l) as [H1 H2]. destruct (foldr smaller x l) as [id b]. rewrite <- E in *. split; [by apply elem_of_map_to_list |].
  intros id' [b' Hb']. by apply (H2 (id', b')), elem_of_map_to_list.
Qed.

Section Process.
Context {Bk W S T : Type} `{DB : Startup.Doubles} `{SK : Sockets W}.
Variable construct : Startup.backend_spec -> option Bk.
(** The imports: their codes, and what becomes of the backends. *)
Variable imports : list Startup.load_task -> gmap string Bk -> W -> list Errors.error_code * (gmap string Bk * W).
(** [backend::unload]; the left result is an exception. *)
Variable unload : string -> string -> Bk -> W -> option ((Segment.exn + Errors.error_code) * (Bk * W)).
Variable logger_ok : string * string -> bool.
Variable num_threads : nat.
Variable store : S.

(** [struct context] *)
Record context := Context { m_user_args : Settings.settings; m_api_listener : option (Listener.listener (S := S));
  m_backends : gmap string Bk; m_thread_pool : ThreadPool.pool (T := T); m_forced_shutdown : bool }.
Definition set_backends (m : gmap string Bk) (c : context) : context :=
  Context (m_user_args c) (m_api_listener c) m (m_thread_pool c) (m_forced_shutdown c).
Definition set_listener (l : option (Listener.listener (S := S))) (c : context) : context :=
  Context (m_user_args c) l (m_backends c) (m_thread_pool c) (m_forced_shutdown c).
Definition set_pool (p : ThreadPool.pool (T := T)) (c : context) : context :=
  Context (m_user_args c) (m_api_listener c) (m_backends c) p (m_forced_shutdown c).
Definition set_forced (b : bool) (c : context) : context :=
  Context (m_user_args c) (m_api_listener c) (m_backends c) (m_thread_pool c) b.
Definition context_new (s : Settings.settings) : context := Context s None ∅ (ThreadPool.pool_new num_threads) false.

(** The type of the logger and its file. *)
Definition log_target (s : Settings.settings) : string * string :=
  if negb (bool_decide (Settings.m_log_file s = "none")) then ("file", Settings.m_log_file s)
  else if Settings.m_daemonize s then ("syslog", "") else ("console color", "").
(** A socket file that is there is removed. *)
Definition remove_sockfile (sock : string) (w : W) : bool * W := if sock_exists w sock then sock_remove w sock else (true, w).

(** [context::initialize] *)
Definition context_initialize (c : context) (w : W) : outcome context W :=
  let s := m_user_args c in
  if negb (logger_ok (log_target s)) then Threw c w
  else
    match Startup.setup_backends construct (map_to_list (Settings.m_backend_opts s)) (m_backends c) with
    | Startup.Crash => Crashed
    | Startup.Exception => Threw c w
    | Startup.Started bks =>
        let c := set_backends bks c in
        if bool_decide (bks = ∅) then Threw c w
        else
          match Startup.import_resources (Settings.m_resources s) bks with
          | Startup.Crash => Crashed
          | Startup.Exception => Threw c w
          | Startup.Started tasks =>
              let '(codes, (bks, w)) := imports tasks bks w in
              let c := set_backends bks c in
              if negb (forallb Startup.succeeded codes) then Threw c w
              else
                match remove_sockfile (Settings.m_api_sockfile s) w with
                | (false, w) => Threw c w
                | (true, w) =>
                    match sock_bind w (Settings.m_api_sockfile s) with
                    | (false, w) => Threw c w
                    | (true, w) => Returned (set_listener (Some (Listener.run (Listener.listener_new (Api.initial store)))) c) w
                    end
                end
          end
    end.

(** [context::teardown]: where its thread is, and its next step, which does not exist while it
    waits in a [join]. An exception leaves it from the unloading or from the removal of the
    socket; it crashes on an empty table of backends and when the unloading has no result. *)
Inductive teardown_pc := T_unload | T_listener (pc : Listener.stop_pc) | T_socket | T_pool (pc : ThreadPool.destroy_pc)
  | T_done | T_unload_threw | T_socket_threw | T_crashed.
Definition teardown_step (pc : teardown_pc) (c : context) (w : W) : option (teardown_pc * context * W) :=
  let s := m_user_args c in
  match pc with
  | T_unload =>
      match first_backend (m_backends c) with
      | None => Some (T_crashed, c, w)
      | Some (id, b) =>
          match unload (Settings.m_results_dir s) (Settings.m_mount_dir s) b w with
          | None => Some (T_crashed, c, w)
          | Some (r, (b, w)) =>
              Some (match r with inl _ => T_unload_threw | inr _ => T_listener Listener.S_enter end,
                    set_backends (<[id := b]> (m_backends c)) c, w)
          end
      end
  | T_listener pc =>
      match m_api_listener c, pc with
      | None, _ | _, Listener.S_end => Some (T_socket, c, w)
      | Some l, pc =>
          match Listener.stop_step pc l with
          | Some (pc, l) => Some (T_listener pc, set_listener (Some l) c, w)
          | None => None
          end
      end
  | T_socket =>
      match remove_sockfile (Settings.m_api_sockfile s) w with
      | (true, w) => Some (T_pool ThreadPool.D_done, c, w)
      | (false, w) => Some (T_socket_threw, c, w)
      end
  | T_pool ThreadPool.D_end => Some (T_done, set_forced false c, w)
  | T_pool pc =>
      match ThreadPool.destroy_step pc (m_thread_pool c) with
      | Some (pc, p) => Some (T_pool pc, set_pool p c, w)
      | None => None
      end
  | T_done | T_unload_threw | T_socket_threw | T_crashed => None
  end.
(** [context::trigger_shutdown]: the signal it sends is delivered later, if at all. *)
Definition trigger_shutdown (c : context) : context := set_forced true c.

(** [efsng_init(conn, cfg)]: [private_data] is null with the arguments of [main]. What it asks
    of the kernel connection is left out; the program ends also when the signal is handled. *)
Inductive init_result := Initialized (c : context) (w : W) | Exits (code : Z) (c : context) (w : W) | Aborts.
Definition efsng_init (private_data : option context) (m_user_opts : Settings.settings) (w : W) : init_result :=
  let c := default (context_new m_user_opts) private_data in
  match context_initialize c w with
  | Returned c w => Initialized c w
  | Threw c w => Exits EXIT_FAILURE (trigger_shutdown c) w
  | Crashed => Aborts
  end.
(** [efsng_destroy] is the teardown of the context; an exception that leaves it ends the program. *)
Definition efsng_destroy (private_data : option context) (w : W) : option (teardown_pc * context * W) :=
  match private_data with None => None | Some c => Some (T_unload, c, w) end.

(** [main]: [from_cmdline] may end the program; [fuse_main] is libfuse, which runs the file
    system. *)
Inductive main_result := ReturnsCode (code : Z) | LeavesEarly | Dies.
Definition main (argc : Z) (from_cmdline : Settings.M unit) (m_user_opts : Settings.settings)
    (fuse_main : Z -> list Settings.cptr -> Settings.settings -> Z) : main_result :=
  if argc =? 1 then ReturnsCode EXIT_FAILURE
  else
    match from_cmdline m_user_opts with
    | Settings.Done _ s => ReturnsCode (fuse_main (Settings.m_fuse_argc s) (Settings.m_fuse_argv s) s)
    | Settings.Raised _ _ => ReturnsCode EXIT_FAILURE
    | Settings.Exited => LeavesEarly
    | Settings.AssertFailed | Settings.Undefined => Dies
    end.

(** ** From the start to the end *)

Context `{PB : Api.Protobuf} (has_backend : string -> bool).
Variables (backend_load backend_unload : string -> string -> S -> Errors.error_code * S) (big : bool) (mem : Api.request).

(** What happens between the two: the listener and the workers go on, and requests and tasks
    change the backends in any way. *)
Inductive serving : context * W -> context * W -> Prop :=
  | serving_listener c w l l' : m_api_listener c = Some l -> Listener.activity has_backend backend_load backend_unload big mem l l' ->
      serving (c, w) (set_listener (Some l') c, w)
  | serving_pool c w p : ThreadPool.working (m_thread_pool c) p -> serving (c, w) (set_pool p c, w)
  | serving_backend c w id b b' w' : m_backends c !! id = Some b -> serving (c, w) (set_backends (<[id := b']> (m_backends c)) c, w').

(** The backends that the settings ask for and that could be made. *)
Abbreviation configured s := (omap (Startup.backend_of_entry construct) (Settings.m_backend_opts s)).
Record started_with (s : Settings.settings) (c : context) : Prop := {
  st_args : m_user_args c = s;
  st_listener : is_Some (m_api_listener c);
  st_pool : ThreadPool.inv num_threads (m_thread_pool c);
  st_backends : dom (m_backends c) = dom (configured s);
  st_some : m_backends c <> ∅ }.

Lemma initialize_started s w c w' : (forall ts m w, dom (imports ts m w).2.1 = dom m) ->
  context_initialize (context_new s) w = Returned c w' -> started_with s c /\ sock_exists w' (Settings.m_api_sockfile s) = true.
Proof.
  intros Hdom. unfold context_initialize. cbn [m_user_args m_backends context_new]. destruct (negb (logger_ok _)); [done |].
  rewrite Startup.setup_backends_exact. destruct (existsb _ _); [done |]. case_bool_decide as He; [done |].
  destruct (Startup.import_resources _ _) as [tasks | |]; [| done | done].
  pose proof (Hdom tasks (configured s) w) as Hd. destruct (imports tasks (configured s) w) as [codes [bks w1]]. cbn in Hd.
  destruct (negb (forallb _ _)); [done |]. destruct (remove_sockfile _ w1) as [[|] w2]; [| done].
  destruct (sock_bind w2 _) as [[|] w3] eqn:Eb; [| done]. intros [= <- <-]. apply sock_bound in Eb. split; [| done].
  constructor; cbn; [done | eauto | apply ThreadPool.inv_init | done |]. intros ->. apply He. by rewrite dom_empty_L in Hd; symmetry in Hd; apply dom_empty_iff_L in Hd.
Qed.

Lemma serving_started s c w c' w' : serving (c, w) (c', w') -> started_with s c -> started_with s c'.
Proof.
  intros Hs [H1 H2 H3 H4 H5]. inversion Hs as [? ? l l' Hl Hst | ? ? p Hp | ? ? id b b' ? Hb]; subst; constructor; cbn; try done.
  - by eapply ThreadPool.pool_working_inv.
  - by rewrite dom_insert_lookup_L by eauto.
  - apply insert_non_empty.
Qed.
Lemma served_started s cw cw' : rtc serving cw cw' -> started_with s cw.1 -> started_with s cw'.1.
Proof.
  induction 1 as [| [c1 w1] [c2 w2] cw3 Hst _ IH]; [done |]. intros Hs. apply IH. by eapply serving_started.
Qed.

Lemma remove_sockfile_gone sock w w' : remove_sockfile sock w = (true, w') -> sock_exists w' sock = false.
Proof.
  unfold remove_sockfile. destruct (sock_exists w sock) eqn:E; [apply sock_removed |]. by intros [= <-].
Qed.

(** *** The teardown among the other threads *)

Abbreviation tstate := (teardown_pc * context * W)%type.
(** An exception in a handler has not ended the program. *)
Definition alive (c : context) : bool := match m_api_listener c with Some l => negb (Listener.l_dead l) | None => true end.

(** The steps of the teardown, of the listener's thread and clients, and of the workers. *)
Inductive tearing : tstate -> tstate -> Prop :=
  | tearing_own pc c w x : alive c = true -> teardown_step pc c w = Some x -> tearing (pc, c, w) x
  | tearing_listener pc c w l l' : alive c = true -> m_api_listener c = Some l ->
      Listener.activity has_backend backend_load backend_unload big mem l l' -> tearing (pc, c, w) (pc, set_listener (Some l') c, w)
  | tearing_pool pc c w p : alive c = true -> ThreadPool.working (m_thread_pool c) p -> tearing (pc, c, w) (pc, set_pool p c, w).
(** A task that is still running changes a backend; it does not make the socket. *)
Inductive disturbs : tstate -> tstate -> Prop :=
  | disturbs_backend pc c w id b b' w' : alive c = true -> m_backends c !! id = Some b ->
      sock_exists w' (Settings.m_api_sockfile (m_user_args c)) = sock_exists w (Settings.m_api_sockfile (m_user_args c)) ->
      disturbs (pc, c, w) (pc, set_backends (<[id := b']> (m_backends c)) c, w').
(** Those that bring the teardown to its end: its own, those of a worker in its loop, which
    ends the task it executes, and the return of the listener's thread. *)
Inductive advances : tstate -> tstate -> Prop :=
  | advances_own pc c w x : alive c = true -> teardown_step pc c w = Some x -> advances (pc, c, w) x
  | advances_listener pc c w l l' : alive c = true -> m_api_listener c = Some l -> Listener.returns l = Some l' ->
      advances (pc, c, w) (pc, set_listener (Some l') c, w)
  | advances_worker pc c w i p : alive c = true -> ThreadPool.runs i (m_thread_pool c) p -> advances (pc, c, w) (pc, set_pool p c, w).

Lemma advances_tearing x y : advances x y -> tearing x y.
Proof.
  intros [pc c w y' Ha E | pc c w l l' Ha Hl E | pc c w i p Ha Hr]; [by apply tearing_own | |].
  - eapply tearing_listener; [done | done | by apply Listener.thread_returns].
  - apply tearing_pool; [done |]. destruct Hr. by eapply ThreadPool.step_worker.
Qed.

Lemma advances_tearings x y : rtc advances x y -> rtc tearing x y.
Proof. intros Hr. induction Hr as [| x y z Hxy _ IH]; [apply rtc_refl |]. eapply rtc_l; [by apply advances_tearing | done]. Qed.

(** What holds of the parts when the teardown is at [pc]. *)
Definition pool_at (pc : teardown_pc) : ThreadPool.destroy_pc :=
  match pc with T_pool d => d | T_done => ThreadPool.D_end | _ => ThreadPool.D_done end.
Definition listener_at (pc : teardown_pc) (l : Listener.listener (S := S)) : Prop :=
  match pc with
  | T_listener Listener.S_join => Listener.m_thread l <> None /\ Listener.l_stopped l = true
  | T_listener Listener.S_end | T_socket | T_pool _ | T_done => Listener.m_thread l = None
  | _ => True
  end.
Definition socket_at (pc : teardown_pc) (sock : string) (w : W) : Prop :=
  match pc with T_pool _ | T_done => sock_exists w sock = false | _ => True end.
(** Why it was left early. *)
Definition reason (pc : teardown_pc) (s : Settings.settings) : Prop :=
  match pc with
  | T_unload_threw => exists b w x y, unload (Settings.m_results_dir s) (Settings.m_mount_dir s) b w = Some (inl x, y)
  | T_socket_threw => exists w w', remove_sockfile (Settings.m_api_sockfile s) w = (false, w')
  | T_crashed => exists b w, unload (Settings.m_results_dir s) (Settings.m_mount_dir s) b w = None
  | _ => True
  end.
Record tinv (s : Settings.settings) (pc : teardown_pc) (c : context) (w : W) : Prop := {
  ti_started : started_with s c;
  ti_pool : ThreadPool.destroying num_threads (pool_at pc) (m_thread_pool c);
  ti_listener l : m_api_listener c = Some l -> listener_at pc l;
  ti_socket : socket_at pc (Settings.m_api_sockfile s) w;
  ti_forced : pc = T_done -> m_forced_shutdown c = false;
  ti_reason : reason pc s }.

Lemma listener_at_activity pc l l' : Listener.activity has_backend backend_load backend_unload big mem l l' ->
  listener_at pc l -> listener_at pc l'.
Proof.
  intros (Ht & Hs)%Listener.activity_keeps. destruct pc as [| [] | | | | | |]; cbn; rewrite ?Hs; tauto.
Qed.

Lemma tinv_unload s c w x : tinv s T_unload c w -> teardown_step T_unload c w = Some x -> tinv s x.1.1 x.1.2 x.2.
Proof.
  intros [Hst Hp _ _ _ _] E. destruct (Hst) as [Ha Hl Hpi Hd Hne]. cbn in E. rewrite Ha in E.
  pose proof (first_backend_spec (m_backends c)) as Hf. destruct (first_backend (m_backends c)) as [[id b] |]; [| done].
  destruct Hf as [Hid _]. destruct (unload _ _ b w) as [[r [b' w']] |] eqn:Eu; injection E as <-; cbn; [| by split; cbn; try done; eauto].
  assert (Hst' : started_with s (set_backends (<[id := b']> (m_backends c)) c)).
  { constructor; cbn; try done; [by rewrite dom_insert_lookup_L by eauto | apply insert_non_empty]. }
  destruct r as [ex | code]; split; cbn; try done; eauto 6.
Qed.
Lemma tinv_listener s pl c w x : tinv s (T_listener pl) c w -> teardown_step (T_listener pl) c w = Some x -> tinv s x.1.1 x.1.2 x.2.
Proof.
  intros [Hst Hp Hl _ _ _] E. destruct (Hst) as [Ha [l El] Hpi Hd Hne]. cbn in E. rewrite El in E. specialize (Hl l El).
  assert (Hset : forall l', started_with s (set_listener (Some l') c)) by (intros l'; constructor; cbn; eauto).
  destruct pl; cbn in E.
  - destruct (Listener.m_thread l) as [t |] eqn:Et; injection E as <-; (split; cbn; [done | done | | done | done | done]);
      intros l' [= <-]; cbn; rewrite ?Et; first [done | by split].
  - destruct (Listener.m_thread l) as [[] |] eqn:Et; try done. injection E as <-. (split; cbn; [done | done | | done | done | done]).
    by intros l' [= <-].
  - injection E as <-. split; cbn; try done. intros l' El'. rewrite El in El'. by injection El' as <-.
Qed.
Lemma tinv_pool s pd c w x : tinv s (T_pool pd) c w -> teardown_step (T_pool pd) c w = Some x -> tinv s x.1.1 x.1.2 x.2.
Proof.
  intros [Hst Hp Hl Hs _ _] E. cbn in Hp.
  assert (Hset : forall pd' p', ThreadPool.destroying num_threads pd' p' -> started_with s (set_pool p' c)).
  { intros pd' p' [Hi _]. destruct Hst. by constructor. }
  assert (Hd : pd = ThreadPool.D_end \/ pd <> ThreadPool.D_end) by (destruct pd; (by left) || (by right)). destruct Hd as [-> | Hne].
  { injection E as <-. split; cbn; try done. destruct Hst. by constructor. }
  assert (E' : match ThreadPool.destroy_step pd (m_thread_pool c) with
    | Some (pc, p) => Some (T_pool pc, set_pool p c, w) | None => None end = Some x) by (by destruct pd).
  destruct (ThreadPool.destroy_step pd (m_thread_pool c)) as [[pd' p'] |] eqn:Ed; [| done]. injection E' as <-.
  pose proof (ThreadPool.destroying_step num_threads _ _ _ _ Ed Hp) as Hp'. split; cbn; try done. by eapply Hset.
Qed.

Lemma tinv_own s pc c w x : tinv s pc c w -> teardown_step pc c w = Some x -> tinv s x.1.1 x.1.2 x.2.
Proof.
  intros Hi E. destruct pc as [| pl | | pd | | | |]; try done.
  - by eapply tinv_unload.
  - by eapply tinv_listener.
  - destruct Hi as [Hst Hp Hl _ _ _]. cbn in E. rewrite (st_args _ _ Hst) in E.
    destruct (remove_sockfile _ w) as [[|] w'] eqn:Er; injection E as <-; split; cbn; try done; eauto.
    by eapply remove_sockfile_gone.
  - by eapply tinv_pool.
Qed.
Lemma tinv_tearing s x y : tearing x y -> tinv s x.1.1 x.1.2 x.2 -> tinv s y.1.1 y.1.2 y.2.
Proof.
  intros [pc c w y' _ E | pc c w l l' _ Hl Ha | pc c w p _ Hw] Hi; cbn in *; [by eapply tinv_own | |].
  - destruct Hi as [[] Hp Hli Hs Hf Hr]. split; cbn; try done.
    intros l0 [= <-]. eapply listener_at_activity; [done | by apply Hli].
  - destruct Hi as [[] Hp Hli Hs Hf Hr]. split; cbn; try done; [| by eapply ThreadPool.destroying_working].
    constructor; cbn; try done. by eapply ThreadPool.pool_working_inv.
Qed.
Lemma tinv_disturbs s x y : disturbs x y -> tinv s x.1.1 x.1.2 x.2 -> tinv s y.1.1 y.1.2 y.2.
Proof.
  intros [pc c w id b b' w' _ Hb Hw] [[] Hp Hli Hs Hf Hr]. cbn in *. split; cbn; try done.
  - constructor; cbn; try done; [by rewrite dom_insert_lookup_L by eauto | apply insert_non_empty].
  - unfold socket_at in *. destruct pc; try done; subst s; by rewrite Hw.
Qed.

(** *** It comes to an end *)

Definition ended (x : tstate) : Prop :=
  alive x.1.2 = false \/
  match x.1.1 with T_done | T_unload_threw | T_socket_threw | T_crashed => True | _ => False end.

Lemma pool_advances c w a b : alive c = true -> rtc ThreadPool.destroys a b ->
  rtc advances (T_pool a.1, set_pool a.2 c, w) (T_pool b.1, set_pool b.2 c, w).
Proof.
  intros Hc Hr. induction Hr as [a | a1 a2 a3 Hst _ IH]; [apply rtc_refl |]. eapply rtc_l; [| exact IH].
  destruct Hst as [pc p [pc' p'] E | pc p i p' Hrun]; cbn.
  - apply advances_own; [done |]. destruct pc; [| | | done]; cbn [teardown_step m_thread_pool set_pool]; by rewrite E.
  - by apply (advances_worker _ (set_pool p c) w i p').
Qed.
Lemma ends_pool s pd c w : alive c = true -> tinv s (T_pool pd) c w -> exists x, rtc advances (T_pool pd, c, w) x /\ ended x.
Proof.
  intros Hc Hi. destruct (ThreadPool.destroy_ends num_threads pd (m_thread_pool c)) as (p' & Hr); [apply Hi |].
  apply (pool_advances c w) in Hr; [| done]. cbn in Hr. replace (set_pool (m_thread_pool c) c) with c in Hr by (by destruct c).
  eexists. split; [eapply rtc_r; [exact Hr |]; by apply advances_own |]. by right.
Qed.
Lemma ends_socket s c w : alive c = true -> tinv s T_socket c w -> exists x, rtc advances (T_socket, c, w) x /\ ended x.
Proof.
  intros Hc Hi. destruct (teardown_step T_socket c w) as [x |] eqn:E; [| cbn in E; by destruct (remove_sockfile _ w) as [[] ?]].
  pose proof (tinv_own s _ _ _ _ Hi E) as Hi'. assert (Hst : advances (T_socket, c, w) x) by (by apply advances_own).
  cbn in E. destruct (remove_sockfile _ w) as [[] w']; injection E as <-.
  - destruct (ends_pool s _ _ _ Hc Hi') as (y & Hy & He). exists y. split; [by eapply rtc_l | done].
  - eexists. split; [by apply rtc_once |]. by right.
Qed.
(** An own step, after which the rest is known to end. *)
Lemma ends_own s pc c w pc' c' w' : alive c = true -> tinv s pc c w -> teardown_step pc c w = Some (pc', c', w') ->
  (tinv s pc' c' w' -> exists x, rtc advances (pc', c', w') x /\ ended x) -> exists x, rtc advances (pc, c, w) x /\ ended x.
Proof.
  intros Hc Hi E Hrest. destruct Hrest as (y & Hy & He); [exact (tinv_own s _ _ _ _ Hi E) |].
  exists y. split; [| done]. eapply rtc_l; [by apply advances_own | exact Hy].
Qed.
Lemma ends_stopped s c w l : alive c = true -> m_api_listener c = Some l -> tinv s (T_listener Listener.S_end) c w ->
  exists x, rtc advances (T_listener Listener.S_end, c, w) x /\ ended x.
Proof. intros Hc El Hi. eapply ends_own; [done | done | cbn; by rewrite El |]. by apply ends_socket. Qed.
Lemma ends_returned s c w l : alive c = true -> m_api_listener c = Some l -> Listener.m_thread l = Some Listener.Returned ->
  tinv s (T_listener Listener.S_join) c w -> exists x, rtc advances (T_listener Listener.S_join, c, w) x /\ ended x.
Proof.
  intros Hc El Et Hi. eapply ends_own; [done | done | cbn; by rewrite El, Et |]. eapply ends_stopped; [| done].
  unfold alive in *. rewrite El in Hc. exact Hc.
Qed.
Lemma ends_join s c w l : alive c = true -> m_api_listener c = Some l -> tinv s (T_listener Listener.S_join) c w ->
  exists x, rtc advances (T_listener Listener.S_join, c, w) x /\ ended x.
Proof.
  intros Hc El Hi. destruct (ti_listener _ _ _ _ Hi l El) as [Ht Hs]. destruct (Listener.m_thread l) as [[] |] eqn:Et; [| | done].
  - assert (Hd : Listener.l_dead l = false) by (unfold alive in Hc; rewrite El in Hc; by apply negb_true_iff).
    set (l' := Listener.set_thread (Some Listener.Returned) true l). pose proof (Listener.returns_stopped l Et Hs Hd) as Hr. fold l' in Hr.
    assert (Hst : advances (T_listener Listener.S_join, c, w) (T_listener Listener.S_join, set_listener (Some l') c, w)).
    { by apply (advances_listener _ c w l l'). }
    destruct (ends_returned s (set_listener (Some l') c) w l') as (y & Hy & He).
    + unfold alive. cbn. by rewrite Hd.
    + done.
    + done.
    + exact (tinv_tearing s _ _ (advances_tearing _ _ Hst) Hi).
    + exists y. split; [by eapply rtc_l | done].
  - by eapply ends_returned.
Qed.
Lemma ends_listener s pl c w : alive c = true -> tinv s (T_listener pl) c w -> exists x, rtc advances (T_listener pl, c, w) x /\ ended x.
Proof.
  intros Hc Hi. destruct (st_listener _ _ (ti_started _ _ _ _ Hi)) as [l El].
  destruct pl; [| by eapply ends_join | by eapply ends_stopped].
  assert (Hc' : forall l', Listener.l_dead l' = Listener.l_dead l -> alive (set_listener (Some l') c) = true).
  { intros l' E. unfold alive in *. rewrite El in Hc. cbn. by rewrite E. }
  destruct (Listener.m_thread l) as [t |] eqn:Et.
  - eapply ends_own; [done | done | cbn; by rewrite El, Et |]. eapply ends_join; [by apply Hc' | done].
  - eapply ends_own; [done | done | cbn; by rewrite El, Et |]. eapply ends_stopped; [by apply Hc' | done].
Qed.
Lemma tearing_ends s pc c w : tinv s pc c w -> exists x, rtc advances (pc, c, w) x /\ ended x.
Proof.
  intros Hi. destruct (alive c) eqn:Hc; [| exists (pc, c, w); split; [apply rtc_refl | by left]].
  destruct pc as [| pl | | pd | | | |]; try (by eexists; split; [apply rtc_refl | right]).
  - destruct (teardown_step T_unload c w) as [[[pc' c'] w'] |] eqn:E.
    2: { cbn in E. destruct (first_backend _) as [[]|]; [| done]. by destruct (unload _ _ _ _) as [[? []] |]. }
    eapply ends_own; [done | done | done |]. intros Hi'. cbn in E.
    destruct (first_backend _) as [[id b] |]; [| injection E as <- <- <-; by eexists; split; [apply rtc_refl | right]].
    destruct (unload _ _ b w) as [[[x | code] [b' w1]] |]; injection E as <- <- <-; try (by eexists; split; [apply rtc_refl | right]).
    by eapply ends_listener.
  - by eapply ends_listener.
  - by eapply ends_socket.
  - by eapply ends_pool.
Qed.

(** What is left of a context that was torn down. *)
Record torn_down (sock : string) (c' : context) (w' : W) : Prop := {
  td_listener : exists l, m_api_listener c' = Some l /\ Listener.m_thread l = None;
  td_socket : sock_exists w' sock = false;
  td_joined : Forall (eq ThreadPool.Exited) (ThreadPool.m_threads (m_thread_pool c'));
  td_forced : m_forced_shutdown c' = false }.
Lemma tinv_torn_down s c w : tinv s T_done c w -> torn_down (Settings.m_api_sockfile s) c w.
Proof.
  intros [Hst [_ Hp] Hl Hs Hf _]. destruct (st_listener _ _ Hst) as [l El]. constructor; [| done | apply Hp | by apply Hf].
  exists l. split; [done |]. by apply (Hl l).
Qed.
(** The teardown starts in a daemon that has served. *)
Lemma tinv_start s c w : started_with s c -> tinv s T_unload c w.
Proof. intros Hst. split; cbn; try done. split; [apply Hst | done]. Qed.
Lemma served_daemon s w0 w1 w c1 c : (forall ts m w, dom (imports ts m w).2.1 = dom m) ->
  efsng_init None s w0 = Initialized c1 w1 -> rtc serving (c1, w1) (c, w) ->
  started_with s c /\ sock_exists w1 (Settings.m_api_sockfile s) = true.
Proof.
  intros Hdom Ei Hr. unfold efsng_init in Ei. cbn [default] in Ei.
  destruct (context_initialize (context_new s) w0) as [c0 w0' | |] eqn:E; [| done | done]. injection Ei as -> ->.
  destruct (initialize_started s w0 c1 w1 Hdom E) as [Hs Hk]. split; [| done]. by apply (served_started s) in Hr; [cbn in Hr |].
Qed.

(** C19: A daemon that was initialised and has served is stopped by [efsng_destroy], whatever its
    other threads do meanwhile. The backend that is unloaded is the one of the configured
    backends with the smallest id. From every state of the teardown, in which the listener's
    thread, its clients, the workers and their tasks go on in any order, steps of the teardown,
    of the workers (a task that is executed ends) and the return of the listener's thread
    lead to an end: the teardown never waits in a [join] for good. When it is done, the
    listener's thread and all workers were joined and the socket is gone; it is left early
    only by an exception of the unloading or of the removal of the socket, by an unloading that
    crashes, or by an exception in a handler of the listener, which ends the program. *)
Theorem daemon_stops (s : Settings.settings) (w0 w1 w : W) (c1 c : context) :
  (forall ts m w, dom (imports ts m w).2.1 = dom m) ->
  efsng_init None s w0 = Initialized c1 w1 -> rtc serving (c1, w1) (c, w) ->
  sock_exists w1 (Settings.m_api_sockfile s) = true /\
  (exists id b, first_backend (m_backends c) = Some (id, b) /\ is_Some (configured s !! id) /\
    forall id', is_Some (configured s !! id') -> String.le id id') /\
  exists start, efsng_destroy (Some c) w = Some start /\
    forall pc' c' w', rtc (fun x y => tearing x y \/ disturbs x y) start (pc', c', w') ->
      (exists x, rtc advances (pc', c', w') x /\ ended x) /\
      match pc' with T_done => torn_down (Settings.m_api_sockfile s) c' w' | _ => reason pc' s end.
Proof.
  intros Hdom Ei Hr. destruct (served_daemon s w0 w1 w c1 c Hdom Ei Hr) as [Hs Hk]. split; [done |]. split.
  - pose proof Hs as [_ _ _ Hd Hne]. pose proof (first_backend_spec (m_backends c)) as Hf.
    destruct (first_backend (m_backends c)) as [[id b] |] eqn:Ef; [| done]. destruct Hf as [Hid Hmin].
    assert (Hiff : forall i, is_Some (m_backends c !! i) <-> is_Some (configured s !! i)) by (intros i; by rewrite <- !elem_of_dom, Hd).
    exists id, b. split; [done |]. split; [apply Hiff; eauto |]. intros i Hi. by apply Hmin, Hiff.
  - eexists. split; [reflexivity |]. intros pc' c' w' Hsteps.
    assert (Hi : tinv s pc' c' w').
    { apply (rtc_ind_r (fun x => tinv s x.1.1 x.1.2 x.2) (T_unload, c, w)) in Hsteps; [done | by apply tinv_start |].
      intros x y _ [Hst | Hst] Hx; [by eapply tinv_tearing | by eapply tinv_disturbs]. }
    split; [by eapply tearing_ends |]. destruct pc'; try apply Hi. by apply tinv_torn_down.
Qed.

(** *** With idle tasks, what is unloaded is what is left *)

Definition quiet (c0 : context) (w0 w1 w2 : W) (id : string) (b' : Bk) (x : tstate) : Prop :=
  m_user_args x.1.2 = m_user_args c0 /\
  match x.1.1 with
  | T_unload => m_backends x.1.2 = m_backends c0 /\ x.2 = w0
  | T_listener _ | T_socket => m_backends x.1.2 = <[id := b']> (m_backends c0) /\ x.2 = w1
  | T_pool _ | T_done => m_backends x.1.2 = <[id := b']> (m_backends c0) /\ x.2 = w2
  | T_unload_threw | T_socket_threw | T_crashed => False
  end.
Lemma quiet_tearing c0 w0 w1 w2 id b b' code x y :
  first_backend (m_backends c0) = Some (id, b) ->
  unload (Settings.m_results_dir (m_user_args c0)) (Settings.m_mount_dir (m_user_args c0)) b w0 = Some (inr code, (b', w1)) ->
  remove_sockfile (Settings.m_api_sockfile (m_user_args c0)) w1 = (true, w2) ->
  tearing x y -> quiet c0 w0 w1 w2 id b' x -> quiet c0 w0 w1 w2 id b' y.
Proof.
  intros Hf Hu Hr [pc c w y' _ E | pc c w l l' _ Hl Ha | pc c w p _ Hw] [Hargs Hq]; [| by split | by split]. cbn in Hargs, Hq.
  destruct pc as [| pl | | pd | | | |]; cbn in E; try done; destruct Hq as [Hb ->].
  - rewrite Hargs, Hb, Hf, Hu in E. by injection E as <-.
  - destruct (m_api_listener c) as [l |]; [| by injection E as <-].
    destruct pl; [| | by injection E as <-]; destruct (Listener.stop_step _ l) as [[] |]; try done; by injection E as <-.
  - rewrite Hargs, Hr in E. by injection E as <-.
  - destruct pd; [| | | by injection E as <-]; destruct (ThreadPool.destroy_step _ _) as [[] |]; try done; by injection E as <-.
Qed.

Lemma advances_alive x y : advances x y -> alive x.1.2 = true -> alive y.1.2 = true.
Proof.
  intros [pc c w y' _ E | pc c w l l' _ Hl Hr | pc c w i p _ Hw] Ha; cbn in *; [| | done].
  - destruct pc as [| pl | | pd | | | |]; cbn in E; try done.
    + destruct (first_backend _) as [[] |]; [| by injection E as <-]. destruct (unload _ _ _ _) as [[? []] |]; by injection E as <-.
    + unfold alive in *. destruct (m_api_listener c) as [l |] eqn:El; [| injection E as <-; cbn; by rewrite El].
      destruct pl; cbn in E; [destruct (Listener.m_thread l); injection E as <-; done
        | destruct (Listener.m_thread l) as [[] |]; try done; injection E as <-; done | injection E as <-; cbn; by rewrite El].
    + destruct (remove_sockfile _ w) as [[] ?]; by injection E as <-.
    + destruct pd; [| | | by injection E as <-]; destruct (ThreadPool.destroy_step _ _) as [[] |]; try done; by injection E as <-.
  - unfold alive in *. rewrite Hl in Ha. cbn. unfold Listener.returns in Hr. destruct (Listener.m_thread l) as [[] |]; try done.
    destruct (Listener.l_stopped l && _); [| done]. by injection Hr as <-.
Qed.

Lemma quiet_teardown s c w id b code b' w1 w2 : started_with s c -> alive c = true -> first_backend (m_backends c) = Some (id, b) ->
  unload (Settings.m_results_dir s) (Settings.m_mount_dir s) b w = Some (inr code, (b', w1)) ->
  remove_sockfile (Settings.m_api_sockfile s) w1 = (true, w2) ->
  (exists c', rtc advances (T_unload, c, w) (T_done, c', w2)) /\
  forall c' w', rtc tearing (T_unload, c, w) (T_done, c', w') ->
    w' = w2 /\ m_backends c' = <[id := b']> (m_backends c) /\ torn_down (Settings.m_api_sockfile s) c' w'.
Proof.
  intros Hst Hc Hf Hu Hr. rewrite <- (st_args _ _ Hst) in Hu, Hr.
  assert (Hq : forall x, rtc tearing (T_unload, c, w) x -> quiet c w w1 w2 id b' x /\ tinv s x.1.1 x.1.2 x.2).
  { intros x Hx. apply (rtc_ind_r (fun x => quiet c w w1 w2 id b' x /\ tinv s x.1.1 x.1.2 x.2) (T_unload, c, w)) in Hx; [done | |].
    - split; [done | by apply tinv_start].
    - intros y z _ Hyz [Hqy Hiy]. split; [by eapply quiet_tearing | by eapply tinv_tearing]. }
  split.
  - destruct (tearing_ends s T_unload c w (tinv_start s c w Hst)) as ([[pc' c'] w'] & Hx & He).
    assert (Ha : alive c' = true).
    { clear -Hx Hc. change (alive (T_unload, c, w).1.2 = true) in Hc. change (alive (pc', c', w').1.2 = true).
      induction Hx as [| x y z Hxy _ IH]; [done |]. apply IH. by eapply advances_alive. }
    destruct (Hq (pc', c', w')) as [Hquiet _]; [by apply advances_tearings |].
    destruct He as [He | He]; cbn in He; [congruence |]. destruct pc', Hquiet as [_ Hw]; cbn in Hw; try done.
    destruct Hw as [_ ->]. eauto.
  - intros c' w' Hx. destruct (Hq _ Hx) as [[_ [Hb Hw]] Hi]. cbn in *. split; [done |]. split; [done |].
    subst. by apply tinv_torn_down.
Qed.

(** An exception of the unloading ends the teardown with the listener still running and the
    socket still there. *)
Theorem unload_exception_leaves_listener (c : context) (w w' : W) (id : string) (b b' : Bk) (x : Segment.exn) :
  first_backend (m_backends c) = Some (id, b) ->
  unload (Settings.m_results_dir (m_user_args c)) (Settings.m_mount_dir (m_user_args c)) b w = Some (inl x, (b', w')) ->
  exists c', teardown_step T_unload c w = Some (T_unload_threw, c', w') /\ m_api_listener c' = m_api_listener c /\
    m_thread_pool c' = m_thread_pool c.
Proof. intros Hf Hu. cbn. rewrite Hf, Hu. by eexists. Qed.

End Process.
Arguments context : clear implicits.

(** ** With the NVML backend *)

#[export] Instance env_sockets {W} `{SK : Sockets W} : Sockets (Segment.env W).
Proof.
  refine {| sock_exists e p := sock_exists (Segment.e_world e) p;
            sock_remove e p := let '(ok, w) := sock_remove (Segment.e_world e) p in (ok, Segment.Env (Segment.e_mem e) (Segment.e_maps e) w);
            sock_bind e p := let '(ok, w) := sock_bind (Segment.e_world e) p in (ok, Segment.Env (Segment.e_mem e) (Segment.e_maps e) w) |}.
  - intros e p e' E. destruct (sock_remove (Segment.e_world e) p) as [ok w] eqn:Er. injection E as -> <-. by eapply sock_removed.
  - intros e p e' E. destruct (sock_bind (Segment.e_world e) p) as [ok w] eqn:Er. injection E as -> <-. by eapply sock_bound.
  - intros e p E. apply sock_in_use in E. by destruct (sock_bind (Segment.e_world e) p) as [ok w].
Defined.

Section Nvml.
Import Namespace NamespaceSpec Fuse FuseSpec NvmlUnload.
Context {W L S T : Type} `{KN : FuseBuf.Kernel W} `{SR : Segment.Sources W} `{ST : Segment.Storage W} `{SL : !Segment.StorageLaws W}.
Context `{RM : RangeMutex.RangeMutex L} `{FL : !NvmlFile.FuseLib W} `{HO : Host} `{RS : Results W} `{RL : !ResultsLaws W}.
Context `{SK : Sockets W} `{DB : Startup.Doubles} `{PB : Api.Protobuf}.
Variable J : Z.
Hypothesis J_range : 12 <= J <= 60.
Variables (local_buf now : Z) (have_splice : bool) (memalign_ok : Z -> bool) (pool_subdir : string -> string).
Variable bufvec_size : FuseBuf.fuse_bufvec -> Z.
Hypothesis bufvec_size_ok : forall v, FuseBuf.vec_ok v -> FuseBuf.v_idx v = O -> FuseBuf.v_off v = 0 ->
  bufvec_size v = Z.of_nat (length (FuseBuf.remaining v)).
Abbreviation object := (NvmlFuse.object (L := L)).
Abbreviation fsys := (filesystem (Segment.env W) object).
Abbreviation nvml := (backend object).
#[local] Instance daemon_file : BackendFile object := NvmlFuse.nvml_backend_file pool_subdir Lifecycle.no_source.
#[local] Instance daemon_data : FileData (Segment.env W) object NvmlFuse.buffer :=
  NvmlFuse.nvml_file_data J local_buf have_splice memalign_ok now bufvec_size.
Abbreviation lives := (Lifecycle.lives J local_buf have_splice memalign_ok now pool_subdir bufvec_size).

(** The order in which the table of files is traversed. *)
Variable traversal : nvml -> list (string * positive).
Hypothesis traversal_all : forall b, traversal b ≡ₚ map_to_list (m_files b).
(** [nvml_backend::unload] *)
Definition nvml_unload (results_dir mount_dir : string) (b : nvml) (e : Segment.env W)
    : option ((Segment.exn + Errors.error_code) * (nvml * Segment.env W)) :=
  match unload_all J results_dir (traversal b) (b_heap b) e with
  | Some (r, (h, e)) => Some (r, (set_heap h (b_next b) b, e))
  | None => None
  end.

Variable construct : Startup.backend_spec -> option nvml.
Variable imports : list Startup.load_task -> gmap string nvml -> Segment.env W -> list Errors.error_code * (gmap string nvml * Segment.env W).
Variables (logger_ok : string * string -> bool) (num_threads : nat) (store : S) (has_backend : string -> bool).
Variables (backend_load backend_unload : string -> string -> S -> Errors.error_code * S) (big : bool) (mem : Api.request).
Abbreviation ctx := (context nvml S T).

(** Removing the socket leaves the other files of the host alone. *)
Definition removes_only (sock : string) : Prop :=
  forall w q, (sock_remove (W := W) w sock).1 = true /\ (q <> components sock -> out_file (sock_remove w sock).2 q = out_file w q).
Lemma remove_sockfile_ok sock (e : Segment.env W) : removes_only sock -> exists e', remove_sockfile sock e = (true, e') /\
  forall q, q <> components sock -> out_file (Segment.e_world e') q = out_file (Segment.e_world e) q.
Proof.
  intros Hs. unfold remove_sockfile. cbn [sock_exists sock_remove env_sockets]. destruct (sock_exists (Segment.e_world e) sock); [| by exists e].
  destruct (sock_remove (Segment.e_world e) sock) as [ok w] eqn:E. destruct (Hs (Segment.e_world e) []) as [Hok _]. rewrite E in Hok. cbn in Hok. subst ok.
  eexists. split; [reflexivity |]. intros q Hq. destruct (Hs (Segment.e_world e) q) as [_ Hf]. rewrite E in Hf. by apply Hf.
Qed.

(** C18: The end of the daemon. A daemon was initialised and has served, no handler of its
    listener has ended it, and the backend with the smallest id has the state of a file
    system that requests ([NvmlFuse.pkernel]), imports, changes of type and destructors have led
    to from an empty one on storage that does not fail. The results directory ends with a slash,
    the paths below it are shorter than [PATH_MAX], the file system of the host is in order
    ([host_ok]) and has nothing in the way of the copies ([clear]), and the socket can be removed
    without touching other files. Then the teardown, during which no task works on a backend,
    can come to its end, and whenever it does, the listener's thread and the workers
    were joined, the socket is gone, and below the results directory the host has, at the path
    of every persistent file, exactly the bytes of the file; temporary files are not copied. *)
Theorem daemon_saves (cfg : Settings.settings) (e0 e1 : Segment.env W) (c1 c : ctx) (s0 s : fsys) (id : string) :
  let dir := Settings.m_results_dir cfg in
  let sock := Settings.m_api_sockfile cfg in
  Segment.sto_reliable (W := W) -> (forall ts m e, dom (imports ts m e).2.1 = dom m) ->
  efsng_init construct imports logger_ok num_threads store None cfg e0 = Initialized c1 e1 ->
  rtc (serving has_backend backend_load backend_unload big mem) (c1, e1) (c, fs_data s) ->
  alive c = true -> first_backend (m_backends c) = Some (id, fs_backend s) ->
  mounted s0 -> NvmlSpec.stored (fs_data s0) -> lives Lifecycle.any_event s0 s ->
  ends_slash dir = true ->
  (forall key i, m_files (fs_backend s) !! key = Some i -> Z.of_nat (String.length dir + String.length key) < PATH_MAX) ->
  host_ok (Segment.e_world (fs_data s)) -> clear (Segment.e_world (fs_data s)) dir (traversal (fs_backend s)).*1 -> removes_only sock ->
  exists start, efsng_destroy (Some c) (fs_data s) = Some start /\
    (exists c' e, rtc (advances nvml_unload) start (T_done, c', e)) /\
    forall c' e, rtc (tearing nvml_unload has_backend backend_load backend_unload big mem) start (T_done, c', e) ->
      torn_down sock c' e /\
      forall p i o, m_files (fs_backend s) !! p = Some i -> b_heap (fs_backend s) !! i = Some o ->
        components dir ++ components p <> components sock ->
        out_file (Segment.e_world e) (components dir ++ components p) =
        match NvmlFile.m_type (NvmlFuse.o_file o) with
        | NvmlFile.persistent => Some (NvmlSpec.contents (NvmlFuse.o_file o) (fs_data s))
        | NvmlFile.temporary => out_file (Segment.e_world (fs_data s)) (components dir ++ components p)
        end.
Proof.
  intros dir sock Hrel Hdom Ei Hr Ha Hf Hm Hst Hl Hd Hlen Hw Hc Hs.
  assert (Hsound : NvmlFuse.sound s) by (eapply (Lifecycle.lives_sound J J_range); eauto; by apply NvmlFuse.mounted_sound).
  destruct (unload_result J pool_subdir Lifecycle.no_source s dir (traversal (fs_backend s)) Hsound (traversal_all _) Hd Hlen Hw Hc)
    as (h & e & Eu & _ & _ & Hcp & _).
  destruct (remove_sockfile_ok sock e Hs) as (e' & Er & He').
  destruct (served_daemon construct imports logger_ok num_threads store has_backend backend_load backend_unload big mem
    cfg e0 e1 (fs_data s) c1 c Hdom Ei Hr) as [Hstd _].
  destruct (quiet_teardown construct nvml_unload logger_ok num_threads has_backend backend_load backend_unload big mem
    cfg c (fs_data s) id (fs_backend s) Errors.success
    (set_heap h (b_next (fs_backend s)) (fs_backend s)) e e' Hstd Ha Hf) as [(c' & Hend) Hall].
  { unfold nvml_unload. fold dir. by rewrite Eu. }
  { exact Er. }
  eexists. split; [reflexivity |]. split; [by exists c', e' |]. intros c2 e2 H2. destruct (Hall c2 e2 H2) as (-> & _ & Htd).
  split; [exact Htd |]. intros p i o Hp Ho Hne. rewrite He' by done. exact (Hcp p i o Hp Ho).
Qed.

End Nvml.

(** ** A concrete daemon: one backend, into which [/data/a/y] is imported *)

Import Namespace Fuse NvmlUnload.
#[local] Existing Instances RangeMutex.lock_manager_mutex Segment.machine_kernel Segment.machine_pmem Segment.machine_sources
  Segment.nvml_storage Segment.nvml_laws NvmlFile.machine_fuse machine_results machine_results_laws Api.codec.
Abbreviation mach := Segment.machine.
Abbreviation cnvml := (backend NvmlFuse.cobj).
Definition set_host (h : gmap (list string) (option (list Z))) (w : mach) : mach :=
  Segment.Machine (Segment.k_next w) (Segment.k_reads w) (Segment.k_stat w) h.
#[export] Instance machine_sockets : Sockets mach.
Proof.
  refine {| sock_exists w p := bool_decide (is_Some (Segment.k_host w !! components p));
            sock_remove w p := (true, set_host (delete (components p) (Segment.k_host w)) w);
            sock_bind w p := if decide (is_Some (Segment.k_host w !! components p)) then (false, w)
                             else (true, set_host (<[components p := Some []]> (Segment.k_host w)) w) |}.
  - intros w p w' [= <-]. cbn. by rewrite lookup_delete_eq.
  - intros w p w'. destruct (decide _) as [? | Hn]; [done |]. intros [= <-]. cbn. by rewrite lookup_insert_eq.
  - intros w p Hb%bool_decide_eq_true. by rewrite decide_True.
Defined.
#[local] Instance machine_doubles : Startup.Doubles := {| Startup.stod s := Some (Z.of_nat (String.length s)); Startup.scale := Z.mul; Startup.to_int64 := Some |}.

Definition cfg : Settings.settings :=
  Settings.Build "echofs" false false "/data/" "/mnt/" "out/" "none" "none" 1 (128 * 1024) "/tmp/sock"
    {["nvml://" := Settings.BackendOptions "nvml://" "NVRAM-NVML" 12000000 "/data/" "/mnt/" "out/" {["daxfs" := "/tmp"]}]} [] 0 [].
Definition make_nvml (b : Startup.backend_spec) : option cnvml := Some (fs_backend NvmlFuse.fs0).
Definition no_imports (ts : list Startup.load_task) (m : gmap string cnvml) (e : Segment.env mach) : list Errors.error_code * (gmap string cnvml * Segment.env mach) :=
  ([], (m, e)).
Definition always (_ : string * string) : bool := true.
Definition files_of (b : cnvml) : list (string * positive) := map_to_list (m_files b).
Definition ready : context cnvml unit nat :=
  Context cfg (Some (Listener.run (Listener.listener_new (Api.initial tt)))) {["nvml://" := fs_backend NvmlFuse.fs0]} (ThreadPool.pool_new 2) false.
Definition ready_env : Segment.env mach := (sock_bind (fs_data NvmlFuse.fs0) "/tmp/sock").2.
Definition with_y : context cnvml unit nat := set_backends (<["nvml://" := fs_backend Lifecycle.imported]> (m_backends ready)) ready.

Lemma ready_init : efsng_init make_nvml no_imports always 2 tt None cfg (fs_data NvmlFuse.fs0) = Initialized ready ready_env.
Proof.
  unfold efsng_init, context_initialize. cbn [default m_user_args m_backends context_new negb always]. rewrite Startup.setup_backends_exact.
  replace (existsb _ _) with false by (by vm_compute).
  assert (E : omap (Startup.backend_of_entry make_nvml) (Settings.m_backend_opts cfg) = {["nvml://" := fs_backend NvmlFuse.fs0]}).
  { unfold cfg. cbn [Settings.m_backend_opts]. by rewrite <- insert_empty, (omap_insert_Some _ _ _ _ (fs_backend NvmlFuse.fs0)), omap_empty, insert_empty. }
  rewrite E, bool_decide_false by apply insert_non_empty. done.
Qed.
Lemma ready_serves : rtc (serving Api.demo_has Api.demo_op Api.demo_op false Api.demo_mem) (ready, ready_env) (with_y, fs_data Lifecycle.imported).
Proof. apply rtc_once. apply serving_backend with (fs_backend NvmlFuse.fs0). apply lookup_insert_eq. Qed.
Lemma first_of_one {X} (k : string) (b : X) : first_backend {[k := b]} = Some (k, b).
Proof. unfold first_backend. by rewrite map_to_list_singleton. Qed.
Lemma with_y_first : first_backend (m_backends with_y) = Some ("nvml://", fs_backend Lifecycle.imported).
Proof. unfold with_y. cbn [m_backends set_backends ready]. rewrite insert_singleton_eq. apply first_of_one. Qed.

Abbreviation demo_unload := (nvml_unload 27 files_of).
Lemma daemon_stops_witness : sock_exists ready_env "/tmp/sock" = true /\
  exists x, rtc (advances demo_unload) (T_unload, with_y, fs_data Lifecycle.imported) x /\ ended x /\
    forall c' w', x = (T_done, c', w') -> torn_down "/tmp/sock" c' w'.
Proof.
  destruct (daemon_stops make_nvml no_imports demo_unload always 2 tt Api.demo_has Api.demo_op Api.demo_op false Api.demo_mem
    cfg (fs_data NvmlFuse.fs0) ready_env (fs_data Lifecycle.imported) ready with_y (fun _ _ _ => eq_refl) ready_init ready_serves)
    as (Hs & _ & start & [= <-] & Hall). split; [exact Hs |].
  destruct (proj1 (Hall _ _ _ (rtc_refl _ _))) as (x & Hx & He). exists x. split; [exact Hx |]. split; [exact He |].
  intros c' w' ->. refine (proj2 (Hall T_done c' w' _)).
  apply (advances_tearings demo_unload Api.demo_has Api.demo_op Api.demo_op false Api.demo_mem) in Hx.
  clear -Hx. induction Hx as [| x y z Hxy _ IH]; [apply rtc_refl |]. eapply rtc_l; [left; exact Hxy | exact IH].
Defined.

Lemma imported_files : map_to_list (m_files (fs_backend Lifecycle.imported)) = [("/a/y", 1%positive)].
Proof. by vm_compute. Qed.
Lemma imported_host : Segment.k_host (Segment.e_world (fs_data Lifecycle.imported)) = ∅.
Proof. by vm_compute. Qed.
Definition saved_at (i : positive) : option (option (list Z)) :=
  (fun o : NvmlFuse.cobj => copy_of (NvmlFuse.o_file o) (fs_data Lifecycle.imported)) <$> b_heap (fs_backend Lifecycle.imported) !! i.
Lemma imported_saved : saved_at 1%positive = Some (Some [7; 8; 9]).
Proof. by vm_compute. Qed.
Lemma machine_removes_only : removes_only (W := mach) "/tmp/sock".
Proof. intros w q. split; [done |]. intros Hq. cbn. by rewrite lookup_delete_ne. Qed.

Lemma daemon_saves_witness : exists c' e, rtc (advances demo_unload) (T_unload, with_y, fs_data Lifecycle.imported) (T_done, c', e) /\
  sock_exists e "/tmp/sock" = false /\ out_file (Segment.e_world e) ["out"; "a"; "y"] = Some [7; 8; 9].
Proof.
  destruct (proj1 (fmap_Some _ _ _) imported_saved) as (o & Ho & Hv).
  destruct (daemon_saves (W := mach) (SL := Segment.nvml_laws) 27 ltac:(lia) 0 0 true NvmlSpec.can_alloc NvmlFuse.subdir_of NvmlFuse.vec_size NvmlFuse.vec_size_ok
    files_of (fun _ => reflexivity _) make_nvml no_imports always 2 tt Api.demo_has Api.demo_op Api.demo_op false Api.demo_mem
    cfg (fs_data NvmlFuse.fs0) ready_env ready with_y NvmlFuse.fs0 Lifecycle.imported "nvml://"
    NvmlSpec.machine_reliable (fun _ _ _ => eq_refl) ready_init ready_serves eq_refl with_y_first NvmlFuse.fs0_mounted I Lifecycle.imported_lives eq_refl)
    as (start & [= <-] & (c' & e & Hadv) & Hall).
  - intros key i Hk. apply elem_of_map_to_list in Hk. rewrite imported_files in Hk.
    apply elem_of_cons in Hk as [[= -> ->] | []%not_elem_of_nil]. by vm_compute.
  - apply (empty_host _ "out/" (files_of (fs_backend Lifecycle.imported)).*1 imported_host).
  - apply (empty_host _ "out/" (files_of (fs_backend Lifecycle.imported)).*1 imported_host).
  - apply machine_removes_only.
  - exists c', e. split; [exact Hadv |].
    destruct (Hall c' e) as [Htd Hcp].
    { by apply advances_tearings. }
    split; [exact (td_socket _ _ _ Htd) |].
    refine (eq_trans (Hcp "/a/y" 1%positive o _ Ho _) _); [by vm_compute | by vm_compute |].
    unfold copy_of in Hv. by destruct (NvmlFile.m_type _).
Defined.

End Daemon.
